(** * Project Sentinel: triage engine, action executor, limiter and redactor

    A shallow embedding of the TypeScript sources of the fraud-triage
    back end, and the properties of its specification checked against it.

    Conventions.
    - JavaScript numbers that the code only ever builds from integer
      fields (cents, counters, millisecond clocks) are [Z]; numbers that
      come out of a division or a multiplication by a decimal constant
      and are only compared are exact rationals [Q]: every such
      comparison is with an integer literal, where the rational and the
      double agree.  A product that is returned as it is ([score * 0.7])
      is the rational value of the rounded double.
    - Strings are sequences of 8-bit code units ([string] / [list ascii]).
    - A JavaScript object used as a dictionary is a [gmap string _].
    - An [async] function that may throw returns an [option] or a sum. *)

From Stdlib Require Import ZArith QArith Qround Ascii String List Bool Lia.
From Stdlib Require Import DecimalString Sorted.
From stdpp Require Import base option list gmap strings sorting.

Local Open Scope Z_scope.

(* ===================================================================== *)
(** ** Small pieces of the JavaScript runtime used by the sources *)
(* ===================================================================== *)

Module Js.

(** [Math.round]: nearest integer, ties towards +infinity. *)
Definition Math_round (x : Q) : Z := Qfloor (x + (1 # 2))%Q.

(** [Math.ceil (a / d)] for integers [a] and a positive integer [d]. *)
Definition ceil_div (a d : Z) : Z := - ((- a) / d).

(** [a > b] on rationals. *)
Definition Qgtb (a b : Q) : bool := negb (Qle_bool a b).

Definition Qmin (a b : Q) : Q := if Qle_bool a b then a else b.

(** The double nearest to [n * 2^e], ties to even, where the result is
    in the normal range: the 53 leading bits of [n], rounded. *)
Definition round_to_double (n e : Z) : Q :=
  let a := Z.abs n in
  let shift := Z.log2 a + 1 - 53 in
  let q :=
    if shift <=? 0 then a
    else
      let lo := a mod 2 ^ shift in
      let hi := a / 2 ^ shift in
      let half := 2 ^ (shift - 1) in
      let up := (half <? lo) || ((lo =? half) && Z.odd hi) in
      (if up then hi + 1 else hi) * 2 ^ shift in
  let v := Z.sgn n * q in
  if 0 <=? e then inject_Z (v * 2 ^ e) else Qmake v (Z.to_pos (2 ^ (- e))).

(** [s * 0.7] for an integer [s]: the literal is the double
    3152519739159347 / 2^52, and the product is rounded once. *)
Definition times_0_7 (s : Z) : Q :=
  round_to_double (s * 3152519739159347) (-52).

(** 30 * 0.7 is 21, and 90 * 0.7 is the double just below 63. *)
Example times_0_7_samples :
  Qred (times_0_7 30) = 21%Q
  /\ Qred (times_0_7 90) = Qmake 8866461766385663 140737488355328
  /\ (times_0_7 90 < 63)%Q.
Proof. repeat split. Qed.

(** Decimal rendering of an integer inside a template string. *)
Definition string_of_Z (z : Z) : string :=
  NilZero.string_of_int (Z.to_int z).

Lemma Qgtb_spec a b : Qgtb a b = true <-> (b < a)%Q.
Proof.
  unfold Qgtb. rewrite negb_true_iff.
  split.
  - intros H. apply Qnot_le_lt. intros Hle.
    apply Qle_bool_iff in Hle. congruence.
  - intros H. destruct (Qle_bool a b) eqn:E; [|reflexivity].
    apply Qle_bool_iff in E. exfalso. apply (Qlt_not_le _ _ H E).
Qed.

Lemma ceil_div_ge a d : 0 < d -> a <= ceil_div a d * d.
Proof.
  intros Hd. unfold ceil_div.
  pose proof (Z.mul_div_le (- a) d Hd). nia.
Qed.

Lemma ceil_div_mono a b d : 0 < d -> a <= b -> ceil_div a d <= ceil_div b d.
Proof.
  intros Hd Hab. unfold ceil_div.
  assert ((- b) / d <= (- a) / d) by (apply Z.div_le_mono; lia). lia.
Qed.

Lemma ceil_div_exact k d : 0 < d -> ceil_div (k * d) d = k.
Proof.
  intros Hd. unfold ceil_div.
  replace (- (k * d)) with ((- k) * d) by ring.
  rewrite Z.div_mul by lia. lia.
Qed.

End Js.

(* ===================================================================== *)
(** ** unnamed/part_006 (the insights agent) : the Decide step *)
(* ===================================================================== *)

Module Insights.
Import Js.

Inductive RiskTier := tier_low | tier_medium | tier_high.
Inductive RiskLevel := low | medium | high.
Inductive TransactionPattern :=
  regular | concentrated | high_frequency | high_value.

(** The two fields of a transaction row that the agent reads. *)
Record Txn := { merchant : string; amountCents : Z }.

Record CustomerProfile := {
  riskTier : RiskTier;
  transactionPattern : TransactionPattern;
  historicalIncidents : Z
}.

(** What [generateRiskAssessment] reads of [riskSignals]: the [score]
    and [reasons] properties, either of which may be [undefined]. *)
Record RiskSignals := {
  score : option Z;
  reasons : option (list string)
}.

Record RiskAssessment := {
  level : RiskLevel;
  confidence : Z;
  keyFactors : list string
}.

Definition sumCents (transactions : list Txn) : Z :=
  foldl (fun sum txn => sum + amountCents txn) 0 transactions.

Definition uniqueMerchants (transactions : list Txn) : nat :=
  size (list_to_set (merchant <$> transactions) : gset string).

(** [analyzeCustomerProfile(profile, transactions)].  The [profile]
    argument is never read by the source. *)
Definition analyzeCustomerProfile (transactions : list Txn) : CustomerProfile :=
  let historicalIncidents := 0 in
  if (length transactions =? 0)%nat then
    {| riskTier := tier_low; transactionPattern := regular;
       historicalIncidents := historicalIncidents |}
  else
    let n := Z.of_nat (length transactions) in
    let avgAmount := (inject_Z (sumCents transactions) / inject_Z n)%Q in
    let totalAmount := sumCents transactions in
    let riskTier :=
      if (totalAmount >? 500000) || Qgtb avgAmount (inject_Z 50000)
      then tier_high
      else if (totalAmount >? 200000) || Qgtb avgAmount (inject_Z 20000)
      then tier_medium
      else tier_low in
    let transactionPattern :=
      if (uniqueMerchants transactions <? 3)%nat
         && (10 <? length transactions)%nat then concentrated
      else if (50 <? length transactions)%nat then high_frequency
      else if Qgtb avgAmount (inject_Z 30000) then high_value
      else regular in
    {| riskTier := riskTier; transactionPattern := transactionPattern;
       historicalIncidents := historicalIncidents |}.

Definition extractKeyFactors (riskSignals : RiskSignals)
    (customerProfile : CustomerProfile) : list string :=
  let factors := match reasons riskSignals with
                 | Some rs => take 3 rs
                 | None => []
                 end in
  let factors := match riskTier customerProfile with
                 | tier_high => factors ++ ["High-value customer profile"]
                 | _ => factors
                 end in
  let factors := match transactionPattern customerProfile with
                 | concentrated => factors ++ ["Limited merchant diversity"]
                 | high_frequency => factors ++ ["High transaction frequency"]
                 | _ => factors
                 end in
  let factors := if historicalIncidents customerProfile >? 0
                 then factors ++
                      [string_of_Z (historicalIncidents customerProfile)
                         +:+ " previous incident(s)"]
                 else factors in
  take 5 factors.

(** [generateRiskAssessment(riskSignals, customerProfile)]. *)
Definition generateRiskAssessment (riskSignals : RiskSignals)
    (customerProfile : CustomerProfile) : RiskAssessment :=
  (* riskSignals.score || 30 : undefined and 0 are both falsy *)
  let score := match score riskSignals with
               | Some 0 | None => 30
               | Some s => s
               end in
  let level := if score >=? 80 then high
               else if score >=? 50 then medium
               else low in
  let level := match riskTier customerProfile, level with
               | tier_high, medium => high
               | _, l => l
               end in
  let confidence := 70 in
  let confidence :=
    match reasons riskSignals with
    | Some rs => if (3 <? length rs)%nat then confidence + 15 else confidence
    | None => confidence
    end in
  let confidence :=
    if historicalIncidents customerProfile =? 0
    then confidence + 10 else confidence in
  let confidence :=
    match transactionPattern customerProfile with
    | regular => confidence + 5
    | _ => confidence
    end in
  {| level := level;
     confidence := Z.min confidence 95;
     keyFactors := extractKeyFactors riskSignals customerProfile |}.

(** The two calls as [generateInsights] chains them. *)
Definition assess (riskSignals : RiskSignals) (transactions : list Txn)
    : RiskAssessment :=
  generateRiskAssessment riskSignals (analyzeCustomerProfile transactions).

Lemma analyzeCustomerProfile_incidents transactions :
  historicalIncidents (analyzeCustomerProfile transactions) = 0.
Proof.
  unfold analyzeCustomerProfile.
  destruct (length transactions =? 0)%nat; reflexivity.
Qed.

(** C10.  Whatever the context supplies as risk signals and recent
    transactions, the Decide step's confidence is between 80 and 95:
    the profile analysis always reports zero historical incidents, so
    the +10 bonus is always added to the base of 70. *)
Theorem decide_confidence_range (riskSignals : RiskSignals)
    (transactions : list Txn) :
  80 <= confidence (assess riskSignals transactions) <= 95
  /\ historicalIncidents (analyzeCustomerProfile transactions) = 0.
Proof.
  split; [|apply analyzeCustomerProfile_incidents].
  unfold assess, generateRiskAssessment.
  rewrite analyzeCustomerProfile_incidents. cbn [confidence Z.eqb].
  destruct (reasons riskSignals) as [rs|];
    [destruct (3 <? length rs)%nat|];
    destruct (transactionPattern (analyzeCustomerProfile transactions));
    lia.
Qed.

(** The three values the confidence can take, each of them reached. *)
Lemma decide_confidence_values (riskSignals : RiskSignals)
    (transactions : list Txn) :
  confidence (assess riskSignals transactions) ∈ [80; 85; 95].
Proof.
  unfold assess, generateRiskAssessment.
  rewrite analyzeCustomerProfile_incidents. cbn [confidence Z.eqb].
  destruct (reasons riskSignals) as [rs|];
    [destruct (3 <? length rs)%nat|];
    destruct (transactionPattern (analyzeCustomerProfile transactions));
    cbn; set_solver.
Qed.

Example decide_confidence_floor :
  confidence (assess {| score := None; reasons := None |}
                [ {| merchant := "m"; amountCents := 4000000 |} ]) = 80.
Proof. vm_compute. reflexivity. Qed.

End Insights.

(* ===================================================================== *)
(** ** Regular expressions, as far as the sources use them

    A backtracking matcher with the priority order of the JavaScript
    engine: alternatives left to right, quantifiers greedy.  Only the
    constructs that occur in the patterns of the sources are present;
    quantifiers are applied to character classes only, which is all the
    patterns need and makes the matcher structurally recursive. *)
(* ===================================================================== *)

Module Regex.

(** A character class: a union of inclusive code-unit ranges. *)
Definition cset := list (nat * nat).

Definition in_cset (c : ascii) (cs : cset) : bool :=
  existsb (fun r => (fst r <=? nat_of_ascii c)%nat
                    && (nat_of_ascii c <=? snd r)%nat) cs.

Definition ch (c : ascii) : cset := [(nat_of_ascii c, nat_of_ascii c)].
Definition rng (a b : ascii) : cset := [(nat_of_ascii a, nat_of_ascii b)].

Definition digit : cset := rng "0" "9".
Definition upper : cset := rng "A" "Z".
Definition lower : cset := rng "a" "z".
(** [\w] *)
Definition word : cset := upper ++ lower ++ digit ++ ch "_".
(** [\s] restricted to 8-bit code units: TAB, LF, VT, FF, CR, space, NBSP. *)
Definition space : cset := [(9, 13); (32, 32); (160, 160)]%nat.

Inductive re :=
| Eps
| Chr (cs : cset)
| Seq (r1 r2 : re)
| Alt (r1 r2 : re)
| Rep (min : nat) (max : option nat) (cs : cset)   (* cs{min,max}, greedy *)
| WordB.                                           (* \b *)

Definition Opt (r : re) : re := Alt r Eps.
Definition Plus (cs : cset) : re := Rep 1 None cs.

Definition is_word (o : option ascii) : bool :=
  match o with Some c => in_cset c word | None => false end.

Section Match.
Context {R : Type}.

(** Greedy repetition of a class, then the continuation; on failure
    give back one character at a time. *)
Fixpoint rep (cs : cset) (min : nat) (max : option nat)
    (prev : option ascii) (s : list ascii)
    (k : option ascii -> list ascii -> option R) {struct s} : option R :=
  let stop := match min with O => k prev s | S _ => None end in
  match max with
  | Some O => stop
  | _ =>
    match s with
    | c :: s' =>
        if in_cset c cs then
          match rep cs (Nat.pred min) (Nat.pred <$> max) (Some c) s' k with
          | Some r => Some r
          | None => stop
          end
        else stop
    | [] => stop
    end
  end.

(** [mt r prev s k]: match [r] at the head of [s], where [prev] is
    the code unit just before it, then run [k] on what is left. *)
Fixpoint mt (r : re) (prev : option ascii) (s : list ascii)
    (k : option ascii -> list ascii -> option R) : option R :=
  match r with
  | Eps => k prev s
  | Chr cs =>
      match s with
      | c :: s' => if in_cset c cs then k (Some c) s' else None
      | [] => None
      end
  | Seq r1 r2 => mt r1 prev s (fun p' s' => mt r2 p' s' k)
  | Alt r1 r2 =>
      match mt r1 prev s k with
      | Some x => Some x
      | None => mt r2 prev s k
      end
  | Rep min max cs => rep cs min max prev s k
  | WordB =>
      if xorb (is_word prev) (is_word (head s)) then k prev s else None
  end.
End Match.

(** One match attempt at the current position: what is left of the
    input after the match. *)
Definition exec_at (r : re) (prev : option ascii) (s : list ascii)
    : option (list ascii) :=
  mt r prev s (fun _ rest => Some rest).

(** [re.test(s)] with [lastIndex = 0]: is there a match anywhere. *)
Fixpoint test_from (r : re) (prev : option ascii) (s : list ascii) : bool :=
  match exec_at r prev s with
  | Some _ => true
  | None =>
      match s with
      | [] => false
      | c :: s' => test_from r (Some c) s'
      end
  end.

Definition test (r : re) (s : list ascii) : bool := test_from r None s.

(** [s.replace(re, f)] for a global pattern: leftmost matches, not
    overlapping.  [skip] counts the code units of the current match
    that are still to be dropped. *)
Fixpoint replace_from (r : re) (f : list ascii -> list ascii)
    (prev : option ascii) (s : list ascii) (skip : nat) : list ascii :=
  match skip with
  | S n =>
      match s with
      | [] => []
      | c :: s' => replace_from r f (Some c) s' n
      end
  | O =>
      match exec_at r prev s with
      | Some rest =>
          let len := (length s - length rest)%nat in
          f (take len s) ++
          match s with
          | [] => []
          | c :: s' =>
              match len with
              | O => c :: replace_from r f (Some c) s' O
              | S n => replace_from r f (Some c) s' n
              end
          end
      | None =>
          match s with
          | [] => []
          | c :: s' => c :: replace_from r f (Some c) s' O
          end
      end
  end.

Definition replace (r : re) (f : list ascii -> list ascii)
    (s : list ascii) : list ascii :=
  replace_from r f None s O.

(** A literal, for a pattern with the [i] flag: each letter stands for
    both of its cases. *)
Definition both_cases (c : ascii) : cset :=
  let n := nat_of_ascii c in
  if in_cset c lower then [(n, n); (n - 32, n - 32)]%nat
  else if in_cset c upper then [(n, n); (n + 32, n + 32)]%nat
  else [(n, n)].

Fixpoint lit_i (s : list ascii) : re :=
  match s with
  | [] => Eps
  | c :: s' => Seq (Chr (both_cases c)) (lit_i s')
  end.

Definition chars (s : string) : list ascii := list_ascii_of_string s.
Definition text (l : list ascii) : string := string_of_list_ascii l.

Lemma text_length l : String.length (text l) = length l.
Proof.
  unfold text. induction l as [|c l IH]; cbn; [reflexivity | by f_equal].
Qed.

Lemma text_chars s : text (chars s) = s.
Proof. apply string_of_list_ascii_of_string. Qed.

Lemma chars_text l : chars (text l) = l.
Proof. apply list_ascii_of_string_of_list_ascii. Qed.

Lemma chars_length s : length (chars s) = String.length s.
Proof. rewrite <- (text_chars s) at 2. symmetry. apply text_length. Qed.

(** *** The matcher and the language of a pattern

    [lang r s]: the pattern can consume exactly [s].  The boundary test
    of [\b] is left out of the relation, which therefore contains every
    match of the matcher, and is exact for patterns without [\b]. *)

Inductive lang : re -> list ascii -> Prop :=
| lang_eps : lang Eps []
| lang_chr cs c : in_cset c cs = true -> lang (Chr cs) [c]
| lang_seq r1 r2 s1 s2 : lang r1 s1 -> lang r2 s2 -> lang (Seq r1 r2) (s1 ++ s2)
| lang_alt_l r1 r2 s : lang r1 s -> lang (Alt r1 r2) s
| lang_alt_r r1 r2 s : lang r2 s -> lang (Alt r1 r2) s
| lang_rep min max cs s :
    Forall (fun c => in_cset c cs = true) s ->
    (min <= length s)%nat ->
    (forall m, max = Some m -> (length s <= m)%nat) ->
    lang (Rep min max cs) s
| lang_wordb : lang WordB [].

Fixpoint wb_free (r : re) : bool :=
  match r with
  | WordB => false
  | Seq r1 r2 | Alt r1 r2 => wb_free r1 && wb_free r2
  | _ => true
  end.

Lemma rep_eq {R} cs min max prev s (k : option ascii -> list ascii -> option R) :
  rep cs min max prev s k =
  let stop := match min with O => k prev s | S _ => None end in
  match max with
  | Some O => stop
  | _ =>
    match s with
    | c :: s' =>
        if in_cset c cs then
          match rep cs (Nat.pred min) (Nat.pred <$> max) (Some c) s' k with
          | Some r => Some r
          | None => stop
          end
        else stop
    | [] => stop
    end
  end.
Proof. destruct s; reflexivity. Qed.

Lemma rep_sound {R} cs : forall s min max prev
    (k : option ascii -> list ascii -> option R) x,
  rep cs min max prev s k = Some x ->
  exists s1 s2 p',
    s = s1 ++ s2
    /\ Forall (fun c => in_cset c cs = true) s1
    /\ (min <= length s1)%nat
    /\ (forall m, max = Some m -> (length s1 <= m)%nat)
    /\ k p' s2 = Some x.
Proof.
  assert (Hstop : forall s min max prev
            (k : option ascii -> list ascii -> option R) x,
            match min with O => k prev s | S _ => None end = Some x ->
            exists s1 s2 p',
              s = s1 ++ s2
              /\ Forall (fun c => in_cset c cs = true) s1
              /\ (min <= length s1)%nat
              /\ (forall m, max = Some m -> (length s1 <= m)%nat)
              /\ k p' s2 = Some x).
  { intros s min max prev k x H. destruct min; [|discriminate].
    exists [], s, prev. repeat split; [constructor | reflexivity | | exact H].
    intros m _. cbn. lia. }
  induction s as [|c s IH]; intros min max prev k x H; rewrite rep_eq in H;
    cbv zeta in H.
  - destruct max as [[|m]|]; by apply (Hstop _ _ _ prev).
  - assert (Hrec : forall max',
              max' <> Some O ->
              (if in_cset c cs
               then match rep cs (Nat.pred min) (Nat.pred <$> max') (Some c) s k with
                    | Some r => Some r
                    | None => match min with O => k prev (c :: s) | S _ => None end
                    end
               else match min with O => k prev (c :: s) | S _ => None end) = Some x ->
              exists s1 s2 p',
                c :: s = s1 ++ s2
                /\ Forall (fun c => in_cset c cs = true) s1
                /\ (min <= length s1)%nat
                /\ (forall m, max' = Some m -> (length s1 <= m)%nat)
                /\ k p' s2 = Some x).
    { intros max' Hmax Hx.
      destruct (in_cset c cs) eqn:Ec; [|by apply (Hstop _ _ _ prev)].
      destruct (rep cs (Nat.pred min) (Nat.pred <$> max') (Some c) s k) as [y|] eqn:Er;
        [|by apply (Hstop _ _ _ prev)].
      injection Hx as ->.
      destruct (IH _ _ _ _ _ Er) as (s1 & s2 & p' & -> & Hall & Hmin & Hmx & Hk).
      exists (c :: s1), s2, p'. repeat split.
      - by constructor.
      - cbn. lia.
      - intros m ->. cbn. destruct m as [|m]; [done|].
        specialize (Hmx m eq_refl). lia.
      - exact Hk. }
    destruct max as [[|m]|].
    + by apply (Hstop _ _ _ prev).
    + apply Hrec; [discriminate | exact H].
    + apply Hrec; [discriminate | exact H].
Qed.

Lemma mt_sound {R} (r : re) : forall prev s
    (k : option ascii -> list ascii -> option R) x,
  mt r prev s k = Some x ->
  exists s1 s2 p', s = s1 ++ s2 /\ lang r s1 /\ k p' s2 = Some x.
Proof.
  induction r as [|cs|r1 IH1 r2 IH2|r1 IH1 r2 IH2|min max cs|];
    intros prev s k x H; cbn [mt] in H.
  - exists [], s, prev. repeat split; [constructor | exact H].
  - destruct s as [|c s']; [discriminate|].
    destruct (in_cset c cs) eqn:Ec; [|discriminate].
    exists [c], s', (Some c). repeat split; [by constructor | exact H].
  - destruct (IH1 _ _ _ _ H) as (s1 & s2 & p1 & -> & L1 & H2).
    destruct (IH2 _ _ _ _ H2) as (s3 & s4 & p2 & -> & L2 & H3).
    exists (s1 ++ s3), s4, p2. rewrite app_assoc.
    repeat split; [by constructor | exact H3].
  - destruct (mt r1 prev s k) as [y|] eqn:E1.
    + injection H as ->.
      destruct (IH1 _ _ _ _ E1) as (s1 & s2 & p1 & -> & L1 & H2).
      exists s1, s2, p1. repeat split; [by apply lang_alt_l | exact H2].
    + destruct (IH2 _ _ _ _ H) as (s1 & s2 & p1 & -> & L1 & H2).
      exists s1, s2, p1. repeat split; [by apply lang_alt_r | exact H2].
  - destruct (rep_sound _ _ _ _ _ _ _ H) as (s1 & s2 & p' & -> & Ha & Hmin & Hmax & Hk).
    exists s1, s2, p'. repeat split; [by constructor | exact Hk].
  - destruct (xorb _ _); [|discriminate].
    exists [], s, prev. repeat split; [constructor | exact H].
Qed.

Lemma exec_at_sound r prev s rest :
  exec_at r prev s = Some rest -> exists s1, s = s1 ++ rest /\ lang r s1.
Proof.
  intros H. destruct (mt_sound _ _ _ _ _ H) as (s1 & s2 & p' & -> & L & [= ->]).
  by exists s1.
Qed.

Lemma rep_complete {R} cs : forall s1 s2 min max prev
    (k : option ascii -> list ascii -> option R),
  Forall (fun c => in_cset c cs = true) s1 ->
  (min <= length s1)%nat ->
  (forall m, max = Some m -> (length s1 <= m)%nat) ->
  (forall p', k p' s2 <> None) ->
  rep cs min max prev (s1 ++ s2) k <> None.
Proof.
  induction s1 as [|c s1 IH]; intros s2 min max prev k Hall Hmin Hmax Hk;
    rewrite rep_eq; cbv zeta.
  - cbn in Hmin. assert (min = O) as -> by lia. cbn [app].
    destruct max as [[|m]|]; [apply Hk| |];
      (destruct s2 as [|c s2']; [apply Hk|];
       destruct (in_cset c cs); [|apply Hk];
       destruct (rep cs _ _ _ s2' k); [discriminate | apply Hk]).
  - apply Forall_cons in Hall as [Hc Hall]. cbn [app].
    assert (Hgo : rep cs (Nat.pred min) (Nat.pred <$> max) (Some c) (s1 ++ s2) k
                  <> None).
    { apply IH; [exact Hall | cbn in Hmin; lia | | exact Hk].
      intros m Hm. destruct max as [m'|]; [|discriminate].
      injection Hm as <-. specialize (Hmax m' eq_refl). cbn in Hmax. lia. }
    destruct max as [[|m]|].
    + specialize (Hmax O eq_refl). cbn in Hmax. lia.
    + rewrite Hc. destruct (rep cs _ _ _ (s1 ++ s2) k); [discriminate | done].
    + rewrite Hc. destruct (rep cs _ _ _ (s1 ++ s2) k); [discriminate | done].
Qed.

Lemma mt_complete {R} (r : re) s1 :
  lang r s1 -> wb_free r = true ->
  forall s2 prev (k : option ascii -> list ascii -> option R),
    (forall p', k p' s2 <> None) ->
    mt r prev (s1 ++ s2) k <> None.
Proof.
  induction 1 as [|cs c Hc|r1 r2 s1 s3 L1 IH1 L2 IH2|r1 r2 s L IH|r1 r2 s L IH
                 |min max cs s Hall Hmin Hmax|];
    intros Hwb s2 prev k Hk; cbn [mt wb_free] in *.
  - apply Hk.
  - cbn. rewrite Hc. apply Hk.
  - apply andb_true_iff in Hwb as [Hw1 Hw2].
    rewrite <- app_assoc. apply IH1; [exact Hw1|].
    intros p'. by apply IH2.
  - apply andb_true_iff in Hwb as [Hw1 Hw2].
    specialize (IH Hw1 s2 prev k Hk).
    destruct (mt r1 prev (s ++ s2) k); [discriminate | done].
  - apply andb_true_iff in Hwb as [Hw1 Hw2].
    destruct (mt r1 prev (s ++ s2) k); [discriminate|].
    by apply IH.
  - by apply rep_complete.
  - discriminate.
Qed.

Lemma exec_at_complete r s1 s2 prev :
  lang r s1 -> wb_free r = true -> exec_at r prev (s1 ++ s2) <> None.
Proof.
  intros L Hw. unfold exec_at. by apply mt_complete.
Qed.

(** *** What a match can start with, and the characters it is made of *)

Fixpoint nullable (r : re) : bool :=
  match r with
  | Eps | WordB => true
  | Chr _ => false
  | Seq r1 r2 => nullable r1 && nullable r2
  | Alt r1 r2 => nullable r1 || nullable r2
  | Rep min _ _ => (min =? 0)%nat
  end.

Fixpoint first (r : re) : cset :=
  match r with
  | Eps | WordB => []
  | Chr cs => cs
  | Seq r1 r2 => first r1 ++ (if nullable r1 then first r2 else [])
  | Alt r1 r2 => first r1 ++ first r2
  | Rep _ max cs => match max with Some O => [] | _ => cs end
  end.

Fixpoint alphabet (r : re) : cset :=
  match r with
  | Eps | WordB => []
  | Chr cs | Rep _ _ cs => cs
  | Seq r1 r2 | Alt r1 r2 => alphabet r1 ++ alphabet r2
  end.

Lemma in_cset_app c a b : in_cset c (a ++ b) = in_cset c a || in_cset c b.
Proof. unfold in_cset. apply existsb_app. Qed.

Lemma lang_first r s :
  lang r s ->
  match s with
  | [] => nullable r = true
  | c :: _ => in_cset c (first r) = true
  end.
Proof.
  induction 1 as [|cs c Hc|r1 r2 s1 s2 L1 IH1 L2 IH2|r1 r2 s L IH|r1 r2 s L IH
                 |min max cs s Hall Hmin Hmax|]; cbn [nullable first].
  - reflexivity.
  - exact Hc.
  - destruct s1 as [|c s1]; cbn [app].
    + rewrite IH1. destruct s2 as [|c s2]; [by rewrite IH2|].
      rewrite in_cset_app, IH2. apply orb_true_r.
    + by rewrite in_cset_app, IH1.
  - destruct s; [by rewrite IH | by rewrite in_cset_app, IH].
  - destruct s; [rewrite IH; apply orb_true_r
                |rewrite in_cset_app, IH; apply orb_true_r].
  - destruct s as [|c s].
    + cbn in Hmin. apply Nat.eqb_eq. lia.
    + apply Forall_cons in Hall as [Hc _].
      destruct max as [[|m]|]; [|exact Hc|exact Hc].
      specialize (Hmax O eq_refl). cbn in Hmax. lia.
  - reflexivity.
Qed.

Lemma lang_alphabet r s :
  lang r s -> Forall (fun c => in_cset c (alphabet r) = true) s.
Proof.
  induction 1 as [|cs c Hc|r1 r2 s1 s2 L1 IH1 L2 IH2|r1 r2 s L IH|r1 r2 s L IH
                 |min max cs s Hall Hmin Hmax|]; cbn [alphabet].
  - constructor.
  - by repeat constructor.
  - apply Forall_app. split; (eapply Forall_impl; [eassumption|]);
      intros c Hc; rewrite in_cset_app, Hc; [reflexivity | apply orb_true_r].
  - eapply Forall_impl; [exact IH|]. intros c Hc. by rewrite in_cset_app, Hc.
  - eapply Forall_impl; [exact IH|]. intros c Hc.
    rewrite in_cset_app, Hc. apply orb_true_r.
  - exact Hall.
  - constructor.
Qed.

Lemma lang_nonempty r s : nullable r = false -> lang r s -> s <> [].
Proof.
  intros Hn L ->. apply lang_first in L. congruence.
Qed.

(** *** Where [test] finds a match *)

Lemma test_from_true_inv r : forall x prev,
  test_from r prev x = true ->
  exists pre suf p', x = pre ++ suf /\ exec_at r p' suf <> None.
Proof.
  induction x as [|c x IH]; intros prev H; cbn [test_from] in H.
  - destruct (exec_at r prev []) eqn:E; [|discriminate].
    exists [], [], prev. split; [reflexivity | congruence].
  - destruct (exec_at r prev (c :: x)) eqn:E.
    + exists [], (c :: x), prev. split; [reflexivity | congruence].
    + destruct (IH _ H) as (pre & suf & p' & -> & Hm).
      by exists (c :: pre), suf, p'.
Qed.

Lemma test_from_complete r suf :
  (forall p', exec_at r p' suf <> None) ->
  forall pre prev, test_from r prev (pre ++ suf) = true.
Proof.
  intros Hm. induction pre as [|c pre IH]; intros prev; cbn [app].
  - specialize (Hm prev).
    destruct suf; cbn [test_from]; by destruct (exec_at r prev _).
  - cbn [test_from]. destruct (exec_at r prev (c :: pre ++ suf)); [reflexivity|].
    apply IH.
Qed.

(** *** Replacing every match by a fixed block

    For a pattern without [\b] that cannot match the empty string, and
    a block that starts with a character foreign to the pattern and
    holds no character a match could start with: what [replace] returns
    has no match left. *)

Section FixedBlock.
Variable r : re.
Variable b : ascii.
Variable B' : list ascii.
Let B := b :: B'.
Hypothesis Hwb : wb_free r = true.
Hypothesis Hnull : nullable r = false.
Hypothesis Hforeign : in_cset b (alphabet r) = false.
Hypothesis Hblock : Forall (fun c => in_cset c (first r) = false) B.

Lemma exec_at_head p c s rest :
  exec_at r p (c :: s) = Some rest -> in_cset c (first r) = true.
Proof.
  intros H. destruct (exec_at_sound _ _ _ _ H) as (s1 & E & L).
  pose proof (lang_nonempty _ _ Hnull L) as Hne.
  apply lang_first in L. destruct s1 as [|c1 s1]; [done|].
  injection E as <- _. exact L.
Qed.

Lemma exec_at_nil p : exec_at r p [] = None.
Proof.
  destruct (exec_at r p []) as [rest|] eqn:E; [|reflexivity].
  destruct (exec_at_sound _ _ _ _ E) as (s1 & E1 & L).
  symmetry in E1. apply app_eq_nil in E1 as [-> _].
  by destruct (lang_nonempty _ _ Hnull L).
Qed.

Lemma block_no_match B2 out :
  Forall (fun c => in_cset c (first r) = false) B2 ->
  (forall p, test_from r p out = false) ->
  forall p, test_from r p (B2 ++ out) = false.
Proof.
  intros HB Hout. induction HB as [|c B2 Hc _ IH]; intros p; [apply Hout|].
  cbn [app test_from].
  destruct (exec_at r p (c :: B2 ++ out)) eqn:E; [|apply IH].
  apply exec_at_head in E. congruence.
Qed.

Lemma replace_common_prefix : forall s prev,
  exists u v w,
    s = u ++ v
    /\ replace_from r (fun _ => B) prev s O = u ++ w
    /\ (w = [] \/ head w = Some b).
Proof.
  induction s as [|c s IH]; intros prev; cbn [replace_from].
  - rewrite exec_at_nil. exists [], [], []. repeat split. by left.
  - destruct (exec_at r prev (c :: s)) as [rest|].
    + eexists [], (c :: s), _. split; [reflexivity|].
      split; [reflexivity|]. right. reflexivity.
    + destruct (IH (Some c)) as (u & v & w & -> & -> & Hw).
      by exists (c :: u), v, w.
Qed.

Lemma replace_no_match : forall s prev skip p,
  test_from r p (replace_from r (fun _ => B) prev s skip) = false.
Proof.
  induction s as [|c s IH]; intros prev skip p.
  - assert (E : replace_from r (fun _ => B) prev [] skip = []).
    { destruct skip; cbn [replace_from]; [|reflexivity].
      by rewrite exec_at_nil. }
    rewrite E. cbn [test_from]. by rewrite exec_at_nil.
  - destruct skip as [|n]; cbn [replace_from]; [|apply IH].
    destruct (exec_at r prev (c :: s)) as [rest|] eqn:E.
    + destruct (exec_at_sound _ _ _ _ E) as (s1 & E1 & L).
      pose proof (lang_nonempty _ _ Hnull L) as Hne.
      assert (Hlen : (length (c :: s) - length rest)%nat = length s1).
      { rewrite E1, length_app. lia. }
      rewrite Hlen. destruct s1 as [|c1 s1]; [done|]. cbn [length].
      apply block_no_match; [exact Hblock | intros p'; apply IH].
    + cbn [test_from].
      destruct (exec_at r p (c :: replace_from r (fun _ => B) (Some c) s O))
        as [rest'|] eqn:E'; [|apply IH].
      exfalso.
      destruct (exec_at_sound _ _ _ _ E') as (s1 & E1 & L).
      destruct (replace_common_prefix s (Some c)) as (u & v & w & Es & Eo & Hw).
      rewrite Eo in E1.
      assert (Hpre : exists t, c :: u = s1 ++ t).
      { change (c :: u ++ w) with ((c :: u) ++ w) in E1.
        apply app_eq_inv in E1 as [(k & Ek & _)|(k & Ek & Ew)].
        - by exists k.
        - destruct Hw as [->|Hw].
          + symmetry in Ew. apply app_eq_nil in Ew as [-> _].
            exists []. by rewrite Ek, !app_nil_r.
          + destruct k as [|k0 k]; [exists []; by rewrite Ek, !app_nil_r|].
            exfalso. cbn in Ew. rewrite Ew in Hw. cbn in Hw.
            injection Hw as ->.
            pose proof (lang_alphabet _ _ L) as Ha. rewrite Ek in Ha.
            apply Forall_app in Ha as [_ Ha]. apply Forall_cons in Ha as [Ha _].
            congruence. }
      destruct Hpre as (t & Et).
      apply (exec_at_complete r s1 (t ++ v) prev L Hwb).
      rewrite app_assoc, <- Et, Es in *. exact E.
Qed.

Lemma replace_chars : forall s prev skip c,
  c ∈ replace_from r (fun _ => B) prev s skip -> c ∈ s \/ c ∈ B.
Proof.
  induction s as [|a s IH]; intros prev skip c; destruct skip as [|n];
    cbn [replace_from].
  - destruct (exec_at r prev []); rewrite ?app_nil_r; [by right|].
    intros H. by apply elem_of_nil in H.
  - intros H. by apply elem_of_nil in H.
  - destruct (exec_at r prev (a :: s)) as [rest|].
    + intros H. apply elem_of_app in H as [H|H]; [by right|].
      destruct (length (a :: s) - length rest)%nat.
      * apply elem_of_cons in H as [->|H]; [left; by left|].
        destruct (IH _ _ _ H); [left; by right | by right].
      * destruct (IH _ _ _ H); [left; by right | by right].
    + intros H. apply elem_of_cons in H as [->|H]; [left; by left|].
      destruct (IH _ _ _ H); [left; by right | by right].
  - intros H. destruct (IH _ _ _ H); [left; by right | by right].
Qed.

End FixedBlock.

End Regex.

(* ===================================================================== *)
(** ** unnamed/part_007 (the fraud agent) : the RiskSignals step *)
(* ===================================================================== *)

Module Fraud.
Import Js Regex.

Record Velocity := {
  txnsLast24h : Z;
  amountLast24h : Z;
  avgDaily : Q
}.

Record DeviceAnalysis := { newDevice : bool; deviceChanges : Z }.
Record MerchantAnalysis := { newMerchant : bool; riskScore : Z }.
Record PatternAnalysis := {
  unusualTime : bool;
  unusualLocation : bool;
  velocitySpike : bool
}.

(** The fields of a transaction row read by the merchant analysis and
    by the score. *)
Record Txn := { merchant : string; mcc : string; amountCents : Z }.

Definition highRiskMCCs : list string := ["5960"; "6051"; "7995"; "4829"].

(** [/temp|test|unknown|cash|atm/i] *)
Definition suspiciousPatterns : re :=
  Alt (lit_i (chars "temp"))
    (Alt (lit_i (chars "test"))
      (Alt (lit_i (chars "unknown"))
        (Alt (lit_i (chars "cash")) (lit_i (chars "atm"))))).

(** [analyzeMerchant(transactions, suspectTxn)] *)
Definition analyzeMerchant (transactions : list Txn) (suspectTxn : Txn)
    : MerchantAnalysis :=
  let merchants : gset string := list_to_set (merchant <$> transactions) in
  let isNewMerchant := bool_decide (merchant suspectTxn ∉ merchants) in
  let riskScore := 0 in
  let riskScore :=
    if bool_decide (mcc suspectTxn ∈ highRiskMCCs)
    then riskScore + 30 else riskScore in
  let riskScore :=
    if test suspiciousPatterns (chars (merchant suspectTxn))
    then riskScore + 20 else riskScore in
  let riskScore := if isNewMerchant then riskScore + 15 else riskScore in
  {| newMerchant := isNewMerchant; riskScore := Z.min riskScore 100 |}.

(** [if (c) score += k] *)
Definition bump (c : bool) (k : Q) (score : Q) : Q :=
  if c then (score + k)%Q else score.

(** [calculateRiskScore(velocity, device, merchant, patterns, suspectTxn)].
    [avgDaily] is the value that [analyzeVelocity] rounds to hundredths;
    its double, multiplied by 2 or 3, compares with the integer count as
    the exact product does: the product is either an integer that the
    doubles represent exactly or at least one hundredth away from one. *)
Definition calculateRiskScore (velocity : Velocity) (device : DeviceAnalysis)
    (merchant : MerchantAnalysis) (patterns : PatternAnalysis)
    (suspectTxn : Txn) : Z :=
  let score := 0%Q in
  (* Velocity scoring *)
  let score :=
    if Qgtb (inject_Z (txnsLast24h velocity)) (avgDaily velocity * 3)
    then (score + 25)%Q
    else bump (Qgtb (inject_Z (txnsLast24h velocity)) (avgDaily velocity * 2))
           15 score in
  (* Amount velocity *)
  let score := bump (amountLast24h velocity >? 100000) 20 score in
  (* Device scoring *)
  let score := bump (newDevice device) 20 score in
  let score := bump (deviceChanges device >? 5) 10 score in
  (* Merchant scoring *)
  let score := (score + inject_Z (riskScore merchant) * (1 # 2))%Q in
  (* Pattern scoring *)
  let score := bump (unusualTime patterns) 15 score in
  let score := bump (unusualLocation patterns) 20 score in
  let score := bump (velocitySpike patterns) 25 score in
  (* Transaction amount scoring *)
  let score := bump (amountCents suspectTxn >? 50000) 15 score in
  let score := bump (amountCents suspectTxn >? 100000) 10 score in
  Z.min (Math_round score) 100.

(** The contributions as the specification lists them. *)
Definition when (c : bool) (k : Q) : Q := if c then k else 0%Q.

Definition contributions (velocity : Velocity) (device : DeviceAnalysis)
    (merchant : MerchantAnalysis) (patterns : PatternAnalysis)
    (suspectTxn : Txn) : list Q :=
  [ if Qgtb (inject_Z (txnsLast24h velocity)) (3 * avgDaily velocity) then 25
    else when (Qgtb (inject_Z (txnsLast24h velocity)) (2 * avgDaily velocity)) 15;
    when (amountLast24h velocity >? 100000) 20;
    when (newDevice device) 20;
    when (deviceChanges device >? 5) 10;
    (1 # 2) * inject_Z (riskScore merchant);
    when (unusualTime patterns) 15;
    when (unusualLocation patterns) 20;
    when (velocitySpike patterns) 25;
    when (amountCents suspectTxn >? 50000) 15;
    when (amountCents suspectTxn >? 100000) 10 ]%Q.

Definition Qsum (l : list Q) : Q := foldr Qplus 0%Q l.

(** Clamping a rational to [0,100]. *)
Definition clamp_0_100 (x : Q) : Q :=
  if Qle_bool x 0 then 0%Q else if Qle_bool 100 x then 100%Q else x.

Lemma bump_when c k s : (bump c k s == s + when c k)%Q.
Proof. destruct c; cbn; ring. Qed.

Lemma Math_round_comp x y : (x == y)%Q -> Math_round x = Math_round y.
Proof. intros E. unfold Math_round. apply Qfloor_comp. rewrite E. reflexivity. Qed.

Lemma Math_round_nonneg x : (0 <= x)%Q -> 0 <= Math_round x.
Proof.
  intros Hx. unfold Math_round.
  change 0 with (Qfloor 0). apply Qfloor_resp_le.
  apply Qle_trans with x; [exact Hx|].
  rewrite <- (Qplus_0_r x) at 1. apply Qplus_le_r. discriminate.
Qed.

Lemma Qadd_nonneg a b : (0 <= a)%Q -> (0 <= b)%Q -> (0 <= a + b)%Q.
Proof.
  intros Ha Hb. apply Qle_trans with (0 + 0)%Q; [discriminate|].
  apply Qplus_le_compat; assumption.
Qed.

Lemma when_nonneg c k : (0 <= k)%Q -> (0 <= when c k)%Q.
Proof. intros Hk. destruct c; cbn; [exact Hk | apply Qle_refl]. Qed.

Lemma analyzeMerchant_riskScore transactions suspectTxn :
  riskScore (analyzeMerchant transactions suspectTxn) ∈ [0; 15; 20; 30; 35; 45; 50; 65].
Proof.
  unfold analyzeMerchant. cbn [riskScore].
  destruct (bool_decide (mcc suspectTxn ∈ highRiskMCCs));
    destruct (test suspiciousPatterns (chars (merchant suspectTxn)));
    destruct (bool_decide (merchant suspectTxn ∉ _));
    cbn; set_solver.
Qed.

Lemma analyzeMerchant_riskScore_nonneg transactions suspectTxn :
  0 <= riskScore (analyzeMerchant transactions suspectTxn).
Proof.
  pose proof (analyzeMerchant_riskScore transactions suspectTxn) as H.
  repeat (apply elem_of_cons in H as [->|H]; [lia|]).
  by apply elem_of_nil in H.
Qed.

Lemma calculateRiskScore_sum velocity device merchant patterns suspectTxn :
  calculateRiskScore velocity device merchant patterns suspectTxn
  = Z.min (Math_round
             (Qsum (contributions velocity device merchant patterns suspectTxn)))
      100.
Proof.
  unfold calculateRiskScore. f_equal. apply Math_round_comp.
  unfold contributions, Qsum. cbn [foldr].
  rewrite !bump_when.
  assert (Hc : forall a k, Qgtb a (avgDaily velocity * k) = Qgtb a (k * avgDaily velocity)).
  { intros a k. unfold Qgtb. f_equal. apply eq_true_iff_eq.
    rewrite !Qle_bool_iff. rewrite (Qmult_comm k). reflexivity. }
  rewrite !Hc.
  destruct (Qgtb (inject_Z (txnsLast24h velocity)) (3 * avgDaily velocity)).
  - ring.
  - rewrite bump_when. ring.
Qed.

Lemma contributions_nonneg velocity device merchant patterns suspectTxn :
  0 <= riskScore merchant ->
  (0 <= Qsum (contributions velocity device merchant patterns suspectTxn))%Q.
Proof.
  intros Hm. unfold contributions, Qsum. cbn [foldr].
  assert (Hr : (0 <= (1 # 2) * inject_Z (riskScore merchant))%Q).
  { apply Qmult_le_0_compat; [discriminate|].
    change 0%Q with (inject_Z 0). rewrite <- Zle_Qle. exact Hm. }
  assert (Hv : (0 <= (if Qgtb (inject_Z (txnsLast24h velocity)) (3 * avgDaily velocity)
                      then 25
                      else when (Qgtb (inject_Z (txnsLast24h velocity))
                                   (2 * avgDaily velocity)) 15))%Q).
  { destruct (Qgtb _ (3 * _)); [discriminate|]. apply when_nonneg. discriminate. }
  repeat (apply Qadd_nonneg; [first [assumption | apply when_nonneg; discriminate]|]).
  apply Qle_refl.
Qed.

(** C7, as amended.  The composite score is the sum of the listed
    contributions, rounded to the nearest integer (halves upwards) and
    then capped at 100; with the merchant analysis of the agent it lies
    in [0,100]. *)
Theorem risk_score_rounded_sum (velocity : Velocity) (device : DeviceAnalysis)
    (patterns : PatternAnalysis) (transactions : list Txn) (suspectTxn : Txn)
    (merchant : MerchantAnalysis) :
  calculateRiskScore velocity device merchant patterns suspectTxn
    = Z.min (Math_round
               (Qsum (contributions velocity device merchant patterns suspectTxn)))
        100
  /\ 0 <= calculateRiskScore velocity device
            (analyzeMerchant transactions suspectTxn) patterns suspectTxn <= 100.
Proof.
  split; [apply calculateRiskScore_sum|].
  rewrite calculateRiskScore_sum. split; [|apply Z.le_min_r].
  apply Z.min_glb; [|lia].
  apply Math_round_nonneg, contributions_nonneg,
    analyzeMerchant_riskScore_nonneg.
Qed.

(** A first purchase of 10 dollars at a merchant the customer never
    used, nothing else unusual. *)
Definition quiet_velocity : Velocity :=
  {| txnsLast24h := 0; amountLast24h := 0; avgDaily := 0 |}.
Definition known_device : DeviceAnalysis :=
  {| newDevice := false; deviceChanges := 1 |}.
Definition no_pattern : PatternAnalysis :=
  {| unusualTime := false; unusualLocation := false; velocitySpike := false |}.
Definition first_purchase : Txn :=
  {| merchant := "Corner Bakery"; mcc := "5812"; amountCents := 1000 |}.

(** C7, as stated, fails: the contributions add up to 7.5, which the
    clamp to [0,100] leaves alone, while the code returns 8. *)
Lemma risk_score_not_plain_sum :
  let merchant := analyzeMerchant [] first_purchase in
  riskScore merchant = 15
  /\ (Qsum (contributions quiet_velocity known_device merchant no_pattern
             first_purchase) == 15 # 2)%Q
  /\ calculateRiskScore quiet_velocity known_device merchant no_pattern
       first_purchase = 8
  /\ ~ (inject_Z (calculateRiskScore quiet_velocity known_device merchant
                    no_pattern first_purchase)
        == clamp_0_100 (Qsum (contributions quiet_velocity known_device
                                merchant no_pattern first_purchase)))%Q.
Proof.
  cbv zeta. repeat split; try (vm_compute; reflexivity).
  vm_compute. discriminate.
Qed.

End Fraud.

(* ===================================================================== *)
(** ** middleware/rateLimit.ts : fixed-window limiter over Redis *)
(* ===================================================================== *)

Module RateLimit.
Import Js.

Record RateLimitInfo := { count : Z; resetTime : Z }.

(** A Redis entry written by [setex]: the stored record (the JSON text
    of a record of two integers parses back to the same record) and the
    instant, in milliseconds, at which the key expires. *)
Record Entry := { info : RateLimitInfo; expiresAt : Z }.

(** The readings of the clock taken while one request is served, in
    program order: the Redis read, the test [Date.now() > resetTime],
    the [Date.now() + windowMs] that stamps a new window, the Redis
    write, and the [Date.now()] of [retryAfter]. *)
Record Clock := {
  at_get : Z; at_check : Z; at_reset : Z; at_setex : Z; at_retry : Z
}.

Definition ordered (c : Clock) : Prop :=
  at_get c <= at_check c /\ at_check c <= at_reset c
  /\ at_reset c <= at_setex c /\ at_setex c <= at_retry c.

(** Which Redis call throws, if any. *)
Inductive Fault := GetFails | SetexFails.

Record Headers := {
  X_RateLimit_Limit : Z;
  X_RateLimit_Remaining : Z;
  X_RateLimit_Reset : Z
}.

Inductive Response :=
| Next (h : option Headers)                  (* next() *)
| Status429 (h : Headers) (retryAfter : Z).  (* res.status(429).json(..) *)

Definition redis_get (redis : gmap string Entry) (key : string) (now : Z)
    : option RateLimitInfo :=
  match redis !! key with
  | Some e => if now <=? expiresAt e then Some (info e) else None
  | None => None
  end.

Definition redis_setex (redis : gmap string Entry) (key : string)
    (seconds : Z) (v : RateLimitInfo) (now : Z) : gmap string Entry :=
  <[key := {| info := v; expiresAt := now + seconds * 1000 |}]> redis.

Section Middleware.
(** [RATE_LIMIT_WINDOW_MS] and [RATE_LIMIT_MAX_REQUESTS]. *)
Variables windowMs maxRequests : Z.

Definition rateLimitMiddleware (clientId : string) (clk : Clock)
    (fault : option Fault) (redis : gmap string Entry)
    : gmap string Entry * Response :=
  let key := "rate_limit:" +:+ clientId in
  match fault with
  | Some GetFails => (redis, Next None)   (* fail open *)
  | _ =>
    let current := redis_get redis key (at_get clk) in
    let rateLimitInfo :=
      match current with
      | Some i =>
          if at_check clk >? resetTime i
          then {| count := 1; resetTime := at_reset clk + windowMs |}
          else {| count := count i + 1; resetTime := resetTime i |}
      | None => {| count := 1; resetTime := at_reset clk + windowMs |}
      end in
    match fault with
    | Some SetexFails => (redis, Next None)   (* fail open *)
    | _ =>
      let redis' := redis_setex redis key (ceil_div windowMs 1000)
                      rateLimitInfo (at_setex clk) in
      let remaining := Z.max 0 (maxRequests - count rateLimitInfo) in
      let retryAfter :=
        ceil_div (resetTime rateLimitInfo - at_retry clk) 1000 in
      let h := {| X_RateLimit_Limit := maxRequests;
                  X_RateLimit_Remaining := remaining;
                  X_RateLimit_Reset := resetTime rateLimitInfo |} in
      if count rateLimitInfo >? maxRequests
      then (redis', Status429 h retryAfter)
      else (redis', Next (Some h))
    end
  end.

(** Successive requests of one client, without Redis faults. *)
Fixpoint serve (clientId : string) (clks : list Clock)
    (redis : gmap string Entry) : gmap string Entry * list Response :=
  match clks with
  | [] => (redis, [])
  | clk :: rest =>
      let '(redis1, r) := rateLimitMiddleware clientId clk None redis in
      let '(redis2, rs) := serve clientId rest redis1 in
      (redis2, r :: rs)
  end.

(** The outcome the limiter gives to the [k]-th request of a window
    that was opened at [t0]. *)
Definition passes (r : Response) : Prop :=
  match r with Next _ => True | Status429 _ _ => False end.

Definition rejected_within (bound : Z) (r : Response) : Prop :=
  match r with
  | Next _ => False
  | Status429 _ retryAfter => retryAfter <= bound
  end.

(** Requests that all fall into the window whose reset time is
    [reset]: readings in program order, none earlier than [from], and
    every test [Date.now() > resetTime] false. *)
Fixpoint in_window (from reset : Z) (clks : list Clock) : Prop :=
  match clks with
  | [] => True
  | clk :: rest =>
      from <= at_get clk /\ ordered clk /\ at_check clk <= reset
      /\ in_window (at_retry clk) reset rest
  end.

Definition key_of (clientId : string) : string := "rate_limit:" +:+ clientId.

(** The first request of a window: no live entry, or a stale one. *)
Definition opens_window (clientId : string) (clk : Clock)
    (redis : gmap string Entry) : Prop :=
  match redis_get redis (key_of clientId) (at_get clk) with
  | None => True
  | Some i => resetTime i < at_check clk
  end.

Definition headers_for (i : RateLimitInfo) : Headers :=
  {| X_RateLimit_Limit := maxRequests;
     X_RateLimit_Remaining := Z.max 0 (maxRequests - count i);
     X_RateLimit_Reset := resetTime i |}.

Definition answer (i : RateLimitInfo) (clk : Clock) : Response :=
  if count i >? maxRequests
  then Status429 (headers_for i) (ceil_div (resetTime i - at_retry clk) 1000)
  else Next (Some (headers_for i)).

Definition stored (i : RateLimitInfo) (clk : Clock) : Entry :=
  {| info := i; expiresAt := at_setex clk + ceil_div windowMs 1000 * 1000 |}.

Lemma middleware_same_window clientId clk redis e :
  redis !! key_of clientId = Some e ->
  at_get clk <= expiresAt e ->
  at_check clk <= resetTime (info e) ->
  let i := {| count := count (info e) + 1; resetTime := resetTime (info e) |} in
  rateLimitMiddleware clientId clk None redis
  = (<[key_of clientId := stored i clk]> redis, answer i clk).
Proof.
  intros Hk Hlive Hwin i.
  unfold rateLimitMiddleware, redis_get, redis_setex, answer, stored.
  fold (key_of clientId). rewrite Hk.
  replace (at_get clk <=? expiresAt e) with true by (symmetry; lia).
  replace (at_check clk >? resetTime (info e)) with false by (symmetry; lia).
  fold i. destruct (count i >? maxRequests); reflexivity.
Qed.

Lemma middleware_new_window clientId clk redis :
  opens_window clientId clk redis ->
  let i := {| count := 1; resetTime := at_reset clk + windowMs |} in
  rateLimitMiddleware clientId clk None redis
  = (<[key_of clientId := stored i clk]> redis, answer i clk).
Proof.
  intros Hopen i.
  unfold rateLimitMiddleware, redis_setex, answer, stored.
  unfold opens_window in Hopen. fold (key_of clientId).
  destruct (redis_get redis (key_of clientId) (at_get clk)) as [j|].
  - replace (at_check clk >? resetTime j) with true by (symmetry; lia).
    fold i. destruct (count i >? maxRequests); reflexivity.
  - fold i. destruct (count i >? maxRequests); reflexivity.
Qed.

(** Inside one window the stored counter numbers the requests, and
    the answer depends on that number alone. *)
Lemma serve_same_window clientId clks : forall redis e from,
  0 < windowMs ->
  redis !! key_of clientId = Some e ->
  resetTime (info e) <= expiresAt e ->
  resetTime (info e) - windowMs <= from ->
  in_window from (resetTime (info e)) clks ->
  forall (k : nat) resp,
    (serve clientId clks redis).2 !! k = Some resp ->
    (count (info e) + Z.of_nat k + 1 <= maxRequests -> passes resp)
    /\ (maxRequests < count (info e) + Z.of_nat k + 1 ->
        rejected_within (ceil_div windowMs 1000) resp).
Proof.
  induction clks as [|clk rest IH]; intros redis e from HW Hk Hexp Hfrom Hin k resp Hresp.
  - destruct k; discriminate.
  - destruct Hin as (Hge & Hord & Hchk & Hrest).
    destruct Hord as (H1 & H2 & H3 & H4).
    cbn [serve] in Hresp.
    rewrite (middleware_same_window clientId clk redis e Hk) in Hresp by lia.
    cbv zeta in Hresp.
    set (i := {| count := count (info e) + 1; resetTime := resetTime (info e) |}) in *.
    destruct (serve clientId rest (<[key_of clientId:=stored i clk]> redis))
      as [redis2 rs] eqn:Es.
    destruct k as [|k]; cbn in Hresp.
    + injection Hresp as <-. unfold answer. cbn [count resetTime i].
      split; intros Hc.
      * replace (count (info e) + 1 >? maxRequests) with false
          by (symmetry; lia). exact I.
      * replace (count (info e) + 1 >? maxRequests) with true
          by (symmetry; lia). cbn.
        apply ceil_div_mono; lia.
    + pose proof (ceil_div_ge windowMs 1000 ltac:(lia)) as Httl.
      specialize (IH (<[key_of clientId:=stored i clk]> redis) (stored i clk)
                    (at_retry clk) HW).
      rewrite lookup_insert_eq in IH. rewrite Es in IH. cbn in IH.
      destruct (IH eq_refl ltac:(lia) ltac:(lia) Hrest k resp Hresp) as [Ha Hb].
      split; intros Hc; [apply Ha | apply Hb]; lia.
Qed.

End Middleware.

(** C8, as amended.  For a window [W > 0] and a limit [N >= 1]: a
    request that finds no live entry, or one whose reset time has
    passed, stores a counter of 1 and passes; of the requests that then
    fall into that window the [k]-th passes as long as [k <= N], and
    from the [(N+1)]-th on the answer is 429 with a [retryAfter] of at
    most [ceil (W / 1000)] seconds, which is [W / 1000] when [W] is a
    whole number of seconds; and when a Redis call throws, the request
    is let through and the store is left as it was. *)
Theorem rate_limit_contract (W N : Z) (clientId : string) (clk0 : Clock)
    (rest : list Clock) (redis : gmap string Entry) :
  0 < W -> 1 <= N ->
  ordered clk0 ->
  opens_window clientId clk0 redis ->
  in_window (at_retry clk0) (at_reset clk0 + W) rest ->
  let first := rateLimitMiddleware W N clientId clk0 None redis in
  let responses := (serve W N clientId (clk0 :: rest) redis).2 in
  (info <$> first.1 !! key_of clientId
     = Some {| count := 1; resetTime := at_reset clk0 + W |}
   /\ passes first.2)
  /\ (forall (k : nat) resp, responses !! k = Some resp ->
        (Z.of_nat k + 1 <= N -> passes resp)
        /\ (N < Z.of_nat k + 1 -> rejected_within (ceil_div W 1000) resp))
  /\ (forall s, W = s * 1000 -> ceil_div W 1000 = s)
  /\ (forall f clk redis0,
        rateLimitMiddleware W N clientId clk (Some f) redis0
        = (redis0, Next None)).
Proof.
  intros HW HN Hord Hopen Hin first responses.
  pose proof (middleware_new_window W N clientId clk0 redis Hopen) as Hfirst.
  cbv zeta in Hfirst.
  assert (Hpass : passes (answer N {| count := 1; resetTime := at_reset clk0 + W |} clk0)).
  { unfold answer. cbn [count].
    replace (1 >? N) with false by (symmetry; lia). exact I. }
  split; [|split; [|split]].
  - subst first. rewrite Hfirst. cbn [fst snd].
    rewrite lookup_insert_eq. cbn. split; [reflexivity | exact Hpass].
  - intros k resp Hresp. subst responses.
    cbn [serve] in Hresp. rewrite Hfirst in Hresp.
    set (i := {| count := 1; resetTime := at_reset clk0 + W |}) in *.
    destruct (serve W N clientId rest (<[key_of clientId:=stored W i clk0]> redis))
      as [redis2 rs] eqn:Es.
    destruct k as [|k]; cbn in Hresp.
    + injection Hresp as <-. split; intros Hc; [exact Hpass | lia].
    + destruct Hord as (H1 & H2 & H3 & H4).
      pose proof (ceil_div_ge W 1000 ltac:(lia)) as Httl.
      pose proof (serve_same_window W N clientId rest
                    (<[key_of clientId:=stored W i clk0]> redis)
                    (stored W i clk0) (at_retry clk0) HW) as Hs.
      rewrite lookup_insert_eq in Hs. rewrite Es in Hs. cbn in Hs.
      destruct (Hs eq_refl ltac:(lia) ltac:(lia) Hin k resp Hresp) as [Ha Hb].
      split; intros Hc; [apply Ha | apply Hb]; lia.
  - intros s ->. apply ceil_div_exact. lia.
  - intros [] clk redis0; reflexivity.
Qed.

(** Three requests of one client, 10 ms apart, against an empty store. *)
Definition tick (t : Z) : Clock :=
  {| at_get := t; at_check := t; at_reset := t; at_setex := t; at_retry := t |}.

Lemma rate_limit_contract_witness :
  (0 < 60000 /\ 1 <= 2 /\ ordered (tick 0)
   /\ opens_window "10.0.0.7" (tick 0) ∅
   /\ in_window (at_retry (tick 0)) (at_reset (tick 0) + 60000)
        [tick 10; tick 20])
  /\ (let responses :=
        (serve 60000 2 "10.0.0.7" [tick 0; tick 10; tick 20] ∅).2 in
      forall (k : nat) resp, responses !! k = Some resp ->
        (Z.of_nat k + 1 <= 2 -> passes resp)
        /\ (2 < Z.of_nat k + 1 -> rejected_within 60 resp)).
Proof.
  assert (H : 0 < 60000 /\ 1 <= 2 /\ ordered (tick 0)
              /\ opens_window "10.0.0.7" (tick 0) ∅
              /\ in_window (at_retry (tick 0)) (at_reset (tick 0) + 60000)
                   [tick 10; tick 20]).
  { repeat split; cbn; lia. }
  split; [exact H|].
  destruct H as (H1 & H2 & H3 & H4 & H5).
  exact (proj1 (proj2
    (rate_limit_contract 60000 2 "10.0.0.7" (tick 0) [tick 10; tick 20] ∅
       H1 H2 H3 H4 H5))).
Defined.

Example rate_limit_three_requests :
  (serve 60000 2 "10.0.0.7" [tick 0; tick 10; tick 20] ∅).2
  = [ Next (Some {| X_RateLimit_Limit := 2; X_RateLimit_Remaining := 1;
                    X_RateLimit_Reset := 60000 |});
      Next (Some {| X_RateLimit_Limit := 2; X_RateLimit_Remaining := 0;
                    X_RateLimit_Reset := 60000 |});
      Status429 {| X_RateLimit_Limit := 2; X_RateLimit_Remaining := 0;
                   X_RateLimit_Reset := 60000 |} 60 ].
Proof. vm_compute. reflexivity. Qed.

(** C8, as stated, fails for a window that is not a whole number of
    seconds: with [W = 1500] and [N = 1] the second request of the
    window is refused with [retryAfter = 2], more than 1.5 seconds. *)
Lemma rate_limit_retry_after_exceeds_window :
  exists h retryAfter,
    (serve 1500 1 "10.0.0.7" [tick 0; tick 0] ∅).2 !! 1%nat
      = Some (Status429 h retryAfter)
    /\ retryAfter = 2
    /\ ~ (inject_Z retryAfter <= 1500 # 1000)%Q.
Proof.
  eexists _, _. split; [vm_compute; reflexivity|].
  split; [reflexivity|]. vm_compute. intros H. apply H. reflexivity.
Qed.

End RateLimit.

(* ===================================================================== *)
(** ** String methods of the runtime, on sequences of code units *)
(* ===================================================================== *)

Module JsString.
Import Regex.

Definition str := list ascii.

(** [toLowerCase] on 8-bit code units: A-Z and the accented capitals
    of Latin-1 (without the multiplication sign) move up by 32. *)
Definition lower_unit (c : ascii) : ascii :=
  let n := nat_of_ascii c in
  if ((65 <=? n) && (n <=? 90)
      || (192 <=? n) && (n <=? 222) && negb (n =? 215))%nat
  then ascii_of_nat (n + 32) else c.

Definition toLowerCase (s : str) : str := lower_unit <$> s.

Fixpoint starts_with (t s : str) : bool :=
  match t, s with
  | [], _ => true
  | a :: t', b :: s' => if Ascii.eqb a b then starts_with t' s' else false
  | _ :: _, [] => false
  end.

(** [s.indexOf(t)]; [None] stands for -1. *)
Fixpoint indexOf (s t : str) : option nat :=
  if starts_with t s then Some O
  else match s with
       | [] => None
       | _ :: s' => S <$> indexOf s' t
       end.

Definition includes (s t : str) : bool :=
  match indexOf s t with Some _ => true | None => false end.

(** [s.split(sep)] for a separator of one code unit. *)
Fixpoint split_on (sep : ascii) (s : str) : list str :=
  match s with
  | [] => [[]]
  | c :: s' =>
      if Ascii.eqb c sep then [] :: split_on sep s'
      else match split_on sep s' with
           | w :: ws => (c :: w) :: ws
           | [] => [[c]]
           end
  end.

(** [s.split(/\s+/)]: cut at every maximal run of white space. *)
Fixpoint split_ws_from (s : str) (cur : str) (insep : bool) : list str :=
  match s with
  | [] => [rev cur]
  | c :: s' =>
      if in_cset c space then
        if insep then split_ws_from s' cur true
        else rev cur :: split_ws_from s' [] true
      else split_ws_from s' (c :: cur) false
  end.

Definition split_ws (s : str) : list str := split_ws_from s [] false.

(** [s.substring(a, b)]: both ends clamped to the string, swapped when
    out of order. *)
Definition substring (s : str) (a b : Z) : str :=
  let n := Z.of_nat (length s) in
  let a' := Z.min (Z.max a 0) n in
  let b' := Z.min (Z.max b 0) n in
  let lo := Z.min a' b' in
  let hi := Z.max a' b' in
  take (Z.to_nat (hi - lo)) (drop (Z.to_nat lo) s).

(** [(s.match(new RegExp(t, 'g')) || []).length] for a term [t] made of
    word characters: the occurrences of [t], not overlapping, from the
    left.  [skip] counts the code units of the current occurrence. *)
Fixpoint count_from (t s : str) (skip : nat) : nat :=
  match s with
  | [] => O
  | _ :: s' =>
      match skip with
      | S n => count_from t s' n
      | O => if starts_with t s
             then S (count_from t s' (Nat.pred (length t)))
             else count_from t s' O
      end
  end.

Definition count_matches (s t : str) : nat := count_from t s O.

(** [arr.join(sep)] *)
Fixpoint join (sep : str) (l : list str) : str :=
  match l with
  | [] => []
  | [w] => w
  | w :: ws => w ++ sep ++ join sep ws
  end.

End JsString.

(* ===================================================================== *)
(** ** unnamed/part_007 (the KB agent) : the KbLookup step *)
(* ===================================================================== *)

Module Kb.
Import Regex JsString.

Record KbDoc := {
  id : string; title : string; anchor : string; contentText : string
}.

Record Result := {
  docId : string;
  r_title : string;
  r_anchor : string;
  extract : string;
  relevanceScore : nat
}.

Record KBSearchResult := { results : list Result; citations : list string }.

Definition isRelevantTerm (word : str) : bool :=
  bool_decide (text word ∈
    [ "fraud"; "suspicious"; "unusual"; "velocity"; "device"; "location";
      "merchant"; "transaction"; "card"; "payment"; "dispute"; "chargeback";
      "authorization"; "authentication"; "risk"; "security"; "compliance";
      "verification"; "identity"; "pattern"; "behavior"; "anomaly" ])
  || (4 <? length word)%nat.

(** [terms.add(t)] on a [Set], which keeps insertion order. *)
Definition set_add (terms : list string) (t : string) : list string :=
  if bool_decide (t ∈ terms) then terms else terms ++ [t].

Definition some_includes (reasons : list string) (t : string) : bool :=
  existsb (fun r => includes (chars r) (chars t)) reasons.

(** [reason.toLowerCase().replace(/[^\w\s]/g, ' ').split(/\s+/)
      .filter(word => word.length > 3)] *)
Definition words_of (reason : string) : list str :=
  let lowered := toLowerCase (chars reason) in
  let cleaned :=
    (fun c => if in_cset c word || in_cset c space then c else " "%char)
      <$> lowered in
  filter (fun w => (3 < length w)%nat) (split_ws cleaned).

Definition extractSearchTerms (reasons : list string) : list string :=
  let terms :=
    foldl (fun terms reason =>
             foldl set_add terms
               (text <$> filter (fun w => isRelevantTerm w = true)
                           (words_of reason)))
      [] reasons in
  let terms := if some_includes reasons "velocity"
               then foldl set_add terms ["velocity"; "rapid"; "multiple"]
               else terms in
  let terms := if some_includes reasons "device"
               then foldl set_add terms ["device"; "authentication"]
               else terms in
  let terms := if some_includes reasons "location"
               then foldl set_add terms ["location"; "geographic"; "travel"]
               else terms in
  let terms := if some_includes reasons "merchant"
               then foldl set_add terms ["merchant"; "suspicious"]
               else terms in
  terms.

(** [calculateRelevance(doc, searchTerms)] *)
Definition calculateRelevance (doc : KbDoc) (searchTerms : list string) : nat :=
  let title := toLowerCase (chars (title doc)) in
  let content := toLowerCase (chars (contentText doc)) in
  foldl (fun score term =>
           let titleMatches := count_matches title (chars term) in
           let contentMatches := count_matches content (chars term) in
           (score + (titleMatches * 3 + contentMatches))%nat)
    O searchTerms.

Definition ellipsis : str := chars "...".

(** [extractSnippet(text, query, maxLength)] *)
Definition extractSnippet (txt : str) (query : str) (maxLength : Z) : str :=
  let queryTerms :=
    filter (fun term => (2 < length term)%nat)
      (split_on " " (toLowerCase query)) in
  let bestIndex :=
    foldl (fun bestIndex term =>
             match indexOf (toLowerCase txt) term, bestIndex with
             | Some index, None => Some index
             | Some index, Some best =>
                 if (index <? best)%nat then Some index else Some best
             | None, _ => bestIndex
             end)
      None queryTerms in
  let len := Z.of_nat (length txt) in
  match bestIndex with
  | None =>
      substring txt 0 maxLength ++ (if len >? maxLength then ellipsis else [])
  | Some bestIndex =>
      let padding := (maxLength - 20) / 2 in
      let start := Z.max 0 (Z.of_nat bestIndex - padding) in
      let end_ := Z.min len (start + maxLength) in
      let snippet := substring txt start end_ in
      let snippet := if start >? 0 then ellipsis ++ snippet else snippet in
      let snippet := if end_ <? len then snippet ++ ellipsis else snippet in
      snippet
  end.

(** [results.sort((a, b) => b.relevanceScore - a.relevanceScore)]: the
    sort of the runtime is stable, so the result is the one of a stable
    insertion from the right. *)
Fixpoint insert_desc (x : Result) (l : list Result) : list Result :=
  match l with
  | [] => [x]
  | y :: l' =>
      if (relevanceScore x <? relevanceScore y)%nat
      then y :: insert_desc x l'
      else x :: l
  end.

Definition sort_desc (l : list Result) : list Result :=
  foldr insert_desc [] l.

(** Lines 353-367 of the agent: score, cut a snippet, drop the
    documents without a match, rank, keep five. *)
Definition rank (kbDocs : list KbDoc) (searchTerms : list string)
    : list Result :=
  let query := join (chars " ") (chars <$> searchTerms) in
  let scored :=
    (fun doc =>
       {| docId := id doc; r_title := title doc; r_anchor := anchor doc;
          extract := text (extractSnippet (chars (contentText doc)) query 150);
          relevanceScore := calculateRelevance doc searchTerms |})
    <$> kbDocs in
  take 5 (sort_desc (filter (fun r => (0 < relevanceScore r)%nat) scored)).

Definition generateCitations (results : list Result) (reasons : list string)
    : list string :=
  match results with
  | [] => ["No relevant knowledge base articles found"]
  | _ =>
    let citations :=
      (fun r => "See KB: " +:+ r_title r +:+ " (" +:+ r_anchor r +:+ ")")
        <$> filter (fun r => (5 < relevanceScore r)%nat) (take 3 results) in
    let citations := if some_includes reasons "velocity"
      then citations ++ ["Reference: Transaction Velocity Guidelines"]
      else citations in
    let citations := if some_includes reasons "dispute"
      then citations ++ ["Reference: Dispute Processing Procedures"]
      else citations in
    let citations := if some_includes reasons "device"
      then citations ++ ["Reference: Device Authentication Protocols"]
      else citations in
    match citations with
    | [] => ["Manual review recommended - see fraud investigation procedures"]
    | _ => citations
    end
  end.

(** [searchRelevantDocs(reasons)].  [findMany] is the data store: given
    the query and the terms it returns the matching documents (at most
    20), or fails; a failure is caught and answered with empty results. *)
Definition searchRelevantDocs
    (findMany : string -> list string -> option (list KbDoc))
    (reasons : list string) : KBSearchResult :=
  match reasons with
  | [] => {| results := []; citations := [] |}
  | _ =>
    let searchTerms := extractSearchTerms reasons in
    let query := join (chars " ") (chars <$> searchTerms) in
    (* !query.trim() : the terms hold no white space, so the query is
       blank exactly when there is no term *)
    match searchTerms with
    | [] => {| results := []; citations := [] |}
    | _ =>
      match findMany (text query) searchTerms with
      | None => {| results := []; citations := [] |}
      | Some kbDocs =>
          let results := rank kbDocs searchTerms in
          {| results := results;
             citations := generateCitations results reasons |}
      end
    end
  end.

(** *** Length of a snippet *)

Lemma extractSnippet_length txt query maxLength :
  0 <= maxLength ->
  Z.of_nat (length (extractSnippet txt query maxLength)) <= maxLength + 6.
Proof.
  intros Hm. unfold extractSnippet.
  set (bestIndex := foldl _ None _). clearbody bestIndex.
  destruct bestIndex as [bestIndex|].
  - set (start := Z.max 0 (Z.of_nat bestIndex - (maxLength - 20) / 2)).
    set (end_ := Z.min (Z.of_nat (length txt)) (start + maxLength)).
    assert (Hs : Z.of_nat (length (substring txt start end_)) <= maxLength).
    { unfold substring. rewrite length_take, length_drop. lia. }
    destruct (start >? 0), (end_ <? Z.of_nat (length txt));
      rewrite ?length_app; cbn [ellipsis chars list_ascii_of_string length];
      lia.
  - assert (Hs : Z.of_nat (length (substring txt 0 maxLength)) <= maxLength).
    { unfold substring. rewrite length_take, length_drop. lia. }
    destruct (Z.of_nat (length txt) >? maxLength);
      rewrite length_app; cbn [ellipsis chars list_ascii_of_string length];
      lia.
Qed.

(** *** The window of a snippet *)

(** [snippet] is a window of at most [maxLength] code units of [txt],
    with the ellipsis on each side where text was cut off. *)
Definition window_of (maxLength : nat) (txt snippet : str) : Prop :=
  exists pre window post,
    txt = pre ++ window ++ post
    /\ (length window <= maxLength)%nat
    /\ snippet = (match pre with [] => [] | _ => ellipsis end)
                 ++ window
                 ++ (match post with [] => [] | _ => ellipsis end).

Lemma indexOf_le s t : forall i, indexOf s t = Some i -> (i <= length s)%nat.
Proof.
  induction s as [|c s IH]; intros i; cbn [indexOf].
  - destruct (starts_with t []); [|discriminate]. intros [= <-]. cbn. lia.
  - destruct (starts_with t (c :: s)); [intros [= <-]; lia|].
    destruct (indexOf s t) as [j|]; [|discriminate].
    intros [= <-]. specialize (IH j eq_refl). cbn. lia.
Qed.

Lemma cut_window (txt : str) (a b : nat) :
  (a <= b <= length txt)%nat ->
  txt = take a txt ++ take (b - a) (drop a txt) ++ drop b txt
  /\ (take a txt = [] <-> a = 0%nat)
  /\ (drop b txt = [] <-> b = length txt).
Proof.
  intros H. split; [|split].
  - rewrite <- (take_drop a txt) at 1. f_equal.
    rewrite <- (take_drop (b - a) (drop a txt)) at 1. f_equal.
    rewrite drop_drop. f_equal. lia.
  - split.
    + intros E. apply (f_equal length) in E. rewrite length_take in E.
      cbn in E. lia.
    + by intros ->.
  - split.
    + intros E. apply (f_equal length) in E. rewrite length_drop in E.
      cbn in E. lia.
    + intros ->. apply drop_all.
Qed.

Lemma extractSnippet_window txt query maxLength :
  20 <= maxLength ->
  window_of (Z.to_nat maxLength) txt (extractSnippet txt query maxLength).
Proof.
  intros Hm. unfold extractSnippet.
  set (terms := filter _ _).
  assert (Hbest : forall l acc,
    (forall i, acc = Some i -> (i <= length txt)%nat) ->
    forall i,
      foldl (fun bestIndex term =>
               match indexOf (toLowerCase txt) term, bestIndex with
               | Some index, None => Some index
               | Some index, Some best =>
                   if (index <? best)%nat then Some index else Some best
               | None, _ => bestIndex
               end) acc l = Some i -> (i <= length txt)%nat).
  { induction l as [|t l IH]; intros acc Hacc; [exact Hacc|].
    cbn [foldl]. apply IH. intros i.
    destruct (indexOf (toLowerCase txt) t) as [j|] eqn:Ej; [|apply Hacc].
    apply indexOf_le in Ej. unfold toLowerCase in Ej. rewrite length_fmap in Ej.
    destruct acc as [best|]; [|by intros [= <-]].
    destruct (j <? best)%nat; intros [= <-]; [exact Ej | by apply Hacc]. }
  specialize (Hbest terms None ltac:(discriminate)).
  destruct (foldl _ None terms) as [bestIndex|].
  - specialize (Hbest bestIndex eq_refl).
    set (len := Z.of_nat (length txt)).
    set (start := Z.max 0 (Z.of_nat bestIndex - (maxLength - 20) / 2)).
    set (end_ := Z.min len (start + maxLength)).
    assert (Hpad : 0 <= (maxLength - 20) / 2) by (apply Z.div_pos; lia).
    assert (Hs : 0 <= start <= end_ /\ end_ <= len /\ end_ - start <= maxLength)
      by (subst start end_ len; lia).
    destruct (cut_window txt (Z.to_nat start) (Z.to_nat end_) ltac:(subst len; lia))
      as (Hcut & Hpre & Hpost).
    exists (take (Z.to_nat start) txt),
           (take (Z.to_nat end_ - Z.to_nat start) (drop (Z.to_nat start) txt)),
           (drop (Z.to_nat end_) txt).
    split; [exact Hcut|]. split; [rewrite length_take; lia|].
    assert (Hsub : substring txt start end_
                   = take (Z.to_nat end_ - Z.to_nat start)
                       (drop (Z.to_nat start) txt)).
    { unfold substring. fold len.
      replace (Z.min (Z.max start 0) len) with start by lia.
      replace (Z.min (Z.max end_ 0) len) with end_ by lia.
      replace (Z.min start end_) with start by lia.
      replace (Z.max start end_) with end_ by lia.
      f_equal. lia. }
    rewrite Hsub.
    destruct (Z.gtb_spec start 0) as [Hgt|Hle];
      destruct (Z.ltb_spec end_ len) as [Hlt|Hge].
    + assert (N1 : take (Z.to_nat start) txt <> [])
        by (intros E; apply Hpre in E; lia).
      assert (N2 : drop (Z.to_nat end_) txt <> [])
        by (intros E; apply Hpost in E; subst len; lia).
      destruct (take (Z.to_nat start) txt); [done|].
      destruct (drop (Z.to_nat end_) txt); [done|].
      by rewrite <- app_assoc.
    + assert (N1 : take (Z.to_nat start) txt <> [])
        by (intros E; apply Hpre in E; lia).
      assert (E2 : drop (Z.to_nat end_) txt = []) by (apply Hpost; subst len; lia).
      rewrite E2, app_nil_r.
      by destruct (take (Z.to_nat start) txt).
    + assert (E1 : take (Z.to_nat start) txt = []) by (apply Hpre; lia).
      assert (N2 : drop (Z.to_nat end_) txt <> [])
        by (intros E; apply Hpost in E; subst len; lia).
      rewrite E1.
      by destruct (drop (Z.to_nat end_) txt).
    + assert (E1 : take (Z.to_nat start) txt = []) by (apply Hpre; lia).
      assert (E2 : drop (Z.to_nat end_) txt = []) by (apply Hpost; subst len; lia).
      by rewrite E1, E2, app_nil_r.
  - set (len := Z.of_nat (length txt)).
    set (e := Z.min maxLength len).
    destruct (cut_window txt 0 (Z.to_nat e) ltac:(subst e len; lia))
      as (Hcut & _ & Hpost).
    exists [], (take (Z.to_nat e) txt), (drop (Z.to_nat e) txt).
    rewrite take_0, drop_0, Nat.sub_0_r in Hcut.
    split; [exact Hcut|]. split; [rewrite length_take; subst e; lia|].
    assert (Hsub : substring txt 0 maxLength = take (Z.to_nat e) txt).
    { unfold substring. fold len.
      replace (Z.min (Z.max 0 0) len) with 0 by lia.
      replace (Z.min (Z.max maxLength 0) len) with e by (subst e; lia).
      replace (Z.min 0 e) with 0 by (subst e; lia).
      replace (Z.max 0 e) with e by (subst e; lia).
      rewrite drop_0. f_equal. lia. }
    rewrite Hsub. cbn [app]. f_equal.
    destruct (Z.gtb_spec len maxLength) as [Hgt|Hle].
    + assert (N2 : drop (Z.to_nat e) txt <> [])
        by (intros E; apply Hpost in E; subst e len; lia).
      by destruct (drop (Z.to_nat e) txt).
    + assert (E2 : drop (Z.to_nat e) txt = []) by (apply Hpost; subst e len; lia).
      by rewrite E2.
Qed.

(** *** Ranking *)

Definition desc (a b : Result) : Prop :=
  (relevanceScore b <= relevanceScore a)%nat.

Lemma insert_desc_elem x l y : y ∈ insert_desc x l -> y = x \/ y ∈ l.
Proof.
  induction l as [|z l IH]; cbn [insert_desc].
  - intros H. apply list_elem_of_singleton in H. by left.
  - destruct (relevanceScore x <? relevanceScore z)%nat.
    + intros H. apply elem_of_cons in H as [->|H].
      * right. apply elem_of_cons. by left.
      * destruct (IH H) as [->|H']; [by left|].
        right. apply elem_of_cons. by right.
    + intros H. apply elem_of_cons in H as [->|H]; [by left | by right].
Qed.

Lemma insert_desc_sorted x l :
  StronglySorted desc l -> StronglySorted desc (insert_desc x l).
Proof.
  induction 1 as [|z l Hs IH Hall]; cbn [insert_desc].
  - repeat constructor.
  - destruct (relevanceScore x <? relevanceScore z)%nat eqn:E.
    + constructor; [exact IH|].
      apply Forall_forall. intros y Hy.
      destruct (insert_desc_elem _ _ _ Hy) as [->|Hy'].
      * unfold desc. apply Nat.ltb_lt in E. lia.
      * rewrite Forall_forall in Hall. by apply Hall.
    + apply Nat.ltb_ge in E.
      constructor; [by constructor|].
      constructor; [exact E|].
      eapply Forall_impl; [exact Hall|].
      intros y Hy. unfold desc in *. lia.
Qed.

Lemma sort_desc_sorted l : StronglySorted desc (sort_desc l).
Proof.
  induction l as [|x l IH]; cbn [sort_desc foldr];
    [constructor | by apply insert_desc_sorted].
Qed.

Lemma sort_desc_elem l y : y ∈ sort_desc l -> y ∈ l.
Proof.
  induction l as [|x l IH]; cbn [sort_desc foldr]; [done|].
  intros H. destruct (insert_desc_elem _ _ _ H) as [->|H'].
  - apply elem_of_cons. by left.
  - apply elem_of_cons. right. by apply IH.
Qed.

Lemma take_sorted (n : nat) (l : list Result) :
  StronglySorted desc l -> StronglySorted desc (take n l).
Proof.
  intros Hs. revert n.
  induction Hs as [|x l Hs IH Hall]; intros [|n]; cbn; try constructor.
  - apply IH.
  - apply Forall_forall. intros y Hy.
    rewrite Forall_forall in Hall. apply Hall.
    eapply (subseteq_take n l). exact Hy.
Qed.

Lemma rank_properties kbDocs searchTerms :
  (length (rank kbDocs searchTerms) <= 5)%nat
  /\ StronglySorted desc (rank kbDocs searchTerms)
  /\ Forall (fun r => (String.length (extract r) <= 156)%nat)
       (rank kbDocs searchTerms)
  /\ Forall (fun r => exists doc,
               doc ∈ kbDocs /\ docId r = id doc
               /\ window_of 150 (chars (contentText doc)) (chars (extract r)))
       (rank kbDocs searchTerms).
Proof.
  assert (Hfrom : forall r, r ∈ rank kbDocs searchTerms ->
    exists doc, doc ∈ kbDocs /\ docId r = id doc
      /\ extract r
         = text (extractSnippet (chars (contentText doc))
                   (join (chars " ") (chars <$> searchTerms)) 150)).
  { intros r Hr. unfold rank in Hr.
    apply (subseteq_take 5) in Hr.
    apply sort_desc_elem in Hr.
    apply list_elem_of_filter in Hr as [_ Hr].
    apply list_elem_of_fmap in Hr as (doc & -> & Hdoc).
    by exists doc. }
  split; [unfold rank; rewrite length_take; lia|].
  split; [unfold rank; apply take_sorted, sort_desc_sorted|].
  split; apply Forall_forall; intros r Hr;
    destruct (Hfrom r Hr) as (doc & Hdoc & Hid & ->).
  - rewrite text_length.
    pose proof (extractSnippet_length (chars (contentText doc))
                  (join (chars " ") (chars <$> searchTerms)) 150 ltac:(lia)).
    lia.
  - exists doc. split; [exact Hdoc|]. split; [exact Hid|].
    rewrite chars_text.
    apply (extractSnippet_window _ _ 150). lia.
Qed.

(** C9, as amended.  A KB retrieval returns at most 5 results, in
    descending order of relevance score.  The snippet of each result
    is a window of at most 150 characters of the content of its
    document, with an ellipsis of three characters put before it when
    text was cut off before the window and after it when text was cut
    off behind, so the snippet is at most 156 characters long. *)
Theorem kb_results_ranked_with_bounded_snippets
    (findMany : string -> list string -> option (list KbDoc))
    (reasons : list string) :
  let found := results (searchRelevantDocs findMany reasons) in
  (length found <= 5)%nat
  /\ StronglySorted desc found
  /\ Forall (fun r => (String.length (extract r) <= 156)%nat) found
  /\ Forall (fun r => exists query terms kbDocs doc,
               findMany query terms = Some kbDocs
               /\ doc ∈ kbDocs /\ docId r = id doc
               /\ window_of 150 (chars (contentText doc)) (chars (extract r)))
       found.
Proof.
  cbv zeta. unfold searchRelevantDocs.
  assert (Hnil : forall P Q : Result -> Prop,
                 (length (@nil Result) <= 5)%nat
                 /\ StronglySorted desc []
                 /\ Forall P [] /\ Forall Q []).
  { intros P Q. repeat split; [cbn; lia | constructor..]. }
  destruct reasons as [|reason reasons']; [apply Hnil|].
  destruct (extractSearchTerms (reason :: reasons')) as [|t ts] eqn:Et;
    [apply Hnil|].
  destruct (findMany _ _) as [kbDocs|] eqn:Ef; [|apply Hnil].
  cbn [results].
  destruct (rank_properties kbDocs (t :: ts)) as (H1 & H2 & H3 & H4).
  repeat split; try assumption.
  eapply Forall_impl; [exact H4|].
  intros r (doc & Hdoc & Hid & Hw). by eexists _, _, kbDocs, doc.
Qed.

(** A stored article whose match lies in the middle of the text. *)
Definition velocity_article : KbDoc :=
  {| id := "kb_007";
     title := "Card Not Present Review";
     anchor := "cnp-review";
     contentText :=
       "Analysts reviewing card-not-present purchases should first "
       +:+ "confirm the shipping address and the customer contact "
       +:+ "history, then compare the transaction velocity against the "
       +:+ "ninety day baseline before any customer outreach is "
       +:+ "attempted, and record each step in the case notes so that "
       +:+ "later analysts can follow the reasoning behind the decision." |}.

(** C9, as stated, fails: the window of 150 characters is cut on both
    sides, and the two ellipses bring the snippet to 156 characters. *)
Lemma kb_snippet_longer_than_150 :
  exists r,
    results (searchRelevantDocs (fun _ _ => Some [velocity_article])
               ["High transaction velocity"]) = [r]
    /\ String.length (extract r) = 156%nat
    /\ ~ (String.length (extract r) <= 150)%nat.
Proof.
  eexists. split; [vm_compute; reflexivity|].
  split; [vm_compute; reflexivity | vm_compute; lia].
Qed.

End Kb.

(* ===================================================================== *)
(** ** agents/orchestrator.ts : the triage run *)
(* ===================================================================== *)

Module Orchestrator.
Import Js.

Inductive RiskLevel := low | medium | high.

(** The result interfaces of the agents, with the fields that the
    orchestrator and the decision read. *)
Record FraudAnalysis := {
  score : Z;
  reasons : list string;
  action : string   (* 'freeze_card' | 'open_dispute' | 'monitor' *)
}.

Record ComplianceResult := {
  c_action : string;
      (* 'freeze_card' | 'open_dispute' | 'contact_customer' | 'false_positive' *)
  approved : bool;
  requiresOTP : bool;
  blockedBy : option string
}.

(** The values that are stored under a step name in the context, or
    that stand in for them: results of the data store and of the four
    agents, the substitutes written by [triggerFallback], and the
    object literals that [generateDecision] uses for a missing entry. *)
Inductive Obj :=
| Profile (customer : option string)   (* findUnique: a row or null *)
| Transactions (rows : list Insights.Txn)
| Fraud (f : FraudAnalysis)
| KbSearch (k : Kb.KBSearchResult)
| Insight (a : Insights.RiskAssessment)
| Compliance (c : ComplianceResult)
| FallbackRisk        (* {score: 50, reasons: ['risk_analysis_unavailable'], action: null} *)
| FallbackKb          (* {results: [], citations: ['Fallback: Manual review recommended']} *)
| FallbackGeneric     (* {fallback: true, reason: 'Service unavailable'} *)
| DefaultRisk         (* {score: 30, reasons: []} *)
| DefaultKb           (* {results: [], citations: []} *)
| DefaultCompliance.  (* {action: 'contact_customer', approved: true} *)

(** Truthiness: everything but [null]. *)
Definition truthy (o : Obj) : bool :=
  match o with Profile None => false | _ => true end.

(** [context[key] || dflt] *)
Definition or_default (ctx : gmap string Obj) (key : string) (dflt : Obj) : Obj :=
  match ctx !! key with
  | Some o => if truthy o then o else dflt
  | None => dflt
  end.

(** Property reads; [None] is [undefined] (or [null], or a missing
    property), which the readers below treat alike. *)
Definition prop_score (o : Obj) : option Z :=
  match o with
  | Fraud f => Some (score f)
  | FallbackRisk => Some 50
  | DefaultRisk => Some 30
  | _ => None
  end.

Definition prop_reasons (o : Obj) : option (list string) :=
  match o with
  | Fraud f => Some (reasons f)
  | FallbackRisk => Some ["risk_analysis_unavailable"]
  | DefaultRisk => Some []
  | _ => None
  end.

Definition prop_citations (o : Obj) : option (list string) :=
  match o with
  | KbSearch k => Some (Kb.citations k)
  | FallbackKb => Some ["Fallback: Manual review recommended"]
  | DefaultKb => Some []
  | _ => None
  end.

(** [o.action], when it is truthy. *)
Definition prop_action (o : Obj) : option string :=
  let a := match o with
           | Fraud f => Some (action f)
           | Compliance c => Some (c_action c)
           | DefaultCompliance => Some "contact_customer"
           | _ => None
           end in
  match a with
  | Some "" => None
  | _ => a
  end.

Inductive Detail :=
| DetailResult (cleanObj : Obj)
| DetailError (error : string).

Record AgentTrace := {
  seq : nat;
  step : string;
  ok : bool;
  durationMs : Z;
  detail : Detail
}.

Inductive TriageEvent :=
| plan_built (plan : list string)
| tool_update (step : string) (success : bool)
| fallback_triggered (failedStep : string).

Record Breaker := { failures : Z; lastFailure : Z; isOpen : bool }.

(** The fields of the orchestrator object, the context of the run, the
    events emitted so far, and the breaker table, which is a static
    field shared by all runs. *)
Record State := {
  traces : list AgentTrace;
  fallbackUsed : bool;
  context : gmap string Obj;
  events : list TriageEvent;
  circuitBreakers : gmap string Breaker
}.

(** How a call of an agent (or of the data store) ends. *)
Inductive Outcome :=
| Returned (result : Obj)
| Threw (message : string).   (* an error, or the timeout of the step *)

(** The readings of [Date.now()] during one step: at its start, in
    [isCircuitOpen], after the call, and in [recordFailure]. *)
Record StepClock := {
  at_start : Z; at_breaker : Z; at_end : Z; at_failure : Z
}.

Definition buildPlan : list string :=
  ["getProfile"; "recentTx"; "riskSignals"; "kbLookup"; "decide"; "proposeAction"].

Definition isStepCritical (step : string) : bool :=
  bool_decide (step ∈ ["getProfile"; "recentTx"]).

Definition isCircuitOpen (step : string) (now : Z)
    (cb : gmap string Breaker) : bool * gmap string Breaker :=
  match cb !! step with
  | None => (false, cb)
  | Some breaker =>
      if isOpen breaker then
        if now - lastFailure breaker >? 30000
        then (false, <[step := {| failures := 0;
                                  lastFailure := lastFailure breaker;
                                  isOpen := false |}]> cb)
        else (true, cb)
      else (false, cb)
  end.

Definition recordFailure (step : string) (now : Z)
    (cb : gmap string Breaker) : gmap string Breaker :=
  let breaker := default {| failures := 0; lastFailure := 0; isOpen := false |}
                   (cb !! step) in
  let n := failures breaker + 1 in
  <[step := {| failures := n; lastFailure := now;
               isOpen := if n >=? 3 then true else isOpen breaker |}]> cb.

Definition resetCircuitBreaker (step : string)
    (cb : gmap string Breaker) : gmap string Breaker :=
  match cb !! step with
  | Some breaker =>
      <[step := {| failures := 0; lastFailure := lastFailure breaker;
                   isOpen := false |}]> cb
  | None => cb
  end.

Section Run.
(** The collaborators of a run: what each step's call does in a
    given context, the clock, and the redactor applied to a result
    before it is put into a trace. *)
Variable agents : string -> gmap string Obj -> Outcome.
Variable clock : nat -> StepClock.
Variable redact : Obj -> Obj.

(** The [switch] of [executeStep]. *)
Definition call (step : string) (ctx : gmap string Obj) : Outcome :=
  if bool_decide (step ∈ buildPlan) then agents step ctx
  else Threw ("Unknown step: " +:+ step).

Definition executeStep (step : string) (seq : nat) (st : State)
    : bool * State :=
  let clk := clock seq in
  let '(open, cb) := isCircuitOpen step (at_breaker clk) (circuitBreakers st) in
  if open then
    (false, {| traces := traces st; fallbackUsed := fallbackUsed st;
               context := context st; events := events st;
               circuitBreakers := cb |})
  else
    let duration := at_end clk - at_start clk in
    match call step (context st) with
    | Returned result =>
        let trace := {| seq := seq; step := step; ok := true;
                        durationMs := duration;
                        detail := DetailResult (redact result) |} in
        (true, {| traces := traces st ++ [trace];
                  fallbackUsed := fallbackUsed st;
                  context := <[step := result]> (context st);
                  events := events st ++ [tool_update step true];
                  circuitBreakers := resetCircuitBreaker step cb |})
    | Threw message =>
        let trace := {| seq := seq; step := step; ok := false;
                        durationMs := duration;
                        detail := DetailError message |} in
        (false, {| traces := traces st ++ [trace];
                   fallbackUsed := fallbackUsed st;
                   context := context st;
                   events := events st ++ [tool_update step false];
                   circuitBreakers :=
                     recordFailure step (at_failure clk) cb |})
    end.

(** The substitute that the [switch] of [triggerFallback] writes. *)
Definition fallback_for (failedStep : string) : Obj :=
  if String.eqb failedStep "riskSignals" then FallbackRisk
  else if String.eqb failedStep "kbLookup" then FallbackKb
  else FallbackGeneric.

Definition triggerFallback (failedStep : string) (st : State) : State :=
  {| traces := traces st;
     fallbackUsed := true;
     context := <[failedStep := fallback_for failedStep]> (context st);
     events := events st ++ [fallback_triggered failedStep];
     circuitBreakers := circuitBreakers st |}.

(** The loop of [execute] over the steps from index [i] on. *)
Fixpoint run_steps (steps : list string) (i : nat) (st : State) : State :=
  match steps with
  | [] => st
  | step :: rest =>
      let '(success, st') := executeStep step i st in
      if negb success && isStepCritical step
      then triggerFallback step st'
      else run_steps rest (S i) st'
  end.

Record TriageResult := {
  risk : RiskLevel;
  r_reasons : list string;
  proposedAction : string;
  confidence : option Q;   (* [None]: NaN, when there is no score *)
  citations : list string;
  r_fallbackUsed : bool;
  r_traces : list AgentTrace
}.

Definition generateDecision (st : State) : TriageResult :=
  let riskSignals := or_default (context st) "riskSignals" DefaultRisk in
  let kbResults := or_default (context st) "kbLookup" DefaultKb in
  let complianceCheck :=
    or_default (context st) "proposeAction" DefaultCompliance in
  let at_least (n : Z) :=
    match prop_score riskSignals with
    | Some s => s >=? n
    | None => false
    end in
  let risk := if at_least 80 then high
              else if at_least 50 then medium
              else low in
  let risk := match fallbackUsed st, risk with
              | true, high => medium
              | _, r => r
              end in
  let proposedAction :=
    match prop_action complianceCheck with
    | Some a => a
    | None =>
        match risk with
        | high => "freeze_card"
        | medium => "open_dispute"
        | low => "false_positive"
        end
    end in
  let confidence :=
    match prop_score riskSignals with
    | Some s =>
        if fallbackUsed st
        then Some (Qmin (times_0_7 s) 70)
        else Some (inject_Z s)
    | None => None
    end in
  {| risk := risk;
     r_reasons := default [] (prop_reasons riskSignals);
     proposedAction := proposedAction;
     confidence := confidence;
     citations := default [] (prop_citations kbResults);
     r_fallbackUsed := fallbackUsed st;
     r_traces := traces st |}.

(** [execute()]: the state at the end of the loop and the decision.
    The breaker table is the one left by earlier runs. *)
Definition initial (cb : gmap string Breaker) : State :=
  {| traces := []; fallbackUsed := false; context := ∅;
     events := [plan_built buildPlan]; circuitBreakers := cb |}.

Definition execute (cb : gmap string Breaker) : State * TriageResult :=
  let st := run_steps buildPlan 0 (initial cb) in
  (st, generateDecision st).

(** *** One step *)

Definition ok_trace (step : string) (i : nat) (r : Obj) : AgentTrace :=
  {| seq := i; step := step; ok := true;
     durationMs := at_end (clock i) - at_start (clock i);
     detail := DetailResult (redact r) |}.

Definition failed_trace (step : string) (i : nat) (m : string) : AgentTrace :=
  {| seq := i; step := step; ok := false;
     durationMs := at_end (clock i) - at_start (clock i);
     detail := DetailError m |}.

(** The three ways a step can go: refused by its open breaker (no
    trace), returned, or threw. *)
Inductive stepped (step : string) (i : nat) (st : State)
    : bool -> State -> Prop :=
| stepped_refused cb :
    isCircuitOpen step (at_breaker (clock i)) (circuitBreakers st) = (true, cb) ->
    stepped step i st false
      {| traces := traces st; fallbackUsed := fallbackUsed st;
         context := context st; events := events st;
         circuitBreakers := cb |}
| stepped_returned r cb :
    stepped step i st true
      {| traces := traces st ++ [ok_trace step i r];
         fallbackUsed := fallbackUsed st;
         context := <[step := r]> (context st);
         events := events st ++ [tool_update step true];
         circuitBreakers := cb |}
| stepped_threw m cb :
    stepped step i st false
      {| traces := traces st ++ [failed_trace step i m];
         fallbackUsed := fallbackUsed st;
         context := context st;
         events := events st ++ [tool_update step false];
         circuitBreakers := cb |}.

Lemma executeStep_stepped step i st :
  stepped step i st (executeStep step i st).1 (executeStep step i st).2.
Proof.
  unfold executeStep.
  destruct (isCircuitOpen step (at_breaker (clock i)) (circuitBreakers st))
    as [open cb] eqn:Eo.
  destruct open.
  - cbn. by apply stepped_refused.
  - destruct (call step (context st)) as [r|m]; cbn.
    + apply (stepped_returned step i st r).
    + apply (stepped_threw step i st m).
Qed.

Lemma run_steps_cons step rest i st :
  run_steps (step :: rest) i st
  = if negb (executeStep step i st).1 && isStepCritical step
    then triggerFallback step (executeStep step i st).2
    else run_steps rest (S i) (executeStep step i st).2.
Proof. cbn [run_steps]. by destruct (executeStep step i st). Qed.

(** *** Invariants of the loop *)

Definition triggered (st : State) : Prop :=
  exists s, fallback_triggered s ∈ events st.

(** [fallbackUsed] is set exactly when a fallback was triggered. *)
Definition flag_matches_events (st : State) : Prop :=
  fallbackUsed st = true <-> triggered st.

(** A state of a run that has not stopped. *)
Record running (st : State) : Prop := {
  run_flag : fallbackUsed st = false;
  run_events : forall s, fallback_triggered s ∉ events st;
  run_critical : forall t, t ∈ traces st -> ok t = false ->
                   isStepCritical (step t) = false
}.

(** What holds once the loop is left. *)
Record finished (st : State) : Prop := {
  fin_flag : flag_matches_events st;
  fin_subst : forall s, fallback_triggered s ∈ events st ->
                context st !! s = Some (fallback_for s);
  fin_guard : forall s, fallback_triggered s ∈ events st ->
                isStepCritical s = true;
  fin_critical : forall t, t ∈ traces st -> ok t = false ->
                   isStepCritical (step t) = true ->
                   fallbackUsed st = true
                   /\ fallback_triggered (step t) ∈ events st
                   /\ context st !! step t = Some FallbackGeneric
                   /\ last (traces st) = Some t
}.

Lemma running_finished st : running st -> finished st.
Proof.
  intros [Hf He Hc]. split.
  - split; [congruence|]. intros [s Hs]. by destruct (He s).
  - intros s Hs. by destruct (He s).
  - intros s Hs. by destruct (He s).
  - intros t Ht Hok Hcrit. rewrite (Hc t Ht Hok) in Hcrit. discriminate.
Qed.

Lemma fallback_for_critical s :
  isStepCritical s = true -> fallback_for s = FallbackGeneric.
Proof.
  unfold isStepCritical. intros H. apply bool_decide_eq_true in H.
  repeat (apply elem_of_cons in H as [->|H]; [reflexivity|]).
  by apply elem_of_nil in H.
Qed.

Lemma stepped_running step i st b st' :
  stepped step i st b st' -> running st ->
  negb b && isStepCritical step = false -> running st'.
Proof.
  intros Hs [Hf He Hc] Hgo.
  destruct Hs as [cb Ho|r cb|m cb]; split; cbn [traces fallbackUsed events];
    try assumption.
  - intros s Hs. apply elem_of_app in Hs as [Hs|Hs]; [by destruct (He s)|].
    apply list_elem_of_singleton in Hs. discriminate.
  - intros t Ht Hok. apply elem_of_app in Ht as [Ht|Ht]; [by apply Hc|].
    apply list_elem_of_singleton in Ht. subst t. discriminate.
  - intros s Hs. apply elem_of_app in Hs as [Hs|Hs]; [by destruct (He s)|].
    apply list_elem_of_singleton in Hs. discriminate.
  - intros t Ht Hok. apply elem_of_app in Ht as [Ht|Ht]; [by apply Hc|].
    apply list_elem_of_singleton in Ht. subst t. cbn in *. exact Hgo.
Qed.

Lemma stepped_stops nm i st b st' :
  stepped nm i st b st' -> running st ->
  negb b && isStepCritical nm = true ->
  finished (triggerFallback nm st').
Proof.
  intros Hs [Hf He Hc] Hstop.
  apply andb_true_iff in Hstop as [Hb Hcrit].
  assert (Hev : forall s, fallback_triggered s ∈ events st' -> False).
  { intros s Hin.
    destruct Hs; cbn [events] in Hin;
      try (apply elem_of_app in Hin as [Hin|Hin];
           [|apply list_elem_of_singleton in Hin; discriminate]);
      by destruct (He s). }
  assert (Hsub : forall s,
            fallback_triggered s ∈ events (triggerFallback nm st') -> s = nm).
  { intros s Hin. cbn [triggerFallback events] in Hin.
    apply elem_of_app in Hin as [Hin|Hin]; [by destruct (Hev s)|].
    apply list_elem_of_singleton in Hin. congruence. }
  assert (Hhere : fallback_triggered nm ∈ events (triggerFallback nm st')).
  { cbn [triggerFallback events]. apply elem_of_app. right.
    by apply list_elem_of_singleton. }
  split.
  - split; [intros _; by exists nm | reflexivity].
  - intros s Hin. rewrite (Hsub s Hin). cbn [triggerFallback context].
    apply lookup_insert_eq.
  - intros s Hin. by rewrite (Hsub s Hin).
  - intros t Ht Hok Hct. cbn [triggerFallback traces] in Ht.
    assert (Ht' : t = failed_trace nm i (match detail t with
                                           | DetailError m => m
                                           | _ => ""
                                           end)
                  /\ last (traces st') = Some t).
    { destruct Hs as [cb Ho|r cb|m cb]; cbn [traces] in Ht |- *.
      - rewrite (Hc t Ht Hok) in Hct. discriminate.
      - discriminate.
      - apply elem_of_app in Ht as [Ht|Ht].
        + rewrite (Hc t Ht Hok) in Hct. discriminate.
        + apply list_elem_of_singleton in Ht. subst t. cbn.
          split; [reflexivity | apply last_snoc]. }
    destruct Ht' as [Et Hlast].
    assert (Est : step t = nm) by (rewrite Et; reflexivity).
    repeat split.
    + rewrite Est. exact Hhere.
    + rewrite Est. cbn [triggerFallback context].
      rewrite lookup_insert_eq. f_equal. by apply fallback_for_critical.
    + exact Hlast.
Qed.

Lemma run_steps_finished steps : forall i st,
  running st -> finished (run_steps steps i st).
Proof.
  induction steps as [|step rest IH]; intros i st Hrun.
  - by apply running_finished.
  - rewrite run_steps_cons.
    pose proof (executeStep_stepped step i st) as Hs.
    destruct (negb (executeStep step i st).1 && isStepCritical step) eqn:E.
    + by eapply stepped_stops.
    + apply IH. by eapply stepped_running.
Qed.

Lemma initial_running cb : running (initial cb).
Proof.
  split; cbn.
  - reflexivity.
  - intros s Hs. apply list_elem_of_singleton in Hs. discriminate.
  - intros t Ht. by apply elem_of_nil in Ht.
Qed.

(** *** Counting the traces *)

Lemma stepped_flag nm i st b st' :
  stepped nm i st b st' -> fallbackUsed st' = fallbackUsed st.
Proof. by destruct 1. Qed.

Lemma run_steps_stopped steps : forall i st,
  fallbackUsed st = false ->
  let st' := run_steps steps i st in
  (length (traces st') <= length (traces st) + length steps)%nat
  /\ (fallbackUsed st' = true ->
      (exists t, t ∈ traces st' /\ ok t = false)
      \/ (length (traces st') < length (traces st) + length steps)%nat).
Proof.
  induction steps as [|nm rest IH]; intros i st Hf; cbv zeta.
  - cbn. split; [lia | congruence].
  - rewrite run_steps_cons.
    pose proof (executeStep_stepped nm i st) as Hs.
    destruct (negb (executeStep nm i st).1 && isStepCritical nm) eqn:E.
    + apply andb_true_iff in E as [Hb _]. apply negb_true_iff in Hb.
      destruct Hs as [cb Ho|r cb|m cb]; try discriminate;
        cbn [triggerFallback traces length].
      * split; [lia | intros _; right; lia].
      * rewrite length_app. cbn [length]. split; [lia|].
        intros _. left. exists (failed_trace nm i m).
        split; [|reflexivity]. apply elem_of_app. right.
        by apply list_elem_of_singleton.
    + specialize (IH (S i) (executeStep nm i st).2).
      rewrite (stepped_flag _ _ _ _ _ Hs) in IH.
      specialize (IH Hf). cbv zeta in IH. destruct IH as [Hlen Hstop].
      assert (Hgrow : (length (traces (executeStep nm i st).2)
                       <= length (traces st) + 1)%nat).
      { destruct Hs; cbn [traces]; rewrite ?length_app; cbn [length]; lia. }
      cbn [length]. split; [lia|].
      intros Hu. destruct (Hstop Hu) as [Ht|Hlt]; [by left | right; lia].
Qed.

(** *** The positions recorded in the traces *)

Lemma run_steps_positions steps : forall i st,
  exists new,
    traces (run_steps steps i st) = traces st ++ new
    /\ StronglySorted lt (seq <$> new)
    /\ Forall (fun t => (i <= seq t)%nat
                        /\ steps !! (seq t - i)%nat = Some (step t)) new.
Proof.
  induction steps as [|nm rest IH]; intros i st.
  - exists []. cbn. rewrite app_nil_r. repeat split; constructor.
  - rewrite run_steps_cons.
    pose proof (executeStep_stepped nm i st) as Hs.
    assert (Hone : exists one,
              traces (executeStep nm i st).2 = traces st ++ one
              /\ Forall (fun t => seq t = i /\ step t = nm) one
              /\ (length one <= 1)%nat).
    { destruct Hs as [cb Ho|r cb|m cb]; cbn [traces].
      - exists []. rewrite app_nil_r. repeat split; [constructor | cbn; lia].
      - exists [ok_trace nm i r]. repeat split; [|cbn; lia].
        by repeat constructor.
      - exists [failed_trace nm i m]. repeat split; [|cbn; lia].
        by repeat constructor. }
    destruct Hone as (one & Eone & Hone & Hlen).
    assert (Hhere : Forall (fun t => (i <= seq t)%nat
                       /\ (nm :: rest) !! (seq t - i)%nat = Some (step t)) one).
    { eapply Forall_impl; [exact Hone|]. intros t [-> ->].
      split; [lia|]. by rewrite Nat.sub_diag. }
    assert (Hsort1 : StronglySorted lt (seq <$> one)).
    { destruct one as [|t [|t' one']]; cbn in Hlen; try lia;
        repeat constructor. }
    destruct (negb (executeStep nm i st).1 && isStepCritical nm).
    + exists one. cbn [triggerFallback traces]. by repeat split.
    + destruct (IH (S i) (executeStep nm i st).2) as (new & Enew & Hsort & Hpos).
      exists (one ++ new). rewrite Enew, Eone, app_assoc.
      split; [reflexivity|]. split.
      * rewrite fmap_app.
        destruct one as [|t [|t' one']]; cbn in Hlen; try lia; [exact Hsort|].
        cbn. constructor; [exact Hsort|].
        apply Forall_fmap. eapply Forall_impl; [exact Hpos|].
        intros u [Hu _]. cbn.
        apply Forall_inv in Hone as [-> _]. lia.
      * apply Forall_app. split; [exact Hhere|].
        eapply Forall_impl; [exact Hpos|]. intros u [Hu Hl].
        split; [lia|].
        replace (seq u - i)%nat with (S (seq u - S i)) by lia. exact Hl.
Qed.

(** A step whose breaker is not open is never refused. *)
Definition closed (cb : gmap string Breaker) (nm : string) : Prop :=
  forall b, cb !! nm = Some b -> isOpen b = false.

Lemma isCircuitOpen_closed nm now cb :
  closed cb nm -> isCircuitOpen nm now cb = (false, cb).
Proof.
  intros Hc. unfold isCircuitOpen.
  destruct (cb !! nm) as [b|] eqn:E; [|reflexivity].
  by rewrite (Hc b E).
Qed.

Lemma executeStep_other_breakers nm i st other :
  other <> nm ->
  circuitBreakers (executeStep nm i st).2 !! other
  = circuitBreakers st !! other.
Proof.
  intros Hne. unfold executeStep.
  assert (Hopen : forall b cb',
            isCircuitOpen nm (at_breaker (clock i)) (circuitBreakers st) = (b, cb') ->
            cb' !! other = circuitBreakers st !! other).
  { intros b cb'. unfold isCircuitOpen.
    destruct (circuitBreakers st !! nm) as [br|]; [|by intros [= _ <-]].
    destruct (isOpen br); [|by intros [= _ <-]].
    destruct (_ >? _); intros [= _ <-]; [|reflexivity].
    by rewrite lookup_insert_ne. }
  destruct (isCircuitOpen nm (at_breaker (clock i)) (circuitBreakers st))
    as [open cb'] eqn:Eo.
  specialize (Hopen _ _ eq_refl).
  destruct open; [exact Hopen|].
  destruct (call nm (context st)); cbn [snd circuitBreakers].
  - unfold resetCircuitBreaker. destruct (cb' !! nm); [|exact Hopen].
    by rewrite lookup_insert_ne.
  - unfold recordFailure. by rewrite lookup_insert_ne.
Qed.

Lemma run_steps_contiguous steps : forall i st,
  NoDup steps ->
  (forall nm, nm ∈ steps -> closed (circuitBreakers st) nm) ->
  exists new,
    traces (run_steps steps i st) = traces st ++ new
    /\ seq <$> new = List.seq i (length new).
Proof.
  induction steps as [|nm rest IH]; intros i st Hnd Hcl.
  - exists []. cbn. by rewrite app_nil_r.
  - rewrite run_steps_cons.
    apply NoDup_cons in Hnd as [Hnotin Hnd].
    assert (Hnm : closed (circuitBreakers st) nm).
    { apply Hcl. apply elem_of_cons. by left. }
    assert (Hrest : forall o, o ∈ rest ->
              closed (circuitBreakers (executeStep nm i st).2) o).
    { intros o Ho b. rewrite executeStep_other_breakers.
      - apply Hcl. apply elem_of_cons. by right.
      - intros ->. by apply Hnotin. }
    assert (Hone : exists t, seq t = i
              /\ traces (executeStep nm i st).2 = traces st ++ [t]).
    { unfold executeStep. rewrite (isCircuitOpen_closed _ _ _ Hnm).
      destruct (call nm (context st)); cbn [snd traces];
        eexists; split; try reflexivity; reflexivity. }
    destruct Hone as (t & Et & Etr).
    destruct (negb (executeStep nm i st).1 && isStepCritical nm).
    + exists [t]. cbn [triggerFallback traces]. rewrite Etr.
      split; [reflexivity|]. cbn. by rewrite Et.
    + destruct (IH (S i) (executeStep nm i st).2 Hnd Hrest) as (new & E1 & E2).
      exists (t :: new). rewrite E1, Etr, <- app_assoc.
      split; [reflexivity|]. cbn. rewrite Et. f_equal. exact E2.
Qed.

Lemma noncritical_never_stops steps : forall i st,
  Forall (fun nm => isStepCritical nm = false) steps ->
  fallbackUsed (run_steps steps i st) = fallbackUsed st.
Proof.
  induction steps as [|nm rest IH]; intros i st Hall; [reflexivity|].
  rewrite run_steps_cons.
  apply Forall_cons in Hall as [Hnm Hall].
  rewrite Hnm, andb_false_r. rewrite IH by exact Hall.
  by eapply stepped_flag, executeStep_stepped.
Qed.

(** A run that stops on a critical step never reaches the last step
    of the plan. *)
Lemma short_circuit_context cb :
  let st := run_steps buildPlan 0 (initial cb) in
  fallbackUsed st = true -> context st !! "proposeAction" = None.
Proof.
  cbv zeta. unfold buildPlan.
  rewrite run_steps_cons.
  pose proof (executeStep_stepped "getProfile" 0 (initial cb)) as H0.
  destruct (negb (executeStep "getProfile" 0 (initial cb)).1
            && isStepCritical "getProfile") eqn:E0.
  { intros _. apply andb_true_iff in E0 as [Hb _].
    apply negb_true_iff in Hb.
    destruct H0; try discriminate; cbn [triggerFallback context initial];
      by rewrite lookup_insert_ne, lookup_empty. }
  set (st0 := (executeStep "getProfile" 0 (initial cb)).2) in *.
  assert (Hc0 : context st0 !! "proposeAction" = None).
  { destruct H0; cbn [context initial]; rewrite ?lookup_insert_ne by done;
      apply lookup_empty. }
  rewrite run_steps_cons.
  pose proof (executeStep_stepped "recentTx" 1 st0) as H1.
  destruct (negb (executeStep "recentTx" 1 st0).1
            && isStepCritical "recentTx") eqn:E1.
  { intros _. apply andb_true_iff in E1 as [Hb _].
    apply negb_true_iff in Hb.
    destruct H1; try discriminate; cbn [triggerFallback context];
      by rewrite lookup_insert_ne. }
  rewrite noncritical_never_stops by (repeat constructor).
  rewrite (stepped_flag _ _ _ _ _ H1), (stepped_flag _ _ _ _ _ H0).
  discriminate.
Qed.

End Run.

(** The action that the decision derives from the risk level. *)
Definition action_for (r : RiskLevel) : string :=
  match r with
  | high => "freeze_card"
  | medium => "open_dispute"
  | low => "false_positive"
  end.

(** *** Sample collaborators *)

Definition sample_result (nm : string) : Obj :=
  if String.eqb nm "getProfile" then Profile (Some "cust_001")
  else if String.eqb nm "recentTx" then
    Transactions [ {| Insights.merchant := "Corner Bakery";
                      Insights.amountCents := 1000 |} ]
  else if String.eqb nm "riskSignals" then
    Fraud {| score := 20; reasons := ["Transaction at new merchant"];
             action := "monitor" |}
  else if String.eqb nm "kbLookup" then
    KbSearch {| Kb.results := [];
                Kb.citations := ["No relevant knowledge base articles found"] |}
  else if String.eqb nm "decide" then
    Insight {| Insights.level := Insights.low; Insights.confidence := 85;
               Insights.keyFactors := ["Transaction at new merchant"] |}
  else
    Compliance {| c_action := "contact_customer"; approved := true;
                  requiresOTP := false; blockedBy := None |}.

(** Every call returns, except the one of step [bad], which throws. *)
Definition agents_failing (bad : string) (message : string)
    (nm : string) (ctx : gmap string Obj) : Outcome :=
  if String.eqb nm bad then Threw message else Returned (sample_result nm).

Definition agents_ok (nm : string) (ctx : gmap string Obj) : Outcome :=
  Returned (sample_result nm).

Definition clock_at (t : Z) (i : nat) : StepClock :=
  {| at_start := t; at_breaker := t; at_end := t; at_failure := t |}.

Definition no_redaction (o : Obj) : Obj := o.

(** C1, as amended.  In every completed run [fallbackUsed] is set
    exactly when a fallback was triggered, and every triggered
    fallback has put its substitute into the context; a failed
    critical step (getProfile, recentTx) triggers one, the substitute
    being [{fallback: true, reason: 'Service unavailable'}], and its
    trace is the last of the run; and a run in which all six steps
    succeeded has [fallbackUsed = false]. *)
Theorem fallback_used_on_critical_failure
    (agents : string -> gmap string Obj -> Outcome)
    (clock : nat -> StepClock) (redact : Obj -> Obj)
    (cb : gmap string Breaker) :
  let st := (execute agents clock redact cb).1 in
  let decision := (execute agents clock redact cb).2 in
  (fallbackUsed st = true <-> exists s, fallback_triggered s ∈ events st)
  /\ (forall s, fallback_triggered s ∈ events st ->
        context st !! s = Some (fallback_for s))
  /\ (forall t, t ∈ traces st -> ok t = false ->
        isStepCritical (step t) = true ->
        fallbackUsed st = true
        /\ fallback_triggered (step t) ∈ events st
        /\ context st !! step t = Some FallbackGeneric
        /\ last (traces st) = Some t)
  /\ (length (traces st) = 6%nat ->
      Forall (fun t => ok t = true) (traces st) ->
      fallbackUsed st = false)
  /\ r_fallbackUsed decision = fallbackUsed st.
Proof.
  cbv zeta. unfold execute. cbn [fst snd].
  pose proof (run_steps_finished agents clock redact buildPlan 0 (initial cb)
                (initial_running cb)) as [Hflag Hsub _ Hcrit].
  split; [exact Hflag|]. split; [exact Hsub|]. split; [exact Hcrit|].
  split; [|reflexivity].
  intros Hlen Hok.
  destruct (fallbackUsed (run_steps agents clock redact buildPlan 0 (initial cb)))
    eqn:Hu; [|reflexivity].
  destruct (run_steps_stopped agents clock redact buildPlan 0 (initial cb) eq_refl)
    as [_ Hstop].
  cbv zeta in Hstop. destruct (Hstop Hu) as [(t & Ht & Hf)|Hlt].
  - rewrite Forall_forall in Hok. rewrite (Hok t Ht) in Hf. discriminate.
  - rewrite Hlen in Hlt. cbn in Hlt. lia.
Qed.

(** The guard of the loop: a fallback is triggered for critical steps
    only, so the riskSignals and kbLookup substitutes of
    [triggerFallback] are never written. *)
Lemma fallback_triggered_only_for_critical
    (agents : string -> gmap string Obj -> Outcome)
    (clock : nat -> StepClock) (redact : Obj -> Obj)
    (cb : gmap string Breaker) (s : string) :
  fallback_triggered s ∈ events (execute agents clock redact cb).1 ->
  isStepCritical s = true
  /\ context (execute agents clock redact cb).1 !! s = Some FallbackGeneric.
Proof.
  unfold execute. cbn [fst]. intros Hs.
  pose proof (run_steps_finished agents clock redact buildPlan 0 (initial cb)
                (initial_running cb)) as [_ Hsub Hguard _].
  split; [by apply Hguard|].
  rewrite (Hsub s Hs). f_equal. apply fallback_for_critical. by apply Hguard.
Qed.

Lemma fallback_used_on_critical_failure_witness :
  let st := (execute agents_ok (clock_at 1000) no_redaction ∅).1 in
  (length (traces st) = 6%nat /\ Forall (fun t => ok t = true) (traces st))
  /\ fallbackUsed st = false.
Proof.
  cbv zeta.
  assert (H : length (traces (execute agents_ok (clock_at 1000) no_redaction ∅).1)
              = 6%nat
              /\ Forall (fun t => ok t = true)
                   (traces (execute agents_ok (clock_at 1000) no_redaction ∅).1)).
  { split; [vm_compute; reflexivity|]. vm_compute. repeat constructor. }
  split; [exact H|].
  exact (proj1 (proj2 (proj2 (proj2
    (fallback_used_on_critical_failure agents_ok (clock_at 1000)
       no_redaction ∅)))) (proj1 H) (proj2 H)).
Defined.

(** C1, as stated, fails in both directions.  When the data store
    fails on getProfile, [fallbackUsed] is set although no non-critical
    step failed; when riskSignals fails, [fallbackUsed] stays unset and
    nothing is substituted for the step. *)
Lemma fallback_used_not_about_noncritical :
  let non_critical_failure (st : State) :=
    exists t, t ∈ traces st /\ ok t = false /\ isStepCritical (step t) = false in
  let st1 := (execute (agents_failing "getProfile" "connection refused")
                (clock_at 1000) no_redaction ∅).1 in
  let st2 := (execute (agents_failing "riskSignals" "Suspect transaction not found")
                (clock_at 1000) no_redaction ∅).1 in
  (fallbackUsed st1 = true /\ ~ non_critical_failure st1)
  /\ (fallbackUsed st2 = false /\ non_critical_failure st2
      /\ context st2 !! "riskSignals" = None).
Proof.
  cbv zeta. split; [split|split; [|split]].
  - vm_compute. reflexivity.
  - intros (t & Ht & Hok & Hc). revert Ht. vm_compute. intros Ht.
    apply list_elem_of_singleton in Ht. subst t. discriminate.
  - vm_compute. reflexivity.
  - eexists. split; [|split].
    + apply list_elem_of_lookup. exists 2%nat. vm_compute. reflexivity.
    + reflexivity.
    + vm_compute. reflexivity.
  - vm_compute. reflexivity.
Qed.

(** *** Positions of the traces *)

Lemma buildPlan_NoDup : NoDup buildPlan.
Proof.
  unfold buildPlan.
  repeat (apply NoDup_cons; split;
          [intros H; repeat (apply elem_of_cons in H as [H|H];
                             [discriminate|]);
           by apply elem_of_nil in H|]).
  apply NoDup_nil_2.
Qed.

(** C2, as amended.  The [seq] of a recorded trace is the position of
    its step in the plan, and the values are strictly increasing along
    the trace list, so none occurs twice.  A step refused by its open
    circuit breaker records no trace; when no breaker is open at the
    start of the run, the values are exactly [0 .. n-1]. *)
Theorem trace_seq_is_plan_position
    (agents : string -> gmap string Obj -> Outcome)
    (clock : nat -> StepClock) (redact : Obj -> Obj)
    (cb : gmap string Breaker) :
  let st := (execute agents clock redact cb).1 in
  StronglySorted lt (seq <$> traces st)
  /\ NoDup (seq <$> traces st)
  /\ Forall (fun t => buildPlan !! seq t = Some (step t)) (traces st)
  /\ ((forall nm, closed cb nm) ->
      seq <$> traces st = List.seq 0 (length (traces st))).
Proof.
  cbv zeta. unfold execute. cbn [fst].
  destruct (run_steps_positions agents clock redact buildPlan 0 (initial cb))
    as (new & Enew & Hsort & Hpos).
  cbn [initial traces app] in Enew. rewrite Enew.
  split; [exact Hsort|]. split; [|split].
  - clear -Hsort. induction Hsort as [|x l Hs IH Hall]; constructor.
    + intros Hin. rewrite Forall_forall in Hall.
      specialize (Hall x Hin). lia.
    + exact IH.
  - eapply Forall_impl; [exact Hpos|]. intros t [_ Ht].
    by rewrite Nat.sub_0_r in Ht.
  - intros Hcl.
    destruct (run_steps_contiguous agents clock redact buildPlan 0 (initial cb)
                buildPlan_NoDup) as (new' & E1 & E2).
    { intros nm _. apply Hcl. }
    cbn [initial traces app] in E1. rewrite Enew in E1. subst new'.
    exact E2.
Qed.

Lemma trace_seq_is_plan_position_witness :
  (forall nm, closed ∅ nm)
  /\ seq <$> traces (execute agents_ok (clock_at 1000) no_redaction ∅).1
     = [0; 1; 2; 3; 4; 5]%nat.
Proof.
  assert (H : forall nm, closed ∅ nm).
  { intros nm b Hb. rewrite lookup_empty in Hb. discriminate. }
  split; [exact H|].
  exact (proj2 (proj2 (proj2
    (trace_seq_is_plan_position agents_ok (clock_at 1000) no_redaction ∅))) H).
Defined.

(** Three failures of riskSignals in earlier runs, the last of them one
    second before this run. *)
Definition risk_breaker_open : gmap string Breaker :=
  {[ "riskSignals" := {| failures := 3; lastFailure := 0; isOpen := true |} ]}.

(** C2, as stated, fails: with the breaker of riskSignals open and all
    other steps succeeding, the step leaves no trace and the recorded
    values are 0, 1, 3, 4, 5. *)
Lemma trace_seq_gap_when_breaker_open :
  let st := (execute agents_ok (clock_at 1000) no_redaction risk_breaker_open).1 in
  seq <$> traces st = [0; 1; 3; 4; 5]%nat
  /\ step <$> traces st
     = ["getProfile"; "recentTx"; "kbLookup"; "decide"; "proposeAction"]
  /\ seq <$> traces st <> List.seq 0 (length (traces st)).
Proof.
  cbv zeta. split; [vm_compute; reflexivity|].
  split; [vm_compute; reflexivity|]. vm_compute. discriminate.
Qed.

(** *** The decision *)

(** C3, as amended.  The proposed action is the action of the
    ProposeAction result when the context holds one; it is
    [contact_customer] when the context holds no ProposeAction entry;
    and it is derived from the risk level (freeze_card, open_dispute,
    false_positive) only for an entry without an action.  A run that
    stops on a critical failure holds no ProposeAction entry, so its
    proposed action is [contact_customer]. *)
Theorem proposed_action_composition
    (agents : string -> gmap string Obj -> Outcome)
    (clock : nat -> StepClock) (redact : Obj -> Obj)
    (cb : gmap string Breaker) (st : State) :
  (let d := generateDecision st in
   match context st !! "proposeAction" with
   | Some o =>
       if truthy o then
         match prop_action o with
         | Some a => proposedAction d = a
         | None => proposedAction d = action_for (risk d)
         end
       else proposedAction d = "contact_customer"
   | None => proposedAction d = "contact_customer"
   end)
  /\ (let run := execute agents clock redact cb in
      fallbackUsed run.1 = true ->
      proposedAction run.2 = "contact_customer").
Proof.
  split.
  - cbv zeta. unfold generateDecision, or_default. cbn [proposedAction risk].
    destruct (context st !! "proposeAction") as [o|]; [|reflexivity].
    destruct (truthy o); [|reflexivity].
    destruct (prop_action o) as [a|]; [reflexivity|].
    unfold action_for.
    by destruct (match fallbackUsed st with true => _ | false => _ end).
  - cbv zeta. unfold execute. cbn [fst snd]. intros Hu.
    pose proof (short_circuit_context agents clock redact cb Hu) as Hctx.
    unfold generateDecision, or_default. cbn [proposedAction].
    rewrite Hctx. reflexivity.
Qed.

Lemma proposed_action_composition_witness :
  let run := execute (agents_failing "getProfile" "connection refused")
               (clock_at 1000) no_redaction ∅ in
  fallbackUsed run.1 = true /\ proposedAction run.2 = "contact_customer".
Proof.
  cbv zeta.
  assert (H : fallbackUsed
                (execute (agents_failing "getProfile" "connection refused")
                   (clock_at 1000) no_redaction ∅).1 = true).
  { vm_compute. reflexivity. }
  split; [exact H|].
  exact (proj2 (proposed_action_composition
                  (agents_failing "getProfile" "connection refused")
                  (clock_at 1000) no_redaction ∅ (initial ∅)) H).
Defined.

(** C3, as stated, fails: when the data store fails on getProfile the
    run stops, the risk is low, and the proposed action is
    [contact_customer], not [false_positive]. *)
Lemma short_circuit_proposes_contact_customer :
  let run := execute (agents_failing "getProfile" "connection refused")
               (clock_at 1000) no_redaction ∅ in
  ok <$> traces run.1 = [false]
  /\ context run.1 !! "proposeAction" = None
  /\ risk run.2 = low
  /\ proposedAction run.2 = "contact_customer"
  /\ proposedAction run.2 <> "false_positive".
Proof.
  cbv zeta. repeat split; try (vm_compute; reflexivity).
  vm_compute. discriminate.
Qed.

End Orchestrator.

(* ===================================================================== *)
(** ** routes/insights.ts, second router : the four action end points *)
(* ===================================================================== *)

Module Actions.

(** *** The data store and the cache *)

Record Card := { card_customerId : string; card_status : string }.

Record Case := {
  case_id : string;
  case_customerId : string;
  case_txnId : option string;
  case_type : string;
  case_status : string;
  case_reasonCode : string
}.

Record CaseEvent := {
  ev_caseId : string;
  ev_actor : string;
  ev_action : string;
  ev_timestamp : Z
}.

Record Alert := { alert_suspectTxnId : string; alert_status : string }.

Record Transaction := {
  txn_customerId : string;
  txn_amountCents : Z;
  txn_merchant : string
}.

Record Db := {
  cards : gmap string Card;
  cases : list Case;
  caseEvents : list CaseEvent;
  alerts : gmap string Alert;
  transactions : gmap string Transaction
}.

(** The JSON bodies of the responses. *)
Inductive Body :=
| ErrorBody (error : string)
| ValidationBody (errors : list string)
| ContactBody (requestId : nat) (caseId : string)
    (* {success: true, message, requestId, caseId} *)
| FreezeBody (status : string) (requestId : nat) (cardId : option string)
    (message : string) (otpSent : bool) (timestamp : Z)
| FalsePositiveBody (caseId : string)
    (* {status: 'CLOSED_FALSE_POSITIVE', caseId, message} *)
| DisputeBody (caseId : string) (status : string)
    (txnId reasonCode : option string) (message : string)
    (requestId : nat) (timestamp : Z).

Record Response := { code : Z; body : Body }.

(** A cached result ([setex key 3600 JSON.stringify(result)]; the JSON
    text parses back to the same body) and its expiry in ms. *)
Record Cached := { result : Body; expiresAt : Z }.

Record World := { db : Db; redis : gmap string Cached }.

Definition redis_get (redis : gmap string Cached) (key : string) (now : Z)
    : option Body :=
  match redis !! key with
  | Some c => if now <=? expiresAt c then Some (result c) else None
  | None => None
  end.

Definition redis_setex (redis : gmap string Cached) (key : string)
    (seconds : Z) (v : Body) (now : Z) : gmap string Cached :=
  <[key := {| result := v; expiresAt := now + seconds * 1000 |}]> redis.

(** What a request carries besides its body: the authenticated user,
    the [Idempotency-Key] header, the [uuidv4()] drawn for it, the id
    that the data store gives to the case created for it (the [id] of
    the record that [case.create] returns), and the time at which it
    is served. *)
Record Meta := {
  userId : string;
  userRole : string;
  idempotencyKey : option string;
  requestId : nat;
  newCaseId : string;
  now : Z
}.

(** [if (idempotencyKey)]: the header is present and not empty. *)
Definition header (m : Meta) : option string :=
  match idempotencyKey m with
  | Some "" => None
  | k => k
  end.

(** [x || dflt] and [!x] on an optional string. *)
Definition present (x : option string) : bool :=
  match x with Some "" | None => false | Some _ => true end.

(** [case.create({data})]; [caseId] is the id of the new record. *)
Definition create_case (d : Db) (caseId : string) (customerId : string)
    (txnId : option string) (type status reasonCode : string) : Db :=
  {| cards := cards d;
     cases := cases d ++ [{| case_id := caseId;
                             case_customerId := customerId;
                             case_txnId := txnId;
                             case_type := type;
                             case_status := status;
                             case_reasonCode := reasonCode |}];
     caseEvents := caseEvents d;
     alerts := alerts d;
     transactions := transactions d |}.

Definition create_event (d : Db) (caseId : string) (actor action : string)
    (timestamp : Z) : Db :=
  {| cards := cards d;
     cases := cases d;
     caseEvents := caseEvents d ++ [{| ev_caseId := caseId; ev_actor := actor;
                                       ev_action := action;
                                       ev_timestamp := timestamp |}];
     alerts := alerts d;
     transactions := transactions d |}.

(** [alert.update({where: {id}, data: {status}})]: fails when there is
    no such alert. *)
Definition update_alert (d : Db) (alertId status : string) : option Db :=
  match alerts d !! alertId with
  | Some a =>
      Some {| cards := cards d; cases := cases d; caseEvents := caseEvents d;
              alerts := <[alertId := {| alert_suspectTxnId := alert_suspectTxnId a;
                                        alert_status := status |}]> (alerts d);
              transactions := transactions d |}
  | None => None
  end.

Definition update_card (d : Db) (cardId status : string) : Db :=
  match cards d !! cardId with
  | Some c =>
      {| cards := <[cardId := {| card_customerId := card_customerId c;
                                 card_status := status |}]> (cards d);
         cases := cases d; caseEvents := caseEvents d; alerts := alerts d;
         transactions := transactions d |}
  | None => d
  end.

(** *** POST /contact-customer *)

Record AlertRequest := {
  a_alertId : option string;
  a_customerId : option string;
  a_suspectTxnId : option string
}.

Definition contact_customer (m : Meta) (req : AlertRequest) (w : World)
    : World * Response :=
  if negb (present (a_alertId req)) || negb (present (a_customerId req)) then
    (w, {| code := 400; body := ErrorBody "alertId and customerId are required" |})
  else
    let alertId := default "" (a_alertId req) in
    let customerId := default "" (a_customerId req) in
    let caseId := newCaseId m in
    let d := create_case (db w) caseId customerId
               (* suspectTxnId || null *)
               (if present (a_suspectTxnId req) then a_suspectTxnId req else None)
               "CONTACT_CUSTOMER" "CLOSED" "CUSTOMER_CONTACTED" in
    let d := create_event d caseId (userId m) "CUSTOMER_CONTACTED" (now m) in
    (* .catch(() => {}) : a missing alert is ignored *)
    let d := default d (update_alert d alertId "CONTACTED") in
    ({| db := d; redis := redis w |},
     {| code := 200; body := ContactBody (requestId m) caseId |}).

(** *** POST /mark-false-positive *)

(** The three writes are separate calls, not one transaction. *)
Definition mark_false_positive (m : Meta) (req : AlertRequest) (w : World)
    : World * Response :=
  if negb (present (a_alertId req)) || negb (present (a_customerId req)) then
    (w, {| code := 400; body := ErrorBody "alertId and customerId are required" |})
  else
    let alertId := default "" (a_alertId req) in
    let customerId := default "" (a_customerId req) in
    match alerts (db w) !! alertId with
    | None => (w, {| code := 404; body := ErrorBody "Alert not found" |})
    | Some alert =>
        let caseId := newCaseId m in
        let d := create_case (db w) caseId customerId
                   (* suspectTxnId || alert.suspectTxnId *)
                   (if present (a_suspectTxnId req) then a_suspectTxnId req
                    else Some (alert_suspectTxnId alert))
                   "FALSE_POSITIVE" "CLOSED_FALSE_POSITIVE" "AI_FALSE_POSITIVE" in
        let d := create_event d caseId (userId m) "CLOSED_FALSE_POSITIVE" (now m) in
        match update_alert d alertId "CLOSED_FALSE_POSITIVE" with
        | Some d => ({| db := d; redis := redis w |},
                     {| code := 200; body := FalsePositiveBody caseId |})
        | None => ({| db := d; redis := redis w |},
                   {| code := 500;
                      body := ErrorBody "Failed to mark false positive" |})
        end
    end.

(** *** POST /freeze-card *)

Record FreezeRequest := {
  f_cardId : option string;
  f_otp : option string;
  f_alertId : option string;
  f_suspectTxnId : option string
}.

(** The messages of [body(field).isString().notEmpty().withMessage(msg)]:
    a missing field fails both validators, and the first of them has
    the message of the library; an empty string fails the second. *)
Definition required (field : option string) (msg : string) : list string :=
  match field with
  | None => ["Invalid value"; msg]
  | Some "" => [msg]
  | Some _ => []
  end.

(** [freezeCardValidation] *)
Definition freeze_errors (req : FreezeRequest) : list string :=
  required (f_cardId req) "Card ID is required"
  ++ match f_otp req with
     | Some otp => if (String.length otp =? 6)%nat then []
                   else ["OTP must be 6 digits"]
     | None => []
     end.

Definition generateOTP : string := "123456".

(** [verifyOTP(cardId, providedOTP)] *)
Definition verifyOTP (cardId : string) (providedOTP : string) : bool :=
  let storedOTP := "123456" in
  String.eqb storedOTP providedOTP.

Definition cache (m : Meta) (prefix : string) (v : Body)
    (redis : gmap string Cached) : gmap string Cached :=
  match header m with
  | Some key => redis_setex redis (prefix +:+ key) 3600 v (now m)
  | None => redis
  end.

(** The writes of the freeze, in one transaction: all or nothing. *)
Definition freeze_transaction (m : Meta) (req : FreezeRequest)
    (cardId : string) (card : Card) (d : Db) : option Db :=
  let d1 := update_card d cardId "FROZEN" in
  let caseId := newCaseId m in
  let d2 := create_case d1 caseId (card_customerId card) (f_suspectTxnId req)
              "CARD_FREEZE" "CLOSED" "FRAUD_PREVENTION" in
  let d3 := create_event d2 caseId (userId m) "CARD_FROZEN" (now m) in
  match f_alertId req with
  | Some alertId =>
      if present (Some alertId) then update_alert d3 alertId "Resolved"
      else Some d3
  | None => Some d3
  end.

(** The route after the idempotency check: the action is executed. *)
Definition freeze_execute (m : Meta) (req : FreezeRequest) (w : World)
    : World * Response :=
  let cardId := default "" (f_cardId req) in
  match cards (db w) !! cardId with
  | None => (w, {| code := 404; body := ErrorBody "Card not found" |})
  | Some card =>
    if String.eqb (card_status card) "FROZEN" then
      let result := FreezeBody "FROZEN" (requestId m) None
                      "Card is already frozen" false (now m) in
      ({| db := db w;
          redis := cache m "idempotency:freeze:" result (redis w) |},
       {| code := 200; body := result |})
    else
      match f_otp req with
      | None =>
          (w, {| code := 200;
                 body := FreezeBody "PENDING_OTP" (requestId m) None
                           "OTP verification required" true (now m) |})
      | Some otp =>
          if negb (verifyOTP cardId otp) then
            (w, {| code := 400; body := ErrorBody "Invalid OTP" |})
          else
            match freeze_transaction m req cardId card (db w) with
            | None => (w, {| code := 500;
                             body := ErrorBody "Failed to freeze card" |})
            | Some d =>
                let result := FreezeBody "FROZEN" (requestId m) (Some cardId)
                                "Card has been successfully frozen" false
                                (now m) in
                ({| db := d;
                    redis := cache m "idempotency:freeze:" result (redis w) |},
                 {| code := 200; body := result |})
            end
      end
  end.

Definition freeze_card (m : Meta) (req : FreezeRequest) (w : World)
    : World * Response :=
  match freeze_errors req with
  | (_ :: _) as errs => (w, {| code := 400; body := ValidationBody errs |})
  | [] =>
    (* Check idempotency *)
    match match header m with
          | Some key => redis_get (redis w) ("idempotency:freeze:" +:+ key) (now m)
          | None => None
          end with
    | Some existingResult => (w, {| code := 200; body := existingResult |})
    | None => freeze_execute m req w
    end
  end.

(** *** POST /open-dispute *)

Record DisputeRequest := {
  d_txnId : option string;
  d_reasonCode : option string
}.

(** [openDisputeValidation] *)
Definition dispute_errors (req : DisputeRequest) : list string :=
  required (d_txnId req) "Transaction ID is required"
  ++ required (d_reasonCode req) "Reason code is required".

Definition open_statuses : list string := ["OPEN"; "PENDING"].

(** [case.findFirst({where: {txnId, type: 'DISPUTE', status: {in: ...}}})] *)
Definition find_dispute (d : Db) (txnId : string) : option Case :=
  List.find (fun c =>
               bool_decide (case_txnId c = Some txnId)
               && String.eqb (case_type c) "DISPUTE"
               && bool_decide (case_status c ∈ open_statuses))
    (cases d).

(** [alert.findFirst({where: {suspectTxnId: txnId}})] *)
Definition find_alert_for (d : Db) (txnId : string) : option string :=
  fst <$> List.find (fun kv => String.eqb (alert_suspectTxnId (snd kv)) txnId)
            (map_to_list (alerts d)).

Definition dispute_transaction (m : Meta) (txnId reasonCode : string)
    (transaction : Transaction) (d : Db) : option Db :=
  let caseId := newCaseId m in
  let d1 := create_case d caseId (txn_customerId transaction) (Some txnId)
              "DISPUTE" "OPEN" reasonCode in
  let d2 := create_event d1 caseId (userId m) "DISPUTE_OPENED" (now m) in
  match find_alert_for d2 txnId with
  | Some alertId => update_alert d2 alertId "Investigating(Opened the Dispute)"
  | None => Some d2
  end.

(** The route after the idempotency check: the action is executed. *)
Definition dispute_execute (m : Meta) (req : DisputeRequest) (w : World)
    : World * Response :=
  let txnId := default "" (d_txnId req) in
  let reasonCode := default "" (d_reasonCode req) in
  match transactions (db w) !! txnId with
  | None => (w, {| code := 404; body := ErrorBody "Transaction not found" |})
  | Some transaction =>
    match find_dispute (db w) txnId with
    | Some existingDispute =>
        let result := DisputeBody (case_id existingDispute) "OPEN" None None
                        "Dispute already exists for this transaction"
                        (requestId m) (now m) in
        ({| db := db w;
            redis := cache m "idempotency:dispute:" result (redis w) |},
         {| code := 200; body := result |})
    | None =>
        match dispute_transaction m txnId reasonCode transaction (db w) with
        | None => (w, {| code := 500;
                         body := ErrorBody "Failed to open dispute" |})
        | Some d =>
            let result := DisputeBody (newCaseId m) "OPEN"
                            (Some txnId) (Some reasonCode)
                            "Dispute has been successfully created"
                            (requestId m) (now m) in
            ({| db := d;
                redis := cache m "idempotency:dispute:" result (redis w) |},
             {| code := 200; body := result |})
        end
    end
  end.

Definition open_dispute (m : Meta) (req : DisputeRequest) (w : World)
    : World * Response :=
  match dispute_errors req with
  | (_ :: _) as errs => (w, {| code := 400; body := ValidationBody errs |})
  | [] =>
    (* Check idempotency *)
    match match header m with
          | Some key => redis_get (redis w) ("idempotency:dispute:" +:+ key) (now m)
          | None => None
          end with
    | Some existingResult => (w, {| code := 200; body := existingResult |})
    | None => dispute_execute m req w
    end
  end.

(** *** Replays *)

(** The bodies that report a completed action, as opposed to
    [PENDING_OTP] and to the error bodies. *)
Definition completed (b : Body) : bool :=
  match b with
  | FreezeBody status _ _ _ _ _ => String.eqb status "FROZEN"
  | DisputeBody _ _ _ _ _ _ _ => true
  | _ => false
  end.

Lemma freeze_replay m req w key c :
  freeze_errors req = [] ->
  header m = Some key ->
  redis w !! ("idempotency:freeze:" +:+ key) = Some c ->
  now m <= expiresAt c ->
  freeze_card m req w = (w, {| code := 200; body := result c |}).
Proof.
  intros Hv Hk Hc Ht. unfold freeze_card, redis_get.
  rewrite Hv, Hk, Hc.
  replace (now m <=? expiresAt c) with true by (symmetry; lia).
  reflexivity.
Qed.

Lemma dispute_replay m req w key c :
  dispute_errors req = [] ->
  header m = Some key ->
  redis w !! ("idempotency:dispute:" +:+ key) = Some c ->
  now m <= expiresAt c ->
  open_dispute m req w = (w, {| code := 200; body := result c |}).
Proof.
  intros Hv Hk Hc Ht. unfold open_dispute, redis_get.
  rewrite Hv, Hk, Hc.
  replace (now m <=? expiresAt c) with true by (symmetry; lia).
  reflexivity.
Qed.

Lemma cache_lookup m prefix v redis key :
  header m = Some key ->
  cache m prefix v redis !! (prefix +:+ key)
  = Some {| result := v; expiresAt := now m + 3600 * 1000 |}.
Proof.
  intros Hk. unfold cache, redis_setex. rewrite Hk.
  apply lookup_insert_eq.
Qed.

(** An entry that is absent or expired stays so. *)
Lemma redis_get_later redis key t t' :
  redis_get redis key t = None -> t <= t' -> redis_get redis key t' = None.
Proof.
  unfold redis_get. destruct (redis !! key) as [c|]; [|reflexivity].
  destruct (Z.leb_spec t (expiresAt c)); [discriminate|]. intros _ Ht.
  destruct (Z.leb_spec t' (expiresAt c)); [lia | reflexivity].
Qed.

(** Without a live entry under the key, a valid call is executed. *)
Lemma freeze_card_miss m req w key :
  freeze_errors req = [] ->
  header m = Some key ->
  redis_get (redis w) ("idempotency:freeze:" +:+ key) (now m) = None ->
  freeze_card m req w = freeze_execute m req w.
Proof. intros Hv Hk Hg. unfold freeze_card. by rewrite Hv, Hk, Hg. Qed.

Lemma dispute_miss m req w key :
  dispute_errors req = [] ->
  header m = Some key ->
  redis_get (redis w) ("idempotency:dispute:" +:+ key) (now m) = None ->
  open_dispute m req w = dispute_execute m req w.
Proof. intros Hv Hk Hg. unfold open_dispute. by rewrite Hv, Hk, Hg. Qed.

(** An executed freeze that answers with a completed action writes
    that answer under the key, for 3600 seconds; any other answer
    writes nothing at all. *)
Lemma freeze_execute_caches m req w key :
  header m = Some key ->
  code (freeze_execute m req w).2 = 200 ->
  completed (body (freeze_execute m req w).2) = true ->
  redis (freeze_execute m req w).1 !! ("idempotency:freeze:" +:+ key)
  = Some {| result := body (freeze_execute m req w).2;
            expiresAt := now m + 3600000 |}.
Proof.
  intros Hk. unfold freeze_execute.
  destruct (cards (db w) !! default "" (f_cardId req)) as [card|];
    [|discriminate].
  destruct (String.eqb (card_status card) "FROZEN").
  - cbn [fst snd redis body code]. intros _ _.
    by rewrite (cache_lookup _ _ _ _ key Hk).
  - destruct (f_otp req) as [otp|]; [|discriminate].
    destruct (negb (verifyOTP _ otp)); [discriminate|].
    destruct (freeze_transaction _ _ _ _ _); [|discriminate].
    cbn [fst snd redis body code]. intros _ _.
    by rewrite (cache_lookup _ _ _ _ key Hk).
Qed.

Lemma freeze_execute_not_kept m req w :
  code (freeze_execute m req w).2 <> 200
  \/ completed (body (freeze_execute m req w).2) = false ->
  (freeze_execute m req w).1 = w.
Proof.
  unfold freeze_execute.
  destruct (cards (db w) !! default "" (f_cardId req)) as [card|];
    [|reflexivity].
  destruct (String.eqb (card_status card) "FROZEN").
  { cbn [fst snd body code completed]. intros [H|H]; [done | discriminate]. }
  destruct (f_otp req) as [otp|]; [|reflexivity].
  destruct (negb (verifyOTP _ otp)); [reflexivity|].
  destruct (freeze_transaction _ _ _ _ _); [|reflexivity].
  cbn [fst snd body code completed]. intros [H|H]; [done | discriminate].
Qed.

Lemma dispute_execute_caches m req w key :
  header m = Some key ->
  code (dispute_execute m req w).2 = 200 ->
  redis (dispute_execute m req w).1 !! ("idempotency:dispute:" +:+ key)
  = Some {| result := body (dispute_execute m req w).2;
            expiresAt := now m + 3600000 |}.
Proof.
  intros Hk. unfold dispute_execute.
  destruct (transactions (db w) !! default "" (d_txnId req)) as [tx|];
    [|discriminate].
  destruct (find_dispute (db w) (default "" (d_txnId req))) as [ex|];
    [|destruct (dispute_transaction _ _ _ _ _); [|discriminate]];
    cbn [fst snd redis body code]; intros _;
    by rewrite (cache_lookup _ _ _ _ key Hk).
Qed.

Lemma dispute_execute_not_kept m req w :
  code (dispute_execute m req w).2 <> 200 -> (dispute_execute m req w).1 = w.
Proof.
  unfold dispute_execute.
  destruct (transactions (db w) !! default "" (d_txnId req)) as [tx|];
    [|reflexivity].
  destruct (find_dispute (db w) (default "" (d_txnId req))) as [ex|];
    [cbn; congruence|].
  destruct (dispute_transaction _ _ _ _ _); [cbn; congruence | reflexivity].
Qed.

(** The three ways a call of the freeze route goes: turned down by the
    validation, answered from the cache, or executed. *)
Lemma freeze_card_cases m req w key :
  header m = Some key ->
  (exists errs, freeze_card m req w
                = (w, {| code := 400; body := ValidationBody errs |}))
  \/ (exists c, redis w !! ("idempotency:freeze:" +:+ key) = Some c
                /\ now m <= expiresAt c
                /\ freeze_card m req w = (w, {| code := 200; body := result c |}))
  \/ (redis_get (redis w) ("idempotency:freeze:" +:+ key) (now m) = None
      /\ freeze_card m req w = freeze_execute m req w).
Proof.
  intros Hk. unfold freeze_card. rewrite Hk.
  destruct (freeze_errors req) as [|e errs]; [|left; by eexists].
  right. unfold redis_get.
  destruct (redis w !! ("idempotency:freeze:" +:+ key)) as [c|] eqn:Ec;
    [|right; by split].
  destruct (Z.leb_spec (now m) (expiresAt c)); [|right; by split].
  left. by exists c.
Qed.

Lemma dispute_cases m req w key :
  header m = Some key ->
  (exists errs, open_dispute m req w
                = (w, {| code := 400; body := ValidationBody errs |}))
  \/ (exists c, redis w !! ("idempotency:dispute:" +:+ key) = Some c
                /\ now m <= expiresAt c
                /\ open_dispute m req w = (w, {| code := 200; body := result c |}))
  \/ (redis_get (redis w) ("idempotency:dispute:" +:+ key) (now m) = None
      /\ open_dispute m req w = dispute_execute m req w).
Proof.
  intros Hk. unfold open_dispute. rewrite Hk.
  destruct (dispute_errors req) as [|e errs]; [|left; by eexists].
  right. unfold redis_get.
  destruct (redis w !! ("idempotency:dispute:" +:+ key)) as [c|] eqn:Ec;
    [|right; by split].
  destruct (Z.leb_spec (now m) (expiresAt c)); [|right; by split].
  left. by exists c.
Qed.

(** A call that answers with a completed action under a key leaves
    that answer in the cache, live at least until the call's own time. *)
Lemma freeze_caches m req w key :
  header m = Some key ->
  code (freeze_card m req w).2 = 200 ->
  completed (body (freeze_card m req w).2) = true ->
  exists c, redis (freeze_card m req w).1 !! ("idempotency:freeze:" +:+ key) = Some c
            /\ result c = body (freeze_card m req w).2
            /\ now m <= expiresAt c.
Proof.
  intros Hk.
  destruct (freeze_card_cases m req w key Hk)
    as [[errs ->]|[(c & Hc & Ht & ->)|[_ ->]]].
  - discriminate.
  - intros _ _. by exists c.
  - intros Hcode Hdone.
    rewrite (freeze_execute_caches m req w key Hk Hcode Hdone).
    eexists. repeat split. cbn. lia.
Qed.

Lemma dispute_caches m req w key :
  header m = Some key ->
  code (open_dispute m req w).2 = 200 ->
  exists c, redis (open_dispute m req w).1 !! ("idempotency:dispute:" +:+ key) = Some c
            /\ result c = body (open_dispute m req w).2
            /\ now m <= expiresAt c.
Proof.
  intros Hk.
  destruct (dispute_cases m req w key Hk)
    as [[errs ->]|[(c & Hc & Ht & ->)|[_ ->]]].
  - discriminate.
  - intros _. by exists c.
  - intros Hcode.
    rewrite (dispute_execute_caches m req w key Hk Hcode).
    eexists. repeat split. cbn. lia.
Qed.

Lemma response_eta (r : Response) :
  code r = 200 -> {| code := 200; body := body r |} = r.
Proof. destruct r as [c b]. cbn. by intros ->. Qed.

(** C4, as amended.  freeze_card and open_dispute keep the answer of a
    completed action (status FROZEN, or a dispute case) for one hour
    under [idempotency:{op}:{key}]; while that entry is live, every
    later valid call of the same operation with the same key gets the
    same payload back, and neither the data store nor the cache
    changes.  [PENDING_OTP] and error answers are not kept: the call
    has written nothing, and a valid call that follows under the same
    key is executed. *)
Theorem completed_action_replayed_from_cache (m1 m2 : Meta) (key : string)
    (w : World) :
  header m1 = Some key -> header m2 = Some key ->
  (* a completed answer is replayed while its entry is live *)
  (forall req1 req2,
      let out1 := freeze_card m1 req1 w in
      code out1.2 = 200 -> completed (body out1.2) = true ->
      freeze_errors req2 = [] ->
      (forall c, redis out1.1 !! ("idempotency:freeze:" +:+ key) = Some c ->
                 now m2 <= expiresAt c) ->
      freeze_card m2 req2 out1.1 = (out1.1, out1.2))
  /\ (forall req1 req2,
      let out1 := open_dispute m1 req1 w in
      code out1.2 = 200 ->
      dispute_errors req2 = [] ->
      (forall c, redis out1.1 !! ("idempotency:dispute:" +:+ key) = Some c ->
                 now m2 <= expiresAt c) ->
      open_dispute m2 req2 out1.1 = (out1.1, out1.2))
  (* the completed answer of an executed call is kept for one hour *)
  /\ (forall req1,
      let out1 := freeze_card m1 req1 w in
      redis_get (redis w) ("idempotency:freeze:" +:+ key) (now m1) = None ->
      code out1.2 = 200 -> completed (body out1.2) = true ->
      redis out1.1 !! ("idempotency:freeze:" +:+ key)
      = Some {| result := body out1.2; expiresAt := now m1 + 3600000 |})
  /\ (forall req1,
      let out1 := open_dispute m1 req1 w in
      redis_get (redis w) ("idempotency:dispute:" +:+ key) (now m1) = None ->
      code out1.2 = 200 ->
      redis out1.1 !! ("idempotency:dispute:" +:+ key)
      = Some {| result := body out1.2; expiresAt := now m1 + 3600000 |})
  (* PENDING_OTP and error answers are not kept *)
  /\ (forall req1 req2,
      let out1 := freeze_card m1 req1 w in
      code out1.2 <> 200 \/ completed (body out1.2) = false ->
      out1.1 = w
      /\ (redis_get (redis w) ("idempotency:freeze:" +:+ key) (now m1) = None ->
          now m1 <= now m2 -> freeze_errors req2 = [] ->
          freeze_card m2 req2 out1.1 = freeze_execute m2 req2 out1.1))
  /\ (forall req1 req2,
      let out1 := open_dispute m1 req1 w in
      code out1.2 <> 200 ->
      out1.1 = w
      /\ (redis_get (redis w) ("idempotency:dispute:" +:+ key) (now m1) = None ->
          now m1 <= now m2 -> dispute_errors req2 = [] ->
          open_dispute m2 req2 out1.1 = dispute_execute m2 req2 out1.1)).
Proof.
  intros Hk1 Hk2. repeat apply conj.
  - intros req1 req2 out1 Hcode Hdone Hv Hlive.
    destruct (freeze_caches m1 req1 w key Hk1 Hcode Hdone) as (c & Hc & Hr & _).
    fold out1 in Hc, Hr.
    rewrite (freeze_replay m2 req2 out1.1 key c Hv Hk2 Hc (Hlive c Hc)).
    rewrite Hr. by rewrite response_eta.
  - intros req1 req2 out1 Hcode Hv Hlive.
    destruct (dispute_caches m1 req1 w key Hk1 Hcode) as (c & Hc & Hr & _).
    fold out1 in Hc, Hr.
    rewrite (dispute_replay m2 req2 out1.1 key c Hv Hk2 Hc (Hlive c Hc)).
    rewrite Hr. by rewrite response_eta.
  - intros req1 out1 Hmiss. subst out1.
    destruct (freeze_card_cases m1 req1 w key Hk1)
      as [[errs ->]|[(c & Hc & Ht & _)|[_ ->]]].
    + discriminate.
    + exfalso. unfold redis_get in Hmiss. rewrite Hc in Hmiss.
      destruct (Z.leb_spec (now m1) (expiresAt c)); [discriminate | lia].
    + apply (freeze_execute_caches m1 req1 w key Hk1).
  - intros req1 out1 Hmiss. subst out1.
    destruct (dispute_cases m1 req1 w key Hk1)
      as [[errs ->]|[(c & Hc & Ht & _)|[_ ->]]].
    + discriminate.
    + exfalso. unfold redis_get in Hmiss. rewrite Hc in Hmiss.
      destruct (Z.leb_spec (now m1) (expiresAt c)); [discriminate | lia].
    + apply (dispute_execute_caches m1 req1 w key Hk1).
  - intros req1 req2 out1 Hnot.
    assert (Hw : out1.1 = w).
    { subst out1.
      destruct (freeze_card_cases m1 req1 w key Hk1)
        as [[errs ->]|[(c & Hc & Ht & ->)|[_ E]]]; [reflexivity..|].
      rewrite E in Hnot |- *. by apply freeze_execute_not_kept. }
    split; [exact Hw|]. intros Hmiss Hlater Hv. rewrite Hw.
    apply (freeze_card_miss m2 req2 w key Hv Hk2).
    by apply (redis_get_later _ _ (now m1)).
  - intros req1 req2 out1 Hnot.
    assert (Hw : out1.1 = w).
    { subst out1.
      destruct (dispute_cases m1 req1 w key Hk1)
        as [[errs ->]|[(c & Hc & Ht & ->)|[_ E]]]; [reflexivity..|].
      rewrite E in Hnot |- *. by apply dispute_execute_not_kept. }
    split; [exact Hw|]. intros Hmiss Hlater Hv. rewrite Hw.
    apply (dispute_miss m2 req2 w key Hv Hk2).
    by apply (redis_get_later _ _ (now m1)).
Qed.

(** *** A small bank *)

Definition bank : Db :=
  {| cards := {[ "card_123" := {| card_customerId := "cust_456";
                                  card_status := "ACTIVE" |};
                 "card_124" := {| card_customerId := "cust_457";
                                  card_status := "ACTIVE" |} ]};
     cases := [];
     caseEvents := [];
     alerts := {[ "alert_1" := {| alert_suspectTxnId := "txn_789";
                                  alert_status := "OPEN" |} ]};
     transactions := {[ "txn_789" := {| txn_customerId := "cust_456";
                                        txn_amountCents := 180000;
                                        txn_merchant := "Unknown Cash ATM" |} ]} |}.

Definition world0 : World := {| db := bank; redis := ∅ |}.

(** The call number [requestId], for which the data store draws the
    case id [case_<requestId>]. *)
Definition call_with (key : string) (requestId : nat) (now : Z) : Meta :=
  {| userId := "agent_7"; userRole := "agent"; idempotencyKey := Some key;
     requestId := requestId;
     newCaseId := "case_" +:+ NilZero.string_of_uint (Nat.to_uint requestId);
     now := now |}.

Definition freeze_123 : FreezeRequest :=
  {| f_cardId := Some "card_123"; f_otp := Some "123456";
     f_alertId := Some "alert_1"; f_suspectTxnId := Some "txn_789" |}.

Lemma completed_action_replayed_from_cache_witness :
  let m1 := call_with "unique-key-123" 1 1000 in
  let m2 := call_with "unique-key-123" 2 5000 in
  let out1 := freeze_card m1 freeze_123 world0 in
  body out1.2 = FreezeBody "FROZEN" 1 (Some "card_123")
                  "Card has been successfully frozen" false 1000
  /\ freeze_card m2 freeze_123 out1.1 = (out1.1, out1.2).
Proof.
  cbv zeta. split; [vm_compute; reflexivity|].
  refine (proj1 (completed_action_replayed_from_cache
                   (call_with "unique-key-123" 1 1000)
                   (call_with "unique-key-123" 2 5000)
                   "unique-key-123" world0 _ _)
            freeze_123 freeze_123 _ _ _ _).
  - reflexivity.
  - reflexivity.
  - vm_compute. reflexivity.
  - vm_compute. reflexivity.
  - reflexivity.
  - intros c Hc. vm_compute in Hc. injection Hc as <-. vm_compute.
    discriminate.
Defined.

Definition contact_alert_1 : AlertRequest :=
  {| a_alertId := Some "alert_1"; a_customerId := Some "cust_456";
     a_suspectTxnId := Some "txn_789" |}.

(** C4, as stated, fails.  contact_customer and mark_false_positive do
    not read the header: a second call under the same key creates a
    second case and a second event and answers with another case id.
    freeze_card answers a call without OTP with [PENDING_OTP] and
    keeps nothing, so the call that follows under the same key, now
    with the OTP, is executed and answers differently. *)
Lemma same_key_executed_again :
  let m1 := call_with "unique-key-123" 1 1000 in
  let m2 := call_with "unique-key-123" 2 5000 in
  (let out1 := contact_customer m1 contact_alert_1 world0 in
   let out2 := contact_customer m2 contact_alert_1 out1.1 in
   body out1.2 = ContactBody 1 "case_1" /\ body out2.2 = ContactBody 2 "case_2"
   /\ length (cases (db out2.1)) = 2%nat
   /\ length (caseEvents (db out2.1)) = 2%nat)
  /\ (let out1 := mark_false_positive m1 contact_alert_1 world0 in
      let out2 := mark_false_positive m2 contact_alert_1 out1.1 in
      body out1.2 = FalsePositiveBody "case_1"
      /\ body out2.2 = FalsePositiveBody "case_2"
      /\ length (cases (db out2.1)) = 2%nat)
  /\ (let no_otp := {| f_cardId := Some "card_123"; f_otp := None;
                       f_alertId := Some "alert_1";
                       f_suspectTxnId := Some "txn_789" |} in
      let out1 := freeze_card m1 no_otp world0 in
      let out2 := freeze_card m2 freeze_123 out1.1 in
      body out1.2 = FreezeBody "PENDING_OTP" 1 None
                      "OTP verification required" true 1000
      /\ body out2.2 = FreezeBody "FROZEN" 2 (Some "card_123")
                         "Card has been successfully frozen" false 5000
      /\ length (cases (db out2.1)) = 1%nat).
Proof. cbv zeta. repeat split; vm_compute; reflexivity. Qed.

(** *** The one-time password *)

Definition freeze_124 : FreezeRequest :=
  {| f_cardId := Some "card_124"; f_otp := Some "123456";
     f_alertId := None; f_suspectTxnId := None |}.

(** C5 at the failing input.  No password was ever stored (the cache
    is empty), yet the code 123456 freezes one card and then, used a
    second time, another one; the cache holds no [otp:] entry before
    or after, so nothing was compared with a stored code and nothing
    was deleted. *)
Lemma otp_constant_accepted_twice :
  let out1 := freeze_card (call_with "k1" 1 1000) freeze_123 world0 in
  let out2 := freeze_card (call_with "k2" 2 400000) freeze_124 out1.1 in
  redis world0 !! "otp:card_123" = None
  /\ verifyOTP "card_123" "123456" = true
  /\ verifyOTP "card_124" "123456" = true
  /\ card_status <$> cards (db out2.1) !! "card_123" = Some "FROZEN"
  /\ card_status <$> cards (db out2.1) !! "card_124" = Some "FROZEN"
  /\ redis out2.1 !! "otp:card_123" = None
  /\ redis out2.1 !! "otp:card_124" = None.
Proof. cbv zeta. repeat split; vm_compute; reflexivity. Qed.

(** Whatever the card and whatever the cache holds, the comparison is
    with the constant. *)
Lemma verifyOTP_constant cardId providedOTP :
  verifyOTP cardId providedOTP = true <-> providedOTP = "123456".
Proof.
  unfold verifyOTP. rewrite String.eqb_eq. split; congruence.
Qed.

End Actions.

(* ===================================================================== *)
(** ** utils/excelParser.ts, second part : the redactor *)
(* ===================================================================== *)

Module Redactor.
Import Regex JsString.

(** [/\b\d{13,19}\b/g] *)
Definition PAN_PATTERN : re :=
  Seq WordB (Seq (Rep 13%nat (Some 19%nat) digit) WordB).

(** [/\b[A-Za-z0-9._%+-]+@[A-Za-z0-9.-]+\.[A-Z|a-z]{2,}\b/g] *)
Definition EMAIL_PATTERN : re :=
  let local := upper ++ lower ++ digit
               ++ ch "." ++ ch "_" ++ ch "%" ++ ch "+" ++ ch "-" in
  let domain := upper ++ lower ++ digit ++ ch "." ++ ch "-" in
  let tld := upper ++ ch "|" ++ lower in
  Seq WordB
    (Seq (Plus local)
      (Seq (Chr (ch "@"))
        (Seq (Plus domain)
          (Seq (Chr (ch "."))
            (Seq (Rep 2%nat None tld) WordB))))).

(** [/(\+?1[-.\s]?)?\(?([0-9]{3})\)?[-.\s]?([0-9]{3})[-.\s]?([0-9]{4})/g] *)
Definition PHONE_PATTERN : re :=
  let sep := ch "-" ++ ch "." ++ space in
  Seq (Opt (Seq (Opt (Chr (ch "+")))
              (Seq (Chr (ch "1")) (Opt (Chr sep)))))
    (Seq (Opt (Chr (ch "(")))
      (Seq (Rep 3%nat (Some 3%nat) digit)
        (Seq (Opt (Chr (ch ")")))
          (Seq (Opt (Chr sep))
            (Seq (Rep 3%nat (Some 3%nat) digit)
              (Seq (Opt (Chr sep))
                (Rep 4%nat (Some 4%nat) digit))))))).

(** The callback of the e-mail replacement. *)
Definition mask_email (matched : str) : str :=
  match split_on "@" matched with
  | [local; domain] =>
      let maskedLocal :=
        if (2 <? length local)%nat
        then substring local 0 2 ++ chars "***"
        else chars "***" in
      maskedLocal ++ chars "@" ++ domain
  | _ => chars "***@***.***"
  end.

(** One pattern of [redactText]: [if (P.test(t)) { t = t.replace(P, f);
    masked = true }].  Each pattern is tested and replaced from
    [lastIndex = 0]: a failed [test] and a finished [replace] both
    leave it there. *)
Definition redact_with (p : re) (f : str -> str) (tm : str * bool) : str * bool :=
  if test p tm.1 then (replace p f tm.1, true) else tm.

(** [redactText(text)] on a string. *)
Definition redactText (text : string) : string * bool :=
  match text with
  | EmptyString => (text, false)   (* !text *)
  | _ =>
      let tm := (chars text, false) in
      let tm := redact_with PAN_PATTERN (fun _ => chars "****REDACTED****") tm in
      let tm := redact_with EMAIL_PATTERN mask_email tm in
      let tm := redact_with PHONE_PATTERN (fun _ => chars "***-***-****") tm in
      (Regex.text tm.1, tm.2)
  end.

Definition cleanText (text : string) : string := (redactText text).1.

(** The values that [redactObject] walks through: the data of JSON.
    Dates, and objects with an own property [hasOwnProperty] or
    [__proto__], are treated in [RedactorShape], whose [redactObject]
    agrees with this one on the values here that have no such
    property. *)
Unset Elimination Schemes.
Inductive value :=
| VUndefined
| VNull
| VBool (b : bool)
| VNum (n : Q)
| VStr (s : string)
| VArr (items : list value)
| VObj (fields : list (string * value)).
Set Elimination Schemes.

(** [redactObject(obj)]: strings are redacted, arrays and objects are
    rebuilt key by key, everything else is copied. *)
Fixpoint redactObject (obj : value) : value * bool :=
  match obj with
  | VStr s => let r := redactText s in (VStr r.1, r.2)
  | VArr items =>
      let rs := List.map redactObject items in
      (VArr (List.map fst rs), existsb snd rs)
  | VObj fields =>
      let rs := List.map (fun kv => (fst kv, redactObject (snd kv))) fields in
      (VObj (List.map (fun kr => (fst kr, fst (snd kr))) rs),
       existsb (fun kr => snd (snd kr)) rs)
  | _ => (obj, false)
  end.

Definition cleanObj (obj : value) : value := (redactObject obj).1.

(** The strings at the leaves of a value. *)
Fixpoint leaves (obj : value) : list string :=
  match obj with
  | VStr s => [s]
  | VArr items => List.flat_map leaves items
  | VObj fields => List.flat_map (fun kv => leaves (snd kv)) fields
  | _ => []
  end.

(** [maskCustomerId(customerId)] *)
Definition maskCustomerId (customerId : string) : string :=
  let s := chars customerId in
  if (length s <? 8)%nat then "***masked***"
  else Regex.text (substring s 0 4 ++ chars "***"
                   ++ drop (length s - 2) s).   (* slice(-2) *)

(** *** The patterns at work *)

Example redact_pan :
  redactText "card 4111111111111111 declined"
  = ("card ****REDACTED**** declined", true).
Proof. vm_compute. reflexivity. Qed.

Example redact_email :
  redactText "mail john.doe@example.com today"
  = ("mail jo***@example.com today", true).
Proof. vm_compute. reflexivity. Qed.

Example redact_phone :
  redactText "call +1 (555) 123-4567 or 555.123.4567"
  = ("call ***-***-**** or ***-***-****", true).
Proof. vm_compute. reflexivity. Qed.

Example redact_nothing :
  redactText "Transaction at new merchant"
  = ("Transaction at new merchant", false).
Proof. vm_compute. reflexivity. Qed.

(** *** Structural induction on values *)

Section ValueInd.
Variable P : value -> Prop.
Hypothesis Hundef : P VUndefined.
Hypothesis Hnull : P VNull.
Hypothesis Hbool : forall b, P (VBool b).
Hypothesis Hnum : forall n, P (VNum n).
Hypothesis Hstr : forall s, P (VStr s).
Hypothesis Harr : forall items, Forall P items -> P (VArr items).
Hypothesis Hobj : forall fields,
  Forall (fun kv => P (snd kv)) fields -> P (VObj fields).

Fixpoint value_ind (v : value) : P v :=
  match v with
  | VUndefined => Hundef
  | VNull => Hnull
  | VBool b => Hbool b
  | VNum n => Hnum n
  | VStr s => Hstr s
  | VArr items =>
      Harr items
        ((fix all (l : list value) : Forall P l :=
            match l with
            | [] => List.Forall_nil P
            | x :: l' => List.Forall_cons P x l' (value_ind x) (all l')
            end) items)
  | VObj fields =>
      Hobj fields
        ((fix all (l : list (string * value))
            : Forall (fun kv => P (snd kv)) l :=
            match l with
            | [] => List.Forall_nil _
            | kv :: l' =>
                List.Forall_cons (fun kv => P (snd kv)) kv l'
                  (value_ind (snd kv)) (all l')
            end) fields)
  end.
End ValueInd.

(** *** Idempotence, leaf by leaf *)

Definition stable (s : string) : Prop := cleanText (cleanText s) = cleanText s.

Lemma cleanObj_VArr items :
  cleanObj (VArr items) = VArr (List.map cleanObj items).
Proof.
  unfold cleanObj. cbn [redactObject fst]. f_equal.
  rewrite List.map_map. reflexivity.
Qed.

Lemma cleanObj_VObj fields :
  cleanObj (VObj fields)
  = VObj (List.map (fun kv => (fst kv, cleanObj (snd kv))) fields).
Proof.
  unfold cleanObj. cbn [redactObject fst]. f_equal.
  rewrite List.map_map. reflexivity.
Qed.

Lemma cleanObj_idempotent_on_stable_leaves (x : value) :
  Forall stable (leaves x) -> cleanObj (cleanObj x) = cleanObj x.
Proof.
  induction x as [| | b | n | s | items IH | fields IH] using value_ind;
    intros Hst; try reflexivity.
  - apply Forall_inv in Hst. unfold cleanObj. cbn [redactObject fst].
    f_equal. exact Hst.
  - rewrite !cleanObj_VArr. f_equal. rewrite List.map_map.
    cbn [leaves] in Hst.
    induction IH as [|v items Hv _ IHl]; [reflexivity|].
    cbn [List.flat_map] in Hst. apply Forall_app in Hst as [Hhere Hrest].
    cbn [List.map]. f_equal; [by apply Hv | by apply IHl].
  - rewrite !cleanObj_VObj. f_equal. rewrite List.map_map.
    cbn [leaves] in Hst.
    induction IH as [|kv fields Hv _ IHl]; [reflexivity|].
    cbn [List.flat_map] in Hst. apply Forall_app in Hst as [Hhere Hrest].
    cbn [List.map fst snd]. f_equal; [|by apply IHl].
    f_equal. by apply Hv.
Qed.

(** A string in which none of the three patterns matches is returned
    as it is. *)
Lemma cleanText_no_match s :
  test PAN_PATTERN (chars s) = false ->
  test EMAIL_PATTERN (chars s) = false ->
  test PHONE_PATTERN (chars s) = false ->
  redactText s = (s, false).
Proof.
  intros H1 H2 H3. unfold redactText.
  destruct s as [|c s']; [reflexivity|].
  unfold redact_with. cbn [fst snd].
  rewrite H1. cbn [fst snd]. rewrite H2. cbn [fst snd]. rewrite H3.
  cbn [fst snd]. by rewrite text_chars.
Qed.

(** *** The customer-id mask *)

Lemma maskCustomerId_long customerId :
  (8 <= String.length customerId)%nat ->
  maskCustomerId customerId
  = Regex.text (take 4 (chars customerId) ++ chars "***"
                ++ drop (length (chars customerId) - 2) (chars customerId)).
Proof.
  intros Hlen. unfold maskCustomerId.
  pose proof (chars_length customerId) as Hl.
  replace (length (chars customerId) <? 8)%nat with false
    by (symmetry; apply Nat.ltb_ge; lia).
  unfold substring. do 2 f_equal.
  replace (Z.to_nat _) with 4%nat by lia.
  replace (Z.to_nat _) with 0%nat by lia.
  reflexivity.
Qed.

Lemma maskCustomerId_idempotent_long customerId :
  (8 <= String.length customerId)%nat ->
  maskCustomerId (maskCustomerId customerId) = maskCustomerId customerId.
Proof.
  intros Hlen.
  pose proof (chars_length customerId) as Hl.
  rewrite (maskCustomerId_long customerId Hlen).
  set (s := chars customerId) in *.
  set (masked := take 4 s ++ chars "***" ++ drop (length s - 2) s).
  assert (Hm : length masked = 9%nat).
  { unfold masked. rewrite !length_app, length_take, length_drop.
    change (length (chars "***")) with 3%nat. lia. }
  rewrite maskCustomerId_long by (rewrite text_length; lia).
  rewrite chars_text, Hm. f_equal. unfold masked at 1 3.
  rewrite take_app_length' by (rewrite length_take; lia).
  do 2 f_equal. unfold masked.
  rewrite app_assoc.
  rewrite drop_app_length'
    by (rewrite length_app, length_take;
        change (length (chars "***")) with 3%nat; lia).
  reflexivity.
Qed.

(** *** The second pass *)

Definition pan_block : str := chars "****REDACTED****".
Definition phone_block : str := chars "***-***-****".

(** Inversion of [lang] along the sequence structure of a pattern. *)
Ltac lang_split :=
  repeat match goal with
         | H : lang (Seq _ _) _ |- _ => inversion H; subst; clear H
         | H : lang (Chr _) _ |- _ => inversion H; subst; clear H
         | H : lang WordB _ |- _ => inversion H; subst; clear H
         | H : lang (Rep _ _ _) _ |- _ => inversion H; subst; clear H
         end.

Lemma lang_PAN s1 :
  lang PAN_PATTERN s1 ->
  Forall (fun c => in_cset c digit = true) s1 /\ (13 <= length s1)%nat.
Proof.
  unfold PAN_PATTERN. intros H. lang_split.
  rewrite app_nil_r. cbn [app]. by split.
Qed.

Lemma lang_PHONE_ten d :
  Forall (fun c => in_cset c digit = true) d -> length d = 10%nat ->
  lang PHONE_PATTERN d.
Proof.
  intros Hd Hlen.
  do 10 (destruct d as [|? d]; [discriminate|]).
  destruct d; [|discriminate]. clear Hlen.
  repeat (apply Forall_cons in Hd as [? Hd]).
  unfold PHONE_PATTERN, Opt.
  match goal with
  | |- lang _ [?a; ?b; ?c; ?d; ?e; ?f; ?g; ?h; ?i; ?j] =>
      change [a; b; c; d; e; f; g; h; i; j]
        with ([] ++ [] ++ [a; b; c] ++ [] ++ [] ++ [d; e; f] ++ [] ++ [g; h; i; j])
  end.
  repeat (apply lang_seq);
    try (apply lang_alt_r; apply lang_eps);
    apply lang_rep; try (repeat constructor; assumption); cbn;
      try lia; intros m [= <-]; lia.
Qed.

Lemma lang_EMAIL_at s1 : lang EMAIL_PATTERN s1 -> "@"%char ∈ s1.
Proof.
  unfold EMAIL_PATTERN, Plus. intros H. lang_split.
  match goal with
  | H : in_cset ?c (ch "@") = true |- _ =>
      assert (E : c = "@"%char);
      [ revert H; unfold in_cset, ch; cbn [existsb fst snd];
        rewrite orb_false_r, andb_true_iff, !Nat.leb_le; intros [Ha Hb];
        assert (En : nat_of_ascii c = nat_of_ascii "@") by lia;
        rewrite <- (ascii_nat_embedding c), En; reflexivity
      | subst c ]
  end.
  rewrite app_nil_l. apply elem_of_app. right.
  apply elem_of_app. left. by apply list_elem_of_singleton.
Qed.

(** A text in which the phone pattern finds nothing has no run of ten
    digits, hence none of thirteen: the PAN pattern finds nothing. *)
Lemma no_phone_no_pan x :
  test PHONE_PATTERN x = false -> test PAN_PATTERN x = false.
Proof.
  intros Hphone. destruct (test PAN_PATTERN x) eqn:Hpan; [|reflexivity].
  exfalso.
  destruct (test_from_true_inv _ _ _ Hpan) as (pre & suf & p' & -> & Hm).
  destruct (exec_at PAN_PATTERN p' suf) as [rest|] eqn:E; [|done].
  destruct (exec_at_sound _ _ _ _ E) as (s1 & -> & L).
  apply lang_PAN in L as [Hd Hlen].
  assert (Hten : lang PHONE_PATTERN (take 10 s1)).
  { apply lang_PHONE_ten; [by apply Forall_take|].
    rewrite length_take. lia. }
  assert (Hfound : test PHONE_PATTERN (pre ++ take 10 s1 ++ drop 10 s1 ++ rest) = true).
  { apply test_from_complete. intros p.
    by apply exec_at_complete. }
  rewrite (app_assoc (take 10 s1)), take_drop in Hfound. congruence.
Qed.

Lemma email_needs_at x : "@"%char ∉ x -> test EMAIL_PATTERN x = false.
Proof.
  intros Hat. destruct (test EMAIL_PATTERN x) eqn:H; [|reflexivity].
  exfalso. apply Hat.
  destruct (test_from_true_inv _ _ _ H) as (pre & suf & p' & -> & Hm).
  destruct (exec_at EMAIL_PATTERN p' suf) as [rest|] eqn:E; [|done].
  destruct (exec_at_sound _ _ _ _ E) as (s1 & -> & L).
  apply elem_of_app. right. apply elem_of_app. left.
  by apply lang_EMAIL_at.
Qed.

Lemma phone_step_clean (tm : str * bool) :
  test PHONE_PATTERN (redact_with PHONE_PATTERN (fun _ => phone_block) tm).1
  = false.
Proof.
  unfold redact_with.
  destruct (test PHONE_PATTERN tm.1) eqn:E; [|exact E].
  cbn [fst]. unfold test, replace.
  apply (replace_no_match PHONE_PATTERN "*" (chars "**-***-****")).
  - reflexivity.
  - reflexivity.
  - reflexivity.
  - repeat constructor.
Qed.

Lemma fixed_step_chars r b B' (tm : str * bool) c :
  c ∈ (redact_with r (fun _ => b :: B') tm).1 -> c ∈ tm.1 \/ c ∈ b :: B'.
Proof.
  unfold redact_with. destruct (test r tm.1); [|by left].
  cbn [fst]. apply replace_chars.
Qed.

(** What the three steps of [redactText] leave of a non-empty text. *)
Definition passes (x : str) : str * bool :=
  redact_with PHONE_PATTERN (fun _ => phone_block)
    (redact_with EMAIL_PATTERN mask_email
       (redact_with PAN_PATTERN (fun _ => pan_block) (x, false))).

Lemma redactText_passes s :
  s <> "" -> redactText s = (Regex.text (passes (chars s)).1, (passes (chars s)).2).
Proof. destruct s; [done | reflexivity]. Qed.

(** A second pass finds neither a phone number nor a PAN. *)
Lemma second_pass_no_phone_no_pan s :
  test PHONE_PATTERN (chars (cleanText s)) = false
  /\ test PAN_PATTERN (chars (cleanText s)) = false.
Proof.
  assert (H : test PHONE_PATTERN (chars (cleanText s)) = false).
  { destruct (decide (s = "")) as [->|Hne]; [reflexivity|].
    unfold cleanText. rewrite (redactText_passes s Hne). cbn [fst].
    rewrite chars_text. apply phone_step_clean. }
  split; [exact H | by apply no_phone_no_pan].
Qed.

(** It changes the text only when it finds an e-mail address. *)
Lemma stable_if_no_email s :
  test EMAIL_PATTERN (chars (cleanText s)) = false -> stable s.
Proof.
  intros He. destruct (second_pass_no_phone_no_pan s) as [Hphone Hpan].
  unfold stable. unfold cleanText at 1.
  by rewrite (cleanText_no_match (cleanText s) Hpan He Hphone).
Qed.

Lemma at_free_clean s : "@"%char ∉ chars s -> "@"%char ∉ chars (cleanText s).
Proof.
  intros Hat. destruct (decide (s = "")) as [->|Hne]; [exact Hat|].
  unfold cleanText. rewrite (redactText_passes s Hne). cbn [fst].
  rewrite chars_text. unfold passes.
  set (tm1 := redact_with PAN_PATTERN (fun _ => pan_block) (chars s, false)).
  assert (H1 : "@"%char ∉ tm1.1).
  { intros Hin. apply (fixed_step_chars PAN_PATTERN "*" (chars "***REDACTED****"))
      in Hin as [Hin|Hin]; [by apply Hat|].
    cbn in Hin.
    repeat (apply elem_of_cons in Hin as [Hin|Hin]; [discriminate|]).
    by apply elem_of_nil in Hin. }
  assert (E2 : redact_with EMAIL_PATTERN mask_email tm1 = tm1).
  { unfold redact_with. by rewrite (email_needs_at _ H1). }
  change ("@"%char ∉ (redact_with PHONE_PATTERN (fun _ => phone_block)
                        (redact_with EMAIL_PATTERN mask_email tm1)).1).
  rewrite E2. intros Hin.
  apply (fixed_step_chars PHONE_PATTERN "*" (chars "**-***-****"))
    in Hin as [Hin|Hin]; [by apply H1|].
  cbn in Hin.
  repeat (apply elem_of_cons in Hin as [Hin|Hin]; [discriminate|]).
  by apply elem_of_nil in Hin.
Qed.

Lemma stable_without_at s : "@"%char ∉ chars s -> stable s.
Proof.
  intros Hat. apply stable_if_no_email, email_needs_at. by apply at_free_clean.
Qed.

(** C6, as amended.  A second redaction pass never finds a PAN or a
    phone number in redacted text, so it can change a string only by
    masking an e-mail address that the first pass left in it.  Hence
    redact(redact(x)) = redact(x) for every string, mapping or sequence
    x none of whose redacted string leaves still matches the e-mail
    pattern, in particular when no leaf contains an at sign; it does not
    hold for every x.  The customer-id mask is idempotent on ids of at
    least 8 characters. *)
Theorem redaction_idempotent_unless_email_exposed (x : value) :
  (forall s, test PAN_PATTERN (chars (cleanText s)) = false
             /\ test PHONE_PATTERN (chars (cleanText s)) = false)
  /\ (Forall (fun s => test EMAIL_PATTERN (chars (cleanText s)) = false)
        (leaves x) ->
      cleanObj (cleanObj x) = cleanObj x)
  /\ (Forall (fun s => "@"%char ∉ chars s) (leaves x) ->
      cleanObj (cleanObj x) = cleanObj x)
  /\ (forall customerId,
        (8 <= String.length customerId)%nat ->
        maskCustomerId (maskCustomerId customerId) = maskCustomerId customerId).
Proof.
  split; [|split; [|split]].
  - intros s. destruct (second_pass_no_phone_no_pan s). by split.
  - intros H. apply cleanObj_idempotent_on_stable_leaves.
    eapply Forall_impl; [exact H|]. apply stable_if_no_email.
  - intros H. apply cleanObj_idempotent_on_stable_leaves.
    eapply Forall_impl; [exact H|]. apply stable_without_at.
  - apply maskCustomerId_idempotent_long.
Qed.

(** A trace detail with a PAN, an e-mail address and a phone number. *)
Definition detail_with_pii : value :=
  VObj [ ("card", VStr "4111111111111111");
         ("contact", VArr [VStr "john.doe@example.com"; VStr "555-123-4567"]);
         ("amountCents", VNum 180000);
         ("note", VNull) ].

Lemma redaction_idempotent_unless_email_exposed_witness :
  Forall (fun s => test EMAIL_PATTERN (chars (cleanText s)) = false)
    (leaves detail_with_pii)
  /\ cleanObj (cleanObj detail_with_pii) = cleanObj detail_with_pii
  /\ maskCustomerId (maskCustomerId "cust_4567") = maskCustomerId "cust_4567".
Proof.
  assert (H : Forall (fun s => test EMAIL_PATTERN (chars (cleanText s)) = false)
                (leaves detail_with_pii)).
  { repeat constructor; vm_compute; reflexivity. }
  split; [exact H|]. split.
  - exact (proj1 (proj2
      (redaction_idempotent_unless_email_exposed detail_with_pii)) H).
  - refine (proj2 (proj2 (proj2
      (redaction_idempotent_unless_email_exposed detail_with_pii))) "cust_4567" _).
    vm_compute. lia.
Defined.

Example redaction_of_detail :
  cleanObj detail_with_pii
  = VObj [ ("card", VStr "****REDACTED****");
           ("contact", VArr [VStr "jo***@example.com"; VStr "***-***-****"]);
           ("amountCents", VNum 180000);
           ("note", VNull) ].
Proof. vm_compute. reflexivity. Qed.

(** C6, as stated, fails.  In an e-mail address that runs into a phone
    number the address is not matched by the first pass (no word
    boundary after the domain); once the digits are masked the second
    pass matches and masks it.  And the placeholder that the
    customer-id mask returns for a short id is itself masked. *)
Lemma redaction_not_idempotent :
  cleanText "jane@bank.com5551234567" = "jane@bank.com***-***-****"
  /\ cleanText (cleanText "jane@bank.com5551234567")
     = "ja***@bank.com***-***-****"
  /\ cleanObj (cleanObj (VArr [VStr "jane@bank.com5551234567"]))
     <> cleanObj (VArr [VStr "jane@bank.com5551234567"])
  /\ maskCustomerId "c42" = "***masked***"
  /\ maskCustomerId (maskCustomerId "c42") = "***m*****".
Proof.
  repeat split; try (vm_compute; reflexivity).
  vm_compute. discriminate.
Qed.

End Redactor.

(* ===================================================================== *)
(** ** agents/orchestrator.ts : the circuit breaker and the run, continued *)
(* ===================================================================== *)

Module Breakers.
Import Js Orchestrator.

(** What a call of the step that fails does to the table, as in
    [executeStep]: the breaker is asked at [at_breaker], which closes
    it again when its last failure is old enough, and only a call that
    it lets through records its failure, at [at_failure]. *)
Definition failed_call (nm : string) (cb : gmap string Breaker)
    (clk : StepClock) : gmap string Breaker :=
  let '(open, cb') := isCircuitOpen nm (at_breaker clk) cb in
  if open then cb' else recordFailure nm (at_failure clk) cb'.

(** Failing calls of one step, one after the other, with the readings
    of the clock during each. *)
Definition fail_at (nm : string) (clks : list StepClock)
    (cb : gmap string Breaker) : gmap string Breaker :=
  foldl (failed_call nm) cb clks.

(** What the failing calls have left in the table: at least one and
    at most three failures are counted, no more than there were calls,
    and the flag says that the counter stands at three. *)
Definition counted (n : nat) (b : Breaker) : Prop :=
  1 <= failures b <= 3 /\ failures b <= Z.of_nat n
  /\ isOpen b = (failures b =? 3).

(** The flag of a breaker says that at least three failures are counted. *)
Definition consistent (b : Breaker) : Prop := isOpen b = (failures b >=? 3).

Definition table_consistent (cb : gmap string Breaker) : Prop :=
  forall nm b, cb !! nm = Some b -> consistent b.

(** The [tool_update] events, in the order of emission. *)
Definition updates (evs : list TriageEvent) : list (string * bool) :=
  omap (fun e => match e with
                 | tool_update s b => Some (s, b)
                 | _ => None
                 end) evs.

Lemma fail_at_snoc nm clks clk cb :
  fail_at nm (clks ++ [clk]) cb = failed_call nm (fail_at nm clks cb) clk.
Proof. unfold fail_at. by rewrite foldl_app. Qed.

Lemma failed_call_first nm cb clk :
  cb !! nm = None ->
  failed_call nm cb clk
  = <[nm := {| failures := 1; lastFailure := at_failure clk;
               isOpen := false |}]> cb.
Proof.
  intros Hnone. unfold failed_call, isCircuitOpen. rewrite Hnone.
  unfold recordFailure. rewrite Hnone. reflexivity.
Qed.

Lemma failed_call_counted nm cb clk n b :
  cb !! nm = Some b -> counted n b ->
  exists b', failed_call nm cb clk !! nm = Some b' /\ counted (S n) b'.
Proof.
  intros Hb (Hf & Hn & Ho). unfold failed_call, isCircuitOpen.
  rewrite Hb, Ho.
  destruct (Z.eqb_spec (failures b) 3) as [E3|N3].
  - destruct (at_breaker clk - lastFailure b >? 30000).
    + unfold recordFailure. rewrite !lookup_insert_eq.
      cbn [from_option id failures isOpen]. eexists. split; [reflexivity|].
      unfold counted. cbn [failures isOpen]. repeat split; (lia || reflexivity).
    + exists b. split; [exact Hb|].
      unfold counted. split; [lia|]. split; [lia|].
      rewrite Ho. symmetry. by apply Z.eqb_eq.
  - unfold recordFailure. rewrite Hb, lookup_insert_eq.
    cbn [from_option id failures isOpen]. eexists. split; [reflexivity|].
    unfold counted. cbn [failures isOpen]. rewrite Ho.
    assert (H12 : failures b = 1 \/ failures b = 2) by lia.
    destruct H12 as [E|E]; rewrite E; repeat split; (lia || reflexivity).
Qed.

Lemma fail_at_counted nm clks : forall cb,
  cb !! nm = None ->
  match fail_at nm clks cb !! nm with
  | Some b => clks <> [] /\ counted (length clks) b
  | None => clks = []
  end.
Proof.
  induction clks as [|clk clks IH] using rev_ind; intros cb Hnone.
  - cbn. by rewrite Hnone.
  - rewrite fail_at_snoc, length_app. cbn [length].
    specialize (IH cb Hnone).
    destruct (fail_at nm clks cb !! nm) as [b|] eqn:Eb.
    + destruct IH as [_ Hc].
      destruct (failed_call_counted nm _ clk _ b Eb Hc) as (b' & -> & Hc').
      split; [by destruct clks|].
      by replace (length clks + 1)%nat with (S (length clks)) by lia.
    + subst clks. rewrite (failed_call_first nm _ clk Eb), lookup_insert_eq.
      split; [done|]. unfold counted. cbn. repeat split; lia.
Qed.

Lemma failed_call_closed nm cb clk b :
  cb !! nm = Some b -> isOpen b = false ->
  failed_call nm cb clk !! nm
  = Some {| failures := failures b + 1; lastFailure := at_failure clk;
            isOpen := if failures b + 1 >=? 3 then true else false |}.
Proof.
  intros Hb Ho. unfold failed_call, isCircuitOpen. rewrite Hb, Ho.
  unfold recordFailure. rewrite Hb, lookup_insert_eq.
  cbn [from_option id]. by rewrite Ho.
Qed.

Lemma fail_at_three nm c1 c2 c3 cb :
  cb !! nm = None ->
  fail_at nm [c1; c2; c3] cb !! nm
  = Some {| failures := 3; lastFailure := at_failure c3; isOpen := true |}.
Proof.
  intros Hnone. cbn [fail_at foldl].
  assert (E1 : failed_call nm cb c1 !! nm
               = Some {| failures := 1; lastFailure := at_failure c1;
                         isOpen := false |}).
  { rewrite (failed_call_first nm cb c1 Hnone). apply lookup_insert_eq. }
  pose proof (failed_call_closed nm _ c2 _ E1 eq_refl) as E2.
  cbn [failures] in E2.
  rewrite (failed_call_closed nm _ c3 _ E2 eq_refl). reflexivity.
Qed.

Lemma isCircuitOpen_consistent nm now cb :
  table_consistent cb -> table_consistent (isCircuitOpen nm now cb).2.
Proof.
  intros Hc. unfold isCircuitOpen.
  destruct (cb !! nm) as [b|] eqn:E; [|exact Hc].
  destruct (isOpen b); [|exact Hc].
  destruct (_ >? _); [|exact Hc].
  cbn [snd]. intros k b' Hk.
  destruct (decide (k = nm)) as [->|Hne].
  - rewrite lookup_insert_eq in Hk. injection Hk as <-. reflexivity.
  - rewrite lookup_insert_ne in Hk by done. by eapply Hc.
Qed.

Lemma recordFailure_consistent nm now cb :
  table_consistent cb -> table_consistent (recordFailure nm now cb).
Proof.
  intros Hc k b' Hk. unfold recordFailure in Hk.
  destruct (decide (k = nm)) as [->|Hne].
  - rewrite lookup_insert_eq in Hk. injection Hk as <-.
    unfold consistent. cbn [isOpen failures].
    destruct (cb !! nm) as [b|] eqn:E; cbn [from_option id failures isOpen].
    + specialize (Hc nm b E). unfold consistent in Hc. rewrite Hc.
      destruct (failures b + 1 >=? 3) eqn:E1; [reflexivity|].
      destruct (failures b >=? 3) eqn:E2; [lia | reflexivity].
    + reflexivity.
  - rewrite lookup_insert_ne in Hk by done. by eapply Hc.
Qed.

Lemma resetCircuitBreaker_consistent nm cb :
  table_consistent cb -> table_consistent (resetCircuitBreaker nm cb).
Proof.
  intros Hc. unfold resetCircuitBreaker.
  destruct (cb !! nm) as [b|] eqn:E; [|exact Hc].
  intros k b' Hk.
  destruct (decide (k = nm)) as [->|Hne].
  - rewrite lookup_insert_eq in Hk. injection Hk as <-. reflexivity.
  - rewrite lookup_insert_ne in Hk by done. by eapply Hc.
Qed.

Section Run.
Variable agents : string -> gmap string Obj -> Outcome.
Variable clock : nat -> StepClock.
Variable redact : Obj -> Obj.

Lemma executeStep_consistent nm i st :
  table_consistent (circuitBreakers st) ->
  table_consistent (circuitBreakers (executeStep agents clock redact nm i st).2).
Proof.
  intros Hc. unfold executeStep.
  pose proof (isCircuitOpen_consistent nm (at_breaker (clock i)) _ Hc) as Ho.
  destruct (isCircuitOpen nm (at_breaker (clock i)) (circuitBreakers st))
    as [open cb'].
  cbn [snd] in Ho. destruct open; [exact Ho|].
  destruct (call agents nm (context st)); cbn [snd circuitBreakers].
  - by apply resetCircuitBreaker_consistent.
  - by apply recordFailure_consistent.
Qed.

(** [failed_call] is what a step whose call does not return does to
    the table. *)
Lemma executeStep_failed nm i st :
  (forall r, call agents nm (context st) <> Returned r) ->
  circuitBreakers (executeStep agents clock redact nm i st).2
  = failed_call nm (circuitBreakers st) (clock i).
Proof.
  intros Hfail. unfold executeStep, failed_call.
  destruct (isCircuitOpen nm (at_breaker (clock i)) (circuitBreakers st))
    as [open cb'].
  destruct open; [reflexivity|].
  destruct (call agents nm (context st)) as [r|msg] eqn:E; [|reflexivity].
  by destruct (Hfail r).
Qed.

Lemma run_steps_consistent steps : forall i st,
  table_consistent (circuitBreakers st) ->
  table_consistent (circuitBreakers (run_steps agents clock redact steps i st)).
Proof.
  induction steps as [|nm rest IH]; intros i st Hc; [exact Hc|].
  rewrite run_steps_cons.
  pose proof (executeStep_consistent nm i st Hc) as H1.
  destruct (negb _ && _); [exact H1 | by apply IH].
Qed.

Lemma executeStep_success_resets nm i st b :
  (executeStep agents clock redact nm i st).1 = true ->
  circuitBreakers (executeStep agents clock redact nm i st).2 !! nm = Some b ->
  failures b = 0 /\ isOpen b = false.
Proof.
  unfold executeStep.
  destruct (isCircuitOpen nm (at_breaker (clock i)) (circuitBreakers st))
    as [open cb'].
  destruct open; [discriminate|].
  destruct (call agents nm (context st)); [|discriminate].
  cbn [fst snd circuitBreakers]. intros _. unfold resetCircuitBreaker.
  destruct (cb' !! nm) as [b0|] eqn:E.
  - rewrite lookup_insert_eq. by intros [= <-].
  - rewrite E. discriminate.
Qed.

(** The events and the traces of a run go together. *)
Definition mirrored (st : State) : Prop :=
  updates (events st) = (fun t => (step t, ok t)) <$> traces st.

Lemma updates_app a b : updates (a ++ b) = updates a ++ updates b.
Proof. apply omap_app. Qed.

Lemma stepped_mirrored nm i st b st' :
  stepped clock redact nm i st b st' -> mirrored st -> mirrored st'.
Proof.
  unfold mirrored. intros Hs Hm.
  destruct Hs; cbn [events traces]; [exact Hm| |];
    rewrite updates_app, fmap_app, Hm; reflexivity.
Qed.

Lemma run_steps_mirrored steps : forall i st,
  mirrored st -> mirrored (run_steps agents clock redact steps i st).
Proof.
  induction steps as [|nm rest IH]; intros i st Hm; [exact Hm|].
  rewrite run_steps_cons.
  pose proof (stepped_mirrored _ _ _ _ _
                (executeStep_stepped agents clock redact nm i st) Hm) as H1.
  destruct (negb _ && _); [|by apply IH].
  unfold mirrored in *. cbn [triggerFallback events traces].
  rewrite updates_app, H1. cbn. by rewrite app_nil_r.
Qed.

(** A run that stops on a critical step has called neither the agents
    nor anything else after that step. *)
Lemma short_circuit_keys cb key :
  key <> "getProfile" -> key <> "recentTx" ->
  let st := run_steps agents clock redact buildPlan 0 (initial cb) in
  fallbackUsed st = true -> context st !! key = None.
Proof.
  intros Hk0 Hk1. cbv zeta. unfold buildPlan.
  rewrite run_steps_cons.
  pose proof (executeStep_stepped agents clock redact "getProfile" 0 (initial cb))
    as H0.
  destruct (negb (executeStep agents clock redact "getProfile" 0 (initial cb)).1
            && isStepCritical "getProfile") eqn:E0.
  { intros _. apply andb_true_iff in E0 as [Hb _].
    apply negb_true_iff in Hb.
    destruct H0; try discriminate; cbn [triggerFallback context initial];
      by rewrite lookup_insert_ne, lookup_empty. }
  set (st0 := (executeStep agents clock redact "getProfile" 0 (initial cb)).2) in *.
  assert (Hc0 : context st0 !! key = None).
  { destruct H0; cbn [context initial]; rewrite ?lookup_insert_ne by done;
      apply lookup_empty. }
  rewrite run_steps_cons.
  pose proof (executeStep_stepped agents clock redact "recentTx" 1 st0) as H1.
  destruct (negb (executeStep agents clock redact "recentTx" 1 st0).1
            && isStepCritical "recentTx") eqn:E1.
  { intros _. apply andb_true_iff in E1 as [Hb _].
    apply negb_true_iff in Hb.
    destruct H1; try discriminate; cbn [triggerFallback context];
      by rewrite lookup_insert_ne. }
  rewrite noncritical_never_stops by (repeat constructor).
  rewrite (stepped_flag _ _ _ _ _ _ _ H1), (stepped_flag _ _ _ _ _ _ _ H0).
  discriminate.
Qed.

Lemma executeStep_refused nm i st :
  (isCircuitOpen nm (at_breaker (clock i)) (circuitBreakers st)).1 = true ->
  executeStep agents clock redact nm i st = (false, st).
Proof.
  unfold executeStep, isCircuitOpen.
  destruct (circuitBreakers st !! nm) as [b|]; [|discriminate].
  destruct (isOpen b); [|discriminate].
  destruct (_ >? _); [discriminate|].
  intros _. by destruct st.
Qed.

End Run.

(** In every run the flag of a breaker is set exactly when its counter
    has reached three, provided this was so in the table the run
    started with; and a step that returned leaves its breaker, if it
    has one, closed with a counter of zero: the counter counts
    consecutive failures. *)
Theorem breaker_flag_counts_failures
    (agents : string -> gmap string Obj -> Outcome)
    (clock : nat -> StepClock) (redact : Obj -> Obj)
    (cb : gmap string Breaker) :
  table_consistent cb ->
  table_consistent (circuitBreakers (execute agents clock redact cb).1)
  /\ (forall nm i st b,
        (executeStep agents clock redact nm i st).1 = true ->
        circuitBreakers (executeStep agents clock redact nm i st).2 !! nm = Some b ->
        failures b = 0 /\ isOpen b = false).
Proof.
  intros Hc. split.
  - unfold execute. cbn [fst]. by apply run_steps_consistent.
  - apply executeStep_success_resets.
Qed.

Lemma breaker_flag_counts_failures_witness :
  table_consistent risk_breaker_open
  /\ table_consistent
       (circuitBreakers (execute agents_ok (clock_at 1000) no_redaction
                           risk_breaker_open).1).
Proof.
  assert (H : table_consistent risk_breaker_open).
  { intros nm b Hb. unfold risk_breaker_open in Hb.
    apply lookup_singleton_Some in Hb as [_ <-]. reflexivity. }
  split; [exact H|].
  exact (proj1 (breaker_flag_counts_failures agents_ok (clock_at 1000)
                  no_redaction risk_breaker_open H)).
Defined.

(** A step without an entry in the table, after any number of failing
    calls: its counter never passes three and never exceeds the number
    of calls, and the flag is set exactly when it stands at three; so
    fewer than three failing calls never make the breaker refuse, three
    of them open it, and the next call is refused exactly when the
    counter stands at three and the last recorded failure is at most 30
    seconds old.  A refused call records nothing. *)
Theorem breaker_opens_at_third_failure (nm : string) (clks : list StepClock)
    (cb : gmap string Breaker) (now : Z) :
  cb !! nm = None ->
  let cb' := fail_at nm clks cb in
  (forall b, cb' !! nm = Some b ->
     1 <= failures b <= 3 /\ failures b <= Z.of_nat (length clks)
     /\ isOpen b = (failures b =? 3))
  /\ ((isCircuitOpen nm now cb').1 = true
      <-> exists b, cb' !! nm = Some b /\ failures b = 3
                    /\ now - lastFailure b <= 30000)
  /\ ((length clks < 3)%nat -> (isCircuitOpen nm now cb').1 = false)
  /\ (forall c1 c2 c3, clks = [c1; c2; c3] ->
        cb' !! nm = Some {| failures := 3; lastFailure := at_failure c3;
                            isOpen := true |}
        /\ ((isCircuitOpen nm now cb').1 = true
            <-> now - at_failure c3 <= 30000))
  /\ (forall clk, (isCircuitOpen nm (at_breaker clk) cb').1 = true ->
        failed_call nm cb' clk = cb').
Proof.
  intros Hnone cb'.
  pose proof (fail_at_counted nm clks cb Hnone) as Hinv. fold cb' in Hinv.
  assert (Hopen : forall t, (isCircuitOpen nm t cb').1 = true
                  <-> exists b, cb' !! nm = Some b /\ failures b = 3
                                /\ t - lastFailure b <= 30000).
  { intros t. unfold isCircuitOpen.
    destruct (cb' !! nm) as [b|]; [|split; [discriminate | by intros (? & ? & _)]].
    destruct Hinv as [_ (Hf & Hn & Ho)]. rewrite Ho.
    destruct (Z.eqb_spec (failures b) 3) as [E3|N3].
    - rewrite Z.gtb_ltb.
      destruct (Z.ltb_spec 30000 (t - lastFailure b)); cbn [fst]; split.
      + discriminate.
      + intros (b' & [= <-] & _ & Hl). lia.
      + intros _. exists b. repeat split; [exact E3 | lia].
      + reflexivity.
    - cbn [fst]. split; [discriminate|]. by intros (b' & [= <-] & E3 & _). }
  split; [|split; [|split; [|split]]].
  - intros b Hb. rewrite Hb in Hinv. apply Hinv.
  - apply Hopen.
  - intros Hlen. apply not_true_iff_false. rewrite Hopen.
    intros (b & Hb & E3 & _). rewrite Hb in Hinv.
    destruct Hinv as [_ (_ & Hn & _)]. lia.
  - intros c1 c2 c3 ->.
    pose proof (fail_at_three nm c1 c2 c3 cb Hnone) as E. fold cb' in E.
    split; [exact E|]. rewrite Hopen, E. split.
    + by intros (b & [= <-] & _ & Hl).
    + intros Hl. eexists. by repeat split.
  - intros clk Ho. unfold failed_call.
    destruct (isCircuitOpen nm (at_breaker clk) cb') as [open cb''] eqn:E.
    cbn [fst] in Ho. subst open.
    unfold isCircuitOpen in E. destruct (cb' !! nm) as [b|]; [|discriminate].
    destruct (isOpen b); [|discriminate].
    destruct (_ >? _); [discriminate|]. by injection E as <-.
Qed.

(** Readings of the clock for a call that starts at [t] and fails
    half a second later. *)
Definition fails_at (t : Z) : StepClock :=
  {| at_start := t; at_breaker := t; at_end := t + 500; at_failure := t + 500 |}.

Lemma breaker_opens_at_third_failure_witness :
  (∅ : gmap string Breaker) !! "riskSignals" = None
  /\ (isCircuitOpen "riskSignals" 31000
        (fail_at "riskSignals" [fails_at 100; fails_at 600; fails_at 1100] ∅)).1
     = true.
Proof.
  assert (H : (∅ : gmap string Breaker) !! "riskSignals" = None)
    by apply lookup_empty.
  split; [exact H|].
  destruct (breaker_opens_at_third_failure "riskSignals"
              [fails_at 100; fails_at 600; fails_at 1100] ∅ 31000 H)
    as (_ & _ & _ & H3 & _).
  apply (H3 _ _ _ eq_refl). cbn. lia.
Defined.

(** Four failing calls, the last one 38 seconds after the third: the
    breaker, open after the third, is closed again by the question of
    the fourth call, whose failure is then the first of a new count. *)
Example fourth_failure_after_a_pause :
  let cb := fail_at "riskSignals"
              [fails_at 0; fails_at 1000; fails_at 2000; fails_at 40000] ∅ in
  cb !! "riskSignals"
  = Some {| failures := 1; lastFailure := 40500; isOpen := false |}
  /\ (isCircuitOpen "riskSignals" 40501 cb).1 = false.
Proof. vm_compute. split; reflexivity. Qed.

(** An open breaker whose last failure is more than 30 seconds old lets
    the call through and starts counting again from zero: two further
    failures do not open it. *)
Theorem breaker_restarts_after_30s (nm : string) (now : Z)
    (cb : gmap string Breaker) (b : Breaker) :
  cb !! nm = Some b -> isOpen b = true -> 30000 < now - lastFailure b ->
  isCircuitOpen nm now cb
  = (false, <[nm := {| failures := 0; lastFailure := lastFailure b;
                       isOpen := false |}]> cb)
  /\ (forall c1 c2 now',
        (isCircuitOpen nm now'
           (fail_at nm [c1; c2] (isCircuitOpen nm now cb).2)).1 = false).
Proof.
  intros Hb Ho Hlate.
  assert (E : isCircuitOpen nm now cb
              = (false, <[nm := {| failures := 0; lastFailure := lastFailure b;
                                   isOpen := false |}]> cb)).
  { unfold isCircuitOpen. rewrite Hb, Ho.
    replace (now - lastFailure b >? 30000) with true by (symmetry; lia).
    reflexivity. }
  split; [exact E|].
  intros c1 c2 now'. rewrite E. cbn [snd fail_at foldl].
  set (cb0 := <[nm := _]> cb).
  assert (E0 : cb0 !! nm = Some {| failures := 0; lastFailure := lastFailure b;
                                   isOpen := false |})
    by apply lookup_insert_eq.
  pose proof (failed_call_closed nm cb0 c1 _ E0 eq_refl) as E1.
  cbn [failures] in E1.
  pose proof (failed_call_closed nm _ c2 _ E1 eq_refl) as E2.
  cbn [failures] in E2.
  unfold isCircuitOpen. by rewrite E2.
Qed.

Lemma breaker_restarts_after_30s_witness :
  isCircuitOpen "riskSignals" 31000 risk_breaker_open
  = (false, {[ "riskSignals" := {| failures := 0; lastFailure := 0;
                                   isOpen := false |} ]}).
Proof.
  assert (Hb : risk_breaker_open !! "riskSignals"
               = Some {| failures := 3; lastFailure := 0; isOpen := true |})
    by apply lookup_singleton_eq.
  rewrite (proj1 (breaker_restarts_after_30s "riskSignals" 31000
                    risk_breaker_open _ Hb eq_refl ltac:(cbn; lia))).
  reflexivity.
Defined.

(** A step refused by its open breaker changes nothing at all: the
    agent is not called, no trace and no event is recorded, no failure
    is counted.  The run skips a step that is not critical, and ends
    with the fallback, still without a trace, on a critical one. *)
Theorem refused_step_is_silent
    (agents : string -> gmap string Obj -> Outcome)
    (clock : nat -> StepClock) (redact : Obj -> Obj)
    (nm : string) (rest : list string) (i : nat) (st : State) :
  (isCircuitOpen nm (at_breaker (clock i)) (circuitBreakers st)).1 = true ->
  executeStep agents clock redact nm i st = (false, st)
  /\ run_steps agents clock redact (nm :: rest) i st
     = if isStepCritical nm then triggerFallback nm st
       else run_steps agents clock redact rest (S i) st.
Proof.
  intros Ho.
  pose proof (executeStep_refused agents clock redact nm i st Ho) as E.
  split; [exact E|].
  rewrite run_steps_cons, E. cbn [fst snd negb andb]. reflexivity.
Qed.

(** The breaker of getProfile, opened half a second before the run. *)
Definition profile_breaker_open : gmap string Breaker :=
  {[ "getProfile" := {| failures := 3; lastFailure := 500; isOpen := true |} ]}.

Lemma refused_step_is_silent_witness :
  let run := execute agents_ok (clock_at 1000) no_redaction profile_breaker_open in
  traces run.1 = []
  /\ events run.1 = [plan_built buildPlan; fallback_triggered "getProfile"]
  /\ fallbackUsed run.1 = true.
Proof.
  cbv zeta. unfold execute. cbn [fst].
  assert (Ho : (isCircuitOpen "getProfile" (at_breaker (clock_at 1000 0%nat))
                  (circuitBreakers (initial profile_breaker_open))).1 = true).
  { vm_compute. reflexivity. }
  assert (E : run_steps agents_ok (clock_at 1000) no_redaction buildPlan 0
                (initial profile_breaker_open)
              = triggerFallback "getProfile" (initial profile_breaker_open)).
  { exact (proj2 (refused_step_is_silent agents_ok (clock_at 1000) no_redaction
                    "getProfile"
                    ["recentTx"; "riskSignals"; "kbLookup"; "decide";
                     "proposeAction"]
                    0 (initial profile_breaker_open) Ho)). }
  rewrite E. repeat split.
Defined.

(** Every trace of a run has its [tool_update] event, in the same
    order and with the same outcome, and no run records more than six
    traces. *)
Theorem tool_updates_mirror_traces
    (agents : string -> gmap string Obj -> Outcome)
    (clock : nat -> StepClock) (redact : Obj -> Obj)
    (cb : gmap string Breaker) :
  let st := (execute agents clock redact cb).1 in
  updates (events st) = (fun t => (step t, ok t)) <$> traces st
  /\ (length (traces st) <= 6)%nat.
Proof.
  cbv zeta. unfold execute. cbn [fst]. split.
  - apply run_steps_mirrored. reflexivity.
  - pose proof (run_steps_stopped agents clock redact buildPlan 0 (initial cb)
                  eq_refl) as [Hlen _].
    exact Hlen.
Qed.

(** Every run that stops on a critical step ends with the same
    decision, whichever of the two steps failed and however: low risk,
    no reasons, no citations, contact_customer, and a confidence of 21
    (the default score 30, times 0.7).  The downgrade of a high risk
    under fallback is never reached by a run. *)
Theorem short_circuit_decision
    (agents : string -> gmap string Obj -> Outcome)
    (clock : nat -> StepClock) (redact : Obj -> Obj)
    (cb : gmap string Breaker) :
  let run := execute agents clock redact cb in
  fallbackUsed run.1 = true ->
  risk run.2 = low
  /\ r_reasons run.2 = []
  /\ citations run.2 = []
  /\ proposedAction run.2 = "contact_customer"
  /\ (exists q, confidence run.2 = Some q /\ (q == 21)%Q).
Proof.
  cbv zeta. unfold execute. cbn [fst snd]. intros Hu.
  pose proof (short_circuit_keys agents clock redact cb) as Hk.
  cbv zeta in Hk.
  unfold generateDecision, or_default.
  cbn [risk r_reasons citations proposedAction confidence].
  rewrite (Hk "riskSignals") by done.
  rewrite (Hk "kbLookup") by done.
  rewrite (Hk "proposeAction") by done.
  rewrite Hu. cbn.
  repeat split. eexists. split; reflexivity.
Qed.

Lemma short_circuit_decision_witness :
  let run := execute (agents_failing "recentTx" "connection refused")
               (clock_at 1000) no_redaction ∅ in
  fallbackUsed run.1 = true /\ risk run.2 = low
  /\ proposedAction run.2 = "contact_customer".
Proof.
  cbv zeta.
  assert (H : fallbackUsed
                (execute (agents_failing "recentTx" "connection refused")
                   (clock_at 1000) no_redaction ∅).1 = true).
  { vm_compute. reflexivity. }
  split; [exact H|].
  pose proof (short_circuit_decision
                (agents_failing "recentTx" "connection refused")
                (clock_at 1000) no_redaction ∅ H) as (Hr & _ & _ & Ha & _).
  split; [exact Hr | exact Ha].
Defined.

End Breakers.

(* ===================================================================== *)
(** ** routes/insights.ts, second router : what every request preserves *)
(* ===================================================================== *)

Module ActionInvariants.
Import Actions.

(** The four routes of the router, and a sequence of requests served
    one after the other. *)
Inductive Request :=
| Contact (req : AlertRequest)
| FalsePositive (req : AlertRequest)
| Freeze (req : FreezeRequest)
| Dispute (req : DisputeRequest).

Definition handle (m : Meta) (r : Request) (w : World) : World * Response :=
  match r with
  | Contact req => contact_customer m req w
  | FalsePositive req => mark_false_positive m req w
  | Freeze req => freeze_card m req w
  | Dispute req => open_dispute m req w
  end.

Fixpoint handle_all (rs : list (Meta * Request)) (w : World) : World :=
  match rs with
  | [] => w
  | (m, r) :: rs' => handle_all rs' (handle m r w).1
  end.

(** How the data store [d'] after some requests relates to the data
    store [d] before them; [ids] are the case ids that the data store
    drew for these requests. *)
Record grows (ids : list string) (d d' : Db) : Prop := {
  grows_transactions : transactions d' = transactions d;
  grows_cases : exists newc newe,
    cases d' = cases d ++ newc
    /\ caseEvents d' = caseEvents d ++ newe
    /\ ev_caseId <$> newe = case_id <$> newc
    /\ (case_id <$> newc) `sublist_of` ids;
  grows_cards : forall id,
    card_customerId <$> cards d' !! id = card_customerId <$> cards d !! id
    /\ (card_status <$> cards d' !! id = card_status <$> cards d !! id
        \/ card_status <$> cards d' !! id = Some "FROZEN");
  grows_alerts : forall id,
    alert_suspectTxnId <$> alerts d' !! id = alert_suspectTxnId <$> alerts d !! id
}.

Lemma grows_refl d : grows [] d d.
Proof.
  split; [reflexivity| |by intros; split; [|left]|reflexivity].
  exists [], []. rewrite !app_nil_r. repeat split. constructor.
Qed.

Lemma grows_weaken ids ids' d d' :
  ids `sublist_of` ids' -> grows ids d d' -> grows ids' d d'.
Proof.
  intros Hn [Ht (newc & newe & H1 & H2 & H3 & H4) Hc Ha].
  split; [exact Ht| |exact Hc|exact Ha].
  exists newc, newe. repeat split; try assumption. by transitivity ids.
Qed.

Lemma grows_same ids d : grows ids d d.
Proof. apply (grows_weaken []); [apply sublist_nil_l | apply grows_refl]. Qed.

Lemma grows_trans ids1 ids2 d1 d2 d3 :
  grows ids1 d1 d2 -> grows ids2 d2 d3 -> grows (ids1 ++ ids2) d1 d3.
Proof.
  intros [Ht (c1 & e1 & A1 & A2 & A3 & A4) Hc Ha]
         [Ht' (c2 & e2 & B1 & B2 & B3 & B4) Hc' Ha'].
  split.
  - congruence.
  - exists (c1 ++ c2), (e1 ++ e2).
    rewrite B1, B2, A1, A2, <- !app_assoc, !fmap_app.
    repeat split; try reflexivity.
    + by rewrite A3, B3.
    + by apply sublist_app.
  - intros id. destruct (Hc id) as [C1 C2], (Hc' id) as [C1' C2'].
    split; [congruence|].
    destruct C2' as [E|E]; [|by right].
    rewrite E. exact C2.
  - intros id. by rewrite Ha', Ha.
Qed.

(** The single writes. *)
Lemma grows_case_event d caseId customerId txnId type status reasonCode
    actor action ts :
  grows [caseId] d
    (create_event (create_case d caseId customerId txnId type status reasonCode)
       caseId actor action ts).
Proof.
  split; [reflexivity| |by intros; split; [|left]|reflexivity].
  eexists [_], [_]. cbn. repeat split. reflexivity.
Qed.

Lemma grows_update_alert d alertId status d' :
  update_alert d alertId status = Some d' -> grows [] d d'.
Proof.
  unfold update_alert. destruct (alerts d !! alertId) as [a|] eqn:E; [|discriminate].
  intros [= <-].
  split; [reflexivity| |by intros; split; [|left]|].
  - exists [], []. cbn. rewrite !app_nil_r. repeat split. constructor.
  - intros id. cbn. destruct (decide (id = alertId)) as [->|Hne].
    + by rewrite lookup_insert_eq, E.
    + by rewrite lookup_insert_ne.
Qed.

Lemma grows_update_card d cardId :
  grows [] d (update_card d cardId "FROZEN").
Proof.
  unfold update_card. destruct (cards d !! cardId) as [c|] eqn:E;
    [|apply grows_refl].
  split; [reflexivity| | |reflexivity].
  - exists [], []. cbn. rewrite !app_nil_r. repeat split. constructor.
  - intros id. cbn. destruct (decide (id = cardId)) as [->|Hne].
    + rewrite lookup_insert_eq, E. cbn. split; [reflexivity | by right].
    + rewrite lookup_insert_ne by done. split; [reflexivity | by left].
Qed.

Lemma grows_contact m req w :
  grows [newCaseId m] (db w) (db (contact_customer m req w).1).
Proof.
  unfold contact_customer.
  destruct (negb _ || negb _); [apply grows_same|].
  cbn [fst db].
  set (d2 := create_event _ _ _ _ _).
  pose proof (grows_case_event (db w) (newCaseId m)
                (default "" (a_customerId req))
                (if present (a_suspectTxnId req) then a_suspectTxnId req else None)
                "CONTACT_CUSTOMER" "CLOSED" "CUSTOMER_CONTACTED"
                (userId m) "CUSTOMER_CONTACTED" (now m)) as H1.
  fold d2 in H1.
  destruct (update_alert d2 (default "" (a_alertId req)) "CONTACTED") as [d3|] eqn:E.
  - cbn. apply (grows_trans [newCaseId m] [] _ d2); [exact H1|].
    by eapply grows_update_alert.
  - exact H1.
Qed.

Lemma update_alert_found d alertId status a :
  alerts d !! alertId = Some a -> is_Some (update_alert d alertId status).
Proof. intros E. unfold update_alert. rewrite E. by eexists. Qed.

Lemma grows_false_positive m req w :
  grows [newCaseId m] (db w) (db (mark_false_positive m req w).1).
Proof.
  unfold mark_false_positive.
  destruct (negb _ || negb _); [apply grows_same|].
  destruct (alerts (db w) !! default "" (a_alertId req)) as [alert|] eqn:Ea;
    [|apply grows_same].
  set (d2 := create_event _ _ _ _ _).
  pose proof (grows_case_event (db w) (newCaseId m)
                (default "" (a_customerId req))
                (if present (a_suspectTxnId req) then a_suspectTxnId req
                 else Some (alert_suspectTxnId alert))
                "FALSE_POSITIVE" "CLOSED_FALSE_POSITIVE" "AI_FALSE_POSITIVE"
                (userId m) "CLOSED_FALSE_POSITIVE" (now m)) as H1.
  fold d2 in H1.
  destruct (update_alert d2 _ _) as [d3|] eqn:E; cbn [fst db]; [|exact H1].
  apply (grows_trans [newCaseId m] [] _ d2); [exact H1|].
  by eapply grows_update_alert.
Qed.

Lemma grows_freeze_transaction m req cardId card d d' :
  freeze_transaction m req cardId card d = Some d' -> grows [newCaseId m] d d'.
Proof.
  unfold freeze_transaction.
  set (d1 := update_card d cardId "FROZEN").
  set (d3 := create_event _ _ _ _ _).
  assert (H3 : grows [newCaseId m] d d3).
  { apply (grows_trans [] [newCaseId m] _ d1); [apply grows_update_card|].
    apply grows_case_event. }
  destruct (f_alertId req) as [alertId|]; [|by intros [= <-]].
  destruct (present (Some alertId)); [|by intros [= <-]].
  intros E. apply (grows_trans [newCaseId m] [] _ d3); [exact H3|].
  by eapply grows_update_alert.
Qed.

Lemma grows_freeze m req w :
  grows [newCaseId m] (db w) (db (freeze_card m req w).1).
Proof.
  pose proof (grows_same [newCaseId m] (db w)) as H0.
  unfold freeze_card, freeze_execute.
  destruct (freeze_errors req); [|exact H0].
  destruct (match header m with Some _ => _ | None => _ end); [exact H0|].
  destruct (cards (db w) !! default "" (f_cardId req)) as [card|]; [|exact H0].
  destruct (String.eqb (card_status card) "FROZEN"); [exact H0|].
  destruct (f_otp req) as [otp|]; [|exact H0].
  destruct (negb (verifyOTP _ otp)); [exact H0|].
  destruct (freeze_transaction _ _ _ _ _) as [d|] eqn:E; [|exact H0].
  cbn [fst db]. by eapply grows_freeze_transaction.
Qed.

Lemma grows_dispute_transaction m txnId reasonCode transaction d d' :
  dispute_transaction m txnId reasonCode transaction d = Some d' ->
  grows [newCaseId m] d d'.
Proof.
  unfold dispute_transaction.
  set (d2 := create_event _ _ _ _ _).
  assert (H2 : grows [newCaseId m] d d2) by apply grows_case_event.
  destruct (find_alert_for d2 txnId) as [alertId|]; [|by intros [= <-]].
  intros E. apply (grows_trans [newCaseId m] [] _ d2); [exact H2|].
  by eapply grows_update_alert.
Qed.

Lemma grows_dispute m req w :
  grows [newCaseId m] (db w) (db (open_dispute m req w).1).
Proof.
  pose proof (grows_same [newCaseId m] (db w)) as H0.
  unfold open_dispute, dispute_execute.
  destruct (dispute_errors req); [|exact H0].
  destruct (match header m with Some _ => _ | None => _ end); [exact H0|].
  destruct (transactions (db w) !! default "" (d_txnId req)) as [tx|]; [|exact H0].
  destruct (find_dispute _ _); [exact H0|].
  destruct (dispute_transaction _ _ _ _ _) as [d|] eqn:E; [|exact H0].
  cbn [fst db]. by eapply grows_dispute_transaction.
Qed.

Lemma grows_handle m r w : grows [newCaseId m] (db w) (db (handle m r w).1).
Proof.
  destruct r; cbn [handle];
    [apply grows_contact | apply grows_false_positive
     | apply grows_freeze | apply grows_dispute].
Qed.

(** The case ids drawn for a sequence of requests. *)
Definition drawn_ids (rs : list (Meta * Request)) : list string :=
  (fun mr => newCaseId mr.1) <$> rs.

Lemma grows_handle_all rs : forall w,
  grows (drawn_ids rs) (db w) (db (handle_all rs w)).
Proof.
  induction rs as [|[m r] rs IH]; intros w; [apply grows_refl|].
  cbn [handle_all].
  apply (grows_trans [newCaseId m] (drawn_ids rs) _ (db (handle m r w).1));
    [apply grows_handle | apply IH].
Qed.

(** *** Requests that are turned down *)

Lemma contact_rejected m req w :
  code (contact_customer m req w).2 <> 200 -> (contact_customer m req w).1 = w.
Proof.
  unfold contact_customer. destruct (negb _ || negb _); [reflexivity|].
  cbn. congruence.
Qed.

Lemma false_positive_rejected m req w :
  code (mark_false_positive m req w).2 <> 200 ->
  (mark_false_positive m req w).1 = w.
Proof.
  unfold mark_false_positive. destruct (negb _ || negb _); [reflexivity|].
  destruct (alerts (db w) !! default "" (a_alertId req)) as [alert|] eqn:Ea;
    [|reflexivity].
  unfold update_alert. cbn [alerts create_event create_case].
  rewrite Ea. cbn. congruence.
Qed.

Lemma freeze_rejected m req w :
  code (freeze_card m req w).2 <> 200 -> (freeze_card m req w).1 = w.
Proof.
  unfold freeze_card, freeze_execute.
  destruct (freeze_errors req); [|reflexivity].
  destruct (match header m with Some _ => _ | None => _ end); [reflexivity|].
  destruct (cards (db w) !! default "" (f_cardId req)) as [card|]; [|reflexivity].
  destruct (String.eqb (card_status card) "FROZEN"); [cbn; congruence|].
  destruct (f_otp req) as [otp|]; [|reflexivity].
  destruct (negb (verifyOTP _ otp)); [reflexivity|].
  destruct (freeze_transaction _ _ _ _ _) as [d|]; [cbn; congruence|reflexivity].
Qed.

Lemma dispute_rejected m req w :
  code (open_dispute m req w).2 <> 200 -> (open_dispute m req w).1 = w.
Proof.
  unfold open_dispute, dispute_execute.
  destruct (dispute_errors req); [|reflexivity].
  destruct (match header m with Some _ => _ | None => _ end); [reflexivity|].
  destruct (transactions (db w) !! default "" (d_txnId req)) as [tx|];
    [|reflexivity].
  destruct (find_dispute _ _); [cbn; congruence|].
  destruct (dispute_transaction _ _ _ _ _) as [d|]; [cbn; congruence|reflexivity].
Qed.

(** *** Open disputes *)

(** The filter of [find_dispute]. *)
Definition is_open_dispute (txnId : string) (c : Case) : bool :=
  bool_decide (case_txnId c = Some txnId)
  && String.eqb (case_type c) "DISPUTE"
  && bool_decide (case_status c ∈ open_statuses).

Definition open_disputes (d : Db) (txnId : string) : list Case :=
  List.filter (is_open_dispute txnId) (cases d).

Lemma find_dispute_none d txnId :
  find_dispute d txnId = None -> open_disputes d txnId = [].
Proof.
  unfold find_dispute, open_disputes.
  change (fun c => _ && _ && _) with (is_open_dispute txnId).
  induction (cases d) as [|c l IH]; [reflexivity|].
  cbn. destruct (is_open_dispute txnId c); [discriminate | exact IH].
Qed.

(** What a request may add to the cases: nothing, or one case that is
    either no dispute or the first open dispute of its transaction. *)
Definition adds_at_most_one (d d' : Db) : Prop :=
  cases d' = cases d
  \/ exists c, cases d' = cases d ++ [c]
       /\ (String.eqb (case_type c) "DISPUTE" = false
           \/ exists t, case_txnId c = Some t /\ find_dispute d t = None).

Lemma update_alert_cases d alertId status d' :
  update_alert d alertId status = Some d' -> cases d' = cases d.
Proof.
  unfold update_alert. destruct (alerts d !! alertId); [|discriminate].
  by intros [= <-].
Qed.

Lemma update_card_cases d cardId status :
  cases (update_card d cardId status) = cases d.
Proof. unfold update_card. by destruct (cards d !! cardId). Qed.

Lemma handle_adds_at_most_one m r w :
  adds_at_most_one (db w) (db (handle m r w).1).
Proof.
  destruct r as [req|req|req|req]; cbn [handle].
  - unfold contact_customer. destruct (negb _ || negb _); [by left|].
    right. cbn [fst db].
    set (d2 := create_event _ _ _ _ _).
    eexists. split.
    { destruct (update_alert d2 _ _) as [d3|] eqn:E; cbn [default from_option id].
      - rewrite (update_alert_cases _ _ _ _ E). reflexivity.
      - reflexivity. }
    left. reflexivity.
  - unfold mark_false_positive. destruct (negb _ || negb _); [by left|].
    destruct (alerts (db w) !! _) as [alert|]; [|by left].
    right. set (d2 := create_event _ _ _ _ _).
    eexists. split.
    { destruct (update_alert d2 _ _) as [d3|] eqn:E; cbn [fst db].
      - rewrite (update_alert_cases _ _ _ _ E). reflexivity.
      - reflexivity. }
    left. reflexivity.
  - unfold freeze_card, freeze_execute.
    destruct (freeze_errors req); [|by left].
    destruct (match header m with Some _ => _ | None => _ end); [by left|].
    destruct (cards (db w) !! default "" (f_cardId req)) as [card|]; [|by left].
    destruct (String.eqb (card_status card) "FROZEN"); [by left|].
    destruct (f_otp req) as [otp|]; [|by left].
    destruct (negb (verifyOTP _ otp)); [by left|].
    destruct (freeze_transaction _ _ _ _ _) as [d|] eqn:E; [|by left].
    right. cbn [fst db]. unfold freeze_transaction in E.
    eexists. split.
    { destruct (f_alertId req) as [alertId|].
      - destruct (present (Some alertId)).
        + rewrite (update_alert_cases _ _ _ _ E).
          cbn [cases create_event create_case].
          rewrite update_card_cases. reflexivity.
        + injection E as <-. cbn [cases create_event create_case].
          rewrite update_card_cases. reflexivity.
      - injection E as <-. cbn [cases create_event create_case].
        rewrite update_card_cases. reflexivity. }
    left. reflexivity.
  - unfold open_dispute, dispute_execute.
    destruct (dispute_errors req); [|by left].
    destruct (match header m with Some _ => _ | None => _ end); [by left|].
    destruct (transactions (db w) !! default "" (d_txnId req)) as [tx|];
      [|by left].
    destruct (find_dispute _ _) eqn:Ef; [by left|].
    destruct (dispute_transaction _ _ _ _ _) as [d|] eqn:E; [|by left].
    right. cbn [fst db]. unfold dispute_transaction in E.
    eexists. split.
    + destruct (find_alert_for _ _) as [alertId|].
      * rewrite (update_alert_cases _ _ _ _ E). reflexivity.
      * injection E as <-. reflexivity.
    + right. eexists. split; [reflexivity | exact Ef].
Qed.

Definition at_most_one_open_dispute (d : Db) : Prop :=
  forall txnId, (length (open_disputes d txnId) <= 1)%nat.

Lemma adds_at_most_one_keeps d d' :
  adds_at_most_one d d' ->
  at_most_one_open_dispute d -> at_most_one_open_dispute d'.
Proof.
  intros [E|(c & E & Hc)] Hinv txnId; unfold open_disputes; rewrite E.
  - apply Hinv.
  - rewrite List.filter_app, length_app. cbn [List.filter].
    destruct (is_open_dispute txnId c) eqn:Ec; [|cbn; specialize (Hinv txnId);
      unfold open_disputes in Hinv; lia].
    unfold is_open_dispute in Ec.
    apply andb_true_iff in Ec as [Ec _]. apply andb_true_iff in Ec as [Et Ety].
    destruct Hc as [Hty|(t & Ht & Hnone)]; [congruence|].
    apply bool_decide_eq_true in Et. rewrite Ht in Et. injection Et as ->.
    pose proof (find_dispute_none d txnId Hnone) as Hn.
    unfold open_disputes in Hn. rewrite Hn. cbn. lia.
Qed.

Lemma handle_all_keeps rs : forall w,
  at_most_one_open_dispute (db w) ->
  at_most_one_open_dispute (db (handle_all rs w)).
Proof.
  induction rs as [|[m r] rs IH]; intros w Hinv; [exact Hinv|].
  cbn [handle_all]. apply IH.
  eapply adds_at_most_one_keeps; [apply handle_adds_at_most_one | exact Hinv].
Qed.

(** Whatever requests are served, cases and case events are only ever
    appended, at most one of each per request; each new case carries
    the id that the data store drew for its request, every new event
    belongs to the case created with it, and the transactions are left
    alone. *)
Theorem cases_and_events_only_grow (rs : list (Meta * Request)) (w : World) :
  let d := db w in
  let d' := db (handle_all rs w) in
  transactions d' = transactions d
  /\ exists newc newe,
       cases d' = cases d ++ newc
       /\ caseEvents d' = caseEvents d ++ newe
       /\ ev_caseId <$> newe = case_id <$> newc
       /\ (case_id <$> newc) `sublist_of` drawn_ids rs
       /\ (length newc <= length rs)%nat.
Proof.
  cbv zeta.
  destruct (grows_handle_all rs w) as [Ht (newc & newe & H1 & H2 & H3 & H4) _ _].
  split; [exact Ht|]. exists newc, newe. repeat split; try assumption.
  apply sublist_length in H4. unfold drawn_ids in H4.
  by rewrite !length_fmap in H4.
Qed.

(** No request thaws a card or moves it to another customer: a card
    that is frozen stays as it is under every sequence of requests. *)
Theorem frozen_card_stays_frozen (rs : list (Meta * Request)) (w : World)
    (id : string) (c : Card) :
  cards (db w) !! id = Some c -> card_status c = "FROZEN" ->
  cards (db (handle_all rs w)) !! id = Some c.
Proof.
  intros Hc Hf. destruct (grows_handle_all rs w) as [_ _ Hcards _].
  destruct (Hcards id) as [Hcust Hst]. rewrite Hc in Hcust, Hst. cbn in Hcust, Hst.
  rewrite Hf in Hst.
  destruct (cards (db (handle_all rs w)) !! id) as [c'|]; [|discriminate].
  cbn in Hcust, Hst. f_equal. destruct c as [cu stt], c' as [cu' stt']. cbn in *.
  injection Hcust as ->. destruct Hst as [[= ->]|[= ->]]; by subst.
Qed.

Lemma frozen_card_stays_frozen_witness :
  let w := (freeze_card (call_with "k1" 1 1000) freeze_123 world0).1 in
  let frozen := {| card_customerId := "cust_456"; card_status := "FROZEN" |} in
  let later :=
    [ (call_with "k2" 2 2000, Freeze freeze_123);
      (call_with "k3" 3 3000, Contact contact_alert_1);
      (call_with "k4" 4 4000,
       Dispute {| d_txnId := Some "txn_789"; d_reasonCode := Some "10.4" |}) ] in
  cards (db w) !! "card_123" = Some frozen
  /\ cards (db (handle_all later w)) !! "card_123" = Some frozen.
Proof.
  cbv zeta.
  assert (H : cards (db (freeze_card (call_with "k1" 1 1000) freeze_123 world0).1)
                !! "card_123"
              = Some {| card_customerId := "cust_456"; card_status := "FROZEN" |}).
  { vm_compute. reflexivity. }
  split; [exact H|].
  exact (frozen_card_stays_frozen _ _ "card_123" _ H eq_refl).
Defined.

(** A request that is answered with another status than 200 has
    changed neither the data store nor the cache. *)
Theorem rejected_request_changes_nothing (m : Meta) (r : Request) (w : World) :
  code (handle m r w).2 <> 200 -> (handle m r w).1 = w.
Proof.
  destruct r; cbn [handle];
    [apply contact_rejected | apply false_positive_rejected
     | apply freeze_rejected | apply dispute_rejected].
Qed.

Lemma rejected_request_changes_nothing_witness :
  let bad_otp := {| f_cardId := Some "card_123"; f_otp := Some "000000";
                    f_alertId := None; f_suspectTxnId := None |} in
  code (handle (call_with "k1" 1 1000) (Freeze bad_otp) world0).2 = 400
  /\ (handle (call_with "k1" 1 1000) (Freeze bad_otp) world0).1 = world0.
Proof.
  cbv zeta. split; [vm_compute; reflexivity|].
  apply rejected_request_changes_nothing. vm_compute. discriminate.
Defined.

(** The freeze route writes to the data store only for a card that
    exists and is not frozen yet, and only when the code 123456 came
    with the request; the card is then FROZEN, and the last case and
    the last event are the CARD_FREEZE case and its CARD_FROZEN event. *)
Theorem freeze_writes_only_with_code (m : Meta) (req : FreezeRequest) (w : World) :
  let w' := (freeze_card m req w).1 in
  db w' <> db w ->
  f_otp req = Some "123456"
  /\ exists cardId card,
       f_cardId req = Some cardId
       /\ cards (db w) !! cardId = Some card
       /\ card_status card <> "FROZEN"
       /\ cards (db w') !! cardId
          = Some {| card_customerId := card_customerId card;
                    card_status := "FROZEN" |}
       /\ last (cases (db w'))
          = Some {| case_id := newCaseId m;
                    case_customerId := card_customerId card;
                    case_txnId := f_suspectTxnId req;
                    case_type := "CARD_FREEZE";
                    case_status := "CLOSED";
                    case_reasonCode := "FRAUD_PREVENTION" |}
       /\ last (caseEvents (db w'))
          = Some {| ev_caseId := newCaseId m;
                    ev_actor := userId m;
                    ev_action := "CARD_FROZEN";
                    ev_timestamp := now m |}.
Proof.
  cbv zeta. unfold freeze_card, freeze_execute.
  destruct (freeze_errors req) eqn:Ev; [|done].
  destruct (match header m with Some _ => _ | None => _ end); [done|].
  destruct (cards (db w) !! default "" (f_cardId req)) as [card|] eqn:Ecard;
    [|done].
  destruct (String.eqb (card_status card) "FROZEN") eqn:Efr; [done|].
  destruct (f_otp req) as [otp|] eqn:Eotp; [|done].
  destruct (negb (verifyOTP _ otp)) eqn:Ever; [done|].
  destruct (freeze_transaction _ _ _ _ _) as [d|] eqn:E; [|done].
  cbn [fst db]. intros _.
  apply negb_false_iff, verifyOTP_constant in Ever. subst otp.
  split; [reflexivity|].
  assert (Hid : exists cardId, f_cardId req = Some cardId).
  { unfold freeze_errors, required in Ev.
    destruct (f_cardId req) as [cid|]; [by eexists|]. discriminate. }
  destruct Hid as [cardId Hid]. rewrite Hid in *. cbn [default from_option id] in *.
  exists cardId, card. split; [reflexivity|]. split; [exact Ecard|].
  split; [by apply String.eqb_neq|].
  unfold freeze_transaction in E.
  set (d3 := create_event _ _ _ _ _) in E.
  assert (H3 : cards d3 !! cardId
               = Some {| card_customerId := card_customerId card;
                         card_status := "FROZEN" |}
               /\ last (cases d3) = Some {| case_id := newCaseId m;
                    case_customerId := card_customerId card;
                    case_txnId := f_suspectTxnId req;
                    case_type := "CARD_FREEZE";
                    case_status := "CLOSED";
                    case_reasonCode := "FRAUD_PREVENTION" |}
               /\ last (caseEvents d3) = Some {| ev_caseId := newCaseId m;
                    ev_actor := userId m;
                    ev_action := "CARD_FROZEN";
                    ev_timestamp := now m |}).
  { unfold d3. cbn [cards cases caseEvents create_event create_case].
    rewrite !last_snoc. unfold update_card. rewrite Ecard.
    cbn [cards]. by rewrite lookup_insert_eq. }
  assert (Hd : d = d3 \/ exists a s, update_alert d3 a s = Some d).
  { destruct (f_alertId req) as [alertId|]; [|left; congruence].
    destruct (present (Some alertId)); [right; by eexists _, _ | left; congruence]. }
  destruct Hd as [->|(a & s & Hu)]; [exact H3|].
  unfold update_alert in Hu. destruct (alerts d3 !! a); [|discriminate].
  injection Hu as <-. exact H3.
Qed.

Lemma freeze_writes_only_with_code_witness :
  let w' := (freeze_card (call_with "k1" 1 1000) freeze_123 world0).1 in
  db w' <> db world0 /\ f_otp freeze_123 = Some "123456".
Proof.
  cbv zeta.
  assert (H : db (freeze_card (call_with "k1" 1 1000) freeze_123 world0).1
              <> db world0).
  { intros E. apply (f_equal cases) in E. vm_compute in E. discriminate. }
  split; [exact H|].
  exact (proj1 (freeze_writes_only_with_code (call_with "k1" 1 1000) freeze_123
                  world0 H)).
Defined.

(** If no transaction has more than one open dispute, then this is
    still so after any sequence of requests: the dispute route creates
    a case only when it finds none, and the other routes create no
    disputes. *)
Theorem one_open_dispute_per_transaction (rs : list (Meta * Request))
    (w : World) :
  at_most_one_open_dispute (db w) ->
  at_most_one_open_dispute (db (handle_all rs w)).
Proof. apply handle_all_keeps. Qed.

Lemma one_open_dispute_per_transaction_witness :
  let twice :=
    [ (call_with "k1" 1 1000,
       Dispute {| d_txnId := Some "txn_789"; d_reasonCode := Some "10.4" |});
      (call_with "k2" 2 2000,
       Dispute {| d_txnId := Some "txn_789"; d_reasonCode := Some "10.4" |}) ] in
  at_most_one_open_dispute (db world0)
  /\ at_most_one_open_dispute (db (handle_all twice world0))
  /\ length (open_disputes (db (handle_all twice world0)) "txn_789") = 1%nat.
Proof.
  cbv zeta.
  assert (H : at_most_one_open_dispute (db world0)).
  { intros t. cbn. lia. }
  split; [exact H|]. split.
  - exact (one_open_dispute_per_transaction _ world0 H).
  - vm_compute. reflexivity.
Defined.

(** The role of the caller has no part in any of the four routes: an
    agent is served exactly as a lead is. *)
Theorem action_ignores_role (m : Meta) (role : string) (r : Request) (w : World) :
  handle {| userId := userId m; userRole := role;
            idempotencyKey := idempotencyKey m;
            requestId := requestId m; newCaseId := newCaseId m;
            now := now m |} r w
  = handle m r w.
Proof. by destruct r. Qed.

End ActionInvariants.

(* ===================================================================== *)
(** ** middleware/rateLimit.ts : the entries of the store *)
(* ===================================================================== *)

Module LimiterStore.
Import Js RateLimit.

Lemma key_of_inj a b : key_of a = key_of b -> a = b.
Proof. unfold key_of. intros H. cbv [append] in H. by simplify_eq. Qed.

(** A request touches the entry of its own client only: every other
    key of the store, and so the window and the counter of every other
    client, is left as it was. *)
Theorem rate_limit_clients_isolated (W N : Z) (clientId other : string)
    (clk : Clock) (fault : option Fault) (redis : gmap string Entry) :
  other <> clientId ->
  (rateLimitMiddleware W N clientId clk fault redis).1 !! key_of other
  = redis !! key_of other
  /\ (forall key, key <> key_of clientId ->
        (rateLimitMiddleware W N clientId clk fault redis).1 !! key
        = redis !! key).
Proof.
  intros Hne.
  assert (H : forall key, key <> key_of clientId ->
            (rateLimitMiddleware W N clientId clk fault redis).1 !! key
            = redis !! key).
  { intros key Hk. unfold rateLimitMiddleware, redis_setex.
    fold (key_of clientId).
    destruct fault as [[]|]; try reflexivity.
    destruct (count _ >? N); cbn [fst]; by rewrite lookup_insert_ne. }
  split; [|exact H].
  apply H. intros E. apply Hne. by apply key_of_inj.
Qed.

Lemma rate_limit_clients_isolated_witness :
  "10.0.0.8" <> "10.0.0.7"
  /\ (serve 60000 2 "10.0.0.7" [tick 0; tick 10; tick 20] ∅).2 !! 2%nat
     = Some (Status429 {| X_RateLimit_Limit := 2; X_RateLimit_Remaining := 0;
                          X_RateLimit_Reset := 60000 |} 60)
  /\ (rateLimitMiddleware 60000 2 "10.0.0.7" (tick 20) None
        (serve 60000 2 "10.0.0.7" [tick 0; tick 10] ∅).1).1 !! key_of "10.0.0.8"
     = None.
Proof.
  assert (H : "10.0.0.8" <> "10.0.0.7") by discriminate.
  split; [exact H|]. split; [vm_compute; reflexivity|].
  rewrite (proj1 (rate_limit_clients_isolated 60000 2 "10.0.0.7" "10.0.0.8"
                    (tick 20) None _ H)).
  vm_compute. reflexivity.
Defined.

(** A request that is refused has been counted all the same: the
    stored counter is above the limit, the entry has been written anew
    with the full time to live, and the answer reports nothing
    remaining. *)
Theorem refused_request_is_counted (W N : Z) (clientId : string)
    (clk : Clock) (redis : gmap string Entry) (h : Headers) (retryAfter : Z) :
  (rateLimitMiddleware W N clientId clk None redis).2 = Status429 h retryAfter ->
  X_RateLimit_Remaining h = 0
  /\ X_RateLimit_Limit h = N
  /\ exists e,
       (rateLimitMiddleware W N clientId clk None redis).1 !! key_of clientId
       = Some e
       /\ N < count (info e)
       /\ resetTime (info e) = X_RateLimit_Reset h
       /\ expiresAt e = at_setex clk + ceil_div W 1000 * 1000
       /\ retryAfter = ceil_div (resetTime (info e) - at_retry clk) 1000.
Proof.
  unfold rateLimitMiddleware, redis_setex. fold (key_of clientId).
  set (i := match redis_get redis (key_of clientId) (at_get clk) with
            | Some i => _
            | None => _
            end).
  destruct (count i >? N) eqn:E; [|discriminate].
  cbn [fst snd]. intros [= <- <-]. cbn [X_RateLimit_Remaining X_RateLimit_Limit
                                        X_RateLimit_Reset].
  split; [lia|]. split; [reflexivity|].
  eexists. split; [apply lookup_insert_eq|]. cbn [info expiresAt].
  repeat split. lia.
Qed.

Lemma refused_request_is_counted_witness :
  exists e,
    (rateLimitMiddleware 60000 2 "10.0.0.7" (tick 20) None
       (serve 60000 2 "10.0.0.7" [tick 0; tick 10] ∅).1).1
      !! key_of "10.0.0.7" = Some e
    /\ 2 < count (info e)
    /\ expiresAt e = 60020.
Proof.
  destruct (refused_request_is_counted 60000 2 "10.0.0.7" (tick 20)
              (serve 60000 2 "10.0.0.7" [tick 0; tick 10] ∅).1
              {| X_RateLimit_Limit := 2; X_RateLimit_Remaining := 0;
                 X_RateLimit_Reset := 60000 |} 60)
    as (_ & _ & e & He & Hc & _ & Hx & _).
  { vm_compute. reflexivity. }
  exists e. split; [exact He|]. split; [exact Hc|].
  rewrite Hx. vm_compute. reflexivity.
Defined.

End LimiterStore.

(* ===================================================================== *)
(** ** unnamed/part_007 (the KB agent) : search terms, results, citations *)
(* ===================================================================== *)

Module KbTerms.
Import Regex JsString Kb.

Definition word_char (c : ascii) : Prop := in_cset c word = true.

(** [!query.trim()]: nothing but white space. *)
Definition blank (s : str) : bool := forallb (fun c => in_cset c space) s.

(** A term occurs in the lower-cased title or text of a document. *)
Definition occurs_in (doc : KbDoc) (term : string) : Prop :=
  includes (toLowerCase (chars (title doc))) (chars term) = true
  \/ includes (toLowerCase (chars (contentText doc))) (chars term) = true.

Lemma word_not_space c : in_cset c word = true -> in_cset c space = false.
Proof.
  destruct c as [[] [] [] [] [] [] [] []]; vm_compute; congruence.
Qed.

Lemma split_ws_from_words s : forall cur insep,
  Forall word_char cur ->
  Forall (fun c => word_char c \/ in_cset c space = true) s ->
  Forall (Forall word_char) (split_ws_from s cur insep).
Proof.
  induction s as [|c s IH]; intros cur insep Hcur Hs; cbn [split_ws_from].
  - constructor; [by apply Forall_rev | constructor].
  - apply Forall_cons in Hs as [Hc Hs].
    destruct (in_cset c space) eqn:E.
    + destruct insep; [by apply IH|].
      constructor; [by apply Forall_rev | by apply IH].
    + apply IH; [|exact Hs]. constructor; [|exact Hcur].
      destruct Hc as [Hc|Hc]; [exact Hc | congruence].
Qed.

Lemma words_of_words reason :
  Forall (fun w => w <> [] /\ Forall word_char w) (words_of reason).
Proof.
  unfold words_of. apply Forall_forall. intros w Hw.
  apply list_elem_of_filter in Hw as [Hlen Hw].
  split; [intros ->; cbn in Hlen; lia|].
  clear Hlen. revert w Hw. apply Forall_forall.
  apply split_ws_from_words; [constructor|].
  apply Forall_fmap, Forall_forall. intros c _. unfold compose. cbv beta.
  destruct (in_cset c word) eqn:E1; cbn [orb]; [left; exact E1|].
  destruct (in_cset c space) eqn:E2; [right; exact E2 | right; reflexivity].
Qed.

Definition good (t : string) : Prop := t <> "" /\ Forall word_char (chars t).

Lemma good_text w : w <> [] -> Forall word_char w -> good (text w).
Proof.
  intros Hne Hw. split; [|by rewrite chars_text].
  intros E. apply Hne. by rewrite <- (chars_text w), E.
Qed.

Lemma set_add_good terms t :
  Forall good terms -> good t -> Forall good (set_add terms t).
Proof.
  intros Ht Hg. unfold set_add. destruct (bool_decide _); [exact Ht|].
  apply Forall_app. split; [exact Ht | by constructor].
Qed.

Lemma set_add_NoDup terms t : NoDup terms -> NoDup (set_add terms t).
Proof.
  intros Hnd. unfold set_add. destruct (bool_decide (t ∈ terms)) eqn:E;
    [exact Hnd|].
  apply bool_decide_eq_false in E.
  apply NoDup_app. split; [exact Hnd|]. split.
  - intros x Hx Hx'. apply list_elem_of_singleton in Hx'. by subst.
  - apply NoDup_singleton.
Qed.

Lemma foldl_set_add_good l : forall terms,
  Forall good terms -> Forall good l -> Forall good (foldl set_add terms l).
Proof.
  induction l as [|t l IH]; intros terms Ht Hl; [exact Ht|].
  apply Forall_cons in Hl as [Hg Hl]. cbn [foldl].
  apply IH; [by apply set_add_good | exact Hl].
Qed.

Lemma foldl_set_add_NoDup l : forall terms,
  NoDup terms -> NoDup (foldl set_add terms l).
Proof.
  induction l as [|t l IH]; intros terms Ht; [exact Ht|].
  cbn [foldl]. by apply IH, set_add_NoDup.
Qed.

Lemma literal_good (l : list string) :
  forallb (fun t => negb (String.eqb t "")
                    && forallb (fun c => in_cset c word) (chars t)) l = true ->
  Forall good l.
Proof.
  intros H. apply Forall_forall. intros t Ht.
  rewrite forallb_forall in H.
  specialize (H t ltac:(by apply list_elem_of_In)).
  apply andb_true_iff in H as [Hne Hw]. split.
  - intros ->. discriminate.
  - apply Forall_forall. intros c Hc. rewrite forallb_forall in Hw.
    apply Hw. by apply list_elem_of_In.
Qed.

Lemma extractSearchTerms_good reasons :
  Forall good (extractSearchTerms reasons) /\ NoDup (extractSearchTerms reasons).
Proof.
  unfold extractSearchTerms.
  set (base := foldl _ [] reasons).
  assert (Hbase : Forall good base /\ NoDup base).
  { unfold base. clear base.
    assert (Hgen : forall terms, Forall good terms -> NoDup terms ->
      Forall good
        (foldl (fun terms reason =>
                  foldl set_add terms
                    (text <$> filter (fun w => isRelevantTerm w = true)
                                (words_of reason))) terms reasons)
      /\ NoDup
        (foldl (fun terms reason =>
                  foldl set_add terms
                    (text <$> filter (fun w => isRelevantTerm w = true)
                                (words_of reason))) terms reasons)).
    { induction reasons as [|r rs IH]; intros terms Hg Hnd; [by split|].
      cbn [foldl]. apply IH.
      - apply foldl_set_add_good; [exact Hg|].
        apply Forall_fmap, Forall_forall. intros w Hw.
        apply list_elem_of_filter in Hw as [_ Hw].
        pose proof (words_of_words r) as Hall. rewrite Forall_forall in Hall.
        destruct (Hall w Hw) as [Hne Hwc]. by apply good_text.
      - by apply foldl_set_add_NoDup. }
    apply Hgen; constructor. }
  destruct Hbase as [Hg Hnd].
  repeat match goal with
         | |- context [if some_includes reasons ?t then _ else _] =>
             destruct (some_includes reasons t)
         end;
    (split;
     [ repeat (apply foldl_set_add_good;
               [|apply literal_good; vm_compute; reflexivity]); exact Hg
     | repeat apply foldl_set_add_NoDup; exact Hnd ]).
Qed.

Lemma join_head sep w ws c :
  head w = Some c -> head (join sep (w :: ws)) = Some c.
Proof.
  destruct w as [|c' w]; [discriminate|]. intros [= ->].
  cbn [join]. by destruct ws.
Qed.

(** *** Occurrences *)

Lemma count_from_positive t s : forall skip,
  (0 < count_from t s skip)%nat -> exists i, indexOf s t = Some i.
Proof.
  induction s as [|c s IH]; intros skip H; [cbn in H; lia|].
  cbn [indexOf]. destruct (starts_with t (c :: s)) eqn:E; [by eexists|].
  cbn [count_from] in H. destruct skip as [|n].
  - rewrite E in H. destruct (IH _ H) as [i ->]. by eexists.
  - destruct (IH _ H) as [i ->]. by eexists.
Qed.

Lemma indexOf_counted t s i :
  t <> [] -> indexOf s t = Some i -> (0 < count_from t s O)%nat.
Proof.
  intros Hne. revert i. induction s as [|c s IH]; intros i H.
  - cbn in H. destruct t; [done | discriminate].
  - cbn [indexOf] in H. cbn [count_from].
    destruct (starts_with t (c :: s)) eqn:E; [lia|].
    destruct (indexOf s t) as [j|] eqn:Ej; [|discriminate].
    by eapply IH.
Qed.

Lemma count_matches_positive s t :
  t <> [] -> (0 < count_matches s t)%nat <-> includes s t = true.
Proof.
  intros Hne. unfold count_matches, includes. split.
  - intros H. by destruct (count_from_positive _ _ _ H) as [i ->].
  - destruct (indexOf s t) as [i|] eqn:E; [|discriminate].
    intros _. by eapply indexOf_counted.
Qed.

Lemma calculateRelevance_positive doc terms :
  Forall good terms ->
  (0 < calculateRelevance doc terms)%nat <-> exists t, t ∈ terms /\ occurs_in doc t.
Proof.
  intros Hg. unfold calculateRelevance.
  set (f := fun (score : nat) term => _).
  assert (Hgen : forall acc,
    (0 < foldl f acc terms)%nat
    <-> (0 < acc)%nat \/ exists t, t ∈ terms /\ occurs_in doc t).
  { induction Hg as [|t l Ht Hl IH]; intros acc; cbn [foldl].
    - split; [by left|]. intros [H|(t & Ht & _)]; [exact H|].
      by apply elem_of_nil in Ht.
    - rewrite IH. unfold f at 1.
      assert (Hne : chars t <> []).
      { destruct Ht as [Hne _]. intros E. apply Hne.
        by rewrite <- (text_chars t), E. }
      pose proof (count_matches_positive
                    (toLowerCase (chars (title doc))) (chars t) Hne) as H1.
      pose proof (count_matches_positive
                    (toLowerCase (chars (contentText doc))) (chars t) Hne) as H2.
      split.
      + intros [H|(u & Hu & Ho)].
        * destruct (decide (0 < acc)%nat) as [Ha|Ha]; [by left|].
          right. exists t. split; [by left|]. unfold occurs_in.
          destruct (decide (0 < count_matches (toLowerCase (chars (title doc)))
                                  (chars t))%nat) as [Hp|Hp].
          -- left. by apply H1.
          -- right. apply H2. lia.
        * right. exists u. split; [by right | exact Ho].
      + intros [H|(u & Hu & Ho)]; [left; lia|].
        apply elem_of_cons in Hu as [->|Hu].
        * left. destruct Ho as [Ho|Ho]; [apply H1 in Ho | apply H2 in Ho]; lia.
        * right. by exists u. }
  rewrite Hgen. split; [intros [H|H]; [lia | exact H] | by right].
Qed.

(** The search terms are distinct, non-empty and made of word
    characters only, so that each of them, read as a pattern, matches
    itself and nothing else; and the query built from them is blank
    exactly when there is no term. *)
Theorem search_terms_are_distinct_words (reasons : list string) :
  let terms := extractSearchTerms reasons in
  NoDup terms
  /\ Forall (fun t => t <> "" /\ Forall word_char (chars t)) terms
  /\ (blank (join (chars " ") (chars <$> terms)) = true <-> terms = []).
Proof.
  cbv zeta. destruct (extractSearchTerms_good reasons) as [Hg Hnd].
  split; [exact Hnd|]. split; [exact Hg|].
  destruct (extractSearchTerms reasons) as [|t ts]; [by split|].
  split; [|discriminate]. intros Hb. exfalso.
  apply Forall_cons in Hg as [[Hne Hw] _].
  destruct (chars t) as [|c w] eqn:Ec.
  { apply Hne. by rewrite <- (text_chars t), Ec. }
  apply Forall_cons in Hw as [Hc _].
  pose proof (join_head (chars " ") (c :: w) (chars <$> ts) c eq_refl) as Hh.
  rewrite fmap_cons, Ec in Hb.
  destruct (join (chars " ") ((c :: w) :: (chars <$> ts))) as [|c' q];
    [discriminate|].
  injection Hh as ->. cbn [blank forallb] in Hb.
  apply andb_true_iff in Hb as [Hb _].
  rewrite (word_not_space c Hc) in Hb. discriminate.
Qed.

(** Every result of a search stands for a document that the data store
    returned for the query, with that document's title and anchor, and
    at least one of the search terms occurs in the lower-cased title or
    text of the document. *)
Theorem results_come_from_matching_documents
    (findMany : string -> list string -> option (list KbDoc))
    (reasons : list string) :
  let terms := extractSearchTerms reasons in
  let query := text (join (chars " ") (chars <$> terms)) in
  Forall (fun r =>
            exists kbDocs doc,
              findMany query terms = Some kbDocs /\ doc ∈ kbDocs
              /\ docId r = id doc /\ r_title r = title doc
              /\ r_anchor r = anchor doc
              /\ relevanceScore r = calculateRelevance doc terms
              /\ exists t, t ∈ terms /\ occurs_in doc t)
    (results (searchRelevantDocs findMany reasons)).
Proof.
  cbv zeta. unfold searchRelevantDocs.
  destruct reasons as [|reason reasons']; [constructor|].
  set (reasons := reason :: reasons').
  destruct (extractSearchTerms_good reasons) as [Hg _].
  destruct (extractSearchTerms reasons) as [|t ts] eqn:Et; [constructor|].
  destruct (findMany _ _) as [kbDocs|] eqn:Ef; [|constructor].
  cbn [results]. apply Forall_forall. intros r Hr.
  unfold rank in Hr. apply (subseteq_take 5) in Hr.
  apply sort_desc_elem in Hr.
  apply list_elem_of_filter in Hr as [Hpos Hr].
  apply list_elem_of_fmap in Hr as (doc & -> & Hdoc).
  exists kbDocs, doc. cbn [docId r_title r_anchor relevanceScore] in *.
  repeat split; try assumption; try reflexivity.
  by apply calculateRelevance_positive.
Qed.

(** The citations of a search that got as far as the ranking are never
    empty and never more than six. *)
Theorem citations_between_one_and_six (found : list Result)
    (reasons : list string) :
  (1 <= length (generateCitations found reasons) <= 6)%nat.
Proof.
  unfold generateCitations.
  destruct found as [|r rs]; [cbn; lia|].
  set (top := filter _ (take 3 (r :: rs))).
  assert (Htop : (length top <= 3)%nat).
  { unfold top. etransitivity; [apply length_filter|].
    rewrite length_take. lia. }
  set (cs := (fun r => _) <$> top).
  assert (Hcs : length cs = length top) by apply length_fmap.
  destruct (some_includes reasons "velocity"),
           (some_includes reasons "dispute"),
           (some_includes reasons "device");
    match goal with
    | |- context [match ?l with [] => _ | _ :: _ => _ end] =>
        assert (HL : (length l <= 6)%nat)
          by (rewrite ?length_app; cbn [length]; lia);
        destruct l; cbn [length] in *; lia
    end.
Qed.

End KbTerms.

(* ===================================================================== *)
(** ** utils/excelParser.ts : the shape of a redacted value *)
(* ===================================================================== *)

Module RedactorShape.
Import Regex JsString.

(** The values that [redactObject] is given: the data of JSON, and
    dates, as the rows of the data store hold them.  An object is the
    list of its own enumerable properties in the order of [for...in];
    [JDate] stands for any object without such properties. *)
Unset Elimination Schemes.
Inductive js :=
| JUndefined
| JNull
| JBool (b : bool)
| JNum (n : Q)
| JStr (s : string)
| JDate (t : Z)
| JArr (items : list js)
| JObj (fields : list (string * js)).
Set Elimination Schemes.

(** All results, unless one of the calls threw. *)
Fixpoint all_returned {A} (l : list (option A)) : option (list A) :=
  match l with
  | [] => Some []
  | None :: _ => None
  | Some x :: l' =>
      match all_returned l' with
      | Some xs => Some (x :: xs)
      | None => None
      end
  end.

Definition has_key (key : string) (fields : list (string * js)) : bool :=
  existsb (fun kv => String.eqb (fst kv) key) fields.

(** [redactObject(obj)]; [None] when it throws.

    - A date has no enumerable property, so the loop builds [{}].
    - [obj.hasOwnProperty(key)] reads the property of that name: when
      the object has an own one, it is no function and the call throws.
    - [cleanObj['__proto__'] = v] runs the setter of [Object.prototype],
      which adds no property to [cleanObj]. *)
Fixpoint redactObject (obj : js) : option (js * bool) :=
  match obj with
  | JStr s => let r := Redactor.redactText s in Some (JStr r.1, r.2)
  | JDate _ => Some (JObj [], false)
  | JArr items =>
      match all_returned (List.map redactObject items) with
      | Some rs => Some (JArr (List.map fst rs), existsb snd rs)
      | None => None
      end
  | JObj fields =>
      if has_key "hasOwnProperty" fields then None
      else
        match all_returned
                (List.map (fun kv =>
                             match redactObject (snd kv) with
                             | Some r => Some (fst kv, r)
                             | None => None
                             end) fields) with
        | Some rs =>
            Some (JObj (List.map (fun kr => (fst kr, fst (snd kr)))
                          (List.filter
                             (fun kr => negb (String.eqb (fst kr) "__proto__"))
                             rs)),
                  existsb (fun kr => snd (snd kr)) rs)
        | None => None
        end
  | _ => Some (obj, false)
  end.

(** No object of the value has an own property [hasOwnProperty] or
    [__proto__]. *)
Fixpoint tame (v : js) : bool :=
  match v with
  | JArr items => forallb tame items
  | JObj fields =>
      negb (has_key "hasOwnProperty" fields)
      && negb (has_key "__proto__" fields)
      && forallb (fun kv => tame (snd kv)) fields
  | _ => true
  end.

(** A value with its strings blanked and its dates emptied: the keys,
    their order, the nesting, and every other leaf. *)
Fixpoint skeleton (v : js) : js :=
  match v with
  | JStr _ => JStr ""
  | JDate _ => JObj []
  | JArr items => JArr (List.map skeleton items)
  | JObj fields => JObj (List.map (fun kv => (fst kv, skeleton (snd kv))) fields)
  | _ => v
  end.

(** A value with its dates emptied. *)
Fixpoint undated (v : js) : js :=
  match v with
  | JDate _ => JObj []
  | JArr items => JArr (List.map undated items)
  | JObj fields => JObj (List.map (fun kv => (fst kv, undated (snd kv))) fields)
  | _ => v
  end.

(** The strings at the leaves of a value. *)
Fixpoint leaves (v : js) : list string :=
  match v with
  | JStr s => [s]
  | JArr items => List.flat_map leaves items
  | JObj fields => List.flat_map (fun kv => leaves (snd kv)) fields
  | _ => []
  end.

(** The values of the claims are the values without dates. *)
Fixpoint of_value (v : Redactor.value) : js :=
  match v with
  | Redactor.VUndefined => JUndefined
  | Redactor.VNull => JNull
  | Redactor.VBool b => JBool b
  | Redactor.VNum n => JNum n
  | Redactor.VStr s => JStr s
  | Redactor.VArr items => JArr (List.map of_value items)
  | Redactor.VObj fields =>
      JObj (List.map (fun kv => (fst kv, of_value (snd kv))) fields)
  end.

Section JsInd.
Variable P : js -> Prop.
Hypothesis Hundefined : P JUndefined.
Hypothesis Hnull : P JNull.
Hypothesis Hbool : forall b, P (JBool b).
Hypothesis Hnum : forall n, P (JNum n).
Hypothesis Hstr : forall s, P (JStr s).
Hypothesis Hdate : forall t, P (JDate t).
Hypothesis Harr : forall items, Forall P items -> P (JArr items).
Hypothesis Hobj : forall fields,
  Forall (fun kv => P (snd kv)) fields -> P (JObj fields).

Fixpoint js_ind (v : js) : P v :=
  match v with
  | JUndefined => Hundefined
  | JNull => Hnull
  | JBool b => Hbool b
  | JNum n => Hnum n
  | JStr s => Hstr s
  | JDate t => Hdate t
  | JArr items =>
      Harr items
        ((fix go (l : list js) : Forall P l :=
            match l with
            | [] => List.Forall_nil P
            | x :: l' => List.Forall_cons P x l' (js_ind x) (go l')
            end) items)
  | JObj fields =>
      Hobj fields
        ((fix go (l : list (string * js)) : Forall (fun kv => P (snd kv)) l :=
            match l with
            | [] => List.Forall_nil _
            | kv :: l' =>
                List.Forall_cons (fun kv => P (snd kv)) kv l'
                  (js_ind (snd kv)) (go l')
            end) fields)
  end.
End JsInd.

Lemma redact_with_flag p f tm :
  (Redactor.redact_with p f tm).2 = false ->
  Redactor.redact_with p f tm = tm /\ tm.2 = false.
Proof.
  unfold Redactor.redact_with. destruct (test p tm.1); [discriminate|].
  by intros H.
Qed.

Lemma redactText_unmasked s :
  (Redactor.redactText s).2 = false -> (Redactor.redactText s).1 = s.
Proof.
  unfold Redactor.redactText. destruct s as [|c s']; [reflexivity|].
  cbn [fst snd]. intros H.
  apply redact_with_flag in H as [E3 H]. rewrite E3.
  apply redact_with_flag in H as [E2 H]. rewrite E2.
  apply redact_with_flag in H as [E1 H]. rewrite E1.
  cbn [fst]. apply text_chars.
Qed.

(** What [redactObject] returns for a tame value. *)
Definition kept (x : js) (r : js * bool) : Prop :=
  skeleton r.1 = skeleton x
  /\ leaves r.1 = Redactor.cleanText <$> leaves x
  /\ (r.2 = false -> r.1 = undated x).

Lemma no_proto_filter {A} (rs : list (string * A)) :
  forallb (fun kr => negb (String.eqb (fst kr) "__proto__")) rs = true ->
  List.filter (fun kr => negb (String.eqb (fst kr) "__proto__")) rs = rs.
Proof.
  induction rs as [|kr rs IH]; [reflexivity|].
  cbn [forallb List.filter]. intros [Hk Hrs]%andb_true_iff.
  rewrite Hk. by rewrite IH.
Qed.

Lemma redactObject_tame (x : js) :
  tame x = true -> exists r, redactObject x = Some r /\ kept x r.
Proof.
  induction x as [| | b | n | s | t | items IH | fields IH] using js_ind;
    intros Ht;
    try (eexists; split; [reflexivity|]; repeat split; reflexivity).
  - (* a string *)
    eexists. split; [reflexivity|]. repeat split.
    cbn [fst snd undated]. intros H. f_equal. by apply redactText_unmasked.
  - (* an array *)
    cbn [tame] in Ht. cbn [redactObject].
    assert (H : exists rs,
      all_returned (List.map redactObject items) = Some rs
      /\ List.map skeleton (List.map fst rs) = List.map skeleton items
      /\ List.flat_map leaves (List.map fst rs)
         = Redactor.cleanText <$> List.flat_map leaves items
      /\ (existsb snd rs = false ->
          List.map fst rs = List.map undated items)).
    { induction IH as [|v items Hv _ IHl]; [by exists []|].
      cbn [forallb] in Ht. apply andb_true_iff in Ht as [Htv Htl].
      destruct (Hv Htv) as (r & Er & Hs & Hl & Hu).
      destruct (IHl Htl) as (rs & Ers & Hss & Hls & Hus).
      exists (r :: rs). cbn [List.map all_returned]. rewrite Er, Ers.
      split; [reflexivity|]. cbn [List.map List.flat_map existsb fst].
      rewrite fmap_app.
      split; [by rewrite Hs, Hss|]. split; [by rewrite Hl, Hls|].
      intros H. apply orb_false_iff in H as [H1 H2].
      by rewrite (Hu H1), (Hus H2). }
    destruct H as (rs & -> & Hs & Hl & Hu).
    eexists. split; [reflexivity|]. unfold kept.
    cbn [fst snd skeleton leaves undated].
    split; [by rewrite Hs|]. split; [exact Hl|].
    intros H. by rewrite (Hu H).
  - (* an object *)
    cbn [tame] in Ht. apply andb_true_iff in Ht as [Ht Hall].
    apply andb_true_iff in Ht as [Hown Hproto].
    apply negb_true_iff in Hown. cbn [redactObject]. rewrite Hown.
    assert (H : exists rs,
      all_returned
        (List.map (fun kv => match redactObject (snd kv) with
                             | Some r => Some (fst kv, r)
                             | None => None
                             end) fields) = Some rs
      /\ List.map fst rs = List.map fst fields
      /\ List.map (fun kv => (fst kv, skeleton (snd kv)))
           (List.map (fun kr => (fst kr, fst (snd kr))) rs)
         = List.map (fun kv => (fst kv, skeleton (snd kv))) fields
      /\ List.flat_map (fun kv => leaves (snd kv))
           (List.map (fun kr => (fst kr, fst (snd kr))) rs)
         = Redactor.cleanText <$> List.flat_map (fun kv => leaves (snd kv)) fields
      /\ (existsb (fun kr => snd (snd kr)) rs = false ->
          List.map (fun kr => (fst kr, fst (snd kr))) rs
          = List.map (fun kv => (fst kv, undated (snd kv))) fields)).
    { clear Hown Hproto.
      induction IH as [|kv fields Hv _ IHl]; [by exists []|].
      cbn [forallb] in Hall. apply andb_true_iff in Hall as [Htv Htl].
      destruct (Hv Htv) as (r & Er & Hs & Hl & Hu).
      destruct (IHl Htl) as (rs & Ers & Hk & Hss & Hls & Hus).
      exists ((fst kv, r) :: rs). cbn [List.map all_returned]. rewrite Er, Ers.
      split; [reflexivity|]. cbn [List.map List.flat_map existsb fst snd].
      rewrite fmap_app.
      split; [by rewrite Hk|].
      split; [by rewrite Hs, Hss|]. split; [by rewrite Hl, Hls|].
      intros H. apply orb_false_iff in H as [H1 H2].
      by rewrite (Hu H1), (Hus H2). }
    destruct H as (rs & -> & Hk & Hs & Hl & Hu).
    assert (Hf : List.filter (fun kr => negb (String.eqb (fst kr) "__proto__")) rs
                 = rs).
    { apply no_proto_filter. apply negb_true_iff in Hproto.
      unfold has_key in Hproto.
      rewrite forallb_forall. intros kr Hin.
      apply negb_true_iff. destruct (String.eqb (fst kr) "__proto__") eqn:E;
        [|reflexivity].
      exfalso. apply (in_map fst) in Hin. rewrite Hk in Hin.
      apply in_map_iff in Hin as (kv & Ekv & Hin).
      assert (existsb (fun kv => String.eqb (fst kv) "__proto__") fields = true).
      { apply existsb_exists. exists kv. split; [exact Hin | by rewrite Ekv]. }
      congruence. }
    eexists. split; [reflexivity|]. unfold kept.
    cbn [fst snd skeleton leaves undated]. rewrite Hf.
    split; [by rewrite Hs|]. split; [exact Hl|].
    intros H. by rewrite (Hu H).
Qed.

(** For a value in which no object has an own property
    [hasOwnProperty] or [__proto__], redaction returns, and rebuilds
    the value with the same keys in the same order and the same
    nesting: its strings are the redacted strings of the original, one
    for one, a date has become an empty object, every other leaf is
    copied; and a result that is reported as not masked is the
    original with its dates emptied. *)
Theorem redaction_keeps_structure (x : js) :
  tame x = true ->
  exists cleanObj masked,
    redactObject x = Some (cleanObj, masked)
    /\ skeleton cleanObj = skeleton x
    /\ leaves cleanObj = Redactor.cleanText <$> leaves x
    /\ (masked = false -> cleanObj = undated x).
Proof.
  intros Ht. destruct (redactObject_tame x Ht) as ([y m] & E & Hk).
  by exists y, m.
Qed.

(** A row of the data store, as the transactions route passes it. *)
Definition stored_row : js :=
  JObj [ ("id", JStr "txn_789");
         ("merchant", JStr "Refund desk 555-123-4567");
         ("amountCents", JNum 180000);
         ("ts", JDate 1700000000000);
         ("card", JObj [ ("last4", JStr "4242"); ("network", JStr "VISA") ]) ].

Lemma redaction_keeps_structure_witness :
  tame stored_row = true
  /\ exists cleanObj masked,
       redactObject stored_row = Some (cleanObj, masked)
       /\ skeleton cleanObj = skeleton stored_row
       /\ leaves cleanObj = Redactor.cleanText <$> leaves stored_row
       /\ (masked = false -> cleanObj = undated stored_row).
Proof.
  split; [reflexivity|].
  apply (redaction_keeps_structure stored_row). reflexivity.
Defined.

(** The row after redaction: the telephone number is masked, and the
    date has become an empty object. *)
Example redacted_row :
  redactObject stored_row
  = Some (JObj [ ("id", JStr "txn_789");
                 ("merchant", JStr "Refund desk ***-***-****");
                 ("amountCents", JNum 180000);
                 ("ts", JObj []);
                 ("card", JObj [ ("last4", JStr "4242");
                                 ("network", JStr "VISA") ]) ],
          true).
Proof. vm_compute. reflexivity. Qed.

(** An own property [hasOwnProperty] makes the redaction throw,
    wherever it is in the loop. *)
Lemma own_hasOwnProperty_throws fields :
  has_key "hasOwnProperty" fields = true -> redactObject (JObj fields) = None.
Proof. intros H. cbn [redactObject]. by rewrite H. Qed.

(** An own property [__proto__] is not in the result. *)
Lemma own_proto_dropped fields cleanObj masked :
  redactObject (JObj fields) = Some (cleanObj, masked) ->
  exists out, cleanObj = JObj out /\ has_key "__proto__" out = false.
Proof.
  cbn [redactObject]. destruct (has_key "hasOwnProperty" fields); [discriminate|].
  destruct (all_returned _) as [rs|]; [|discriminate].
  intros [= <- _]. eexists. split; [reflexivity|].
  unfold has_key. induction rs as [|kr rs IH]; [reflexivity|].
  cbn [List.filter]. destruct (String.eqb (fst kr) "__proto__") eqn:E;
    cbn [negb]; [exact IH|].
  cbn [List.map existsb fst]. by rewrite E.
Qed.

Example special_keys :
  redactObject (JObj [ ("a", JNum 1); ("hasOwnProperty", JStr "x") ]) = None
  /\ redactObject (JObj [ ("__proto__", JObj [ ("admin", JBool true) ]);
                          ("name", JStr "n") ])
     = Some (JObj [ ("name", JStr "n") ], false).
Proof. split; vm_compute; reflexivity. Qed.

(** On the values of the claims, when they are tame, this is
    [Redactor.redactObject]. *)
Lemma redactObject_of_value (v : Redactor.value) :
  tame (of_value v) = true ->
  redactObject (of_value v)
  = Some (of_value (Redactor.redactObject v).1, (Redactor.redactObject v).2).
Proof.
  induction v as [| | b | n | s | items IH | fields IH] using Redactor.value_ind;
    intros Ht; try reflexivity.
  - cbn [of_value tame] in Ht. cbn [of_value redactObject Redactor.redactObject].
    assert (H : all_returned (List.map redactObject (List.map of_value items))
                = Some (List.map (fun v => (of_value (Redactor.redactObject v).1,
                                            (Redactor.redactObject v).2)) items)).
    { induction IH as [|v items Hv _ IHl]; [reflexivity|].
      cbn [List.map forallb] in Ht. apply andb_true_iff in Ht as [Htv Htl].
      cbn [List.map all_returned]. by rewrite (Hv Htv), (IHl Htl). }
    rewrite H. cbn [fst snd of_value]. rewrite !List.map_map.
    f_equal. f_equal.
    clear. induction items as [|v items IH]; [reflexivity|].
    cbn [List.map existsb snd]. by rewrite IH.
  - cbn [of_value tame] in Ht. apply andb_true_iff in Ht as [Ht Hall].
    apply andb_true_iff in Ht as [Hown Hproto].
    apply negb_true_iff in Hown.
    cbn [of_value redactObject Redactor.redactObject]. rewrite Hown.
    set (out := fun kv : string * Redactor.value =>
                  (fst kv, (of_value (Redactor.redactObject (snd kv)).1,
                            (Redactor.redactObject (snd kv)).2))).
    assert (H : all_returned
                  (List.map (fun kv => match redactObject (snd kv) with
                                       | Some r => Some (fst kv, r)
                                       | None => None
                                       end)
                     (List.map (fun kv => (fst kv, of_value (snd kv))) fields))
                = Some (List.map out fields)).
    { clear Hown Hproto.
      induction IH as [|kv fields Hv _ IHl]; [reflexivity|].
      cbn [List.map forallb snd] in Hall.
      apply andb_true_iff in Hall as [Htv Htl].
      cbn [List.map all_returned fst snd]. by rewrite (Hv Htv), (IHl Htl). }
    rewrite H.
    assert (Hf : List.filter (fun kr => negb (String.eqb (fst kr) "__proto__"))
                   (List.map out fields) = List.map out fields).
    { apply no_proto_filter. apply negb_true_iff in Hproto.
      unfold has_key in Hproto. rewrite forallb_forall. intros kr Hin.
      apply in_map_iff in Hin as (kv & <- & Hin). cbn [out fst].
      apply negb_true_iff.
      destruct (String.eqb (fst kv) "__proto__") eqn:E; [|reflexivity].
      exfalso.
      assert (existsb (fun kv => String.eqb (fst kv) "__proto__")
                (List.map (fun kv => (fst kv, of_value (snd kv))) fields) = true).
      { apply existsb_exists. eexists. split; [by apply in_map|]. exact E. }
      congruence. }
    rewrite Hf. cbn [fst snd of_value]. rewrite !List.map_map.
    f_equal. f_equal.
    clear. induction fields as [|kv fields IH]; [reflexivity|].
    cbn [List.map existsb]. by rewrite IH.
Qed.

End RedactorShape.

(* ===================================================================== *)
(** ** unnamed/part_007 (the fraud agent) : the RiskSignals step as a whole *)
(* ===================================================================== *)

Module FraudSignals.
Import Js Regex Fraud.

(** A transaction row as the data store returns it.  [ts] is the
    instant of the transaction in milliseconds; a column without a
    value is [null], here [None]. *)
Record Row := {
  ts : Z;
  deviceId : option string;
  country : option string;
  city : option string;
  txn : Txn
}.

(** The result of [analyzeRisk]. *)
Record FraudAnalysis := {
  score : Z;
  reasons : list string;
  action : string;
  velocity : Velocity;
  deviceAnalysis : DeviceAnalysis;
  merchantAnalysis : MerchantAnalysis;
  patterns : PatternAnalysis
}.

(** A string that is neither [null] nor empty. *)
Definition truthy (o : option string) : option string :=
  match o with
  | Some "" | None => None
  | Some s => Some s
  end.

(** A column inside a template string. *)
Definition render (o : option string) : string := default "null" o.

Definition sumCents (rows : list Row) : Z :=
  foldl (fun sum r => sum + amountCents (txn r)) 0 rows.

(** [analyzeVelocity(transactions, suspectTxn)].  The quotient by 89
    times 100 is never half-way between two integers (200 h = 89 (2 k + 1)
    has no solution), so [Math.round] sees the exact value. *)
Definition analyzeVelocity (transactions : list Row) (suspectTxn : Row)
    : Velocity :=
  let last24h := ts suspectTxn - 24 * 60 * 60 * 1000 in
  let recent := filter (fun r => last24h <= ts r) transactions in
  let historical := filter (fun r => ts r < last24h) transactions in
  let avgDaily :=
    (inject_Z (Z.of_nat (length historical)) / inject_Z (Z.max 89 1))%Q in
  {| txnsLast24h := Z.of_nat (length recent);
     amountLast24h := sumCents recent;
     avgDaily := (inject_Z (Math_round (avgDaily * 100)) / 100)%Q |}.

(** [analyzeDevice(transactions, suspectTxn)].  [newDevice] is the
    truth value of [suspectTxn.deviceId && !devices.has(...)]. *)
Definition analyzeDevice (transactions : list Row) (suspectTxn : Row)
    : DeviceAnalysis :=
  let devices : gset string :=
    list_to_set (omap (fun r => truthy (deviceId r)) transactions) in
  let isNewDevice :=
    match truthy (deviceId suspectTxn) with
    | Some d => bool_decide (d ∉ devices)
    | None => false
    end in
  {| newDevice := isNewDevice; deviceChanges := Z.of_nat (size devices) |}.

(** [hourCounts.set(hour, (hourCounts.get(hour) || 0) + 1)] on a [Map],
    which keeps its keys in the order of their first insertion. *)
Fixpoint tally (hourCounts : list (Z * Z)) (hour : Z) : list (Z * Z) :=
  match hourCounts with
  | [] => [(hour, 1)]
  | (k, n) :: rest =>
      if k =? hour then (k, n + 1) :: rest else (k, n) :: tally rest hour
  end.

(** [getCommonHours(hours)].  The product by 0.05 compares with a
    count as the exact twentieth does: for a multiple of 20 the double
    product is the integer itself, otherwise the exact value is at
    least a twentieth away from every integer. *)
Definition getCommonHours (hours : list Z) : list Z :=
  let hourCounts := foldl tally [] hours in
  let totalTxns := Z.of_nat (length hours) in
  let threshold := (inject_Z totalTxns * (5 # 100))%Q in
  fst <$> filter (fun e => Qle_bool threshold (inject_Z e.2) = true) hourCounts.

Definition location (r : Row) : string :=
  render (country r) +:+ "-" +:+ render (city r).

Section Patterns.
(** [new Date(ts).getHours()]: the hour of an instant in the time zone
    of the server. *)
Variable getHours : Z -> Z.

(** [analyzePatterns(transactions, suspectTxn)].  A location string is
    never empty, so [filter(Boolean)] keeps them all.  The average of
    no transactions is NaN, which compares false; otherwise the double
    [avgAmount * 3] compares with the integer amount as the exact
    product does (it is that integer when the exact product is one, and
    at least a tenth away from every integer otherwise). *)
Definition analyzePatterns (transactions : list Row) (suspectTxn : Row)
    : PatternAnalysis :=
  let hour := getHours (ts suspectTxn) in
  let historicalHours := (fun r => getHours (ts r)) <$> transactions in
  let commonHours := getCommonHours historicalHours in
  let unusualTime :=
    negb (bool_decide (hour ∈ commonHours)) && ((hour <? 6) || (hour >? 23)) in
  let locations : gset string := list_to_set (location <$> transactions) in
  let currentLocation := location suspectTxn in
  let unusualLocation :=
    match truthy (country suspectTxn) with
    | Some _ => bool_decide (currentLocation ∉ locations)
    | None => false
    end in
  let recentTxns := take 10 transactions in
  let velocitySpike :=
    match recentTxns with
    | [] => false
    | _ =>
        let avgAmount := (inject_Z (sumCents recentTxns)
                          / inject_Z (Z.of_nat (length recentTxns)))%Q in
        Qgtb (inject_Z (amountCents (txn suspectTxn))) (avgAmount * 3)
    end in
  {| unusualTime := unusualTime;
     unusualLocation := unusualLocation;
     velocitySpike := velocitySpike |}.

(** A number of hundredths, as a template string shows the double:
    the shortest decimal, without trailing zeros. *)
Definition render_hundredths (q : Q) : string :=
  let n := Qfloor (q * 100) in
  let whole := string_of_Z (n / 100) in
  let r := n mod 100 in
  if r =? 0 then whole
  else if r mod 10 =? 0 then whole +:+ "." +:+ string_of_Z (r / 10)
  else if r <? 10 then whole +:+ ".0" +:+ string_of_Z r
  else whole +:+ "." +:+ string_of_Z r.

(** [generateReasons(score, velocity, device, merchant, patterns)] *)
Definition generateReasons (score : Z) (velocity : Velocity)
    (device : DeviceAnalysis) (merchant : MerchantAnalysis)
    (patterns : PatternAnalysis) : list string :=
  let reasons := [] in
  let reasons :=
    if Qgtb (inject_Z (txnsLast24h velocity)) (avgDaily velocity * 2)
    then reasons ++ ["High transaction velocity: "
                     +:+ string_of_Z (txnsLast24h velocity)
                     +:+ " transactions in 24h vs "
                     +:+ render_hundredths (avgDaily velocity)
                     +:+ " daily average"]
    else reasons in
  let reasons := if newDevice device
                 then reasons ++ ["Transaction from new device"]
                 else reasons in
  let reasons := if newMerchant merchant
                 then reasons ++ ["Transaction at new merchant"]
                 else reasons in
  let reasons := if riskScore merchant >? 30
                 then reasons ++ ["High-risk merchant category or name pattern"]
                 else reasons in
  let reasons := if unusualTime patterns
                 then reasons ++ ["Transaction at unusual time"]
                 else reasons in
  let reasons := if unusualLocation patterns
                 then reasons ++ ["Transaction from unusual location"]
                 else reasons in
  let reasons :=
    if velocitySpike patterns
    then reasons ++ ["Transaction amount significantly higher than recent average"]
    else reasons in
  match reasons with
  | [] => ["Transaction appears normal based on analysis"]
  | _ => reasons
  end.

(** [proposeAction(score, reasons)] *)
Definition proposeAction (score : Z) (reasons : list string) : string :=
  if score >=? 80 then "freeze_card"
  else if score >=? 50 then "open_dispute"
  else "monitor".

(** [analyzeRisk(customerId, suspectTxnId)], given what the data store
    returns: the suspect transaction, if there is one, and the
    customer's transactions of the last 90 days.  [None]: the agent
    throws. *)
Definition analyzeRisk (suspectTxn : option Row) (transactions : list Row)
    : option FraudAnalysis :=
  match suspectTxn with
  | None => None   (* 'Suspect transaction not found' *)
  | Some suspectTxn =>
      let velocityAnalysis := analyzeVelocity transactions suspectTxn in
      let deviceAnalysis := analyzeDevice transactions suspectTxn in
      let merchantAnalysis :=
        analyzeMerchant (txn <$> transactions) (txn suspectTxn) in
      let patternAnalysis := analyzePatterns transactions suspectTxn in
      let score := calculateRiskScore velocityAnalysis deviceAnalysis
                     merchantAnalysis patternAnalysis (txn suspectTxn) in
      let reasons := generateReasons score velocityAnalysis deviceAnalysis
                       merchantAnalysis patternAnalysis in
      let action := proposeAction score reasons in
      Some {| score := score; reasons := reasons; action := action;
              velocity := velocityAnalysis;
              deviceAnalysis := deviceAnalysis;
              merchantAnalysis := merchantAnalysis;
              patterns := patternAnalysis |}
  end.

End Patterns.

(** A card holder with a month of small purchases in one town, and a
    purchase of 1800 dollars abroad at three in the morning. *)
Definition purchase (day : Z) : Row :=
  {| ts := day * 86400000 + 43200000;
     deviceId := Some "device_1"; country := Some "US"; city := Some "Austin";
     txn := {| merchant := "Corner Bakery"; mcc := "5812";
               amountCents := 1200 |} |}.

Definition month : list Row := purchase <$> [29; 27; 24; 20; 15; 11; 8; 5; 2; 1].

Definition night_withdrawal : Row :=
  {| ts := 30 * 86400000 + 10800000;
     deviceId := Some "device_9"; country := Some "RO"; city := Some "Cluj";
     txn := {| merchant := "Unknown Cash ATM"; mcc := "6051";
               amountCents := 180000 |} |}.

(** The hour of an instant in UTC. *)
Definition utc_hour (t : Z) : Z := (t / 3600000) mod 24.

Example analysis_of_night_withdrawal :
  (fun a => (score a, reasons a, action a))
    <$> analyzeRisk utc_hour (Some night_withdrawal) month
  = Some (100,
          ["High transaction velocity: 1 transactions in 24h vs 0.1 daily average";
           "Transaction from new device";
           "Transaction at new merchant";
           "High-risk merchant category or name pattern";
           "Transaction at unusual time";
           "Transaction from unusual location";
           "Transaction amount significantly higher than recent average"],
          "freeze_card").
Proof. vm_compute. reflexivity. Qed.

Example render_hundredths_samples :
  render_hundredths 0 = "0"
  /\ render_hundredths (5 # 100) = "0.05"
  /\ render_hundredths (110 # 100) = "1.1"
  /\ render_hundredths (1124 # 100) = "11.24".
Proof. repeat split; vm_compute; reflexivity. Qed.

(** *** The hours that count as common *)

(** The count stored for an hour. *)
Fixpoint stored (hourCounts : list (Z * Z)) (hour : Z) : Z :=
  match hourCounts with
  | [] => 0
  | (k, n) :: rest => if k =? hour then n else stored rest hour
  end.

Definition occurrences (hour : Z) (hours : list Z) : Z :=
  Z.of_nat (length (filter (fun h => h = hour) hours)).

Lemma stored_tally m h k :
  stored (tally m h) k = stored m k + (if h =? k then 1 else 0).
Proof.
  induction m as [|[k' n] m IH]; cbn [tally stored].
  - destruct (h =? k); lia.
  - destruct (k' =? h) eqn:E1; cbn [stored].
    + apply Z.eqb_eq in E1. subst k'. destruct (h =? k); lia.
    + destruct (k' =? k) eqn:E2; [|exact IH].
      apply Z.eqb_eq in E2. subst k'. rewrite Z.eqb_sym, E1. lia.
Qed.

Lemma keys_tally m h k :
  k ∈ (tally m h).*1 <-> k ∈ m.*1 \/ k = h.
Proof.
  induction m as [|[k' n] m IH]; cbn [tally fmap list_fmap fst].
  - rewrite list_elem_of_singleton. split; [by right|].
    intros [H|H]; [by apply elem_of_nil in H | exact H].
  - destruct (k' =? h) eqn:E1; cbn [fmap list_fmap fst].
    + apply Z.eqb_eq in E1. subst k'. rewrite elem_of_cons.
      split; [by left|]. intros [H| ->]; [exact H | by left].
    + rewrite !elem_of_cons, IH. tauto.
Qed.

Lemma NoDup_tally m h : NoDup m.*1 -> NoDup (tally m h).*1.
Proof.
  induction m as [|[k' n] m IH]; cbn [tally fmap list_fmap fst]; intros Hnd.
  - apply NoDup_singleton.
  - apply NoDup_cons in Hnd as [Hnotin Hnd].
    destruct (k' =? h) eqn:E1; cbn [fmap list_fmap fst].
    + by apply NoDup_cons.
    + apply NoDup_cons. split; [|by apply IH].
      rewrite keys_tally. intros [H|H]; [by apply Hnotin|].
      apply Z.eqb_neq in E1. congruence.
Qed.

Lemma stored_elem m k n : NoDup m.*1 -> (k, n) ∈ m -> stored m k = n.
Proof.
  induction m as [|[k' n'] m IH]; intros Hnd Hin; [by apply elem_of_nil in Hin|].
  cbn [fmap list_fmap fst] in Hnd. apply NoDup_cons in Hnd as [Hnotin Hnd].
  cbn [stored]. apply elem_of_cons in Hin as [[= -> ->]|Hin].
  - by rewrite Z.eqb_refl.
  - destruct (k' =? k) eqn:E; [|by apply IH].
    apply Z.eqb_eq in E. subst k'. exfalso. apply Hnotin.
    apply list_elem_of_fmap. by exists (k, n).
Qed.

Lemma elem_stored m k : k ∈ m.*1 -> (k, stored m k) ∈ m.
Proof.
  induction m as [|[k' n'] m IH]; intros Hin; [by apply elem_of_nil in Hin|].
  cbn [fmap list_fmap fst] in Hin. cbn [stored].
  destruct (k' =? k) eqn:E.
  - apply Z.eqb_eq in E. subst k'. by left.
  - right. apply IH. apply elem_of_cons in Hin as [->|Hin]; [|exact Hin].
    rewrite Z.eqb_refl in E. discriminate.
Qed.

Lemma tally_all hours : forall m,
  NoDup m.*1 ->
  let m' := foldl tally m hours in
  NoDup m'.*1
  /\ (forall k, stored m' k = stored m k + occurrences k hours)
  /\ (forall k, k ∈ m'.*1 <-> k ∈ m.*1 \/ k ∈ hours).
Proof.
  induction hours as [|h hours IH]; intros m Hnd; cbv zeta; cbn [foldl].
  - split; [exact Hnd|]. split.
    + intros k. unfold occurrences. cbn. lia.
    + intros k. split; [by left|]. intros [H|H]; [exact H|].
      by apply elem_of_nil in H.
  - destruct (IH (tally m h) (NoDup_tally m h Hnd)) as (H1 & H2 & H3).
    split; [exact H1|]. split.
    + intros k. rewrite H2, stored_tally. unfold occurrences.
      rewrite filter_cons. destruct (decide (h = k)) as [->|Hne].
      * rewrite Z.eqb_refl. cbn [length]. lia.
      * replace (h =? k) with false by (symmetry; by apply Z.eqb_neq). lia.
    + intros k. rewrite H3, keys_tally, elem_of_cons. split.
      * intros [[H| ->]|H]; [by left | right; by left | right; by right].
      * intros [H|[->|H]]; [left; by left | left; by right | by right].
Qed.

Lemma occurrences_positive k hours : k ∈ hours -> 0 < occurrences k hours.
Proof.
  intros Hin. unfold occurrences.
  assert (Hk : k ∈ filter (fun h => h = k) hours)
    by (by apply list_elem_of_filter).
  destruct (filter (fun h => h = k) hours); [by apply elem_of_nil in Hk|].
  cbn [length]. lia.
Qed.

Lemma getCommonHours_spec hours h :
  h ∈ getCommonHours hours
  <-> h ∈ hours /\ Z.of_nat (length hours) <= 20 * occurrences h hours.
Proof.
  unfold getCommonHours.
  destruct (tally_all hours [] (NoDup_nil_2)) as (Hnd & Hst & Hkeys).
  cbv zeta in Hnd, Hst, Hkeys.
  set (m := foldl tally [] hours) in *.
  assert (Hle : forall n : Z,
            Qle_bool (inject_Z (Z.of_nat (length hours)) * (5 # 100)) (inject_Z n)
            = true <-> Z.of_nat (length hours) <= 20 * n).
  { intros n. rewrite Qle_bool_iff. unfold Qle, Qmult, inject_Z. cbn. lia. }
  split.
  - intros Hin. apply list_elem_of_fmap in Hin as ([k n] & -> & Hin).
    apply list_elem_of_filter in Hin as [Hthr Hin]. cbn [fst snd] in *.
    assert (Hk : k ∈ hours).
    { assert (Hkey : k ∈ m.*1) by (apply list_elem_of_fmap; by exists (k, n)).
      apply Hkeys in Hkey as [Hkey|Hkey]; [by apply elem_of_nil in Hkey|].
      exact Hkey. }
    split; [exact Hk|].
    rewrite <- (stored_elem m k n Hnd Hin) in Hthr.
    rewrite Hst in Hthr. cbn [stored] in Hthr. apply Hle in Hthr. lia.
  - intros [Hin Hthr]. apply list_elem_of_fmap.
    exists (h, stored m h). split; [reflexivity|].
    apply list_elem_of_filter. split.
    + cbn [snd]. apply Hle. rewrite Hst. cbn [stored]. lia.
    + apply elem_stored. apply Hkeys. by right.
Qed.

(** *** A suspect transaction that is part of the history *)

Lemma length_positive {A} (x : A) (l : list A) : x ∈ l -> (1 <= length l)%nat.
Proof. destruct l; [intros H; by apply elem_of_nil in H | cbn; lia]. Qed.

Lemma device_is_known transactions suspectTxn :
  suspectTxn ∈ transactions ->
  newDevice (analyzeDevice transactions suspectTxn) = false.
Proof.
  intros Hin. unfold analyzeDevice. cbn [newDevice].
  destruct (truthy (deviceId suspectTxn)) as [d|] eqn:E; [|reflexivity].
  apply bool_decide_eq_false. intros Hnot. apply Hnot.
  apply elem_of_list_to_set, list_elem_of_omap. by exists suspectTxn.
Qed.

Lemma merchant_is_known transactions suspectTxn :
  suspectTxn ∈ transactions ->
  newMerchant (analyzeMerchant (txn <$> transactions) (txn suspectTxn)) = false.
Proof.
  intros Hin. unfold analyzeMerchant. cbn [newMerchant].
  apply bool_decide_eq_false. intros Hnot. apply Hnot.
  apply elem_of_list_to_set, list_elem_of_fmap. exists (txn suspectTxn).
  split; [reflexivity|]. apply list_elem_of_fmap. by exists suspectTxn.
Qed.

Lemma location_is_known getHours transactions suspectTxn :
  suspectTxn ∈ transactions ->
  unusualLocation (analyzePatterns getHours transactions suspectTxn) = false.
Proof.
  intros Hin. unfold analyzePatterns. cbn [unusualLocation].
  destruct (truthy (country suspectTxn)); [|reflexivity].
  apply bool_decide_eq_false. intros Hnot. apply Hnot.
  apply elem_of_list_to_set, list_elem_of_fmap. by exists suspectTxn.
Qed.

Lemma unusualTime_spec getHours transactions suspectTxn :
  let hour := getHours (ts suspectTxn) in
  let hours := (fun r => getHours (ts r)) <$> transactions in
  unusualTime (analyzePatterns getHours transactions suspectTxn) = true
  <-> (hour < 6 \/ 23 < hour)
      /\ ~ (hour ∈ hours
            /\ Z.of_nat (length hours) <= 20 * occurrences hour hours).
Proof.
  cbv zeta. unfold analyzePatterns. cbn [unusualTime].
  rewrite andb_true_iff, negb_true_iff, bool_decide_eq_false, orb_true_iff.
  rewrite getCommonHours_spec. rewrite Z.ltb_lt, Z.gtb_ltb, Z.ltb_lt. tauto.
Qed.

(** When the suspect transaction is one of the transactions fetched
    for the analysis, the device, the merchant and the location are
    never new, and the transaction itself is counted among those of the
    last 24 hours; with at most 20 transactions fetched, the time is
    never unusual either. *)
Theorem suspect_in_history_is_familiar (getHours : Z -> Z)
    (transactions : list Row) (suspectTxn : Row) :
  suspectTxn ∈ transactions ->
  newDevice (analyzeDevice transactions suspectTxn) = false
  /\ newMerchant (analyzeMerchant (txn <$> transactions) (txn suspectTxn)) = false
  /\ unusualLocation (analyzePatterns getHours transactions suspectTxn) = false
  /\ 1 <= txnsLast24h (analyzeVelocity transactions suspectTxn)
  /\ ((length transactions <= 20)%nat ->
      unusualTime (analyzePatterns getHours transactions suspectTxn) = false).
Proof.
  intros Hin.
  split; [by apply device_is_known|]. split; [by apply merchant_is_known|].
  split; [by apply location_is_known|]. split.
  - unfold analyzeVelocity. cbn [txnsLast24h].
    assert (H : suspectTxn ∈ filter
              (fun r => ts suspectTxn - 24 * 60 * 60 * 1000 <= ts r) transactions).
    { apply list_elem_of_filter. split; [lia | exact Hin]. }
    apply length_positive in H. lia.
  - intros Hlen.
    destruct (unusualTime (analyzePatterns getHours transactions suspectTxn))
      eqn:E; [|reflexivity].
    exfalso. apply unusualTime_spec in E as [_ Hnot]. apply Hnot.
    assert (Hh : getHours (ts suspectTxn)
                 ∈ (fun r => getHours (ts r)) <$> transactions).
    { apply list_elem_of_fmap. by exists suspectTxn. }
    split; [exact Hh|].
    pose proof (occurrences_positive _ _ Hh). rewrite length_fmap. lia.
Qed.

Lemma suspect_in_history_is_familiar_witness :
  let history := night_withdrawal :: month in
  night_withdrawal ∈ history
  /\ (fun a => (score a, reasons a, action a))
       <$> analyzeRisk utc_hour (Some night_withdrawal) history
     = Some (100,
             ["High transaction velocity: 2 transactions in 24h vs 0.1 daily average";
              "High-risk merchant category or name pattern";
              "Transaction amount significantly higher than recent average"],
             "freeze_card")
  /\ newDevice (analyzeDevice history night_withdrawal) = false.
Proof.
  cbv zeta.
  assert (H : night_withdrawal ∈ night_withdrawal :: month) by (by left).
  split; [exact H|]. split; [vm_compute; reflexivity|].
  exact (proj1 (suspect_in_history_is_familiar utc_hour _ _ H)).
Defined.

(** The time of a transaction counts as unusual only before six in the
    morning, and then exactly when fewer than one in twenty of the
    fetched transactions fall into the same hour of the day; the test
    for an hour after 23 never holds. *)
Theorem unusual_time_only_before_six (getHours : Z -> Z)
    (transactions : list Row) (suspectTxn : Row) :
  (forall t, 0 <= getHours t <= 23) ->
  let hour := getHours (ts suspectTxn) in
  let same_hour := filter (fun r => getHours (ts r) = hour) transactions in
  unusualTime (analyzePatterns getHours transactions suspectTxn) = true
  <-> hour < 6
      /\ (same_hour = []
          \/ 20 * Z.of_nat (length same_hour) < Z.of_nat (length transactions)).
Proof.
  intros Hrange. cbv zeta. rewrite unusualTime_spec.
  set (hour := getHours (ts suspectTxn)).
  set (hours := (fun r => getHours (ts r)) <$> transactions).
  assert (Hocc : occurrences hour hours
                 = Z.of_nat (length (filter (fun r => getHours (ts r) = hour)
                                       transactions))).
  { unfold occurrences, hours. f_equal. clear.
    induction transactions as [|r l IH]; [reflexivity|].
    rewrite fmap_cons, !filter_cons.
    destruct (decide (getHours (ts r) = hour)); cbn [length]; by rewrite IH. }
  assert (Hin : hour ∈ hours
                <-> filter (fun r => getHours (ts r) = hour) transactions <> []).
  { unfold hours. rewrite list_elem_of_fmap. split.
    - intros (r & Hr & Hin) E.
      assert (H : r ∈ filter (fun r => getHours (ts r) = hour) transactions)
        by (by apply list_elem_of_filter).
      rewrite E in H. by apply elem_of_nil in H.
    - intros Hne.
      destruct (filter (fun r => getHours (ts r) = hour) transactions)
        as [|r l] eqn:E; [done|].
      assert (H : r ∈ filter (fun r => getHours (ts r) = hour) transactions)
        by (rewrite E; by left).
      apply list_elem_of_filter in H as [Hr H]. by exists r. }
  rewrite Hin, Hocc. unfold hours. rewrite length_fmap.
  pose proof (Hrange (ts suspectTxn)) as Hh. fold hour in Hh.
  set (same := filter (fun r => getHours (ts r) = hour) transactions).
  split.
  - intros [[H6|H23] Hnot]; [|lia]. split; [exact H6|].
    destruct same as [|r l] eqn:E; [by left|]. right.
    destruct (Z.le_gt_cases (Z.of_nat (length transactions))
                (20 * Z.of_nat (length (r :: l)))) as [Hle|Hgt]; [|lia].
    exfalso. apply Hnot. split; [done | exact Hle].
  - intros [H6 Hrare]. split; [by left|]. intros [Hne Hle].
    destruct Hrare as [E|Hlt]; [by apply Hne | lia].
Qed.

Lemma unusual_time_only_before_six_witness :
  (forall t, 0 <= utc_hour t <= 23)
  /\ unusualTime (analyzePatterns utc_hour month night_withdrawal) = true.
Proof.
  assert (H : forall t, 0 <= utc_hour t <= 23).
  { intros t. unfold utc_hour.
    pose proof (Z.mod_pos_bound (t / 3600000) 24 ltac:(lia)). lia. }
  split; [exact H|].
  apply (unusual_time_only_before_six utc_hour month night_withdrawal H).
  split; [vm_compute; reflexivity | left; vm_compute; reflexivity].
Defined.

(** *** The velocity figures *)

Lemma filter_partition_length (cut : Z) (rows : list Row) :
  (length (filter (fun r => (cut <= ts r)%Z) rows)
   + length (filter (fun r => (ts r < cut)%Z) rows) = length rows)%nat.
Proof.
  induction rows as [|r l IH]; [reflexivity|].
  rewrite !filter_cons.
  destruct (decide (cut <= ts r)), (decide (ts r < cut)); cbn [length]; lia.
Qed.

Lemma Math_round_bounds (a b : Z) :
  0 < b ->
  let n := Math_round (inject_Z a / inject_Z b * 100) in
  - b < 2 * (b * n - 100 * a) <= b.
Proof.
  intros Hb. cbv zeta. unfold Math_round.
  set (x := (inject_Z a / inject_Z b * 100 + (1 # 2))%Q).
  assert (Ex : (x == (200 * a + b) # (Z.to_pos (2 * b)))%Q).
  { unfold x, Qdiv, Qinv, Qeq, Qmult, Qplus, inject_Z.
    destruct b as [|p|p]; try lia. cbn. lia. }
  rewrite (Qfloor_comp _ _ Ex). unfold Qfloor.
  rewrite Z2Pos.id by lia.
  pose proof (Z.div_mod (200 * a + b) (2 * b) ltac:(lia)) as Hdm.
  pose proof (Z.mod_pos_bound (200 * a + b) (2 * b) ltac:(lia)) as Hm.
  nia.
Qed.

(** Every fetched transaction is either counted for the last 24 hours
    (also when it is later than the suspect one) or for the history
    before; the daily average is a whole number of hundredths, the one
    nearest to the number of earlier transactions divided by 89. *)
Theorem velocity_figures (transactions : list Row) (suspectTxn : Row) :
  let v := analyzeVelocity transactions suspectTxn in
  let cut := ts suspectTxn - 86400000 in
  let earlier := Z.of_nat (length (filter (fun r => ts r < cut) transactions)) in
  txnsLast24h v + earlier = Z.of_nat (length transactions)
  /\ exists n : Z,
       (avgDaily v == n # 100)%Q
       /\ -44 <= 89 * n - 100 * earlier <= 44.
Proof.
  cbv zeta. unfold analyzeVelocity. cbn [txnsLast24h avgDaily].
  change (24 * 60 * 60 * 1000) with 86400000.
  split.
  - pose proof (filter_partition_length (ts suspectTxn - 86400000) transactions).
    lia.
  - change (Z.max 89 1) with 89.
    set (h := Z.of_nat (length (filter _ transactions))).
    exists (Math_round (inject_Z h / inject_Z 89 * 100)).
    split.
    + unfold Qdiv, Qeq, Qmult, Qinv, inject_Z. cbn. lia.
    + pose proof (Math_round_bounds h 89 ltac:(lia)) as Hb. cbv zeta in Hb. lia.
Qed.

(** *** A verdict of "normal" *)

Definition normal : string := "Transaction appears normal based on analysis".

Lemma generateReasons_normal score v d m p :
  generateReasons score v d m p = [normal] ->
  Qgtb (inject_Z (txnsLast24h v)) (avgDaily v * 2) = false
  /\ newDevice d = false /\ newMerchant m = false
  /\ (riskScore m >? 30) = false
  /\ unusualTime p = false /\ unusualLocation p = false
  /\ velocitySpike p = false.
Proof.
  unfold generateReasons.
  set (sv := "High transaction velocity: " +:+ _).
  assert (Hsv : sv <> normal) by discriminate.
  clearbody sv.
  destruct (Qgtb (inject_Z (txnsLast24h v)) (avgDaily v * 2)),
           (newDevice d), (newMerchant m), (riskScore m >? 30),
           (unusualTime p), (unusualLocation p), (velocitySpike p);
    cbn [app]; intros H; try discriminate H;
    first [by repeat split | by injection H].
Qed.

Lemma avgDaily_nonneg transactions suspectTxn :
  (0 <= avgDaily (analyzeVelocity transactions suspectTxn))%Q.
Proof.
  unfold analyzeVelocity. cbn [avgDaily].
  set (h := Z.of_nat (length _)).
  assert (Hn : 0 <= Math_round (inject_Z h / inject_Z (Z.max 89 1) * 100)).
  { apply Math_round_nonneg. change (Z.max 89 1) with 89.
    unfold Qle, Qdiv, Qmult, Qinv, inject_Z. cbn. lia. }
  revert Hn. generalize (Math_round (inject_Z h / inject_Z (Z.max 89 1) * 100)).
  intros n Hn. unfold Qle, Qdiv, Qmult, Qinv, inject_Z. cbn. lia.
Qed.

Lemma no_triple_without_double (a : Z) (q : Q) :
  (0 <= q)%Q -> Qgtb (inject_Z a) (q * 2) = false ->
  Qgtb (inject_Z a) (q * 3) = false.
Proof.
  intros Hq H2. destruct (Qgtb (inject_Z a) (q * 3)) eqn:H3; [|reflexivity].
  exfalso. apply Qgtb_spec in H3.
  assert (Hle : (inject_Z a <= q * 2)%Q).
  { unfold Qgtb in H2. apply negb_false_iff in H2. by apply Qle_bool_iff. }
  destruct q as [qn qd].
  unfold Qle, Qlt, Qmult, inject_Z in *. cbn in *. nia.
Qed.

(** An analysis whose only reason is that the transaction appears
    normal can still carry a score of up to 70, and with it the proposal
    to open a dispute; it never proposes to freeze the card. *)
Theorem normal_verdict_scores_up_to_70 (getHours : Z -> Z)
    (suspectTxn : Row) (transactions : list Row) (a : FraudAnalysis) :
  analyzeRisk getHours (Some suspectTxn) transactions = Some a ->
  reasons a = [normal] ->
  0 <= score a <= 70
  /\ (action a = "open_dispute" \/ action a = "monitor").
Proof.
  unfold analyzeRisk. intros [= <-]. cbn [reasons score action].
  intros Hn. apply generateReasons_normal in Hn
    as (Hv2 & Hd & Hm & Hr & Ht & Hl & Hs).
  pose proof (no_triple_without_double _ _
                (avgDaily_nonneg transactions suspectTxn) Hv2) as Hv3.
  pose proof (analyzeMerchant_riskScore (txn <$> transactions) (txn suspectTxn))
    as Hrs.
  set (sc := calculateRiskScore _ _ _ _ _).
  assert (Hsc : 0 <= sc <= 70).
  { unfold sc, calculateRiskScore.
    rewrite Hv3, Hv2, Hd, Ht, Hl, Hs. cbn [bump].
    destruct (amountLast24h _ >? 100000), (deviceChanges _ >? 5),
             (amountCents (txn suspectTxn) >? 50000),
             (amountCents (txn suspectTxn) >? 100000);
      repeat (apply elem_of_cons in Hrs as [Hrs|Hrs];
              [rewrite Hrs in Hr |- *; first [discriminate Hr | by vm_compute]|]);
      by apply elem_of_nil in Hrs. }
  split; [exact Hsc|].
  unfold proposeAction.
  replace (sc >=? 80) with false by (symmetry; lia).
  destruct (sc >=? 50); [by left | by right].
Qed.

(** Forty-five wire transfers of 1500 dollars from six devices, and
    one more, a fortnight later, like them in every respect. *)
Definition wire (day : Z) : Row :=
  {| ts := day * 86400000 + 43200000;
     deviceId :=
       Some (nth (Z.to_nat (day mod 6))
               ["device_0"; "device_1"; "device_2"; "device_3"; "device_4";
                "device_5"] "device_0");
     country := Some "US"; city := Some "Austin";
     txn := {| merchant := "Metro Wire"; mcc := "4829";
               amountCents := 150000 |} |}.

Definition wires : list Row := wire 60 :: (wire <$> seqZ 0 45).

Lemma normal_verdict_scores_up_to_70_witness :
  exists a,
    analyzeRisk utc_hour (Some (wire 60)) wires = Some a
    /\ reasons a = [normal]
    /\ score a = 70
    /\ (action a = "open_dispute" \/ action a = "monitor").
Proof.
  destruct (analyzeRisk utc_hour (Some (wire 60)) wires) as [a|] eqn:E;
    [|vm_compute in E; discriminate].
  exists a. split; [reflexivity|].
  pose proof E as E'. vm_compute in E'. injection E' as <-.
  assert (Hn : reasons
                 {| score := 70; reasons := [normal]; action := "open_dispute";
                    velocity := {| txnsLast24h := 1; amountLast24h := 150000;
                                   avgDaily := 51 # 100 |};
                    deviceAnalysis := {| newDevice := false; deviceChanges := 6 |};
                    merchantAnalysis := {| newMerchant := false; riskScore := 30 |};
                    patterns := no_pattern |} = [normal]) by reflexivity.
  split; [exact Hn|]. split; [reflexivity|].
  exact (proj2 (normal_verdict_scores_up_to_70 utc_hour (wire 60) wires _ E Hn)).
Defined.

End FraudSignals.

(* ===================================================================== *)
(** ** agents/compliance-agent.ts : the ProposeAction step *)
(* ===================================================================== *)

Module Compliance.
Import Js.

Inductive Role := agent | lead.

Inductive Action := freeze_card | open_dispute | contact_customer | false_positive.

#[local] Instance Role_eq_dec : EqDecision Role.
Proof. solve_decision. Defined.

#[local] Instance Action_eq_dec : EqDecision Action.
Proof. solve_decision. Defined.

#[local] Instance RiskLevel_eq_dec : EqDecision Insights.RiskLevel.
Proof. solve_decision. Defined.

Definition action_name (a : Action) : string :=
  match a with
  | freeze_card => "freeze_card"
  | open_dispute => "open_dispute"
  | contact_customer => "contact_customer"
  | false_positive => "false_positive"
  end.

(** What the agent reads of the context.  [riskSignals] is the result
    of the fraud agent, [decide] the risk assessment inside the result
    of the insights agent, [getProfile] the customer row, [recentTx]
    the transaction rows; [None] is an entry that is missing, [null] or
    [undefined]. *)
Record RiskSignals := { score : Z; action : option string }.

Record Txn := { amountCents : Z }.

Record Customer := {
  kycLevel : string;
  transactions : option (list Txn)   (* not a column of the row: [undefined] *)
}.

Record Context := {
  getProfile : option Customer;
  recentTx : option (list Txn);
  riskSignals : option RiskSignals;
  decide : option Insights.RiskAssessment
}.

Record Check := { check : string; passed : bool; reason : option string }.

Record ComplianceResult := {
  r_action : Action;
  approved : bool;
  requiresOTP : bool;
  policyChecks : list Check;
  blockedBy : option string
}.

(** [x || dflt] on a number. *)
Definition or_number (x : option Z) (dflt : Z) : Z :=
  match x with
  | Some 0 | None => dflt
  | Some n => n
  end.

(** [determineAction(riskSignals, insights)], where [level] is
    [insights.riskAssessment?.level]. *)
Definition determineAction (riskSignals : RiskSignals)
    (level : option Insights.RiskLevel) : Action :=
  let riskLevel := default Insights.low level in
  let riskScore := or_number (Some (score riskSignals)) 30 in
  let by_risk :=
    if bool_decide (riskLevel = Insights.high) || (riskScore >=? 80)
    then freeze_card
    else if bool_decide (riskLevel = Insights.medium) || (riskScore >=? 50)
    then open_dispute
    else if riskScore >=? 30 then contact_customer
    else false_positive in
  match action riskSignals with
  | Some a =>
      if String.eqb a "freeze_card" then freeze_card
      else if String.eqb a "open_dispute" then open_dispute
      else if String.eqb a "monitor" then contact_customer
      else by_risk
  | None => by_risk
  end.

Definition checkRoleAuthorization (action : Action) (userRole : Role) : Check :=
  match userRole with
  | lead => {| check := "role_authorization"; passed := true; reason := None |}
  | agent =>
      if bool_decide (action ∈ [contact_customer; false_positive; open_dispute])
      then {| check := "role_authorization"; passed := true; reason := None |}
      else {| check := "role_authorization"; passed := false;
              reason := Some ("Action '" +:+ action_name action
                              +:+ "' requires lead approval") |}
  end.

(** [Number.MAX_SAFE_INTEGER] *)
Definition MAX_SAFE_INTEGER : Z := 9007199254740991.

Definition limit_of (action : Action) : Z :=
  match action with
  | freeze_card => 1000
  | open_dispute => 5000
  | contact_customer | false_positive => MAX_SAFE_INTEGER
  end.

(** [rows?.[0]] *)
Definition first_of (rows : option (list Txn)) : option Txn :=
  match rows with
  | Some (t :: _) => Some t
  | _ => None
  end.

(** [checkAmountLimits(action, context)].  The dollars are the cents
    divided by 100; they exceed an integer limit exactly when the
    double does. *)
Definition checkAmountLimits (action : Action) (context : Context) : Check :=
  let suspectTxn :=
    match first_of (getProfile context ≫= transactions) with
    | Some t => Some t
    | None => first_of (recentTx context)
    end in
  match suspectTxn with
  | None => {| check := "amount_limits"; passed := true; reason := None |}
  | Some suspectTxn =>
      let amountCents := amountCents suspectTxn in
      let amountDollars := (inject_Z amountCents / 100)%Q in
      let limit := limit_of action in
      if Qgtb amountDollars (inject_Z limit) then
        {| check := "amount_limits"; passed := false;
           reason := Some ("Transaction amount $"
                           +:+ FraudSignals.render_hundredths amountDollars
                           +:+ " exceeds limit $" +:+ string_of_Z limit
                           +:+ " for action '" +:+ action_name action +:+ "'") |}
      else {| check := "amount_limits"; passed := true; reason := None |}
  end.

Definition checkCustomerStatus (context : Context) : Check :=
  match getProfile context with
  | None => {| check := "customer_status"; passed := false;
               reason := Some "Customer profile not available" |}
  | Some customer =>
      if String.eqb (kycLevel customer) "restricted" then
        {| check := "customer_status"; passed := false;
           reason := Some "Customer has restricted KYC status" |}
      else {| check := "customer_status"; passed := true; reason := None |}
  end.

Definition checkRateLimits (action : Action) (context : Context) : Check :=
  {| check := "rate_limits"; passed := true; reason := None |}.

(** [checkBusinessHours(action)], at hour [hour] of day [day] of the
    week (0 is Sunday) on the clock of the server. *)
Definition checkBusinessHours (action : Action) (hour day : Z) : Check :=
  let isBusinessHours :=
    (day >=? 1) && (day <=? 5) && (hour >=? 9) && (hour <? 17) in
  if bool_decide (action ∈ [freeze_card]) && negb isBusinessHours then
    {| check := "business_hours"; passed := false;
       reason := Some "High-risk actions outside business hours require additional approval" |}
  else {| check := "business_hours"; passed := true; reason := None |}.

Definition checkEscalationRequirements (action : Action) (context : Context)
    (userRole : Role) : Check :=
  let riskScore :=
    match riskSignals context with
    | Some rs => score rs
    | None => 30
    end in
  let confidence :=
    or_number (Insights.confidence <$> decide context) 70 in
  if (riskScore >=? 80) && (confidence <? 60) && bool_decide (userRole = agent)
  then {| check := "escalation_requirements"; passed := false;
          reason := Some "High-risk, low-confidence case requires lead review" |}
  else {| check := "escalation_requirements"; passed := true; reason := None |}.

Definition runPolicyChecks (action : Action) (context : Context)
    (userRole : Role) (hour day : Z) : list Check :=
  [ checkRoleAuthorization action userRole;
    checkAmountLimits action context;
    checkCustomerStatus context;
    checkRateLimits action context;
    checkBusinessHours action hour day;
    checkEscalationRequirements action context userRole ].

(** [requiresOTP(action, riskSignals, userRole)] *)
Definition needsOTP (action : Action) (riskSignals : RiskSignals)
    (userRole : Role) : bool :=
  match action with
  | freeze_card => true
  | open_dispute => score riskSignals >=? 70
  | _ => false
  end.

(** [validateAndProposeAction(context, userRole)] *)
Definition validateAndProposeAction (context : Context) (userRole : Role)
    (hour day : Z) : ComplianceResult :=
  let riskSignals :=
    default {| score := 30; action := None |} (riskSignals context) in
  let level :=
    match decide context with
    | Some a => Some (Insights.level a)
    | None => Some Insights.low
    end in
  let proposedAction := determineAction riskSignals level in
  let policyChecks := runPolicyChecks proposedAction context userRole hour day in
  let approved := forallb passed policyChecks in
  let blockedCheck := List.find (fun c => negb (passed c)) policyChecks in
  {| r_action := proposedAction;
     approved := approved;
     requiresOTP := needsOTP proposedAction riskSignals userRole;
     policyChecks := policyChecks;
     blockedBy := check <$> blockedCheck |}.

(** *** The checks *)

Definition check_names : list string :=
  [ "role_authorization"; "amount_limits"; "customer_status"; "rate_limits";
    "business_hours"; "escalation_requirements" ].

Lemma runPolicyChecks_names a ctx role hour day :
  check <$> runPolicyChecks a ctx role hour day = check_names.
Proof.
  unfold runPolicyChecks, check_names. cbn [fmap list_fmap].
  repeat f_equal.
  - unfold checkRoleAuthorization. destruct role; [|reflexivity].
    by destruct (bool_decide _).
  - unfold checkAmountLimits.
    destruct (match first_of _ with Some _ => _ | None => _ end); [|reflexivity].
    by destruct (Qgtb _ _).
  - unfold checkCustomerStatus. destruct (getProfile ctx); [|reflexivity].
    by destruct (String.eqb _ _).
  - unfold checkBusinessHours. by destruct (_ && _).
  - unfold checkEscalationRequirements. by destruct (_ && _).
Qed.

Lemma every_find (l : list Check) :
  forallb passed l = true <-> List.find (fun c => negb (passed c)) l = None.
Proof.
  induction l as [|c l IH]; [done|]. cbn [forallb List.find].
  destruct (passed c); cbn [negb andb]; [exact IH | done].
Qed.

Lemma find_failed (l : list Check) c :
  List.find (fun c => negb (passed c)) l = Some c ->
  exists k, l !! k = Some c /\ passed c = false
            /\ forall j c', (j < k)%nat -> l !! j = Some c' -> passed c' = true.
Proof.
  induction l as [|c0 l IH]; [done|]. cbn [List.find].
  destruct (passed c0) eqn:E; cbn [negb].
  - intros H. destruct (IH H) as (k & Hk & Hp & Hbefore).
    exists (S k). split; [exact Hk|]. split; [exact Hp|].
    intros [|j] c' Hj Hc'; [by injection Hc' as <-|].
    apply (Hbefore j c'); [lia | exact Hc'].
  - intros [= <-]. exists 0%nat. split; [reflexivity|]. split; [exact E|].
    intros j c' Hj. lia.
Qed.

Lemma escalation_passes a ctx role signals txs :
  decide ctx = None \/ decide ctx = Some (Insights.assess signals txs) ->
  passed (checkEscalationRequirements a ctx role) = true.
Proof.
  intros Hd. unfold checkEscalationRequirements.
  assert (Hc : (or_number (Insights.confidence <$> decide ctx) 70 <? 60) = false).
  { destruct Hd as [->| ->]; [reflexivity|]. cbn [fmap option_fmap option_map].
    pose proof (Insights.decide_confidence_values signals txs) as Hv.
    repeat (apply elem_of_cons in Hv as [->|Hv]; [reflexivity|]).
    by apply elem_of_nil in Hv. }
  rewrite Hc, andb_false_r. reflexivity.
Qed.

Lemma blocked_names_failed context userRole hour day name :
  blockedBy (validateAndProposeAction context userRole hour day) = Some name ->
  exists k c,
    policyChecks (validateAndProposeAction context userRole hour day) !! k = Some c
    /\ check c = name /\ passed c = false.
Proof.
  unfold validateAndProposeAction. cbn [policyChecks blockedBy].
  set (l := runPolicyChecks _ context userRole hour day).
  destruct (List.find (fun c => negb (passed c)) l) as [c|] eqn:E; [|done].
  intros [= <-]. destruct (find_failed l c E) as (k & Hk & Hp & _).
  by exists k, c.
Qed.

(** When the proposed action is to freeze the card, a caller with the
    role of an agent is never approved: the role check is the one that
    blocks, whatever the other checks say, and an OTP is required. *)
Theorem agent_freeze_is_blocked (context : Context) (hour day : Z) :
  let r := validateAndProposeAction context agent hour day in
  r_action r = freeze_card ->
  approved r = false
  /\ blockedBy r = Some "role_authorization"
  /\ requiresOTP r = true.
Proof.
  cbv zeta. unfold validateAndProposeAction.
  cbn [r_action approved blockedBy requiresOTP]. intros ->.
  unfold runPolicyChecks. cbn [checkRoleAuthorization].
  replace (bool_decide (freeze_card ∈ [contact_customer; false_positive;
                                       open_dispute])) with false
    by reflexivity.
  repeat split.
Qed.

(** A score of 85 with the proposal of the fraud agent to freeze the
    card, for a customer in good standing, on a Tuesday at ten. *)
Definition high_risk_case : Context :=
  {| getProfile := Some {| kycLevel := "full"; transactions := None |};
     recentTx := Some [ {| amountCents := 42000 |} ];
     riskSignals := Some {| score := 85; action := Some "freeze_card" |};
     decide := Some {| Insights.level := Insights.high;
                       Insights.confidence := 95;
                       Insights.keyFactors := [] |} |}.

Lemma agent_freeze_is_blocked_witness :
  r_action (validateAndProposeAction high_risk_case agent 10 2) = freeze_card
  /\ approved (validateAndProposeAction high_risk_case agent 10 2) = false
  /\ approved (validateAndProposeAction high_risk_case lead 10 2) = true.
Proof.
  assert (H : r_action (validateAndProposeAction high_risk_case agent 10 2)
              = freeze_card) by (vm_compute; reflexivity).
  split; [exact H|]. split.
  - exact (proj1 (agent_freeze_is_blocked high_risk_case 10 2 H)).
  - vm_compute. reflexivity.
Defined.

(** Six checks are always run, in the same order; the action is
    approved exactly when none is reported as blocking; the check that
    is reported is the first one that failed; and the rate-limit check
    is never the one. *)
Theorem blocked_by_first_failed_check (context : Context) (userRole : Role)
    (hour day : Z) :
  let r := validateAndProposeAction context userRole hour day in
  check <$> policyChecks r = check_names
  /\ (approved r = true <-> blockedBy r = None)
  /\ (forall name, blockedBy r = Some name ->
        exists k c, policyChecks r !! k = Some c /\ check c = name
                    /\ passed c = false
                    /\ forall j c', (j < k)%nat -> policyChecks r !! j = Some c' ->
                                    passed c' = true)
  /\ (blockedBy r = Some "rate_limits" -> False).
Proof.
  cbv zeta. unfold validateAndProposeAction.
  cbn [policyChecks approved blockedBy].
  set (a := determineAction _ _).
  set (l := runPolicyChecks a context userRole hour day).
  assert (Hfirst : forall name,
    check <$> List.find (fun c => negb (passed c)) l = Some name ->
    exists k c, l !! k = Some c /\ check c = name /\ passed c = false
                /\ forall j c', (j < k)%nat -> l !! j = Some c' -> passed c' = true).
  { intros name Hb.
    destruct (List.find (fun c => negb (passed c)) l) as [c|] eqn:E; [|done].
    injection Hb as <-. destruct (find_failed l c E) as (k & Hk & Hp & Hbefore).
    by exists k, c. }
  split; [apply runPolicyChecks_names|]. split; [|split; [exact Hfirst|]].
  - rewrite every_find. by destruct (List.find _ l).
  - intros Hb. destruct (Hfirst _ Hb) as (k & c & Hk & Hname & Hp & _).
    pose proof (runPolicyChecks_names a context userRole hour day) as Hn.
    fold l in Hn.
    assert (Hkn : check_names !! k = Some "rate_limits").
    { rewrite <- Hn, list_lookup_fmap, Hk. cbn. by rewrite Hname. }
    assert (k = 3%nat) as ->.
    { do 6 (destruct k as [|k]; [first [reflexivity | discriminate Hkn]|]).
      discriminate Hkn. }
    unfold l, runPolicyChecks in Hk. cbn in Hk. injection Hk as <-.
    discriminate Hp.
Qed.

(** With the assessment of the insights agent in the context, or with
    none, the escalation check passes for every caller: the agent's
    confidence is never below 80, and the check asks for less than 60. *)
Theorem escalation_never_blocks_after_decide (context : Context)
    (userRole : Role) (hour day : Z) (signals : Insights.RiskSignals)
    (txs : list Insights.Txn) :
  decide context = None \/ decide context = Some (Insights.assess signals txs) ->
  let r := validateAndProposeAction context userRole hour day in
  (forall a, passed (checkEscalationRequirements a context userRole) = true)
  /\ (blockedBy r = Some "escalation_requirements" -> False).
Proof.
  intros Hd. cbv zeta. split.
  - intros a. by eapply escalation_passes.
  - intros Hb.
    destruct (blocked_names_failed context userRole hour day
                "escalation_requirements" Hb) as (k & c & Hk & Hname & Hp).
    unfold validateAndProposeAction in Hk. cbn [policyChecks] in Hk.
    set (a := determineAction _ _) in Hk.
    pose proof (runPolicyChecks_names a context userRole hour day) as Hn.
    assert (Hkn : check_names !! k = Some "escalation_requirements").
    { rewrite <- Hn, list_lookup_fmap, Hk. cbn. by rewrite Hname. }
    assert (k = 5%nat) as ->.
    { do 6 (destruct k as [|k]; [first [reflexivity | discriminate Hkn]|]).
      discriminate Hkn. }
    unfold runPolicyChecks in Hk. cbn in Hk. injection Hk as <-.
    rewrite (escalation_passes a context userRole signals txs Hd) in Hp.
    discriminate.
Qed.

Lemma escalation_never_blocks_after_decide_witness :
  let context :=
    {| getProfile := Some {| kycLevel := "full"; transactions := None |};
       recentTx := Some [ {| amountCents := 42000 |} ];
       riskSignals := Some {| score := 85; action := Some "freeze_card" |};
       decide := Some (Insights.assess
                         {| Insights.score := Some 85;
                            Insights.reasons := Some ["Transaction from new device"] |}
                         [ {| Insights.merchant := "Corner Bakery";
                              Insights.amountCents := 42000 |} ]) |} in
  passed (checkEscalationRequirements freeze_card context agent) = true
  /\ blockedBy (validateAndProposeAction context agent 10 2)
     = Some "role_authorization".
Proof.
  cbv zeta. split; [|vm_compute; reflexivity].
  refine (proj1 (escalation_never_blocks_after_decide _ agent 10 2
                   {| Insights.score := Some 85;
                      Insights.reasons := Some ["Transaction from new device"] |}
                   [ {| Insights.merchant := "Corner Bakery";
                        Insights.amountCents := 42000 |} ] _) freeze_card).
  right. reflexivity.
Defined.

End Compliance.

(* ===================================================================== *)
(** ** agents/orchestrator.ts : the run with its four agents *)
(* ===================================================================== *)

Module Triage.
Import Js Orchestrator.

(** *** What a step sees *)

Section Dataflow.
Variable agents : string -> gmap string Obj -> Outcome.
Variable clock : nat -> StepClock.
Variable redact : Obj -> Obj.

Lemma executeStep_context nm i st :
  let out := executeStep agents clock redact nm i st in
  (out.1 = false /\ context out.2 = context st)
  \/ (exists r, call agents nm (context st) = Returned r
                /\ out.1 = true
                /\ context out.2 = <[nm := r]> (context st)).
Proof.
  cbv zeta. unfold executeStep.
  destruct (isCircuitOpen nm (at_breaker (clock i)) (circuitBreakers st))
    as [open cb].
  destruct open; [by left|].
  destruct (call agents nm (context st)) as [r|m]; [|by left].
  right. by exists r.
Qed.

Lemma executeStep_other_keys nm i st k :
  k <> nm ->
  context (executeStep agents clock redact nm i st).2 !! k = context st !! k.
Proof.
  intros Hne.
  destruct (executeStep_context nm i st) as [[_ ->]|(r & _ & _ & ->)];
    [reflexivity|].
  by rewrite lookup_insert_ne.
Qed.

Lemma run_steps_other_keys steps : forall i st k,
  k ∉ steps ->
  context (run_steps agents clock redact steps i st) !! k = context st !! k.
Proof.
  induction steps as [|nm rest IH]; intros i st k Hk; [reflexivity|].
  apply not_elem_of_cons in Hk as [Hne Hk].
  rewrite run_steps_cons.
  destruct (negb _ && _).
  - cbn [triggerFallback context]. rewrite lookup_insert_ne by done.
    by apply executeStep_other_keys.
  - rewrite IH by exact Hk. by apply executeStep_other_keys.
Qed.

(** The entry [o] of step [nm] is what the call of that step returned
    in a context that held the final entries of the steps [before] it
    and nothing else. *)
Definition came_from (final : gmap string Obj) (before : list string)
    (nm : string) (o : Obj) : Prop :=
  exists ctx,
    call agents nm ctx = Returned o
    /\ (forall k, k ∈ before -> ctx !! k = final !! k)
    /\ (forall k, k ∉ before -> ctx !! k = None).

Lemma run_steps_dataflow steps : forall i st pre,
  NoDup (pre ++ steps) ->
  (forall k, k ∉ pre -> context st !! k = None) ->
  let final := context (run_steps agents clock redact steps i st) in
  forall s1 nm s2 o,
    steps = s1 ++ nm :: s2 -> final !! nm = Some o ->
    (isStepCritical nm = true /\ o = fallback_for nm)
    \/ came_from final (pre ++ s1) nm o.
Proof.
  induction steps as [|nm0 rest IH]; intros i st pre Hnd Hpre; cbv zeta;
    intros s1 nm s2 o Hsplit Ho.
  { by destruct s1. }
  apply NoDup_app in Hnd as (Hnd_pre & Hdisj & Hnd_steps).
  apply NoDup_cons in Hnd_steps as [Hnm0 Hnd_rest].
  assert (Hnm0_pre : nm0 ∉ pre).
  { intros Hin. apply (Hdisj nm0 Hin). by left. }
  rewrite run_steps_cons in Ho |- *.
  pose proof (executeStep_context nm0 i st) as Hstep. cbv zeta in Hstep.
  destruct s1 as [|x s1'].
  - (* the step itself *)
    cbn [app] in Hsplit. injection Hsplit as -> ->. rewrite app_nil_r.
    destruct (negb (executeStep agents clock redact nm i st).1
              && isStepCritical nm) eqn:Estop.
    + left. apply andb_true_iff in Estop as [_ Hcrit].
      cbn [triggerFallback context] in Ho. rewrite lookup_insert_eq in Ho.
      split; [exact Hcrit | congruence].
    + right. rewrite run_steps_other_keys in Ho by exact Hnm0.
      destruct Hstep as [[_ Hsame]|(r & Hcall & _ & Hins)].
      * rewrite Hsame, Hpre in Ho by exact Hnm0_pre. discriminate.
      * rewrite Hins, lookup_insert_eq in Ho. injection Ho as <-.
        exists (context st). split; [exact Hcall|]. split; [|exact Hpre].
        intros k Hk. rewrite run_steps_other_keys.
        -- rewrite Hins, lookup_insert_ne; [reflexivity|].
           intros ->. by apply Hnm0_pre.
        -- intros Hin. apply (Hdisj k Hk). by right.
  - (* a later step *)
    cbn [app] in Hsplit. injection Hsplit as <- ->.
    assert (Hne : nm <> nm0).
    { intros ->. apply Hnm0. apply elem_of_app. right. by left. }
    assert (Hnm_pre : nm ∉ pre).
    { intros Hin. apply (Hdisj nm Hin). right. apply elem_of_app. right. by left. }
    destruct (negb (executeStep agents clock redact nm0 i st).1
              && isStepCritical nm0) eqn:Estop.
    + cbn [triggerFallback context] in Ho.
      rewrite lookup_insert_ne in Ho by done.
      rewrite executeStep_other_keys, Hpre in Ho by done. discriminate.
    + replace (pre ++ nm0 :: s1') with ((pre ++ [nm0]) ++ s1')
        by (by rewrite <- app_assoc).
      apply (IH (S i) (executeStep agents clock redact nm0 i st).2
               (pre ++ [nm0])) with (s2 := s2); [| |reflexivity | exact Ho].
      * rewrite <- app_assoc. cbn [app].
        apply NoDup_app. split; [exact Hnd_pre|]. split; [exact Hdisj|].
        apply NoDup_cons. by split.
      * intros k Hk. apply not_elem_of_app in Hk as [Hk1 Hk2].
        rewrite executeStep_other_keys; [by apply Hpre|].
        intros ->. apply Hk2. by left.
Qed.

End Dataflow.

(** *** The calls of the six steps *)

(** What a run reads from outside: the rows of the data store, the
    clock of the server, the role of the caller, and which of the calls
    fail (the data store is down, or the step times out). *)
Record Store := {
  customer : option string;       (* the customer row, or [null] *)
  kycLevel : string;              (* its [kycLevel] column *)
  recent : list Insights.Txn;     (* the transactions of the last 30 days *)
  suspectTxn : option FraudSignals.Row;
  history : list FraudSignals.Row;  (* the transactions of the last 90 days *)
  findMany : string -> list string -> option (list Kb.KbDoc);
  getHours : Z -> Z;
  hour : Z;
  day : Z;
  userRole : Compliance.Role;
  fails : string -> bool
}.

(** The entries of the context as the agents read them; each is of
    the kind that its step stores. *)
Definition fraud_entry (ctx : gmap string Obj) : option FraudAnalysis :=
  match ctx !! "riskSignals" with
  | Some (Fraud f) => Some f
  | _ => None
  end.

Definition recent_entry (ctx : gmap string Obj) : option (list Insights.Txn) :=
  match ctx !! "recentTx" with
  | Some (Transactions rows) => Some rows
  | _ => None
  end.

Definition profile_entry (s : Store) (ctx : gmap string Obj)
    : option Compliance.Customer :=
  match ctx !! "getProfile" with
  | Some (Profile (Some _)) =>
      Some {| Compliance.kycLevel := kycLevel s;
              Compliance.transactions := None |}
  | _ => None
  end.

Definition decide_entry (ctx : gmap string Obj) : option Insights.RiskAssessment :=
  match ctx !! "decide" with
  | Some (Insight a) => Some a
  | _ => None
  end.

(** [context.riskSignals || { score: 30, reasons: [] }] *)
Definition insight_signals (ctx : gmap string Obj) : Insights.RiskSignals :=
  match fraud_entry ctx with
  | Some f => {| Insights.score := Some (score f);
                 Insights.reasons := Some (reasons f) |}
  | None => {| Insights.score := Some 30; Insights.reasons := Some [] |}
  end.

Definition compliance_context (s : Store) (ctx : gmap string Obj)
    : Compliance.Context :=
  {| Compliance.getProfile := profile_entry s ctx;
     Compliance.recentTx :=
       match recent_entry ctx with
       | Some rows =>
           Some (List.map (fun t => {| Compliance.amountCents :=
                                         Insights.amountCents t |}) rows)
       | None => None
       end;
     Compliance.riskSignals :=
       match fraud_entry ctx with
       | Some f => Some {| Compliance.score := score f;
                           Compliance.action := match action f with
                                                | "" => None
                                                | a => Some a
                                                end |}
       | None => None
       end;
     Compliance.decide := decide_entry ctx |}.

Definition compliance_object (r : Compliance.ComplianceResult) : Obj :=
  Compliance {| c_action := Compliance.action_name (Compliance.r_action r);
                approved := Compliance.approved r;
                requiresOTP := Compliance.requiresOTP r;
                blockedBy := Compliance.blockedBy r |}.

(** The [switch] of [executeStep], with the agents in place. *)
Definition triage_agents (s : Store) (step : string) (ctx : gmap string Obj)
    : Outcome :=
  if fails s step then Threw "Service unavailable"
  else if String.eqb step "getProfile" then Returned (Profile (customer s))
  else if String.eqb step "recentTx" then Returned (Transactions (recent s))
  else if String.eqb step "riskSignals" then
    match FraudSignals.analyzeRisk (getHours s) (suspectTxn s) (history s) with
    | Some a => Returned (Fraud {| score := FraudSignals.score a;
                                   reasons := FraudSignals.reasons a;
                                   action := FraudSignals.action a |})
    | None => Threw "Suspect transaction not found"
    end
  else if String.eqb step "kbLookup" then
    Returned (KbSearch (Kb.searchRelevantDocs (findMany s)
                          (match fraud_entry ctx with
                           | Some f => reasons f
                           | None => []
                           end)))
  else if String.eqb step "decide" then
    Returned (Insight (Insights.assess (insight_signals ctx)
                         (match recent_entry ctx with
                          | Some rows => rows
                          | None => []
                          end)))
  else
    Returned (compliance_object
                (Compliance.validateAndProposeAction (compliance_context s ctx)
                   (userRole s) (hour s) (day s))).

Lemma call_in_plan agents nm ctx :
  nm ∈ buildPlan -> call agents nm ctx = agents nm ctx.
Proof. intros H. unfold call. by rewrite bool_decide_eq_true_2. Qed.

Lemma final_entries
    (agents : string -> gmap string Obj -> Outcome)
    (clock : nat -> StepClock) (redact : Obj -> Obj)
    (cb : gmap string Breaker) :
  let final := context (execute agents clock redact cb).1 in
  (forall k, k ∉ buildPlan -> final !! k = None)
  /\ (forall (i : nat) nm o,
        buildPlan !! i = Some nm -> final !! nm = Some o ->
        (isStepCritical nm = true /\ o = FallbackGeneric)
        \/ exists ctx,
             agents nm ctx = Returned o
             /\ (forall k, k ∈ take i buildPlan -> ctx !! k = final !! k)
             /\ (forall k, k ∉ take i buildPlan -> ctx !! k = None)).
Proof.
  cbv zeta. unfold execute. cbn [fst]. split.
  - intros k Hk. rewrite run_steps_other_keys by exact Hk. apply lookup_empty.
  - intros i nm o Hi Ho.
    pose proof (take_drop_middle buildPlan i nm Hi) as Hsplit.
    destruct (run_steps_dataflow agents clock redact buildPlan 0 (initial cb) []
                buildPlan_NoDup (fun k _ => lookup_empty k)
                (take i buildPlan) nm (drop (S i) buildPlan) o
                (eq_sym Hsplit) Ho) as [[Hc ->]|(ctx & Hcall & Hsame & Hnone)].
    + left. split; [exact Hc | by apply fallback_for_critical].
    + right. exists ctx. split; [|by split].
      rewrite <- Hcall. symmetry. apply call_in_plan.
      by eapply list_elem_of_lookup_2.
Qed.


(** Every entry of the final context belongs to a step of the plan,
    and is either the substitute written for a failed critical step or
    the value that the call of its step returned; that call saw the
    final entries of the steps before it in the plan, and no others. *)
Theorem each_step_sees_the_steps_before_it
    (agents : string -> gmap string Obj -> Outcome)
    (clock : nat -> StepClock) (redact : Obj -> Obj)
    (cb : gmap string Breaker) :
  let final := context (execute agents clock redact cb).1 in
  (forall k, k ∉ buildPlan -> final !! k = None)
  /\ (forall (i : nat) nm o,
        buildPlan !! i = Some nm -> final !! nm = Some o ->
        (isStepCritical nm = true /\ o = FallbackGeneric)
        \/ exists ctx,
             agents nm ctx = Returned o
             /\ (forall k, k ∈ take i buildPlan -> ctx !! k = final !! k)
             /\ (forall k, k ∉ take i buildPlan -> ctx !! k = None)).
Proof. apply final_entries. Qed.

(** *** The run of the agents *)

Section Agents.
Variable s : Store.
Variable clock : nat -> StepClock.
Variable redact : Obj -> Obj.
Variable cb : gmap string Breaker.

Let final : gmap string Obj :=
  context (execute (triage_agents s) clock redact cb).1.

Lemma triage_fraud_entry o :
  final !! "riskSignals" = Some o ->
  exists a,
    FraudSignals.analyzeRisk (getHours s) (suspectTxn s) (history s) = Some a
    /\ o = Fraud {| score := FraudSignals.score a;
                    reasons := FraudSignals.reasons a;
                    action := FraudSignals.action a |}.
Proof.
  intros Ho.
  destruct (proj2 (final_entries (triage_agents s) clock redact cb)
              2%nat "riskSignals" o eq_refl Ho)
    as [[Hc _]|(ctx & Hcall & _)]; [discriminate Hc|].
  unfold triage_agents in Hcall. destruct (fails s "riskSignals"); [discriminate|].
  cbn in Hcall.
  destruct (FraudSignals.analyzeRisk _ _ _) as [a|]; [|discriminate].
  injection Hcall as <-. by exists a.
Qed.

Lemma triage_decide_entry o :
  final !! "decide" = Some o ->
  exists rows, o = Insight (Insights.assess (insight_signals final) rows).
Proof.
  intros Ho.
  destruct (proj2 (final_entries (triage_agents s) clock redact cb)
              4%nat "decide" o eq_refl Ho)
    as [[Hc _]|(ctx & Hcall & Hsame & _)]; [discriminate Hc|].
  unfold triage_agents in Hcall. destruct (fails s "decide"); [discriminate|].
  cbn in Hcall. injection Hcall as <-.
  eexists. do 2 f_equal.
  unfold insight_signals, fraud_entry.
  rewrite (Hsame "riskSignals"); [reflexivity|].
  apply list_elem_of_lookup. by exists 2%nat.
Qed.

Lemma triage_compliance_entry o :
  final !! "proposeAction" = Some o ->
  o = compliance_object
        (Compliance.validateAndProposeAction (compliance_context s final)
           (userRole s) (hour s) (day s)).
Proof.
  intros Ho.
  destruct (proj2 (final_entries (triage_agents s) clock redact cb)
              5%nat "proposeAction" o eq_refl Ho)
    as [[Hc _]|(ctx & Hcall & Hsame & _)]; [discriminate Hc|].
  unfold triage_agents in Hcall. destruct (fails s "proposeAction"); [discriminate|].
  cbn in Hcall. injection Hcall as <-. do 2 f_equal.
  unfold compliance_context, profile_entry, recent_entry, fraud_entry,
    decide_entry.
  rewrite (Hsame "getProfile") by (apply list_elem_of_lookup; by exists 0%nat).
  rewrite (Hsame "recentTx") by (apply list_elem_of_lookup; by exists 1%nat).
  rewrite (Hsame "riskSignals") by (apply list_elem_of_lookup; by exists 2%nat).
  rewrite (Hsame "decide") by (apply list_elem_of_lookup; by exists 4%nat).
  reflexivity.
Qed.

End Agents.

Lemma assess_default_low rows :
  Insights.level
    (Insights.assess {| Insights.score := Some 30; Insights.reasons := Some [] |}
       rows) = Insights.low.
Proof.
  unfold Insights.assess, Insights.generateRiskAssessment. cbn.
  by destruct (Insights.riskTier _).
Qed.

Lemma analyzeRisk_action getHours suspect rows a :
  FraudSignals.analyzeRisk getHours suspect rows = Some a ->
  FraudSignals.action a
  = FraudSignals.proposeAction (FraudSignals.score a) (FraudSignals.reasons a).
Proof.
  unfold FraudSignals.analyzeRisk. destruct suspect; [|discriminate].
  by intros [= <-].
Qed.

(** The action of the compliance agent, given what the context holds
    of the fraud agent and of the insights agent. *)
Lemma determineAction_from_fraud sc rs level :
  Compliance.determineAction
    {| Compliance.score := sc;
       Compliance.action := match FraudSignals.proposeAction sc rs with
                            | "" => None
                            | a => Some a
                            end |} level
  = if sc >=? 80 then Compliance.freeze_card
    else if sc >=? 50 then Compliance.open_dispute
    else Compliance.contact_customer.
Proof.
  unfold FraudSignals.proposeAction, Compliance.determineAction.
  cbn [Compliance.action].
  destruct (sc >=? 80); [reflexivity|]. by destruct (sc >=? 50).
Qed.

(** Whatever the data store holds and whichever calls fail, a run with
    the four agents proposes to freeze the card, to open a dispute or
    to contact the customer, never a false positive; it proposes the
    freeze only together with a high risk, and the dispute only together
    with a medium one. *)
Theorem triage_action_follows_risk (s : Store) (clock : nat -> StepClock)
    (redact : Obj -> Obj) (cb : gmap string Breaker) :
  let run := execute (triage_agents s) clock redact cb in
  proposedAction run.2 ∈ ["freeze_card"; "open_dispute"; "contact_customer"]
  /\ (proposedAction run.2 = "freeze_card" -> risk run.2 = high)
  /\ (proposedAction run.2 = "open_dispute" -> risk run.2 = medium).
Proof.
  cbv zeta.
  pose proof (triage_fraud_entry s clock redact cb) as Hf.
  pose proof (triage_decide_entry s clock redact cb) as Hd.
  pose proof (triage_compliance_entry s clock redact cb) as Hc.
  pose proof (short_circuit_context (triage_agents s) clock redact cb) as Hsc.
  cbv zeta in Hsc.
  unfold execute in *. cbn [fst snd] in *.
  set (st := run_steps (triage_agents s) clock redact buildPlan 0 (initial cb))
    in *.
  clearbody st.
  assert (Hcontact :
    "contact_customer" ∈ ["freeze_card"; "open_dispute"; "contact_customer"])
    by (do 2 right; left).
  unfold generateDecision, or_default. cbn [proposedAction risk].
  destruct (context st !! "proposeAction") as [o|] eqn:Eo.
  2: { cbn. split; [exact Hcontact|]. split; discriminate. }
  assert (Hflag : fallbackUsed st = false).
  { destruct (fallbackUsed st); [|reflexivity]. by specialize (Hsc eq_refl). }
  rewrite (Hc o eq_refl), Hflag. unfold compliance_object.
  cbn [truthy prop_action c_action].
  unfold Compliance.validateAndProposeAction. cbn [Compliance.r_action].
  unfold compliance_context.
  cbn [Compliance.riskSignals Compliance.decide].
  unfold fraud_entry, decide_entry.
  destruct (context st !! "riskSignals") as [o_rs|] eqn:Ers.
  - destruct (Hf o_rs eq_refl) as (a & Ha & ->).
    cbn [truthy prop_score score action from_option id].
    rewrite (analyzeRisk_action _ _ _ _ Ha), determineAction_from_fraud.
    destruct (FraudSignals.score a >=? 80); cbn.
    + split; [by left|]. split; [reflexivity | discriminate].
    + destruct (FraudSignals.score a >=? 50); cbn.
      * split; [right; by left|]. split; [discriminate | reflexivity].
      * split; [exact Hcontact|]. split; discriminate.
  - cbn [from_option id].
    assert (Hlevel : match
                       match context st !! "decide" with
                       | Some (Insight a) => Some a
                       | _ => None
                       end
                     with
                     | Some a => Some (Insights.level a)
                     | None => Some Insights.low
                     end = Some Insights.low).
    { destruct (context st !! "decide") as [o_d|] eqn:Ed; [|reflexivity].
      destruct (Hd o_d eq_refl) as (rows & ->).
      unfold insight_signals, fraud_entry. rewrite Ers.
      by rewrite assess_default_low. }
    rewrite Hlevel. cbn. split; [exact Hcontact|]. split; discriminate.
Qed.

(** The night withdrawal of the fraud agent's example, triaged for a
    caller with the role of an agent on a Tuesday at ten. *)
Definition sample_store : Store :=
  {| customer := Some "cust_001";
     kycLevel := "full";
     recent := [ {| Insights.merchant := "Unknown Cash ATM";
                    Insights.amountCents := 180000 |};
                 {| Insights.merchant := "Corner Bakery";
                    Insights.amountCents := 1200 |} ];
     suspectTxn := Some FraudSignals.night_withdrawal;
     history := FraudSignals.month;
     findMany := fun _ _ => Some [Kb.velocity_article];
     getHours := FraudSignals.utc_hour;
     hour := 10;
     day := 2;
     userRole := Compliance.agent;
     fails := fun _ => false |}.

(** The compliance agent blocks the freeze for this caller, and the
    decision proposes it all the same. *)
Example triage_of_night_withdrawal :
  let run := execute (triage_agents sample_store) (clock_at 1000)
               no_redaction ∅ in
  risk run.2 = high
  /\ proposedAction run.2 = "freeze_card"
  /\ length (r_reasons run.2) = 7%nat
  /\ r_fallbackUsed run.2 = false
  /\ context run.1 !! "proposeAction"
     = Some (Compliance {| c_action := "freeze_card"; approved := false;
                           requiresOTP := true;
                           blockedBy := Some "role_authorization" |}).
Proof. cbv zeta. repeat split; vm_compute; reflexivity. Qed.

End Triage.

(* ===================================================================== *)
(** ** unnamed/part_006 (the insights agent) : profile, factors, advice *)
(* ===================================================================== *)

Module InsightsAdvice.
Import Js Insights.

(** [generateRecommendations(riskAssessment, kbResults, customerProfile)];
    [citations] is [kbResults.citations]. *)
Definition generateRecommendations (riskAssessment : RiskAssessment)
    (citations : option (list string)) (customerProfile : CustomerProfile)
    : list string :=
  let recommendations :=
    match level riskAssessment with
    | high =>
        [ "Immediate card freeze recommended";
          "Contact customer for transaction verification";
          "Review all recent transactions for additional suspicious activity" ]
    | medium =>
        [ "Monitor account for additional suspicious activity";
          "Consider customer outreach for verification";
          "Document incident for pattern analysis" ]
    | low =>
        [ "Continue normal monitoring";
          "Update customer risk profile if needed" ]
    end in
  let recommendations :=
    match riskTier customerProfile with
    | tier_high => recommendations ++ ["Apply enhanced monitoring protocols"]
    | _ => recommendations
    end in
  let recommendations :=
    match transactionPattern customerProfile with
    | concentrated =>
        recommendations ++ ["Review merchant relationships for legitimacy"]
    | _ => recommendations
    end in
  let recommendations :=
    match citations with
    | Some (_ :: _) =>
        recommendations
        ++ ["Refer to knowledge base guidelines for specific procedures"]
    | _ => recommendations
    end in
  let recommendations :=
    match recommendations with
    | [] => ["Follow standard transaction review procedures"]
    | _ => recommendations
    end in
  take 6 recommendations.

(** The factors before [slice(0, 5)]. *)
Definition factors_found (riskSignals : RiskSignals)
    (customerProfile : CustomerProfile) : list string :=
  match reasons riskSignals with Some rs => take 3 rs | None => [] end
  ++ match riskTier customerProfile with
     | tier_high => ["High-value customer profile"]
     | _ => []
     end
  ++ match transactionPattern customerProfile with
     | concentrated => ["Limited merchant diversity"]
     | high_frequency => ["High transaction frequency"]
     | _ => []
     end.

Lemma Qgtb_weaken (q : Q) (a b : Z) :
  b <= a -> Qgtb q (inject_Z a) = true -> Qgtb q (inject_Z b) = true.
Proof.
  intros Hab H. apply Qgtb_spec in H. apply Qgtb_spec.
  eapply Qle_lt_trans; [|exact H]. rewrite <- Zle_Qle. exact Hab.
Qed.

(** The advice has between two and six entries, so that neither the
    entry kept for an empty list nor the cut after the sixth is ever
    used; it begins with the entry that goes with the level. *)
Theorem recommendations_two_to_six (riskAssessment : RiskAssessment)
    (citations : option (list string)) (customerProfile : CustomerProfile) :
  let advice := generateRecommendations riskAssessment citations customerProfile in
  (2 <= length advice <= 6)%nat
  /\ ("Follow standard transaction review procedures" ∉ advice)
  /\ head advice
     = Some (match level riskAssessment with
             | high => "Immediate card freeze recommended"
             | medium => "Monitor account for additional suspicious activity"
             | low => "Continue normal monitoring"
             end).
Proof.
  cbv zeta. unfold generateRecommendations.
  destruct (level riskAssessment), (riskTier customerProfile),
           (transactionPattern customerProfile), citations as [[|c cs]|];
    cbn [app take length head];
    (split; [lia|]); (split; [|reflexivity]);
    intros H; repeat (apply elem_of_cons in H as [H|H]; [discriminate|]);
    by apply elem_of_nil in H.
Qed.

(** In every assessment of the agent: a customer of the high tier is
    never assessed as medium; a pattern of high value does not go with
    the low tier, nor a concentrated one with ten transactions or fewer;
    and the key factors are never cut by the limit of five. *)
Theorem assessment_is_consistent (riskSignals : RiskSignals)
    (transactions : list Txn) :
  let profile := analyzeCustomerProfile transactions in
  let a := assess riskSignals transactions in
  (riskTier profile = tier_high -> level a = medium -> False)
  /\ (transactionPattern profile = high_value -> riskTier profile = tier_low -> False)
  /\ (transactionPattern profile = concentrated -> (10 < length transactions)%nat)
  /\ keyFactors a = factors_found riskSignals profile
  /\ (length (keyFactors a) <= 5)%nat.
Proof.
  cbv zeta. split; [|split; [|split]].
  - unfold assess, generateRiskAssessment. cbn [level]. intros ->.
    by destruct (if _ >=? 80 then high else _).
  - unfold analyzeCustomerProfile.
    destruct (length transactions =? 0)%nat; [discriminate|].
    cbn [transactionPattern riskTier].
    destruct (_ && _); [discriminate|].
    destruct (50 <? length transactions)%nat; [discriminate|].
    destruct (Qgtb _ (inject_Z 30000)) eqn:E; [|discriminate].
    intros _.
    rewrite (Qgtb_weaken _ 30000 20000 ltac:(lia) E), orb_true_r.
    by destruct (_ || _).
  - unfold analyzeCustomerProfile.
    destruct (length transactions =? 0)%nat; [discriminate|].
    cbn [transactionPattern].
    destruct (uniqueMerchants transactions <? 3)%nat; cbn [andb].
    + destruct (10 <? length transactions)%nat eqn:E;
        [intros _; by apply Nat.ltb_lt in E|].
      destruct (50 <? length transactions)%nat; [discriminate|].
      by destruct (Qgtb _ _).
    + destruct (50 <? length transactions)%nat; [discriminate|].
      by destruct (Qgtb _ _).
  - assert (Hf : keyFactors (assess riskSignals transactions)
                 = take 5 (factors_found riskSignals
                             (analyzeCustomerProfile transactions))).
    { unfold assess, generateRiskAssessment, extractKeyFactors, factors_found.
      cbn [keyFactors]. rewrite analyzeCustomerProfile_incidents.
      cbn [Z.gtb Z.compare].
      destruct (reasons riskSignals) as [rs|],
               (riskTier (analyzeCustomerProfile transactions)),
               (transactionPattern (analyzeCustomerProfile transactions));
        by rewrite ?app_nil_r, <- ?app_assoc. }
    assert (Hlen : (length (factors_found riskSignals
                              (analyzeCustomerProfile transactions)) <= 5)%nat).
    { unfold factors_found. rewrite !length_app.
      assert (H3 : (length (match reasons riskSignals with
                            | Some rs => take 3 rs
                            | None => []
                            end) <= 3)%nat).
      { destruct (reasons riskSignals); [rewrite length_take|cbn]; lia. }
      destruct (riskTier _), (transactionPattern _); cbn [length]; lia. }
    rewrite Hf, take_ge by exact Hlen. split; [reflexivity | exact Hlen].
Qed.

End InsightsAdvice.

(* ===================================================================== *)
(** ** middleware/auth.ts : the API key *)
(* ===================================================================== *)

Module Auth.
Import Regex JsString.

Record User := { id : string; role : string; apiKey : string }.

Inductive Answer :=
| Next (user : User)          (* req.user = ...; next() *)
| Status401 (error : string).

(** [authMiddleware], given the [x-api-key] header, the [apiKey] query
    parameter and the [API_KEY] of the environment, each of which may
    be missing. *)
Definition authMiddleware (header query API_KEY : option string) : Answer :=
  let apiKey := match header with
                | Some "" | None => query     (* header || query *)
                | Some h => Some h
                end in
  match apiKey with
  | Some "" | None => Status401 "API key required"
  | Some apiKey =>
      if bool_decide (Some apiKey = API_KEY) then
        Next {| id := "user-1";
                role := if includes (chars apiKey) (chars "lead")
                        then "lead" else "agent";
                apiKey := apiKey |}
      else Status401 "Invalid API key"
  end.

(** All callers that are let in are the same user with the same role:
    the role is read off the one key of the environment.  A key in the
    header is the only one looked at, also when it is wrong and the
    query holds the right one; and without a key in the environment
    nobody is let in. *)
Theorem authenticated_callers_share_one_role (API_KEY : option string)
    (header1 query1 header2 query2 : option string) (u1 u2 : User) :
  authMiddleware header1 query1 API_KEY = Next u1 ->
  authMiddleware header2 query2 API_KEY = Next u2 ->
  u1 = u2
  /\ API_KEY = Some (apiKey u1)
  /\ (forall h q, h <> "" ->
        authMiddleware (Some h) q API_KEY = authMiddleware (Some h) None API_KEY)
  /\ (forall h q u, authMiddleware h q None = Next u -> False).
Proof.
  assert (Hin : forall h q u, authMiddleware h q API_KEY = Next u ->
                  API_KEY = Some (apiKey u)
                  /\ u = {| id := "user-1";
                            role := if includes (chars (apiKey u)) (chars "lead")
                                    then "lead" else "agent";
                            apiKey := apiKey u |}).
  { intros h q u. unfold authMiddleware.
    destruct (match h with Some "" | None => q | Some h0 => Some h0 end)
      as [[|c k]|]; try discriminate.
    destruct (bool_decide _) eqn:E; [|discriminate].
    apply bool_decide_eq_true in E. intros [= <-]. by split. }
  intros H1 H2. apply Hin in H1 as [E1 Hu1]. apply Hin in H2 as [E2 Hu2].
  split; [|split; [exact E1|split]].
  - rewrite Hu1, Hu2. rewrite E1 in E2. injection E2 as ->. reflexivity.
  - intros h q Hne. unfold authMiddleware. by destruct h.
  - intros h q u. unfold authMiddleware.
    destruct (match h with Some "" | None => q | Some h0 => Some h0 end)
      as [[|c k]|]; discriminate.
Qed.

Lemma authenticated_callers_share_one_role_witness :
  let env := Some "sentinel-lead-key" in
  let u := {| id := "user-1"; role := "lead"; apiKey := "sentinel-lead-key" |} in
  authMiddleware (Some "sentinel-lead-key") None env = Next u
  /\ authMiddleware None (Some "sentinel-lead-key") env = Next u
  /\ authMiddleware (Some "guess") (Some "sentinel-lead-key") env
     = Status401 "Invalid API key".
Proof.
  cbv zeta.
  assert (H1 : authMiddleware (Some "sentinel-lead-key") None
                 (Some "sentinel-lead-key")
               = Next {| id := "user-1"; role := "lead";
                         apiKey := "sentinel-lead-key" |})
    by (vm_compute; reflexivity).
  assert (H2 : authMiddleware None (Some "sentinel-lead-key")
                 (Some "sentinel-lead-key")
               = Next {| id := "user-1"; role := "lead";
                         apiKey := "sentinel-lead-key" |})
    by (vm_compute; reflexivity).
  split; [exact H1|]. split; [exact H2|].
  rewrite (proj1 (proj2 (proj2
             (authenticated_callers_share_one_role _ _ _ _ _ _ _ H1 H2)))
             "guess" (Some "sentinel-lead-key")) by discriminate.
  vm_compute. reflexivity.
Defined.

End Auth.

(* ===================================================================== *)
(** ** routes/ingest.ts : ingestion of transactions *)
(* ===================================================================== *)

Module Ingest.
Import Redactor.

(** A transaction as it is posted; [ts] is the instant that
    [new Date(ts)] denotes. *)
Record TransactionData := {
  customerId : string;
  cardId : string;
  mcc : string;
  merchant : string;
  amountCents : Z;
  currency : string;
  ts : Z;
  deviceId : option string;
  country : option string;
  city : option string
}.

(** The tables that the ingestion reads and writes.  The calls of the
    data store are taken to succeed. *)
Record Db := {
  customers : gset string;
  cards : gset string;
  transactions : list TransactionData
}.

Record Summary := { count : Z; skipped : Z; total : Z }.

(** The [where] clause of the deduplication. *)
Definition same_transaction (a b : TransactionData) : bool :=
  String.eqb (customerId a) (customerId b)
  && String.eqb (merchant a) (merchant b)
  && (amountCents a =? amountCents b)
  && (ts a =? ts b).

(** The body of the loop of [ingestTransactions]. *)
Definition ingest_one (st : Db * (Z * Z)) (txnData : TransactionData)
    : Db * (Z * Z) :=
  let '(db, (accepted, skipped)) := st in
  match List.find (same_transaction txnData) (transactions db) with
  | Some existing => (db, (accepted, skipped + 1))
  | None =>
      if negb (bool_decide (customerId txnData ∈ customers db))
      then (db, (accepted, skipped + 1))
      else if negb (bool_decide (cardId txnData ∈ cards db))
      then (db, (accepted, skipped + 1))
      else ({| customers := customers db; cards := cards db;
               transactions := transactions db ++ [txnData] |},
            (accepted + 1, skipped))
  end.

Definition ingestTransactions (transactions : list TransactionData) (db : Db)
    : Db * Summary :=
  let '(db', (accepted, skipped)) := foldl ingest_one (db, (0, 0)) transactions in
  (db', {| count := accepted; skipped := skipped;
           total := Z.of_nat (length transactions) |}).

(** [transactionValidation] on one posted transaction: the four
    strings are not empty, the amount is an integer of at least 1, the
    currency has three characters.  ([ts] is taken to be a date.) *)
Definition valid (txn : TransactionData) : bool :=
  negb (String.eqb (customerId txn) "")
  && negb (String.eqb (cardId txn) "")
  && negb (String.eqb (mcc txn) "")
  && negb (String.eqb (merchant txn) "")
  && (1 <=? amountCents txn)
  && (String.length (currency txn) =? 3)%nat.

Inductive Answer :=
| Ingested (summary : Summary)
| Status400.

(** POST /transactions: a body with an invalid transaction is answered
    with 400 and nothing is read or written; otherwise the merchant
    names are redacted and the transactions ingested. *)
Definition post_transactions (transactions : list TransactionData) (db : Db)
    : Db * Answer :=
  if negb (forallb valid transactions) then (db, Status400)
  else
    let cleanTransactions :=
      (fun txn => {| customerId := customerId txn; cardId := cardId txn;
                     mcc := mcc txn; merchant := cleanText (merchant txn);
                     amountCents := amountCents txn; currency := currency txn;
                     ts := ts txn; deviceId := deviceId txn;
                     country := country txn; city := city txn |})
        <$> transactions in
    let out := ingestTransactions cleanTransactions db in
    (out.1, Ingested out.2).

(** *** What a second ingestion does *)

(** The row is already stored, or its customer or its card is unknown. *)
Definition known (db : Db) (t : TransactionData) : Prop :=
  is_Some (List.find (same_transaction t) (transactions db)).

Definition refused (db : Db) (t : TransactionData) : Prop :=
  customerId t ∉ customers db \/ cardId t ∉ cards db.

Lemma same_transaction_refl t : same_transaction t t = true.
Proof.
  unfold same_transaction. by rewrite !String.eqb_refl, !Z.eqb_refl.
Qed.

Lemma find_snoc {A} (f : A -> bool) l x :
  List.find f (l ++ [x])
  = match List.find f l with
    | Some y => Some y
    | None => if f x then Some x else None
    end.
Proof.
  induction l as [|y l IH]; cbn [app List.find]; [reflexivity|].
  by destruct (f y).
Qed.

(** One pass of the loop body, in terms of the tables. *)
Lemma ingest_one_spec db a k t :
  exists new,
    ingest_one (db, (a, k)) t
    = ({| customers := customers db; cards := cards db;
          transactions := transactions db ++ new |},
       (a + Z.of_nat (length new), k + 1 - Z.of_nat (length new)))
    /\ (new = [] \/ new = [t])
    /\ (new = [] -> known db t \/ refused db t)
    /\ (new = [t] -> List.find (same_transaction t) (transactions db) = None).
Proof.
  unfold ingest_one, known, refused.
  assert (Hsame : forall sk : Z,
            (db, (a, sk))
            = ({| customers := customers db; cards := cards db;
                  transactions := transactions db ++ [] |},
               (a + Z.of_nat (length (@nil TransactionData)),
                sk - Z.of_nat (length (@nil TransactionData))))).
  { intros sk. rewrite app_nil_r. destruct db. cbn. do 2 f_equal; lia. }
  destruct (List.find (same_transaction t) (transactions db)) as [e|] eqn:Ef.
  - exists []. split; [apply Hsame|]. split; [by left|].
    split; [intros _; left; by eexists | discriminate].
  - destruct (bool_decide (customerId t ∈ customers db)) eqn:Ec; cbn [negb].
    + destruct (bool_decide (cardId t ∈ cards db)) eqn:Ed; cbn [negb].
      * exists [t]. cbn [length]. split; [do 2 f_equal; lia|].
        split; [by right|]. split; [discriminate | reflexivity].
      * exists []. apply bool_decide_eq_false in Ed.
        split; [apply Hsame|]. split; [by left|].
        split; [intros _; right; by right | discriminate].
    + exists []. apply bool_decide_eq_false in Ec.
      split; [apply Hsame|]. split; [by left|].
      split; [intros _; right; by left | discriminate].
Qed.

Lemma known_grows db new t :
  known db t ->
  known {| customers := customers db; cards := cards db;
           transactions := transactions db ++ new |} t.
Proof.
  unfold known. cbn [transactions]. intros [e He].
  induction (transactions db) as [|y l IH]; [discriminate|].
  cbn [app List.find] in *. destruct (same_transaction t y); [by eexists|].
  by apply IH.
Qed.

Lemma foldl_ingest txs : forall db a k,
  exists new,
    foldl ingest_one (db, (a, k)) txs
    = ({| customers := customers db; cards := cards db;
          transactions := transactions db ++ new |},
       (a + Z.of_nat (length new),
        k + Z.of_nat (length txs) - Z.of_nat (length new)))
    /\ (forall t, t ∈ new -> t ∈ txs)
    /\ (forall t, t ∈ txs ->
          known {| customers := customers db; cards := cards db;
                   transactions := transactions db ++ new |} t
          \/ refused db t).
Proof.
  induction txs as [|t txs IH]; intros db a k.
  - exists []. rewrite app_nil_r. destruct db. cbn.
    split; [do 2 f_equal; lia|]. split; intros t Ht; by apply elem_of_nil in Ht.
  - cbn [foldl].
    destruct (ingest_one_spec db a k t) as (n1 & E1 & Hn1 & Hskip & Hadd).
    rewrite E1.
    destruct (IH {| customers := customers db; cards := cards db;
                    transactions := transactions db ++ n1 |}
                (a + Z.of_nat (length n1)) (k + 1 - Z.of_nat (length n1)))
      as (n2 & E2 & Hsub & Hall).
    rewrite E2. cbn [customers cards transactions] in *.
    exists (n1 ++ n2). rewrite <- app_assoc, length_app. cbn [length].
    split; [do 2 f_equal; lia|]. split.
    + intros x Hx. apply elem_of_app in Hx as [Hx|Hx].
      * destruct Hn1 as [->| ->]; [by apply elem_of_nil in Hx|].
        apply list_elem_of_singleton in Hx. subst. by left.
      * right. by apply Hsub.
    + intros x Hx. apply elem_of_cons in Hx as [->|Hx].
      * destruct Hn1 as [->| ->].
        -- destruct (Hskip eq_refl) as [Hk|Hr]; [|by right].
           left. cbn [app].
           apply (known_grows db n2 t Hk).
        -- left. unfold known. cbn [transactions].
           rewrite (app_assoc _ [t] n2).
           assert (Hk : is_Some (List.find (same_transaction t)
                                   (transactions db ++ [t]))).
           { rewrite find_snoc, (Hadd eq_refl), same_transaction_refl.
             by eexists. }
           apply (known_grows {| customers := customers db; cards := cards db;
                                 transactions := transactions db ++ [t] |}
                    n2 t Hk).
      * destruct (Hall x Hx) as [Hk|Hr]; [|right; exact Hr].
        left. rewrite app_assoc. exact Hk.
Qed.

Lemma foldl_ingest_again txs : forall db a k,
  (forall t, t ∈ txs -> known db t \/ refused db t) ->
  foldl ingest_one (db, (a, k)) txs = (db, (a, k + Z.of_nat (length txs))).
Proof.
  induction txs as [|t txs IH]; intros db a k Hall.
  - cbn. do 2 f_equal. lia.
  - cbn [foldl].
    assert (E : ingest_one (db, (a, k)) t = (db, (a, k + 1))).
    { unfold ingest_one.
      destruct (Hall t ltac:(by left)) as [[e ->]|[Hc|Hd]]; [reflexivity| |].
      - destruct (List.find _ _); [reflexivity|].
        by rewrite bool_decide_eq_false_2.
      - destruct (List.find _ _); [reflexivity|].
        destruct (bool_decide (customerId t ∈ customers db)); [|reflexivity].
        by rewrite bool_decide_eq_false_2. }
    rewrite E, IH.
    + do 2 f_equal. cbn [length]. lia.
    + intros x Hx. apply Hall. by right.
Qed.

(** Every posted transaction is either accepted or skipped; what is
    accepted is appended to the stored transactions, one row each, and
    customers and cards are left alone. *)
Theorem ingestion_counts (txs : list TransactionData) (db : Db) :
  let out := ingestTransactions txs db in
  count out.2 + skipped out.2 = total out.2
  /\ total out.2 = Z.of_nat (length txs)
  /\ customers out.1 = customers db
  /\ cards out.1 = cards db
  /\ exists new,
       transactions out.1 = transactions db ++ new
       /\ Z.of_nat (length new) = count out.2
       /\ (forall t, t ∈ new -> t ∈ txs).
Proof.
  cbv zeta. unfold ingestTransactions.
  destruct (foldl_ingest txs db 0 0) as (new & E & Hsub & _).
  rewrite E. cbn [fst snd count skipped total customers cards transactions].
  split; [lia|]. split; [reflexivity|]. split; [reflexivity|].
  split; [reflexivity|]. exists new. split; [reflexivity|]. split; [lia | exact Hsub].
Qed.

(** Posting the same transactions a second time stores nothing: every
    one of them is skipped, whatever the tables held to begin with; and
    so it is for the route, which redacts the merchant names first. *)
Theorem second_ingestion_stores_nothing (txs : list TransactionData) (db : Db) :
  let once := (ingestTransactions txs db).1 in
  ingestTransactions txs once
  = (once, {| count := 0; skipped := Z.of_nat (length txs);
              total := Z.of_nat (length txs) |})
  /\ (post_transactions txs (post_transactions txs db).1).1
     = (post_transactions txs db).1.
Proof.
  assert (H : forall l d,
    ingestTransactions l (ingestTransactions l d).1
    = ((ingestTransactions l d).1,
       {| count := 0; skipped := Z.of_nat (length l);
          total := Z.of_nat (length l) |})).
  { intros l d.
    destruct (foldl_ingest l d 0 0) as (new & E & _ & Hall).
    assert (Eonce : (ingestTransactions l d).1
                    = {| customers := customers d; cards := cards d;
                         transactions := transactions d ++ new |}).
    { unfold ingestTransactions. by rewrite E. }
    rewrite Eonce. unfold ingestTransactions.
    rewrite foldl_ingest_again; [reflexivity|].
    intros t Ht. destruct (Hall t Ht) as [Hk|Hr]; [by left | by right]. }
  cbv zeta. split; [apply H|].
  unfold post_transactions.
  destruct (negb (forallb valid txs)); [reflexivity|].
  cbn [fst]. by rewrite H.
Qed.

(** *** Stored rows stay distinct *)

(** No row is a duplicate, in the sense of the deduplication, of a row
    stored before it. *)
Definition distinct_rows (rows : list TransactionData) : Prop :=
  forall (i j : nat) x y,
    (i < j)%nat -> rows !! i = Some x -> rows !! j = Some y ->
    same_transaction y x = false.

Lemma distinct_snoc rows t :
  distinct_rows rows ->
  List.find (same_transaction t) rows = None ->
  distinct_rows (rows ++ [t]).
Proof.
  intros Hd Hnone i j x y Hij Hi Hj.
  destruct (decide (j < length rows)%nat) as [Hlt|Hge].
  - rewrite lookup_app_l in Hi, Hj by lia. exact (Hd i j x y Hij Hi Hj).
  - rewrite lookup_app_r in Hj by lia.
    destruct (j - length rows)%nat as [|n] eqn:En;
      [|apply lookup_lt_Some in Hj; cbn in Hj; lia].
    injection Hj as <-.
    rewrite lookup_app_l in Hi by lia.
    apply (List.find_none _ _ Hnone). apply list_elem_of_In.
    by eapply list_elem_of_lookup_2.
Qed.

Lemma foldl_ingest_distinct txs : forall db a k,
  distinct_rows (transactions db) ->
  distinct_rows (transactions (foldl ingest_one (db, (a, k)) txs).1).
Proof.
  induction txs as [|t txs IH]; intros db a k Hd; [exact Hd|].
  cbn [foldl].
  destruct (ingest_one_spec db a k t) as (new & E & Hnew & _ & Hadd).
  rewrite E. apply IH. cbn [transactions].
  destruct Hnew as [->| ->]; [by rewrite app_nil_r|].
  apply distinct_snoc; [exact Hd | by apply Hadd].
Qed.

(** If no stored transaction repeats an earlier one (same customer,
    merchant, amount and instant), then none does after an ingestion,
    also when the posted transactions repeat each other. *)
Theorem ingestion_keeps_rows_distinct (txs : list TransactionData) (db : Db) :
  distinct_rows (transactions db) ->
  distinct_rows (transactions (ingestTransactions txs db).1).
Proof.
  intros Hd. unfold ingestTransactions.
  pose proof (foldl_ingest_distinct txs db 0 0 Hd) as H.
  by destruct (foldl ingest_one (db, (0, 0)) txs) as [db' [a k]].
Qed.

(** A withdrawal posted twice in one request, for a known customer
    and card. *)
Definition withdrawal : TransactionData :=
  {| customerId := "cust_456"; cardId := "card_123"; mcc := "6011";
     merchant := "Unknown Cash ATM"; amountCents := 180000; currency := "USD";
     ts := 1700000000000; deviceId := None; country := Some "RO";
     city := Some "Cluj" |}.

Definition tables : Db :=
  {| customers := {[ "cust_456" ]}; cards := {[ "card_123" ]};
     transactions := [] |}.

Lemma ingestion_keeps_rows_distinct_witness :
  distinct_rows (transactions tables)
  /\ distinct_rows
       (transactions (ingestTransactions [withdrawal; withdrawal] tables).1)
  /\ (ingestTransactions [withdrawal; withdrawal] tables).2
     = {| count := 1; skipped := 1; total := 2 |}.
Proof.
  assert (H : distinct_rows (transactions tables)).
  { intros i j x y _ Hi. discriminate Hi. }
  split; [exact H|]. split.
  - exact (ingestion_keeps_rows_distinct [withdrawal; withdrawal] tables H).
  - vm_compute. reflexivity.
Defined.

End Ingest.

(** * The redactor's patterns between calls

    [src/api/src/utils/excelParser.ts], lines 19-21 and 34-75 and
    120-128.  [PAN_PATTERN], [EMAIL_PATTERN] and [PHONE_PATTERN] are
    module-level objects with the [g] flag, so [test] starts at the
    pattern's [lastIndex] and moves it.  [redactText] and [containsPII]
    are modelled here with that state threaded through. *)

Module RedactorState.
Import Regex JsString Redactor.

(** The [lastIndex] of the three patterns. *)
Record Indices := { pan : nat; email : nat; phone : nat }.

Definition fresh : Indices := {| pan := 0; email := 0; phone := 0 |}.

(** The scan of [exec]: [s] is what follows position [i], [prev] the
    code unit before it; the leftmost match at or after [i] gives the
    index just past it. *)
Fixpoint search_from (r : re) (prev : option ascii) (s : list ascii)
    (i : nat) : option nat :=
  match exec_at r prev s with
  | Some rest => Some (i + (length s - length rest))%nat
  | None =>
      match s with
      | [] => None
      | c :: s' => search_from r (Some c) s' (S i)
      end
  end.

(** [re.test(s)] for a pattern with the [g] flag and [lastIndex = i]:
    the answer and the new [lastIndex].  A [lastIndex] past the end, or
    no match, rewinds it to 0; a match moves it to the match's end. *)
Definition test_g (r : re) (i : nat) (s : list ascii) : bool * nat :=
  if (length s <? i)%nat then (false, 0%nat)
  else
    match search_from r (last (take i s)) (drop i s) i with
    | Some e => (true, e)
    | None => (false, 0%nat)
    end.

(** One pattern of [redactText]: [s.replace] with a [g] pattern starts
    from 0 whatever [lastIndex] was, and leaves it at 0. *)
Definition redact_with_g (p : re) (f : str -> str) (i : nat)
    (tm : str * bool) : (str * bool) * nat :=
  let (found, e) := test_g p i tm.1 in
  if found then ((replace p f tm.1, true), 0%nat) else (tm, e).

(** [redactText(text)] on a string. *)
Definition redactText_g (text : string) (st : Indices)
    : (string * bool) * Indices :=
  match text with
  | EmptyString => ((text, false), st)   (* !text *)
  | _ =>
      let tm := (chars text, false) in
      let '(tm, i1) :=
        redact_with_g PAN_PATTERN (fun _ => chars "****REDACTED****")
          (pan st) tm in
      let '(tm, i2) := redact_with_g EMAIL_PATTERN mask_email (email st) tm in
      let '(tm, i3) :=
        redact_with_g PHONE_PATTERN (fun _ => chars "***-***-****")
          (phone st) tm in
      ((Regex.text tm.1, tm.2), {| pan := i1; email := i2; phone := i3 |})
  end.

(** [containsPII(text)] on a string: [||] stops at the first pattern
    that answers true, the later ones keep their [lastIndex]. *)
Definition containsPII (text : string) (st : Indices) : bool * Indices :=
  match text with
  | EmptyString => (false, st)   (* !text *)
  | _ =>
      let s := chars text in
      let (b1, i1) := test_g PAN_PATTERN (pan st) s in
      if b1 then (true, {| pan := i1; email := email st; phone := phone st |})
      else
        let (b2, i2) := test_g EMAIL_PATTERN (email st) s in
        if b2 then (true, {| pan := i1; email := i2; phone := phone st |})
        else
          let (b3, i3) := test_g PHONE_PATTERN (phone st) s in
          (b3, {| pan := i1; email := i2; phone := i3 |})
  end.

(** *** The scan and the stateless [test] *)

Lemma search_from_test r : forall s prev i,
  test_from r prev s = bool_decide (search_from r prev s i <> None).
Proof.
  induction s as [|c s IH]; intros prev i; cbn [test_from search_from].
  - by destruct (exec_at r prev []).
  - destruct (exec_at r prev (c :: s)); [reflexivity|]. apply IH.
Qed.

Lemma test_g_fresh r s : (test_g r 0 s).1 = test r s.
Proof.
  unfold test_g, test. rewrite (search_from_test r s None 0%nat).
  replace (length s <? 0)%nat with false by (symmetry; apply Nat.ltb_ge; lia).
  rewrite take_0, drop_0. cbn [last].
  by destruct (search_from r None s 0).
Qed.

Lemma test_g_false r i s : (test_g r i s).1 = false -> (test_g r i s).2 = 0%nat.
Proof.
  unfold test_g. destruct (length s <? i)%nat; [reflexivity|].
  by destruct (search_from _ _ _ _).
Qed.

Lemma search_from_past r : nullable r = false -> forall s prev i e,
  search_from r prev s i = Some e -> (i < e)%nat.
Proof.
  intros Hn. induction s as [|c s IH]; intros prev i e; cbn [search_from].
  - destruct (exec_at r prev []) as [rest|] eqn:E; [|discriminate].
    apply exec_at_sound in E as (s1 & Hs & L).
    apply (lang_nonempty _ _ Hn) in L. by destruct s1.
  - destruct (exec_at r prev (c :: s)) as [rest|] eqn:E.
    + intros [= <-]. apply exec_at_sound in E as (s1 & Hs & L).
      apply (lang_nonempty _ _ Hn) in L.
      assert (HL : length (c :: s) = (length s1 + length rest)%nat)
        by (by rewrite Hs, length_app).
      destruct s1; [done|]. cbn [length] in *. lia.
    + intros H. apply IH in H. lia.
Qed.

Lemma test_g_true r i s :
  nullable r = false -> (test_g r i s).1 = true -> (0 < (test_g r i s).2)%nat.
Proof.
  intros Hn. unfold test_g. destruct (length s <? i)%nat; [discriminate|].
  destruct (search_from _ _ _ _) as [e|] eqn:E; [|discriminate].
  intros _. apply (search_from_past r Hn) in E. cbn. lia.
Qed.

Lemma redact_with_g_rewinds p f i tm : (redact_with_g p f i tm).2 = 0%nat.
Proof.
  unfold redact_with_g. destruct (test_g p i tm.1) as [found e] eqn:E.
  destruct found; [reflexivity|].
  pose proof (test_g_false p i tm.1) as H. rewrite E in H. by apply H.
Qed.

Lemma redact_with_g_fresh p f tm :
  (redact_with_g p f 0 tm).1 = redact_with p f tm.
Proof.
  unfold redact_with_g, redact_with. rewrite <- test_g_fresh.
  destruct (test_g p 0 tm.1) as [found e]. by destruct found.
Qed.

Lemma nonempty_text (text : string) :
  text <> EmptyString -> exists c t, text = String c t.
Proof. destruct text; [done|]. intros _. eauto. Qed.

(** *** Properties *)

(** On a redactor whose three patterns are at [lastIndex = 0],
    [redactText] returns what the function of the text alone returns,
    and leaves the three patterns at 0 again. *)
Lemma redactText_on_rewound_patterns (text : string) :
  redactText_g text fresh = (Redactor.redactText text, fresh).
Proof.
  destruct text as [|c t]; [reflexivity|].
  unfold redactText_g, Redactor.redactText.
  set (s := chars (String c t)). cbn [pan email phone fresh].
  pose proof (redact_with_g_fresh PAN_PATTERN
    (fun _ => chars "****REDACTED****") (s, false)) as H1.
  pose proof (redact_with_g_rewinds PAN_PATTERN
    (fun _ => chars "****REDACTED****") 0 (s, false)) as R1.
  destruct (redact_with_g PAN_PATTERN _ 0 (s, false)) as [tm1 i1].
  cbn [fst snd] in H1, R1. subst tm1 i1.
  set (tm1 := redact_with PAN_PATTERN _ _).
  pose proof (redact_with_g_fresh EMAIL_PATTERN mask_email tm1) as H2.
  pose proof (redact_with_g_rewinds EMAIL_PATTERN mask_email 0 tm1) as R2.
  destruct (redact_with_g EMAIL_PATTERN _ 0 tm1) as [tm2 i2].
  cbn [fst snd] in H2, R2. subst tm2 i2.
  set (tm2 := redact_with EMAIL_PATTERN _ _).
  pose proof (redact_with_g_fresh PHONE_PATTERN
    (fun _ => chars "***-***-****") tm2) as H3.
  pose proof (redact_with_g_rewinds PHONE_PATTERN
    (fun _ => chars "***-***-****") 0 tm2) as R3.
  destruct (redact_with_g PHONE_PATTERN _ 0 tm2) as [tm3 i3].
  cbn [fst snd] in H3, R3. subst tm3 i3.
  reflexivity.
Qed.

(** Whatever [lastIndex] the patterns had, [redactText] on a
    non-empty text leaves all three at 0. *)
Theorem redactText_rewinds_patterns (text : string) (st : Indices) :
  text <> EmptyString -> (redactText_g text st).2 = fresh.
Proof.
  intros Hne. destruct (nonempty_text text Hne) as (c & t & ->).
  unfold redactText_g. set (s := chars (String c t)).
  pose proof (redact_with_g_rewinds PAN_PATTERN
    (fun _ => chars "****REDACTED****") (pan st) (s, false)) as R1.
  destruct (redact_with_g PAN_PATTERN _ _ _) as [tm1 i1].
  pose proof (redact_with_g_rewinds EMAIL_PATTERN mask_email (email st) tm1) as R2.
  destruct (redact_with_g EMAIL_PATTERN _ _ _) as [tm2 i2].
  pose proof (redact_with_g_rewinds PHONE_PATTERN
    (fun _ => chars "***-***-****") (phone st) tm2) as R3.
  destruct (redact_with_g PHONE_PATTERN _ _ _) as [tm3 i3].
  cbn [fst snd] in *. by subst.
Qed.

Lemma redactText_rewinds_patterns_witness :
  "call 555-123-4567" <> EmptyString
  /\ (redactText_g "call 555-123-4567" {| pan := 3; email := 0; phone := 40 |}).2
     = fresh.
Proof.
  split; [discriminate|].
  apply (redactText_rewinds_patterns "call 555-123-4567"). discriminate.
Defined.

(** On a redactor whose patterns are at 0, [containsPII] answers what
    the [masked] flag of [redactText] says for the same text. *)
Lemma containsPII_agrees_with_masked (text : string) :
  (containsPII text fresh).1 = (Redactor.redactText text).2.
Proof.
  destruct text as [|c t]; [reflexivity|].
  unfold containsPII, Redactor.redactText.
  set (s := chars (String c t)). cbn [pan email phone fresh].
  unfold redact_with. cbn [fst snd].
  rewrite <- (test_g_fresh PAN_PATTERN s).
  destruct (test_g PAN_PATTERN 0 s) as [[] i1]; cbn [fst snd].
  { repeat match goal with
           | |- context [if ?b then _ else _] => destruct b; cbn [fst snd]
           end; reflexivity. }
  rewrite <- (test_g_fresh EMAIL_PATTERN s).
  destruct (test_g EMAIL_PATTERN 0 s) as [[] i2]; cbn [fst snd].
  { repeat match goal with
           | |- context [if ?b then _ else _] => destruct b; cbn [fst snd]
           end; reflexivity. }
  rewrite <- (test_g_fresh PHONE_PATTERN s).
  by destruct (test_g PHONE_PATTERN 0 s) as [[] i3].
Qed.

(** As long as only [redactText] is called, and [containsPII] only
    with a false answer, the redactor is a function of the text: from
    patterns at 0, [redactText] returns what the function of the text
    alone returns and leaves the patterns at 0, and [containsPII]
    answers what the [masked] flag of [redactText] says. *)
Theorem rewound_redactor_is_stateless (text : string) :
  redactText_g text fresh = (Redactor.redactText text, fresh)
  /\ (containsPII text fresh).1 = (Redactor.redactText text).2.
Proof.
  split.
  - apply redactText_on_rewound_patterns.
  - apply containsPII_agrees_with_masked.
Qed.

(** [containsPII] on a non-empty text leaves the three patterns at 0
    exactly when it answers false: each true answer leaves the
    pattern that matched with its [lastIndex] at the end of the match,
    from where the next [test] of that pattern starts. *)
Theorem containsPII_rewinds_only_on_false (text : string) (st : Indices) :
  text <> EmptyString ->
  ((containsPII text st).1 = false <-> (containsPII text st).2 = fresh).
Proof.
  intros Hne. destruct (nonempty_text text Hne) as (c & t & ->).
  unfold containsPII. set (s := chars (String c t)).
  pose proof (test_g_false PAN_PATTERN (pan st) s) as F1.
  pose proof (test_g_true PAN_PATTERN (pan st) s eq_refl) as T1.
  pose proof (test_g_false EMAIL_PATTERN (email st) s) as F2.
  pose proof (test_g_true EMAIL_PATTERN (email st) s eq_refl) as T2.
  pose proof (test_g_false PHONE_PATTERN (phone st) s) as F3.
  pose proof (test_g_true PHONE_PATTERN (phone st) s eq_refl) as T3.
  destruct (test_g PAN_PATTERN _ s) as [b1 i1].
  destruct (test_g EMAIL_PATTERN _ s) as [b2 i2].
  destruct (test_g PHONE_PATTERN _ s) as [b3 i3].
  cbn [fst snd] in *. unfold fresh.
  destruct b1; cbn [fst snd].
  { specialize (T1 eq_refl). split; [discriminate|]. intros [= E _ _]. lia. }
  rewrite (F1 eq_refl).
  destruct b2; cbn [fst snd].
  { specialize (T2 eq_refl). split; [discriminate|]. intros [= E _]. lia. }
  rewrite (F2 eq_refl).
  destruct b3; cbn [fst snd].
  { specialize (T3 eq_refl). split; [discriminate|]. intros [= E]. lia. }
  rewrite (F3 eq_refl). done.
Qed.

Lemma containsPII_rewinds_only_on_false_witness :
  "card 4111111111111111" <> EmptyString
  /\ ((containsPII "card 4111111111111111" fresh).1 = false
      <-> (containsPII "card 4111111111111111" fresh).2 = fresh).
Proof.
  split; [discriminate|].
  apply (containsPII_rewinds_only_on_false "card 4111111111111111").
  discriminate.
Defined.

(** The same question twice: the second [test] of the card pattern
    starts after the number and finds nothing, and a [redactText] that
    follows a true answer starts there too, so the card pattern is
    skipped and the telephone pattern covers ten of the digits. *)
Example containsPII_twice :
  let a := containsPII "4111111111111111" fresh in
  let b := containsPII "4111111111111111" a.2 in
  a = (true, {| pan := 16; email := 0; phone := 0 |})
  /\ b = (true, {| pan := 0; email := 0; phone := 10 |})
  /\ (redactText_g "4111111111111111" a.2).1 = ("***-***-****111111", true)
  /\ (redactText_g "4111111111111111" fresh).1 = ("****REDACTED****", true).
Proof. vm_compute. repeat split. Qed.

End RedactorState.

(* ===================================================================== *)
(** ** utils/splitExcelDataToJsonFiles.ts : [dedupeBy] *)
(* ===================================================================== *)

Module Dedupe.

Section DedupeBy.
Context {T K : Type} `{Countable K}.
Variable key : T -> K.

(** [arr.filter(item => ...)] with the [seen] set threaded through:
    an item whose key is in the set is dropped, any other is kept and
    its key added. *)
Fixpoint dedupe_from (seen : gset K) (arr : list T) : list T :=
  match arr with
  | [] => []
  | item :: rest =>
      let k := key item in
      if bool_decide (k ∈ seen) then dedupe_from seen rest
      else item :: dedupe_from ({[k]} ∪ seen) rest
  end.

(** [dedupeBy(arr, key)] *)
Definition dedupeBy (arr : list T) : list T := dedupe_from ∅ arr.

(** [item] is in [arr] with no item of the same key before it. *)
Definition first_of_its_key (arr : list T) (item : T) : Prop :=
  exists pre post, arr = pre ++ item :: post /\ (key item ∉ key <$> pre).

Lemma dedupe_from_keys seen arr x :
  x ∈ dedupe_from seen arr -> key x ∉ seen.
Proof.
  revert seen. induction arr as [|item rest IH]; intros seen; cbn [dedupe_from].
  - by intros ?%elem_of_nil.
  - case_bool_decide as Hk; [by apply IH|].
    intros [->|Hin]%elem_of_cons; [done|].
    apply IH in Hin. set_solver.
Qed.

Lemma dedupe_from_NoDup seen arr : NoDup (key <$> dedupe_from seen arr).
Proof.
  revert seen. induction arr as [|item rest IH]; intros seen; cbn [dedupe_from].
  - constructor.
  - case_bool_decide as Hk; [by apply IH|].
    rewrite fmap_cons. constructor; [|by apply IH].
    intros (y & Hy & Hin)%list_elem_of_fmap.
    apply dedupe_from_keys in Hin. set_solver.
Qed.

Lemma dedupe_from_sublist seen arr : dedupe_from seen arr `sublist_of` arr.
Proof.
  revert seen. induction arr as [|item rest IH]; intros seen; cbn [dedupe_from].
  - constructor.
  - case_bool_decide; [by apply sublist_cons | by apply sublist_skip].
Qed.

Lemma dedupe_from_first seen arr x :
  x ∈ dedupe_from seen arr <->
  exists pre post,
    arr = pre ++ x :: post /\ (key x ∉ key <$> pre) /\ key x ∉ seen.
Proof.
  revert seen. induction arr as [|item rest IH]; intros seen; cbn [dedupe_from].
  - split; [by intros ?%elem_of_nil|].
    intros (pre & post & E & _). by destruct pre.
  - case_bool_decide as Hk.
    + rewrite IH. split.
      * intros (pre & post & -> & Hp & Hs).
        exists (item :: pre), post. split; [done|]. split; [|done].
        rewrite fmap_cons, not_elem_of_cons. split; [|done].
        intros E. by rewrite E in Hs.
      * intros (pre & post & E & Hp & Hs). destruct pre as [|p pre].
        { injection E as -> ->. done. }
        injection E as -> ->. exists pre, post.
        rewrite fmap_cons, not_elem_of_cons in Hp. by destruct Hp.
    + rewrite elem_of_cons, IH. split.
      * intros [->|(pre & post & -> & Hp & Hs)].
        { exists [], rest. split; [done|]. split; [|done]. apply not_elem_of_nil. }
        exists (item :: pre), post. split; [done|].
        rewrite fmap_cons, not_elem_of_cons.
        rewrite not_elem_of_union, not_elem_of_singleton in Hs.
        by destruct Hs.
      * intros (pre & post & E & Hp & Hs). destruct pre as [|p pre].
        { injection E as -> ->. by left. }
        injection E as -> ->. right. exists pre, post.
        rewrite fmap_cons, not_elem_of_cons in Hp. destruct Hp as [Hne Hp].
        split; [done|]. split; [done|].
        by rewrite not_elem_of_union, not_elem_of_singleton.
Qed.

Lemma dedupeBy_first arr x : x ∈ dedupeBy arr <-> first_of_its_key arr x.
Proof.
  unfold dedupeBy, first_of_its_key. rewrite dedupe_from_first. split.
  - intros (pre & post & E & Hp & _). by exists pre, post.
  - intros (pre & post & E & Hp). exists pre, post.
    split; [done|]. split; [done|]. apply not_elem_of_empty.
Qed.

Lemma dedupeBy_snoc arr a z : z ∈ dedupeBy arr -> z ∈ dedupeBy (arr ++ [a]).
Proof.
  rewrite !dedupeBy_first. intros (pre & post & -> & Hp).
  exists pre, (post ++ [a]). by rewrite <- app_assoc.
Qed.

Lemma dedupeBy_keys arr k : k ∈ key <$> arr -> k ∈ key <$> dedupeBy arr.
Proof.
  induction arr as [|a arr IH] using rev_ind.
  - rewrite fmap_nil. by intros ?%elem_of_nil.
  - destruct (decide (k ∈ key <$> arr)) as [Hk|Hk].
    + intros _. apply IH in Hk. apply list_elem_of_fmap in Hk as (z & Ez & Hz).
      apply list_elem_of_fmap. exists z. split; [done|]. by apply dedupeBy_snoc.
    + rewrite fmap_app, elem_of_app. intros [Hin|Hin]; [done|].
      cbn in Hin. apply list_elem_of_singleton in Hin as ->.
      apply list_elem_of_fmap. exists a. split; [done|].
      apply dedupeBy_first. by exists arr, [].
Qed.

(** [dedupeBy] keeps, in their order, exactly the items that are the
    first of their key: the keys of the result are distinct, and every
    key of the input is still there. *)
Theorem dedupeBy_keeps_first_of_each_key (arr : list T) :
  NoDup (key <$> dedupeBy arr)
  /\ dedupeBy arr `sublist_of` arr
  /\ (forall x, x ∈ dedupeBy arr <-> first_of_its_key arr x)
  /\ (forall k, k ∈ key <$> arr <-> k ∈ key <$> dedupeBy arr).
Proof.
  split; [apply dedupe_from_NoDup|].
  split; [apply dedupe_from_sublist|].
  split; [apply dedupeBy_first|].
  intros k. split; [apply dedupeBy_keys|].
  intros (x & -> & Hin)%list_elem_of_fmap.
  apply dedupeBy_first in Hin as (pre & post & -> & _).
  apply list_elem_of_fmap. exists x. split; [done|].
  apply elem_of_app. right. by left.
Qed.

End DedupeBy.

End Dedupe.

(* ===================================================================== *)
(** ** The customer's transactions, page by page

    [src/api/src/utils/splitExcelDataToJsonFiles.ts], lines 81-194:
    [router.get('/:id/transactions')] with keyset pagination. *)
(* ===================================================================== *)

Module Pagination.
Import Regex JsString.

(** A row of the transaction table, with the columns the route reads;
    [ts] in milliseconds. *)
Record Transaction := {
  id : string;
  customerId : string;
  ts : Z;
  merchant : string;
  amountCents : Z
}.

(** What the route answers: the items (before [redactObject] is mapped
    over them for the response), [nextCursor] and [hasNextPage]. *)
Inductive Answer :=
| Page (items : list Transaction) (nextCursor : option string)
    (hasNextPage : bool)
| Status400
| Status500.

Section Route.

(** The order of the data store on the [id] column, the same in
    [id: { lt: cursorId }] and in [orderBy: { id: 'desc' }]. *)
Variable id_lt : string -> string -> bool.
(** [Date.prototype.toISOString] and [new Date(string)], [None] for an
    invalid date. *)
Variable toISOString : Z -> string.
Variable parseDate : string -> option Z.
(** The transaction table. *)
Variable table : list Transaction.

(** The cursor's filter:
    [OR: [{ ts: { lt: cursorTs } }, { ts: cursorTs, id: { lt: cursorId } }]]. *)
Definition after (cursorId : string) (cursorTs : Z) (r : Transaction) : bool :=
  (ts r <? cursorTs) || ((ts r =? cursorTs) && id_lt (id r) cursorId).

(** [orderBy: [{ ts: 'desc' }, { id: 'desc' }]]: [x] may be listed
    before [y] when it is not after it. *)
Definition listed_before (x y : Transaction) : Prop :=
  after (id y) (ts y) x = false.

#[global] Instance listed_before_dec x y : Decision (listed_before x y).
Proof. unfold listed_before. apply _. Defined.

(** [prisma.transaction.findMany({ where, orderBy, take })] *)
Definition findMany (where_ : Transaction -> bool) (take_ : nat)
    : list Transaction :=
  take take_
    (merge_sort listed_before (filter (fun r => where_ r = true) table)).

(** [dateFilters]: [gte] from [from], [lte] from [to]. *)
Definition in_range (from to : option Z) (r : Transaction) : bool :=
  match from with Some f => f <=? ts r | None => true end
  && match to with Some t => ts r <=? t | None => true end.

(** [cursorFilters]: nothing without a cursor; [None] when the date of
    the cursor is invalid, which the data store's client refuses. *)
Definition cursorFilters (cursor : option string)
    : option (Transaction -> bool) :=
  match cursor with
  | None | Some EmptyString => Some (fun _ => true)   (* if (cursor) *)
  | Some c =>
      match split_on "|" (chars c) with
      | cursorId :: cursorTs :: _ =>
          match parseDate (text cursorTs) with
          | Some t => Some (after (text cursorId) t)
          | None => None
          end
      | _ => None   (* new Date(undefined) *)
      end
  end.

(** The handler, after the validation of [from], [to] and [cursor];
    [limit] is the number in the query, 50 without one. *)
Definition get_transactions (customer : string) (from to : option Z)
    (cursor : option string) (limit : option Z) : Answer :=
  let limitNum := default 50 limit in
  if negb ((1 <=? limitNum) && (limitNum <=? 1000)) then Status400
  else
    match cursorFilters cursor with
    | None => Status500
    | Some cf =>
        let transactions :=
          findMany (fun r => String.eqb (customerId r) customer
                             && in_range from to r && cf r)
            (Z.to_nat limitNum + 1) in
        let hasNextPage := (Z.to_nat limitNum <? length transactions)%nat in
        let items :=
          if hasNextPage then take (Z.to_nat limitNum) transactions
          else transactions in
        if hasNextPage then
          match last items with
          | Some lastItem =>
              Page items
                (Some (id lastItem ++ "|" ++ toISOString (ts lastItem))%string)
                true
          | None => Status500   (* lastItem.id of undefined *)
          end
        else Page items None false
    end.

(** A client that asks for the first page and then follows
    [nextCursor] until there is none. *)
Fixpoint follow (customer : string) (from to : option Z) (limit : option Z)
    (fuel : nat) (cursor : option string)
    : option (list (list Transaction)) :=
  match fuel with
  | O => None
  | S n =>
      match get_transactions customer from to cursor limit with
      | Page items (Some c) _ =>
          (fun ps => items :: ps) <$> follow customer from to limit n (Some c)
      | Page items None _ => Some [items]
      | _ => None
      end
  end.

(** The customer's transactions in the range, in the order of the
    query: what the route reads without cursor and without [take]. *)
Definition selected (customer : string) (from to : option Z)
    : list Transaction :=
  merge_sort listed_before
    (filter (fun r => (String.eqb (customerId r) customer
                       && in_range from to r) = true) table).

End Route.

(** A sample: three transactions of one customer, two at the same
    millisecond, and one of another customer. *)
Definition sample_table : list Transaction :=
  [ {| id := "txn_001"; customerId := "cust_1"; ts := 1700000000000;
       merchant := "Grocer"; amountCents := 1250 |};
    {| id := "txn_002"; customerId := "cust_1"; ts := 1700000060000;
       merchant := "Cafe"; amountCents := 480 |};
    {| id := "txn_003"; customerId := "cust_2"; ts := 1700000060000;
       merchant := "Cafe"; amountCents := 520 |};
    {| id := "txn_004"; customerId := "cust_1"; ts := 1700000060000;
       merchant := "Books"; amountCents := 2300 |} ].

(** The date functions on the two instants of the sample. *)
Definition sample_toISOString (t : Z) : string :=
  if t =? 1700000000000 then "2023-11-14T22:13:20.000Z"
  else if t =? 1700000060000 then "2023-11-14T22:14:20.000Z"
  else "".

Definition sample_parseDate (s : string) : option Z :=
  if String.eqb s "2023-11-14T22:13:20.000Z" then Some 1700000000000
  else if String.eqb s "2023-11-14T22:14:20.000Z" then Some 1700000060000
  else None.

(** An order on ids: that of their codes. *)
Definition sample_id_lt (a b : string) : bool :=
  bool_decide (encode a < encode b)%positive.


Lemma filter_none {A} (P : A -> Prop) `{forall x, Decision (P x)} (l : list A) :
  Forall (fun x => ~ P x) l -> filter P l = [].
Proof.
  induction 1 as [|x l Hx _ IH]; [reflexivity|].
  by rewrite filter_cons_False.
Qed.

Lemma filter_all {A} (P : A -> Prop) `{forall x, Decision (P x)} (l : list A) :
  Forall P l -> filter P l = l.
Proof.
  induction 1 as [|x l Hx _ IH]; [reflexivity|].
  rewrite filter_cons_True by done. by rewrite IH.
Qed.

(** *** The order of the query *)

Section Paging.
Variable id_lt : string -> string -> bool.
Variable toISOString : Z -> string.
Variable parseDate : string -> option Z.
Variable table : list Transaction.

Hypothesis id_lt_irrefl : forall a, id_lt a a = false.
Hypothesis id_lt_trans : forall a b c,
  id_lt a b = true -> id_lt b c = true -> id_lt a c = true.
Hypothesis id_lt_total : forall a b,
  a <> b -> id_lt a b = true \/ id_lt b a = true.
(** [id] is the primary key. *)
Hypothesis ids_distinct : NoDup (id <$> table).
Hypothesis ids_without_bar :
  Forall (fun r => "|"%char ∉ chars (id r)) table.
Hypothesis dates_round_trip :
  Forall (fun r => parseDate (toISOString (ts r)) = Some (ts r)
                   /\ "|"%char ∉ chars (toISOString (ts r))) table.


Lemma id_lt_asym a b : id_lt a b = true -> id_lt b a = false.
Proof.
  intros Hab. destruct (id_lt b a) eqn:Hba; [|reflexivity].
  rewrite <- (id_lt_irrefl a). symmetry. by apply (id_lt_trans a b a).
Qed.

Lemma after_spec c r :
  after id_lt (id c) (ts c) r = true <->
  ts r < ts c \/ (ts r = ts c /\ id_lt (id r) (id c) = true).
Proof.
  unfold after. rewrite orb_true_iff, andb_true_iff, Z.ltb_lt, Z.eqb_eq.
  tauto.
Qed.

Lemma listed_before_spec x y :
  (listed_before id_lt) x y <-> ts y < ts x \/ (ts y = ts x /\ id_lt (id x) (id y) = false).
Proof.
  unfold listed_before. rewrite <- not_true_iff_false, after_spec.
  destruct (id_lt (id x) (id y)); lia.
Qed.

Lemma after_irrefl c : after id_lt (id c) (ts c) c = false.
Proof.
  apply not_true_iff_false. rewrite after_spec, id_lt_irrefl.
  intros [?|[_ ?]]; [lia | discriminate].
Qed.

#[local] Instance listed_before_trans : Transitive (listed_before id_lt).
Proof.
  intros x y z. rewrite !listed_before_spec.
  intros [Hxy|[Exy Hxy]] [Hyz|[Eyz Hyz]]; try (left; lia).
  right. split; [lia|].
  destruct (id_lt (id x) (id z)) eqn:Hxz; [|reflexivity].
  destruct (decide (id x = id y)) as [E|Hne]; [by rewrite <- E, Hxz in Hyz|].
  destruct (id_lt_total _ _ Hne) as [H1|H1]; [by rewrite H1 in Hxy|].
  by rewrite (id_lt_trans _ _ _ H1 Hxz) in Hyz.
Qed.

#[local] Instance listed_before_total : Total (listed_before id_lt).
Proof.
  intros x y. rewrite !listed_before_spec.
  destruct (Z.lt_trichotomy (ts x) (ts y)) as [?|[E|?]]; [right; by left| |left; by left].
  destruct (id_lt (id x) (id y)) eqn:Hxy.
  - right. right. split; [done|]. by apply id_lt_asym.
  - left. right. by split.
Qed.

Lemma listed_strictly x y : (listed_before id_lt) x y -> id x <> id y -> after id_lt (id x) (ts x) y = true.
Proof.
  rewrite listed_before_spec, after_spec.
  intros [?|[E Hxy]] Hne; [by left|]. right. split; [done|].
  destruct (id_lt_total (id x) (id y) Hne) as [H|H]; [by rewrite H in Hxy|done].
Qed.

Lemma id_inj_on (l : list Transaction) x y :
  NoDup (id <$> l) -> x ∈ l -> y ∈ l -> id x = id y -> x = y.
Proof.
  intros Hnd (i & Hi)%list_elem_of_lookup (j & Hj)%list_elem_of_lookup E.
  assert (i = j) as ->.
  { eapply (NoDup_lookup _ _ _ (id x) Hnd);
      rewrite list_lookup_fmap; [by rewrite Hi | by rewrite Hj, E]. }
  congruence.
Qed.

(** In a listing by the order of the query with distinct ids, the
    cursor's filter keeps what follows the cursor's row. *)
Lemma filter_after_suffix pre c post :
  StronglySorted (listed_before id_lt) (pre ++ c :: post) ->
  NoDup (id <$> (pre ++ c :: post)) ->
  filter (fun r => after id_lt (id c) (ts c) r = true) (pre ++ c :: post) = post.
Proof.
  intros Hs Hnd. rewrite filter_app, filter_cons.
  rewrite decide_False by (rewrite after_irrefl; discriminate).
  assert (Hpre : filter (fun r => after id_lt (id c) (ts c) r = true) pre = []).
  { apply filter_none. apply Forall_forall. intros r Hr.
    apply not_true_iff_false.
    apply (StronglySorted_app_1_elem_of (listed_before id_lt) pre (c :: post) r c Hs Hr).
    by left. }
  rewrite Hpre. cbn [app].
  apply filter_all. apply Forall_forall. intros r Hr.
  apply listed_strictly.
  - apply StronglySorted_app_1_r, StronglySorted_cons in Hs as [Hc _].
    by apply (proj1 (Forall_forall _ _) Hc).
  - rewrite fmap_app, fmap_cons in Hnd.
    apply NoDup_app in Hnd as (_ & _ & Hnd).
    apply NoDup_cons in Hnd as [Hni _].
    intros E. apply Hni. rewrite E. by apply list_elem_of_fmap_2.
Qed.


(** *** The cursor *)

Lemma chars_app (a b : string) : chars (a ++ b)%string = chars a ++ chars b.
Proof.
  unfold chars. induction a as [|c a IH]; [reflexivity|].
  change (String c a +:+ b) with (String c (a +:+ b)).
  cbn [list_ascii_of_string app]. by rewrite IH.
Qed.

Lemma split_on_none sep (b : str) : sep ∉ b -> split_on sep b = [b].
Proof.
  induction b as [|c b IH]; [reflexivity|].
  rewrite not_elem_of_cons. intros [Hne Hb]. cbn [split_on].
  destruct (Ascii.eqb_spec c sep) as [->|_]; [done|]. by rewrite (IH Hb).
Qed.

Lemma split_on_first sep (a b : str) :
  sep ∉ a -> split_on sep (a ++ sep :: b) = a :: split_on sep b.
Proof.
  induction a as [|c a IH].
  - intros _. cbn [app split_on]. by rewrite Ascii.eqb_refl.
  - rewrite not_elem_of_cons. intros [Hne Ha]. cbn [app split_on].
    destruct (Ascii.eqb_spec c sep) as [->|_]; [done|]. by rewrite (IH Ha).
Qed.

(** [`${lastItem.id}|${lastItem.ts.toISOString()}`] *)
Definition cursor_of (r : Transaction) : string :=
  (id r ++ "|" ++ toISOString (ts r))%string.

Lemma cursorFilters_of c :
  c ∈ table ->
  cursorFilters id_lt parseDate (Some (cursor_of c))
  = Some (after id_lt (id c) (ts c)).
Proof.
  intros Hc.
  pose proof (proj1 (Forall_forall _ _) ids_without_bar c Hc) as Hbar.
  pose proof (proj1 (Forall_forall _ _) dates_round_trip c Hc) as [Hdate Hiso].
  assert (Hsplit : split_on "|" (chars (cursor_of c))
                   = [chars (id c); chars (toISOString (ts c))]).
  { unfold cursor_of. rewrite !chars_app. change (chars "|") with ["|"%char].
    cbn [app]. rewrite (split_on_first _ _ _ Hbar).
    by rewrite (split_on_none _ _ Hiso). }
  unfold cursorFilters. destruct (cursor_of c) as [|a s] eqn:E.
  { apply (f_equal length) in Hsplit. cbn in Hsplit. discriminate. }
  by rewrite Hsplit, !text_chars, Hdate.
Qed.

(** *** One page *)

Variable customer : string.
Variable from to : option Z.
Variable limit : option Z.
Hypothesis limit_valid : 1 <= default 50 limit <= 1000.

Definition base (r : Transaction) : bool :=
  String.eqb (customerId r) customer && in_range from to r.

Lemma selected_sorted :
  StronglySorted (listed_before id_lt) (selected id_lt table customer from to).
Proof. apply StronglySorted_merge_sort; apply _. Qed.

Lemma selected_perm :
  selected id_lt table customer from to
  ≡ₚ filter (fun r => base r = true) table.
Proof. apply merge_sort_Permutation. Qed.

Lemma selected_in_table x :
  x ∈ selected id_lt table customer from to -> x ∈ table.
Proof. rewrite selected_perm, list_elem_of_filter. by intros [_ ?]. Qed.

Lemma selected_ids : NoDup (id <$> selected id_lt table customer from to).
Proof.
  rewrite selected_perm.
  apply (sublist_NoDup _ (id <$> table)); [done|].
  apply fmap_sublist, sublist_filter.
Qed.

Lemma selected_length :
  (length (selected id_lt table customer from to) <= length table)%nat.
Proof. rewrite selected_perm. apply length_filter. Qed.

Lemma query_without_cursor :
  merge_sort (listed_before id_lt)
    (filter (fun r => (base r && true) = true) table)
  = selected id_lt table customer from to.
Proof.
  unfold selected. f_equal. apply list_filter_iff. intros r.
  by rewrite andb_true_r.
Qed.

Lemma query_with_cursor pre c post :
  selected id_lt table customer from to = pre ++ c :: post ->
  merge_sort (listed_before id_lt)
    (filter (fun r => (base r && after id_lt (id c) (ts c) r) = true) table)
  = post.
Proof.
  intros Hall.
  pose proof selected_sorted as Hs. pose proof selected_ids as Hnd.
  rewrite Hall in Hs, Hnd.
  assert (Hperm :
    merge_sort (listed_before id_lt)
      (filter (fun r => (base r && after id_lt (id c) (ts c) r) = true) table)
    ≡ₚ post).
  { rewrite merge_sort_Permutation.
    rewrite <- (filter_after_suffix pre c post Hs Hnd).
    rewrite <- Hall, selected_perm, list_filter_filter.
    erewrite list_filter_iff; [reflexivity|].
    intros r. cbn beta. rewrite andb_true_iff. tauto. }
  apply (StronglySorted_unique_strong (listed_before id_lt)); [| | |exact Hperm].
  - intros x1 x2 H1 H2 H12 H21.
    assert (T2 : x2 ∈ table).
    { apply selected_in_table. rewrite Hall. apply elem_of_app. right. by right. }
    assert (T1 : x1 ∈ table).
    { rewrite Hperm in H1. apply selected_in_table. rewrite Hall.
      apply elem_of_app. right. by right. }
    apply (id_inj_on table); [done..|].
    apply listed_before_spec in H12, H21.
    destruct (decide (id x1 = id x2)) as [E|Hne]; [done|]. exfalso.
    destruct (id_lt_total _ _ Hne) as [H|H]; rewrite H in *; lia.
  - apply StronglySorted_merge_sort; apply _.
  - by apply StronglySorted_app_1_r, StronglySorted_cons in Hs as [_ Hs].
Qed.

(** Where a client stands: at the start, or at a cursor made from a
    row of the listing; [rest] is what is listed after it. *)
Definition position (cursor : option string) (rest : list Transaction) : Prop :=
  (cursor = None /\ rest = selected id_lt table customer from to)
  \/ exists pre c,
       cursor = Some (cursor_of c)
       /\ selected id_lt table customer from to = pre ++ c :: rest.

Lemma position_prefix cursor rest :
  position cursor rest ->
  exists pre, selected id_lt table customer from to = pre ++ rest.
Proof.
  intros [[_ ->]|(pre & c & _ & E)]; [by exists []|].
  exists (pre ++ [c]). by rewrite <- app_assoc.
Qed.

Lemma page_at cursor rest :
  position cursor rest ->
  get_transactions id_lt toISOString parseDate table customer from to
    cursor limit
  = let n := Z.to_nat (default 50 limit) in
    if (n <? length rest)%nat then
      match last (take n rest) with
      | Some lastItem => Page (take n rest) (Some (cursor_of lastItem)) true
      | None => Status500
      end
    else Page rest None false.
Proof.
  intros Hpos. unfold get_transactions.
  replace (negb ((1 <=? default 50 limit) && (default 50 limit <=? 1000)))
    with false
    by (symmetry; apply negb_false_iff, andb_true_iff; split; apply Z.leb_le; lia).
  set (n := Z.to_nat (default 50 limit)). cbv zeta.
  assert (Hq : exists cf,
    cursorFilters id_lt parseDate cursor = Some cf
    /\ merge_sort (listed_before id_lt)
         (filter (fun r => (base r && cf r) = true) table) = rest).
  { destruct Hpos as [[-> ->]|(pre & c & -> & E)].
    - exists (fun _ => true). split; [reflexivity|]. apply query_without_cursor.
    - exists (after id_lt (id c) (ts c)). split.
      + apply cursorFilters_of, selected_in_table. rewrite E.
        apply elem_of_app. right. by left.
      + by apply (query_with_cursor pre). }
  destruct Hq as (cf & -> & Hq).
  unfold findMany. fold (base). unfold base in Hq |- *. rewrite Hq.
  rewrite length_take.
  destruct (Nat.ltb_spec n (length rest)) as [Hlt|Hge].
  - replace (n <? Nat.min (n + 1) (length rest))%nat with true
      by (symmetry; apply Nat.ltb_lt; lia).
    rewrite take_take. by replace (Nat.min n (n + 1)) with n by lia.
  - replace (n <? Nat.min (n + 1) (length rest))%nat with false
      by (symmetry; apply Nat.ltb_ge; lia).
    by rewrite take_ge by lia.
Qed.

(** *** Following the cursors *)

Lemma follow_from : forall fuel cursor rest,
  position cursor rest ->
  (length rest < fuel)%nat ->
  exists pages,
    follow id_lt toISOString parseDate table customer from to limit
      fuel cursor = Some pages
    /\ concat pages = rest
    /\ Forall (fun p => length p = Z.to_nat (default 50 limit))
         (removelast pages)
    /\ Forall (fun p => (length p <= Z.to_nat (default 50%Z limit))%nat) pages.
Proof.
  induction fuel as [|fuel IH]; intros cursor rest Hpos Hfuel; [lia|].
  cbn [follow]. rewrite (page_at cursor rest Hpos). cbv zeta.
  set (n := Z.to_nat (default 50 limit)) in *.
  assert (Hn : (1 <= n)%nat) by (subst n; lia).
  destruct (Nat.ltb_spec n (length rest)) as [Hlt|Hge].
  - destruct (lookup_lt_is_Some_2 rest (n - 1)) as [c' Hc']; [lia|].
    assert (Htake : take n rest = take (n - 1) rest ++ [c']).
    { replace n with (S (n - 1)) at 1 by lia. by apply take_S_r. }
    assert (Hlast : last (take n rest) = Some c')
      by (rewrite Htake; apply last_snoc).
    rewrite Hlast.
    destruct (position_prefix cursor rest Hpos) as [pre0 Hpre0].
    destruct (IH (Some (cursor_of c')) (drop n rest)) as (ps & -> & Hcat & Hfull & Hlen).
    { right. exists (pre0 ++ take (n - 1) rest), c'. split; [reflexivity|].
      rewrite Hpre0, <- app_assoc. f_equal.
      rewrite <- (take_drop_middle rest (n - 1) c' Hc') at 1.
      by replace (S (n - 1)) with n by lia. }
    { rewrite length_drop. lia. }
    exists (take n rest :: ps). split; [reflexivity|].
    assert (Hlen_n : length (take n rest) = n) by (rewrite length_take; lia).
    split; [cbn [concat]; by rewrite Hcat, take_drop|].
    split.
    + destruct ps as [|p ps]; [constructor|].
      change (removelast (take n rest :: p :: ps))
        with (take n rest :: removelast (p :: ps)).
      constructor; [exact Hlen_n | exact Hfull].
    + constructor; [lia | exact Hlen].
  - exists [rest]. split; [reflexivity|].
    split; [cbn [concat]; by rewrite app_nil_r|].
    split; [constructor|]. constructor; [lia | constructor].
Qed.

End Paging.

(** A client that follows [nextCursor] from the first page gets, page
    after page, every transaction of the customer in the range exactly
    once and in the order of the query; every page but the last holds
    [limit] items; provided the ids are distinct and hold no vertical
    bar, and the dates of the rows go through [toISOString] and back. *)
Theorem paging_lists_every_transaction_once
    (id_lt : string -> string -> bool)
    (toISOString : Z -> string) (parseDate : string -> option Z)
    (table : list Transaction)
    (customer : string) (from to : option Z) (limit : option Z) :
  (forall a, id_lt a a = false) ->
  (forall a b c, id_lt a b = true -> id_lt b c = true -> id_lt a c = true) ->
  (forall a b, a <> b -> id_lt a b = true \/ id_lt b a = true) ->
  NoDup (id <$> table) ->
  Forall (fun r => "|"%char ∉ chars (id r)) table ->
  Forall (fun r => parseDate (toISOString (ts r)) = Some (ts r)
                   /\ "|"%char ∉ chars (toISOString (ts r))) table ->
  1 <= default 50 limit <= 1000 ->
  exists pages,
    follow id_lt toISOString parseDate table customer from to limit
      (S (length table)) None = Some pages
    /\ concat pages = selected id_lt table customer from to
    /\ Forall (fun p => length p = Z.to_nat (default 50 limit))
         (removelast pages)
    /\ Forall (fun p => (length p <= Z.to_nat (default 50%Z limit))%nat) pages.
Proof.
  intros Hirr Htrans Htot Hids Hbar Hdates Hlimit.
  destruct (follow_from id_lt toISOString parseDate table Hirr Htrans Htot
              Hids Hbar Hdates customer from to limit Hlimit
              (S (length table)) None
              (selected id_lt table customer from to))
    as (pages & Hf & Hcat & Hfull & Hlen).
  - by left.
  - pose proof (selected_length id_lt table customer from to). lia.
  - exists pages. repeat split; try done.
Qed.


Lemma sample_id_lt_irrefl a : sample_id_lt a a = false.
Proof. unfold sample_id_lt. apply bool_decide_eq_false. lia. Qed.

Lemma sample_id_lt_trans a b c :
  sample_id_lt a b = true -> sample_id_lt b c = true -> sample_id_lt a c = true.
Proof.
  unfold sample_id_lt. rewrite !bool_decide_eq_true. lia.
Qed.

Lemma sample_id_lt_total a b :
  a <> b -> sample_id_lt a b = true \/ sample_id_lt b a = true.
Proof.
  unfold sample_id_lt. rewrite !bool_decide_eq_true. intros Hne.
  assert (encode a <> encode b) by (intros E; by apply (inj encode) in E).
  lia.
Qed.

Lemma paging_lists_every_transaction_once_witness :
  exists pages,
    follow sample_id_lt sample_toISOString sample_parseDate sample_table
      "cust_1" None None (Some 2) 5 None = Some pages
    /\ concat pages = selected sample_id_lt sample_table "cust_1" None None
    /\ Forall (fun p => length p = Z.to_nat (default 50 (Some 2)))
         (removelast pages)
    /\ Forall (fun p => (length p <= Z.to_nat (default 50%Z (Some 2%Z)))%nat)
         pages.
Proof.
  apply (paging_lists_every_transaction_once sample_id_lt sample_toISOString
           sample_parseDate sample_table "cust_1" None None (Some 2)).
  - exact sample_id_lt_irrefl.
  - exact sample_id_lt_trans.
  - exact sample_id_lt_total.
  - apply (bool_decide_unpack _). vm_compute. exact I.
  - apply (bool_decide_unpack _). vm_compute. exact I.
  - repeat constructor; apply (bool_decide_unpack _); vm_compute; exact I.
  - cbn. lia.
Defined.

(** The sample in pages of two: the two rows of the later instant,
    then the earlier one; the other customer's row is in neither. *)
Example sample_pages :
  (fun ps => List.map (List.map id) <$> ps)
    (follow sample_id_lt sample_toISOString sample_parseDate sample_table
       "cust_1" None None (Some 2) 5 None)
  = Some [["txn_004"; "txn_002"]; ["txn_001"]]
  /\ get_transactions sample_id_lt sample_toISOString sample_parseDate
       sample_table "cust_1" None None (Some "txn_002|2023-11-14T22:14:20.000Z")
       (Some 2)
     = Page [ {| id := "txn_001"; customerId := "cust_1";
                 ts := 1700000000000; merchant := "Grocer";
                 amountCents := 1250 |} ] None false
  /\ get_transactions sample_id_lt sample_toISOString sample_parseDate
       sample_table "cust_1" None None (Some "txn_002") (Some 2) = Status500
  /\ get_transactions sample_id_lt sample_toISOString sample_parseDate
       sample_table "cust_1" None None None (Some 0) = Status400.
Proof. vm_compute. repeat split. Qed.

End Pagination.
